(** * unidom: a shallow embedding of the domination solver core

    The development follows the C++ sources: [graph.hpp], [vertex_set.hpp],
    [graph_util.cpp], [bbt_framework.hpp], [bbt_degreepq.hpp],
    [bbt_mddstack.hpp], [bbt_fixed_order.cpp], [bbt_dd_variants.cpp],
    [bbt_mdd_variants.cpp] and [basic_io.cpp].

    C++ [int] values are integers of [Z]; an [unsigned int] is a [Z] that is
    converted with [to_unsigned] where the source mixes signedness.  Fixed
    capacity arrays ([std::array<T, MAX_VERTS>]) are total maps from [Z]
    with explicit bounds checks: an access outside the array is undefined
    behaviour in C++ and is the fault [UndefinedBehaviour] here.  [assert]
    is kept: it raises [AssertionFailure] unless the build defines
    [NDEBUG], which is a parameter of every function that asserts. *)

From Stdlib Require Import Ascii String.
From Stdlib Require Import ZArith List Bool Lia Sorted Permutation DecimalZ DecimalPos.
Import ListNotations.
Local Open Scope Z_scope.

(** ** Constants ([unidom_constants.hpp], [graph.hpp]) *)

Definition MAX_VERTS : Z := 1024.
Definition MAX_DEGREE : Z := 1024.
Definition INVALID_VERTEX : Z := 2147483647.
Definition INT_MAX : Z := 2147483647.
Definition INT_MIN : Z := -2147483648.
Definition UINT_MODULUS : Z := 4294967296.

(** Conversion of a signed value to [unsigned int]. *)
Definition to_unsigned (z : Z) : Z := z mod UINT_MODULUS.

(** ** Faults and the result monad *)

Inductive fault : Set :=
| AssertionFailure      (* assert(...) violated in a build without NDEBUG *)
| UndefinedBehaviour    (* out-of-range array access, null dereference *)
| GraphError            (* throw GraphError(...) *)
| ConfigurableError     (* throw unidom::ConfigurableError(...) *)
| LengthError           (* std::length_error out of std::vector::resize *)
| OutOfFuel.            (* the model's recursion budget was exhausted *)

Inductive res (A : Type) : Type :=
| Ok (a : A)
| Fail (f : fault).
Arguments Ok {A} a.
Arguments Fail {A} f.

Definition bind {A B : Type} (c : res A) (k : A -> res B) : res B :=
  match c with
  | Ok a => k a
  | Fail f => Fail f
  end.

Notation "x <- c ;; k" := (bind c (fun x => k))
  (at level 61, c at next level, right associativity).
Notation "' pat <- c ;; k" := (bind c (fun x => match x with pat => k end))
  (at level 61, pat pattern, c at next level, right associativity).
Notation "c ;;; k" := (bind c (fun _ => k))
  (at level 61, right associativity).

Definition assert (NDEBUG : bool) (b : bool) : res unit :=
  if NDEBUG then Ok tt else if b then Ok tt else Fail AssertionFailure.

(** The result of an arithmetic operation on [int]: a value outside
    the range of [int] is signed overflow, which is undefined behaviour. *)
Definition int_result (z : Z) : res Z :=
  if (INT_MIN <=? z) && (z <=? INT_MAX) then Ok z else Fail UndefinedBehaviour.

(** Monadic iteration over a range-for loop. *)
Fixpoint foreach {A S : Type} (l : list A) (body : S -> A -> res S) (s : S) : res S :=
  match l with
  | [] => Ok s
  | x :: l' => s' <- body s x ;; foreach l' body s'
  end.

(** The integers [lo, lo+1, ..., lo+len-1] of a counting loop. *)
Definition zrange (lo : Z) (len : nat) : list Z :=
  map (fun k => lo + Z.of_nat k) (seq 0 len).

(** ** Fixed-capacity arrays *)

Definition array (A : Type) : Type := Z -> A.

Definition in_bounds (size i : Z) : bool := (0 <=? i) && (i <? size).

Definition upd {A : Type} (a : array A) (i : Z) (x : A) : array A :=
  fun j => if j =? i then x else a j.

Definition aread {A : Type} (size : Z) (a : array A) (i : Z) : res A :=
  if in_bounds size i then Ok (a i) else Fail UndefinedBehaviour.

Definition awrite {A : Type} (size : Z) (a : array A) (i : Z) (x : A) : res (array A) :=
  if in_bounds size i then Ok (upd a i x) else Fail UndefinedBehaviour.

Definition fill {A : Type} (x : A) : array A := fun _ => x.

(** ** Graph ([graph.hpp]) *)

Module Graph.

Record Vertex : Type := mkVertex {
    _neighbours : list Z;
    real_index : Z;
    index : Z
  }.

Definition deg (v : Vertex) : Z := Z.of_nat (length (_neighbours v)).

  (** [add_neighbour_simple]: push_back unless already present. *)
Definition add_neighbour_simple (v : Vertex) (neighbour : Z) : bool * Vertex :=
    if existsb (Z.eqb neighbour) (_neighbours v)
    then (false, v)
    else (true, mkVertex (_neighbours v ++ [neighbour]) (real_index v) (index v)).

Record t : Type := mkGraph { vertices : list Vertex }.

Definition empty : t := mkGraph [].

Definition n (g : t) : Z := Z.of_nat (length (vertices g)).

  (** [reset(new_size)].  The guard throws for [new_size >= MAX_VERTS];
      a negative size converts to a huge [size_type] in
      [vertices.resize], which throws [std::length_error]. *)
Definition reset (g : t) (new_size : Z) : res t :=
    if new_size >=? MAX_VERTS then Fail GraphError
    else if new_size <? 0 then Fail LengthError
    else Ok (mkGraph (map (fun i => mkVertex [] i i) (zrange 0 (Z.to_nat new_size)))).

  (** [operator[]] on [vertices]. *)
Definition get (g : t) (v : Z) : res Vertex :=
    if v <? 0 then Fail UndefinedBehaviour
    else match nth_error (vertices g) (Z.to_nat v) with
         | Some x => Ok x
         | None => Fail UndefinedBehaviour
         end.

Fixpoint list_set {A : Type} (l : list A) (i : nat) (x : A) : list A :=
    match l, i with
    | [], _ => []
    | _ :: l', O => x :: l'
    | y :: l', S i' => y :: list_set l' i' x
    end.

Definition set (g : t) (v : Z) (x : Vertex) : res t :=
    if in_bounds (n g) v then Ok (mkGraph (list_set (vertices g) (Z.to_nat v) x))
    else Fail UndefinedBehaviour.

Definition neighbours (g : t) (v : Z) : res (list Z) :=
    x <- get g v ;; Ok (_neighbours x).

  (** [g[i].neighbours().push_back(u)] *)
Definition push_neighbour (g : t) (i u : Z) : res t :=
    x <- get g i ;;
    set g i (mkVertex (_neighbours x ++ [u]) (real_index x) (index x)).

End Graph.

(** ** Graph text format ([graph_util.cpp])

    A stream is the list of its characters.  [operator<<] on an [int]
    appends its decimal digits; [operator>>] into an [int] skips white
    space, accepts a sign and the longest run of digits, and sets the
    fail bit when there is no digit or the value does not fit an [int]. *)

Module GraphIO.

Import Decimal.
Local Open Scope char_scope.

Definition stream : Type := list ascii.

Definition nl : ascii := "010".
Definition sp : ascii := " ".

Fixpoint chars_of_uint (d : uint) : list ascii :=
    match d with
    | Nil => []
    | D0 d => "0" :: chars_of_uint d
    | D1 d => "1" :: chars_of_uint d
    | D2 d => "2" :: chars_of_uint d
    | D3 d => "3" :: chars_of_uint d
    | D4 d => "4" :: chars_of_uint d
    | D5 d => "5" :: chars_of_uint d
    | D6 d => "6" :: chars_of_uint d
    | D7 d => "7" :: chars_of_uint d
    | D8 d => "8" :: chars_of_uint d
    | D9 d => "9" :: chars_of_uint d
    end.

  (** [f << z] *)
Definition write_int (z : Z) : list ascii :=
    match Z.to_int z with
    | Pos d => chars_of_uint d
    | Neg d => "-" :: chars_of_uint d
    end.

Definition digit_cons (c : ascii) : option (uint -> uint) :=
    match c with
    | "0" => Some D0 | "1" => Some D1 | "2" => Some D2 | "3" => Some D3
    | "4" => Some D4 | "5" => Some D5 | "6" => Some D6 | "7" => Some D7
    | "8" => Some D8 | "9" => Some D9
    | _ => None
    end.

  (** [std::isspace] in the "C" locale. *)
Definition isspace (c : ascii) : bool :=
    match c with
    | " " | "009" | "010" | "011" | "012" | "013" => true
    | _ => false
    end.

Fixpoint skipws (s : stream) : stream :=
    match s with
    | c :: s' => if isspace c then skipws s' else s
    | [] => []
    end.

Fixpoint read_digits (s : stream) : uint * stream :=
    match s with
    | c :: s' =>
        match digit_cons c with
        | Some k => let (d, r) := read_digits s' in (k d, r)
        | None => (Nil, s)
        end
    | [] => (Nil, [])
    end.

  (** [f >> z]: [None] is a stream left with the fail bit set. *)
Definition read_int (f : stream) : option (Z * stream) :=
    let s := skipws f in
    let '(neg, s1) :=
      match s with
      | "-" :: s' => (true, s')
      | "+" :: s' => (false, s')
      | _ => (false, s)
      end in
    let (d, r) := read_digits s1 in
    match d with
    | Nil => None
    | _ =>
        let z := Z.of_int (if neg : bool then Neg d else Pos d) in
        if (INT_MIN <=? z)%Z && (z <=? INT_MAX)%Z then Some (z, r) else None
    end.

  (** The inner loop of [read_graph]: [deg] neighbours of vertex [i]. *)
Fixpoint read_neighbours (deg : nat) (i : Z) (f : stream) (g : Graph.t)
    : res (bool * Graph.t * stream) :=
    match deg with
    | O => Ok (true, g, f)
    | S deg' =>
        match read_int f with
        | None => Ok (false, g, f)
        | Some (u, f') =>
            if (u <? 0)%Z || (u >=? MAX_DEGREE)%Z then Ok (false, g, f')
            else g' <- Graph.push_neighbour g i u ;;
                 read_neighbours deg' i f' g'
        end
    end.

  (** The outer loop of [read_graph]: vertices [i, i+1, ..., i+k-1]. *)
Fixpoint read_vertices (k : nat) (i : Z) (f : stream) (g : Graph.t)
    : res (bool * Graph.t * stream) :=
    match k with
    | O => Ok (true, g, f)
    | S k' =>
        match read_int f with
        | None => Ok (false, g, f)
        | Some (deg, f') =>
            if (deg <? 0)%Z || (deg >=? MAX_DEGREE)%Z then Ok (false, g, f')
            else
              '(ok, g', f'') <- read_neighbours (Z.to_nat deg) i f' g ;;
              if ok : bool then read_vertices k' (i + 1)%Z f'' g'
              else Ok (false, g', f'')
        end
    end.

Definition read_graph (f : stream) (g : Graph.t) : res (bool * Graph.t * stream) :=
    match read_int f with
    | None => Ok (false, g, f)
    | Some (n, f') =>
        if (n <? 0)%Z || (n >=? MAX_VERTS)%Z then Ok (false, g, f')
        else
          g0 <- Graph.reset g n ;;
          read_vertices (Z.to_nat n) 0%Z f' g0
    end.

Definition write_vertex (v : Graph.Vertex) : list ascii :=
    write_int (Graph.deg v) ++ [sp]
    ++ flat_map (fun u => write_int u ++ [sp]) (Graph._neighbours v)
    ++ [nl].

Definition write_graph (f : stream) (g : Graph.t) : stream :=
    f ++ write_int (Graph.n g) ++ [nl] ++ flat_map write_vertex (Graph.vertices g).

End GraphIO.

(** ** VertexSet ([vertex_set.hpp]) *)

Module VertexSet.

Record t : Type := mk {
    size : Z;
    set_elements : array Z;
    set_indices : array Z
  }.

Definition reset_empty (s : t) : t :=
    mk 0 (set_elements s) (fill MAX_VERTS).

  (** [reset_full(n)]: the loop counter is unsigned, so a negative [n]
      runs the loop past the arrays; so does [n > MAX_VERTS]. *)
Definition reset_full (s : t) (n : Z) : res t :=
    if (0 <=? n) && (n <=? MAX_VERTS)
    then Ok (mk n
               (fun i => if in_bounds n i then i else set_elements s i)
               (fun i => if in_bounds n i then i else set_indices s i))
    else Fail UndefinedBehaviour.

  (** The default constructor [VertexSet()]. *)
Definition new : t := reset_empty (mk 0 (fill 0) (fill 0)).

Definition reset (s : t) : t := reset_empty s.

Definition contains (s : t) (v : Z) : res bool :=
    idx <- aread MAX_VERTS (set_indices s) v ;;
    Ok (idx <? size s).

Definition add (NDEBUG : bool) (s : t) (v : Z) : res t :=
    c <- (if NDEBUG then Ok false else contains s v) ;;
    assert NDEBUG (negb c) ;;;
    ind <- awrite MAX_VERTS (set_indices s) v (size s) ;;
    elt <- awrite MAX_VERTS (set_elements s) (size s) v ;;
    Ok (mk (size s + 1) elt ind).

Definition remove_pop (NDEBUG : bool) (s : t) (v : Z) : res t :=
    idx <- aread MAX_VERTS (set_indices s) v ;;
    assert NDEBUG (idx =? size s - 1) ;;;
    ind <- awrite MAX_VERTS (set_indices s) v (MAX_VERTS + 1) ;;
    Ok (mk (size s - 1) (set_elements s) ind).

Definition remove (NDEBUG : bool) (s : t) (v : Z) : res t :=
    c <- (if NDEBUG then Ok true else contains s v) ;;
    assert NDEBUG c ;;;
    idx <- aread MAX_VERTS (set_indices s) v ;;
    let size' := size s - 1 in
    u <- aread MAX_VERTS (set_elements s) size' ;;
    elt <- awrite MAX_VERTS (set_elements s) idx u ;;
    ind <- awrite MAX_VERTS (set_indices s) u idx ;;
    elt <- awrite MAX_VERTS elt size' v ;;
    ind <- awrite MAX_VERTS ind v (MAX_VERTS + 1) ;;
    Ok (mk size' elt ind).

Definition get_size (s : t) : Z := size s.

  (** Iteration from [begin()] to [end()]. *)
Definition elements (s : t) : list Z :=
    map (set_elements s) (zrange 0 (Z.to_nat (size s))).

End VertexSet.

(** ** DegreePQ ([bbt_degreepq.hpp])

    Rank nodes and vertex nodes live in two arenas ([nodes], [vertices])
    and point at each other.  A pointer to a rank node is an [nref]; a
    pointer to a vertex node is a [vref], which can also designate the
    [head_tail] sentinel embedded in a rank node. *)

Module DegreePQ.

Inductive nref : Set :=
  | NNull                 (* nullptr *)
  | NHeadTail             (* &head_tail *)
  | NNode (i : Z).        (* &nodes[i] *)

Inductive vref : Set :=
  | VNull                 (* nullptr *)
  | VSentinel (r : nref)  (* &r->head_tail *)
  | VVertex (v : Z).      (* &vertices[v] *)

Module PQVertex.
Record t : Type := mk {
      next : vref;
      prev : vref;
      degree_node : nref;
      v : Z;
      is_fixed : bool;
      is_dominated : bool
    }.
Definition with_next (x : vref) (p : t) : t :=
      mk x (prev p) (degree_node p) (v p) (is_fixed p) (is_dominated p).
Definition with_prev (x : vref) (p : t) : t :=
      mk (next p) x (degree_node p) (v p) (is_fixed p) (is_dominated p).
Definition with_degree_node (x : nref) (p : t) : t :=
      mk (next p) (prev p) x (v p) (is_fixed p) (is_dominated p).
Definition with_v (x : Z) (p : t) : t :=
      mk (next p) (prev p) (degree_node p) x (is_fixed p) (is_dominated p).
Definition with_is_fixed (x : bool) (p : t) : t :=
      mk (next p) (prev p) (degree_node p) (v p) x (is_dominated p).
Definition with_is_dominated (x : bool) (p : t) : t :=
      mk (next p) (prev p) (degree_node p) (v p) (is_fixed p) x.
    (** [PQVertex()]; the field [v] is left uninitialised by the source. *)
Definition new : t := mk VNull VNull NNull 0 false false.
End PQVertex.

Module PQNode.
Record t : Type := mk {
      next : nref;
      prev : nref;
      deg : Z;
      count : Z;
      unfixed_count : Z;
      undominated_count : Z;
      head_tail : PQVertex.t
    }.
Definition with_next (x : nref) (p : t) : t :=
      mk x (prev p) (deg p) (count p) (unfixed_count p) (undominated_count p) (head_tail p).
Definition with_prev (x : nref) (p : t) : t :=
      mk (next p) x (deg p) (count p) (unfixed_count p) (undominated_count p) (head_tail p).
Definition with_deg (x : Z) (p : t) : t :=
      mk (next p) (prev p) x (count p) (unfixed_count p) (undominated_count p) (head_tail p).
Definition with_count (x : Z) (p : t) : t :=
      mk (next p) (prev p) (deg p) x (unfixed_count p) (undominated_count p) (head_tail p).
Definition with_unfixed_count (x : Z) (p : t) : t :=
      mk (next p) (prev p) (deg p) (count p) x (undominated_count p) (head_tail p).
Definition with_undominated_count (x : Z) (p : t) : t :=
      mk (next p) (prev p) (deg p) (count p) (unfixed_count p) x (head_tail p).
Definition with_head_tail (x : PQVertex.t) (p : t) : t :=
      mk (next p) (prev p) (deg p) (count p) (unfixed_count p) (undominated_count p) x.
    (** [PQNode()] for the node at address [self]: the undominated list
        is empty (the sentinel points at itself); [next] and [prev] are
        left uninitialised by the source. *)
Definition new (self : nref) : t :=
      mk NNull NNull 0 0 0 0
         (PQVertex.with_v INVALID_VERTEX
            (PQVertex.with_prev (VSentinel self)
               (PQVertex.with_next (VSentinel self) PQVertex.new))).
End PQNode.

Record t : Type := mk {
    is_heavy : bool;
    n : Z;
    head_tail : PQNode.t;
    nodes : array PQNode.t;
    vertices : array PQVertex.t
  }.

  (** [head] and [tail] alias [head_tail.next] and [head_tail.prev]. *)
Definition head (q : t) : nref := PQNode.next (head_tail q).
Definition tail (q : t) : nref := PQNode.prev (head_tail q).

  (** *** Dereferencing *)

Definition get_node (q : t) (r : nref) : res PQNode.t :=
    match r with
    | NNull => Fail UndefinedBehaviour
    | NHeadTail => Ok (head_tail q)
    | NNode i => aread MAX_VERTS (nodes q) i
    end.

Definition set_node (q : t) (r : nref) (x : PQNode.t) : res t :=
    match r with
    | NNull => Fail UndefinedBehaviour
    | NHeadTail => Ok (mk (is_heavy q) (n q) x (nodes q) (vertices q))
    | NNode i =>
        a <- awrite MAX_VERTS (nodes q) i x ;;
        Ok (mk (is_heavy q) (n q) (head_tail q) a (vertices q))
    end.

Definition modify_node (q : t) (r : nref) (f : PQNode.t -> PQNode.t) : res t :=
    x <- get_node q r ;; set_node q r (f x).

Definition get_vertex (q : t) (r : vref) : res PQVertex.t :=
    match r with
    | VNull => Fail UndefinedBehaviour
    | VSentinel nr => x <- get_node q nr ;; Ok (PQNode.head_tail x)
    | VVertex v => aread MAX_VERTS (vertices q) v
    end.

Definition set_vertex (q : t) (r : vref) (x : PQVertex.t) : res t :=
    match r with
    | VNull => Fail UndefinedBehaviour
    | VSentinel nr => modify_node q nr (PQNode.with_head_tail x)
    | VVertex v =>
        a <- awrite MAX_VERTS (vertices q) v x ;;
        Ok (mk (is_heavy q) (n q) (head_tail q) (nodes q) a)
    end.

Definition modify_vertex (q : t) (r : vref) (f : PQVertex.t -> PQVertex.t) : res t :=
    x <- get_vertex q r ;; set_vertex q r (f x).

  (** *** Undominated lists *)

Definition splice_in (q : t) (vertex_node : vref) : res t :=
    vn <- get_vertex q vertex_node ;;
    let degree_node := PQVertex.degree_node vn in
    dn <- get_node q degree_node ;;
    q <- modify_vertex q vertex_node (PQVertex.with_next (VSentinel degree_node)) ;;
    q <- modify_vertex q vertex_node
           (PQVertex.with_prev (PQVertex.prev (PQNode.head_tail dn))) ;;
    vn <- get_vertex q vertex_node ;;
    q <- modify_vertex q (PQVertex.prev vn) (PQVertex.with_next vertex_node) ;;
    vn <- get_vertex q vertex_node ;;
    modify_vertex q (PQVertex.next vn) (PQVertex.with_prev vertex_node).

Definition splice_out (q : t) (vertex_node : vref) : res t :=
    vn <- get_vertex q vertex_node ;;
    q <- modify_vertex q (PQVertex.next vn) (PQVertex.with_prev (PQVertex.prev vn)) ;;
    vn <- get_vertex q vertex_node ;;
    q <- modify_vertex q (PQVertex.prev vn) (PQVertex.with_next (PQVertex.next vn)) ;;
    q <- modify_vertex q vertex_node (PQVertex.with_next VNull) ;;
    modify_vertex q vertex_node (PQVertex.with_prev VNull).

  (** *** Public operations *)

Definition is_candidate (q : t) (v : Z) : res bool :=
    vn <- aread MAX_VERTS (vertices q) v ;; Ok (negb (PQVertex.is_fixed vn)).

Definition is_dominated (q : t) (v : Z) : res bool :=
    vn <- aread MAX_VERTS (vertices q) v ;; Ok (PQVertex.is_dominated vn).

Definition ranked_degree (q : t) (v : Z) : res Z :=
    vn <- aread MAX_VERTS (vertices q) v ;;
    dn <- get_node q (PQVertex.degree_node vn) ;;
    Ok (PQNode.deg dn).

Definition add_candidate (NDEBUG : bool) (q : t) (v : Z) : res t :=
    vn <- aread MAX_VERTS (vertices q) v ;;
    assert NDEBUG (PQVertex.is_fixed vn) ;;;
    q <- modify_node q (PQVertex.degree_node vn)
           (fun d => PQNode.with_unfixed_count (PQNode.unfixed_count d + 1) d) ;;
    modify_vertex q (VVertex v) (PQVertex.with_is_fixed false).

Definition remove_candidate (NDEBUG : bool) (q : t) (v : Z) : res t :=
    vn <- aread MAX_VERTS (vertices q) v ;;
    c <- (if NDEBUG then Ok true
          else dn <- get_node q (PQVertex.degree_node vn) ;;
               Ok ((PQNode.unfixed_count dn >? 0) && negb (PQVertex.is_fixed vn))) ;;
    assert NDEBUG c ;;;
    q <- modify_node q (PQVertex.degree_node vn)
           (fun d => PQNode.with_unfixed_count (PQNode.unfixed_count d - 1) d) ;;
    modify_vertex q (VVertex v) (PQVertex.with_is_fixed true).

Definition dominate (NDEBUG : bool) (q : t) (v : Z) : res t :=
    vn <- aread MAX_VERTS (vertices q) v ;;
    assert NDEBUG (negb (PQVertex.is_dominated vn)) ;;;
    q <- modify_vertex q (VVertex v) (PQVertex.with_is_dominated true) ;;
    if is_heavy q then
      q <- modify_node q (PQVertex.degree_node vn)
             (fun d => PQNode.with_undominated_count (PQNode.undominated_count d - 1) d) ;;
      splice_out q (VVertex v)
    else Ok q.

Definition undominate (NDEBUG : bool) (q : t) (v : Z) : res t :=
    vn <- aread MAX_VERTS (vertices q) v ;;
    assert NDEBUG (PQVertex.is_dominated vn) ;;;
    q <- modify_vertex q (VVertex v) (PQVertex.with_is_dominated false) ;;
    if is_heavy q then
      q <- modify_node q (PQVertex.degree_node vn)
             (fun d => PQNode.with_undominated_count (PQNode.undominated_count d + 1) d) ;;
      splice_in q (VVertex v)
    else Ok q.

  (** The part of [increment] and [decrement] that moves the vertex
      between undominated lists (heavy mode only). *)
Definition move_undominated (q : t) (v : Z) (old_node new_node : nref) : res t :=
    if is_heavy q then
      vn <- aread MAX_VERTS (vertices q) v ;;
      if negb (PQVertex.is_dominated vn) then
        q <- splice_out q (VVertex v) ;;
        q <- splice_in q (VVertex v) ;;
        q <- modify_node q old_node
               (fun d => PQNode.with_undominated_count (PQNode.undominated_count d - 1) d) ;;
        modify_node q new_node
          (fun d => PQNode.with_undominated_count (PQNode.undominated_count d + 1) d)
      else Ok q
    else Ok q.

  (** The part of [increment] and [decrement] that moves the unfixed
      count: [bool] converts to 0 or 1. *)
Definition move_unfixed (q : t) (v : Z) (old_node new_node : nref) : res t :=
    vn <- aread MAX_VERTS (vertices q) v ;;
    let is_unfixed := if PQVertex.is_fixed vn then 0 else 1 in
    q <- modify_node q old_node
           (fun d => PQNode.with_unfixed_count (PQNode.unfixed_count d - is_unfixed) d) ;;
    modify_node q new_node
      (fun d => PQNode.with_unfixed_count (PQNode.unfixed_count d + is_unfixed) d).

Definition increment (NDEBUG : bool) (q : t) (v : Z) : res (Z * t) :=
    vn <- aread MAX_VERTS (vertices q) v ;;
    let old_node := PQVertex.degree_node vn in
    old <- get_node q old_node ;;
    let old_deg := PQNode.deg old in
    let new_deg := old_deg + 1 in
    assert NDEBUG ((old_deg >=? 0) && (old_deg <? n q - 2)) ;;;
    let new_node := NNode new_deg in
    new <- get_node q new_node ;;
    q <- (if PQNode.count new =? 0 then
            q <- modify_node q new_node (PQNode.with_next (PQNode.next old)) ;;
            q <- modify_node q new_node (PQNode.with_prev old_node) ;;
            old <- get_node q old_node ;;
            q <- modify_node q (PQNode.next old) (PQNode.with_prev new_node) ;;
            modify_node q old_node (PQNode.with_next new_node)
          else Ok q) ;;
    q <- modify_vertex q (VVertex v) (PQVertex.with_degree_node new_node) ;;
    q <- modify_node q new_node (fun d => PQNode.with_count (PQNode.count d + 1) d) ;;
    q <- move_undominated q v old_node new_node ;;
    q <- move_unfixed q v old_node new_node ;;
    q <- modify_node q old_node (fun d => PQNode.with_count (PQNode.count d - 1) d) ;;
    old <- get_node q old_node ;;
    q <- (if PQNode.count old =? 0 then
            q <- modify_node q new_node (PQNode.with_prev (PQNode.prev old)) ;;
            new <- get_node q new_node ;;
            q <- modify_node q (PQNode.prev new) (PQNode.with_next new_node) ;;
            q <- modify_node q old_node (PQNode.with_prev NNull) ;;
            modify_node q old_node (PQNode.with_next NNull)
          else Ok q) ;;
    Ok (new_deg, q).

Definition decrement (NDEBUG : bool) (q : t) (v : Z) : res (Z * t) :=
    vn <- aread MAX_VERTS (vertices q) v ;;
    let old_node := PQVertex.degree_node vn in
    old <- get_node q old_node ;;
    let old_deg := PQNode.deg old in
    let new_deg := old_deg - 1 in
    assert NDEBUG ((old_deg >=? 1) && (old_deg <? n q - 1)) ;;;
    let new_node := NNode new_deg in
    new <- get_node q new_node ;;
    q <- (if PQNode.count new =? 0 then
            q <- modify_node q new_node (PQNode.with_next old_node) ;;
            q <- modify_node q new_node (PQNode.with_prev (PQNode.prev old)) ;;
            old <- get_node q old_node ;;
            q <- modify_node q (PQNode.prev old) (PQNode.with_next new_node) ;;
            modify_node q old_node (PQNode.with_prev new_node)
          else Ok q) ;;
    q <- modify_vertex q (VVertex v) (PQVertex.with_degree_node new_node) ;;
    q <- modify_node q new_node (fun d => PQNode.with_count (PQNode.count d + 1) d) ;;
    q <- move_undominated q v old_node new_node ;;
    q <- move_unfixed q v old_node new_node ;;
    q <- modify_node q old_node (fun d => PQNode.with_count (PQNode.count d - 1) d) ;;
    old <- get_node q old_node ;;
    q <- (if PQNode.count old =? 0 then
            q <- modify_node q new_node (PQNode.with_next (PQNode.next old)) ;;
            new <- get_node q new_node ;;
            q <- modify_node q (PQNode.next new) (PQNode.with_prev new_node) ;;
            q <- modify_node q old_node (PQNode.with_prev NNull) ;;
            modify_node q old_node (PQNode.with_next NNull)
          else Ok q) ;;
    Ok (new_deg, q).

Definition get_min_degree (q : t) : res Z :=
    x <- get_node q (head q) ;; Ok (PQNode.deg x).

Definition get_max_degree (q : t) : res Z :=
    x <- get_node q (tail q) ;; Ok (PQNode.deg x).

  (** The [while(1)] loop of [count_minimum_to_dominate].  [m], [deg],
      [count] and [vertices_needed] are [int]: every sum, difference,
      product and quotient is checked against the range of [int];
      C++ integer division truncates, which is [Z.quot]. *)
Fixpoint count_minimum_to_dominate_loop (fuel : nat) (q : t) (node : nref) (m count : Z)
    : res Z :=
    match fuel with
    | O => Fail OutOfFuel
    | S fuel' =>
        nd <- get_node q node ;;
        let deg := PQNode.deg nd in
        if (deg =? 0) || (deg =? INVALID_VERTEX) then Ok (MAX_VERTS + 1)
        else
          a <- int_result (m + deg) ;;
          a <- int_result (a - 1) ;;
          vertices_needed <- int_result (Z.quot a deg) ;;
          if vertices_needed <=? PQNode.unfixed_count nd
          then int_result (count + vertices_needed)
          else
            count <- int_result (count + PQNode.unfixed_count nd) ;;
            p <- int_result (deg * PQNode.unfixed_count nd) ;;
            m <- int_result (m - p) ;;
            count_minimum_to_dominate_loop fuel' q (PQNode.prev nd) m count
    end.

Definition count_minimum_to_dominate (fuel : nat) (q : t) (m : Z) : res Z :=
    count_minimum_to_dominate_loop fuel q (tail q) m 0.

  (** The rank list has at most [MAX_VERTS] nodes before the sentinel. *)
Definition walk_fuel : nat := Z.to_nat MAX_VERTS + 2.

  (** *** Constructor *)

Definition new (heavy : bool) (n : Z) : t :=
    mk heavy n (PQNode.new NHeadTail)
       (fun i => PQNode.new (NNode i))
       (fun _ => PQVertex.new).

Definition create (NDEBUG : bool) (heavy : bool) (g : Graph.t) : res t :=
    let n := Graph.n g in
    let q := new heavy n in
    q <- foreach (zrange 0 (Z.to_nat n))
           (fun q i => modify_node q (NNode i) (PQNode.with_deg i)) q ;;
    q <- foreach (zrange 0 (Z.to_nat n))
           (fun q i =>
              q <- modify_vertex q (VVertex i) (PQVertex.with_v i) ;;
              q <- modify_vertex q (VVertex i) (PQVertex.with_degree_node (NNode 0)) ;;
              splice_in q (VVertex i)) q ;;
    q <- modify_node q NHeadTail (PQNode.with_count INVALID_VERTEX) ;;
    q <- modify_node q NHeadTail (PQNode.with_deg INVALID_VERTEX) ;;
    q <- modify_node q NHeadTail (PQNode.with_undominated_count INVALID_VERTEX) ;;
    q <- modify_node q NHeadTail (PQNode.with_unfixed_count INVALID_VERTEX) ;;
    q <- modify_node q NHeadTail (PQNode.with_prev (NNode 0)) ;;
    q <- modify_node q NHeadTail (PQNode.with_next (NNode 0)) ;;
    q <- modify_node q (NNode 0) (PQNode.with_prev NHeadTail) ;;
    q <- modify_node q (NNode 0) (PQNode.with_next NHeadTail) ;;
    q <- modify_node q (NNode 0) (PQNode.with_undominated_count n) ;;
    q <- modify_node q (NNode 0) (PQNode.with_unfixed_count n) ;;
    q <- modify_node q (NNode 0) (PQNode.with_count n) ;;
    foreach (Graph.vertices g)
      (fun q vert =>
         foreach (zrange 0 (Z.to_nat (Graph.deg vert)))
           (fun q _ => '(_, q) <- increment NDEBUG q (Graph.index vert) ;; Ok q) q) q.

  (** *** Heavy queries ([DegreePQHeavy]) *)

Fixpoint get_min_undominated_vertex_loop (NDEBUG : bool) (fuel : nat) (q : t) (node : nref)
    : res Z :=
    match fuel with
    | O => Fail OutOfFuel
    | S fuel' =>
        nd <- get_node q node ;;
        if PQNode.deg nd =? INVALID_VERTEX then Ok INVALID_VERTEX
        else if PQNode.undominated_count nd =? 0
        then get_min_undominated_vertex_loop NDEBUG fuel' q (PQNode.next nd)
        else
          vn <- get_vertex q (PQVertex.next (PQNode.head_tail nd)) ;;
          let v := PQVertex.v vn in
          assert NDEBUG (negb (v =? INVALID_VERTEX)) ;;;
          Ok v
    end.

Definition get_min_undominated_vertex (NDEBUG : bool) (q : t) : res Z :=
    get_min_undominated_vertex_loop NDEBUG walk_fuel q (head q).

Fixpoint get_max_undominated_vertex_loop (NDEBUG : bool) (fuel : nat) (q : t) (node : nref)
    : res Z :=
    match fuel with
    | O => Fail OutOfFuel
    | S fuel' =>
        nd <- get_node q node ;;
        if PQNode.deg nd =? INVALID_VERTEX then Ok INVALID_VERTEX
        else if PQNode.undominated_count nd =? 0
        then get_max_undominated_vertex_loop NDEBUG fuel' q (PQNode.prev nd)
        else
          vn <- get_vertex q (PQVertex.next (PQNode.head_tail nd)) ;;
          let v := PQVertex.v vn in
          assert NDEBUG (negb (v =? INVALID_VERTEX)) ;;;
          Ok v
    end.

Definition get_max_undominated_vertex (NDEBUG : bool) (q : t) : res Z :=
    get_max_undominated_vertex_loop NDEBUG walk_fuel q (tail q).

End DegreePQ.

(** ** MDDStack ([bbt_mddstack.hpp])

    The stack refers to four objects owned by the solver (the graph, the
    candidate-neighbour sets, the undominated set and the undominated
    DegreePQ); their current values are passed as an [env].  A
    [StackRow] is an array used as a stack: it is the list of its live
    entries, most recent first, and overflows at [MAX_VERTS] entries. *)

Module MDDStack.

Definition INVALID_MDD : Z := 2147483647.

Record env : Type := mkEnv {
    G : Graph.t;
    CandidateNeighbours : list VertexSet.t;
    UndominatedSet : VertexSet.t;
    UndominatedDPQ : DegreePQ.t
  }.

Record StackEntry : Type := mkEntry { vertex : Z; old_mdd : Z }.

Record StackRow : Type := mkRow { entries : list StackEntry; dominator : Z }.

Record t : Type := mk {
    n : Z;
    stack : list StackRow;
    mdd_values : array Z;
    mdd_counts : array Z;
    max_mdd : Z
  }.

Definition with_stack (x : list StackRow) (s : t) : t :=
    mk (n s) x (mdd_values s) (mdd_counts s) (max_mdd s).
Definition with_max_mdd (x : Z) (s : t) : t :=
    mk (n s) (stack s) (mdd_values s) (mdd_counts s) x.

Definition get_mdd (s : t) (v : Z) : res Z := aread MAX_VERTS (mdd_values s) v.

Definition get_max_mdd (s : t) : Z := max_mdd s.

Definition candidate_neighbour_set (e : env) (v : Z) : res VertexSet.t :=
    if v <? 0 then Fail UndefinedBehaviour
    else match nth_error (CandidateNeighbours e) (Z.to_nat v) with
         | Some x => Ok x
         | None => Fail UndefinedBehaviour
         end.

Definition recompute_mdd (e : env) (v : Z) : res Z :=
    cn <- candidate_neighbour_set e v ;;
    foreach (VertexSet.elements cn)
      (fun new_mdd u =>
         u_DD <- DegreePQ.ranked_degree (UndominatedDPQ e) u ;;
         Ok (Z.max new_mdd u_DD)) 0.

  (** [new_row]: [stack[stack_size++]] with [size = 0]. *)
Definition new_row (s : t) (dominator : Z) : res t :=
    if Z.of_nat (length (stack s)) <? MAX_VERTS
    then Ok (with_stack (mkRow [] dominator :: stack s) s)
    else Fail UndefinedBehaviour.

  (** [row.new_entry(vertex, old_mdd)] on the row on top of the stack. *)
Definition new_entry (s : t) (vertex old_mdd : Z) : res t :=
    match stack s with
    | row :: rest =>
        if Z.of_nat (length (entries row)) <? MAX_VERTS
        then Ok (with_stack (mkRow (mkEntry vertex old_mdd :: entries row) (dominator row) :: rest) s)
        else Fail UndefinedBehaviour
    | [] => Fail UndefinedBehaviour
    end.

  (** [pop_row]: [stack[--stack_size]]; the row is returned apart. *)
Definition pop_row (NDEBUG : bool) (s : t) (dominator' : Z) : res (StackRow * t) :=
    match stack s with
    | row :: rest =>
        assert NDEBUG (dominator' =? dominator row) ;;;
        Ok (row, with_stack rest s)
    | [] => Fail UndefinedBehaviour
    end.

  (** [mdd_values[u] = x] and [mdd_counts[d] += k]. *)
Definition set_value (s : t) (u x : Z) : res t :=
    a <- awrite MAX_VERTS (mdd_values s) u x ;;
    Ok (mk (n s) (stack s) a (mdd_counts s) (max_mdd s)).

Definition bump_count (s : t) (d k : Z) : res t :=
    c <- aread MAX_VERTS (mdd_counts s) d ;;
    a <- awrite MAX_VERTS (mdd_counts s) d (c + k) ;;
    Ok (mk (n s) (stack s) (mdd_values s) a (max_mdd s)).

  (** [while(mdd_counts[max_mdd] == 0 && max_mdd > 0) max_mdd--;] *)
Fixpoint lower_max_mdd_guarded (fuel : nat) (s : t) : res t :=
    match fuel with
    | O => Fail OutOfFuel
    | S fuel' =>
        c <- aread MAX_VERTS (mdd_counts s) (max_mdd s) ;;
        if (c =? 0) && (max_mdd s >? 0)
        then lower_max_mdd_guarded fuel' (with_max_mdd (max_mdd s - 1) s)
        else Ok s
    end.

  (** [while(mdd_counts[max_mdd] == 0) max_mdd--;] *)
Fixpoint lower_max_mdd (fuel : nat) (s : t) : res t :=
    match fuel with
    | O => Fail OutOfFuel
    | S fuel' =>
        c <- aread MAX_VERTS (mdd_counts s) (max_mdd s) ;;
        if c =? 0
        then lower_max_mdd fuel' (with_max_mdd (max_mdd s - 1) s)
        else Ok s
    end.

  (** Both loops leave the array after at most [max_mdd + 1] steps. *)
Definition lower_fuel (s : t) : nat := Z.to_nat (max_mdd s) + 2.

  (** The body of the first loop of [add_dominator]: the MDD of a
      neighbour [u] of the new dominator leaves the system. *)
Definition clear_neighbour (s : t) (u : Z) : res t :=
    old_mdd <- get_mdd s u ;;
    if old_mdd =? INVALID_MDD then Ok s
    else
      let new_mdd := INVALID_MDD in
      s <- new_entry s u old_mdd ;;
      s <- set_value s u new_mdd ;;
      bump_count s old_mdd (-1).

  (** The body of the second loop of [add_dominator]: the MDD of an
      undominated vertex [u] is recomputed. *)
Definition refresh_undominated (NDEBUG : bool) (e : env) (s : t) (u : Z) : res t :=
    old_mdd <- get_mdd s u ;;
    assert NDEBUG (negb (old_mdd =? INVALID_MDD)) ;;;
    new_mdd <- recompute_mdd e u ;;
    if old_mdd =? new_mdd then Ok s
    else
      assert NDEBUG (new_mdd <? old_mdd) ;;;
      s <- new_entry s u old_mdd ;;
      s <- set_value s u new_mdd ;;
      s <- bump_count s old_mdd (-1) ;;
      bump_count s new_mdd 1.

Definition add_dominator (NDEBUG : bool) (e : env) (s : t) (v : Z) : res t :=
    s <- new_row s v ;;
    nb <- Graph.neighbours (G e) v ;;
    s <- foreach nb clear_neighbour s ;;
    s <- foreach (VertexSet.elements (UndominatedSet e)) (refresh_undominated NDEBUG e) s ;;
    lower_max_mdd_guarded (lower_fuel s) s.

  (** The body of the loop of [remove_dominator]: one stacked entry is
      restored; the second component is [highest_new_mdd]. *)
Definition remove_entry (p : t * Z) (entry : StackEntry) : res (t * Z) :=
    let '(s, highest_new_mdd) := p in
    let u := vertex entry in
    let new_mdd := old_mdd entry in
    old_mdd <- aread MAX_VERTS (mdd_values s) u ;;
    s <- set_value s u new_mdd ;;
    s <- (if negb (old_mdd =? INVALID_MDD) then bump_count s old_mdd (-1) else Ok s) ;;
    s <- bump_count s new_mdd 1 ;;
    Ok (s, Z.max highest_new_mdd new_mdd).

  (** [if (highest_new_mdd > max_mdd) max_mdd = highest_new_mdd;] *)
Definition raise_max_mdd (p : t * Z) : t :=
    let '(s, highest_new_mdd) := p in
    if highest_new_mdd >? max_mdd s then with_max_mdd highest_new_mdd s else s.

Definition remove_dominator (NDEBUG : bool) (s : t) (v : Z) : res t :=
    '(row, s) <- pop_row NDEBUG s v ;;
    p <- foreach (entries row) remove_entry (s, 0) ;;
    Ok (raise_max_mdd p).

  (** The body of the loop of [exclude_dominator]. *)
Definition refresh_excluded (NDEBUG : bool) (e : env) (s : t) (u : Z) : res t :=
    c <- VertexSet.contains (UndominatedSet e) u ;;
    if negb c then Ok s
    else
      old_mdd <- aread MAX_VERTS (mdd_values s) u ;;
      new_mdd <- recompute_mdd e u ;;
      if negb (new_mdd =? old_mdd) then
        assert NDEBUG (new_mdd <? old_mdd) ;;;
        s <- new_entry s u old_mdd ;;
        s <- set_value s u new_mdd ;;
        s <- bump_count s old_mdd (-1) ;;
        bump_count s new_mdd 1
      else Ok s.

Definition exclude_dominator (NDEBUG : bool) (e : env) (s : t) (v : Z) : res t :=
    s <- new_row s v ;;
    nb <- Graph.neighbours (G e) v ;;
    s <- foreach nb (refresh_excluded NDEBUG e) s ;;
    lower_max_mdd (lower_fuel s) s.

  (** The body of the loop of [unexclude_dominator]. *)
Definition unexclude_entry (NDEBUG : bool) (p : t * Z) (entry : StackEntry) : res (t * Z) :=
    let '(s, highest_new_mdd) := p in
    let u := vertex entry in
    let new_mdd := old_mdd entry in
    old_mdd <- aread MAX_VERTS (mdd_values s) u ;;
    assert NDEBUG (new_mdd >? old_mdd) ;;;
    s <- set_value s u new_mdd ;;
    s <- bump_count s old_mdd (-1) ;;
    s <- bump_count s new_mdd 1 ;;
    Ok (s, Z.max highest_new_mdd new_mdd).

Definition unexclude_dominator (NDEBUG : bool) (s : t) (v : Z) : res t :=
    '(row, s) <- pop_row NDEBUG s v ;;
    p <- foreach (entries row) (unexclude_entry NDEBUG) (s, 0) ;;
    Ok (raise_max_mdd p).

Definition get_max_mdd_vertex (NDEBUG : bool) (e : env) (s : t) : res Z :=
    result <-
      foreach (VertexSet.elements (UndominatedSet e))
        (fun result v =>
           if negb (result =? INVALID_VERTEX) then Ok result   (* after [break] *)
           else m <- get_mdd s v ;;
                Ok (if m =? max_mdd s then v else result)) INVALID_VERTEX ;;
    assert NDEBUG (negb (result =? INVALID_VERTEX)) ;;;
    Ok result.

Definition get_min_mdd_vertex (NDEBUG : bool) (e : env) (s : t) : res Z :=
    '(result, _) <-
      foreach (VertexSet.elements (UndominatedSet e))
        (fun '(result, min_mdd) v =>
           m <- get_mdd s v ;;
           Ok (if m <? min_mdd then (v, m) else (result, min_mdd)))
        (INVALID_VERTEX, MAX_VERTS) ;;
    assert NDEBUG (negb (result =? INVALID_VERTEX)) ;;;
    Ok result.

  (** [while(c > 0){ c -= mdd; verts_needed++; }] *)
Fixpoint consume (fuel : nat) (mdd c verts_needed : Z) : res (Z * Z) :=
    if c >? 0 then
      match fuel with
      | O => Fail OutOfFuel
      | S fuel' => consume fuel' mdd (c - mdd) (verts_needed + 1)
      end
    else Ok (c, verts_needed).

Definition min_vertices_needed (s : t) : res Z :=
    c0 <- aread MAX_VERTS (mdd_counts s) 0 ;;
    if c0 >? 0 then Ok MAX_VERTS
    else
      '(_, verts_needed) <-
        foreach (zrange 0 (Z.to_nat (max_mdd s + 1)))
          (fun '(c, verts_needed) mdd =>
             k <- aread MAX_VERTS (mdd_counts s) mdd ;;
             let c := c + k in
             consume (Z.to_nat c) mdd c verts_needed) (0, 0) ;;
      Ok verts_needed.

  (** The constructor; [max_mdd0] is the indeterminate value the member
      [max_mdd] holds when no vertex is undominated. *)
Definition create (max_mdd0 : Z) (e : env) : res t :=
    let s := mk (Graph.n (G e)) [] (fill (-1)) (fill 0) max_mdd0 in
    s <- foreach (VertexSet.elements (UndominatedSet e))
           (fun s v =>
              v_mdd <- recompute_mdd e v ;;
              s <- set_value s v v_mdd ;;
              bump_count s v_mdd 1) s ;;
    foreach (zrange 0 (Z.to_nat (n s)))
      (fun s i =>
         c <- aread MAX_VERTS (mdd_counts s) i ;;
         Ok (if c >? 0 then with_max_mdd i s else s)) s.

End MDDStack.

(** ** The backtracking framework ([bbt_framework.hpp], [unidom_common.hpp]) *)

Module Framework.

Record DominationInstance : Type := mkInstance {
    G : Graph.t;
    force_in : VertexSet.t;
    force_out : VertexSet.t
  }.

  (** The settings of [BBTFrameworkSolver]; all five are [unsigned int]. *)
Record settings : Type := mkSettings {
    resmod_mod : Z;
    resmod_res : Z;
    resmod_depth : Z;
    total_lower_bound : Z;
    total_upper_bound : Z
  }.

Definition INVALID_DEPTH : Z := UINT_MODULUS - 1.

  (** The constructor [BBTFrameworkSolver()]. *)
Definition default_settings : settings :=
    mkSettings 1 0 INVALID_DEPTH 0 MAX_VERTS.

  (** The members every solver variant declares: the working set [D],
      the best set [B], the cover and fix counters, and the depth log of
      the framework.  [out] is the sequence of sets handed to
      [output_proxy->process_set], oldest first. *)
Record core : Type := mkCore {
    D : VertexSet.t;
    B : VertexSet.t;
    covered : array Z;
    fixed : array Z;
    total_covered : Z;
    total_fixed : Z;
    depth_log : array Z;
    out : list VertexSet.t
  }.

Definition with_D (x : VertexSet.t) (c : core) : core :=
    mkCore x (B c) (covered c) (fixed c) (total_covered c) (total_fixed c) (depth_log c) (out c).
Definition with_B (x : VertexSet.t) (c : core) : core :=
    mkCore (D c) x (covered c) (fixed c) (total_covered c) (total_fixed c) (depth_log c) (out c).
Definition with_covered (x : array Z) (c : core) : core :=
    mkCore (D c) (B c) x (fixed c) (total_covered c) (total_fixed c) (depth_log c) (out c).
Definition with_fixed (x : array Z) (c : core) : core :=
    mkCore (D c) (B c) (covered c) x (total_covered c) (total_fixed c) (depth_log c) (out c).
Definition with_total_covered (x : Z) (c : core) : core :=
    mkCore (D c) (B c) (covered c) (fixed c) x (total_fixed c) (depth_log c) (out c).
Definition with_total_fixed (x : Z) (c : core) : core :=
    mkCore (D c) (B c) (covered c) (fixed c) (total_covered c) x (depth_log c) (out c).
Definition with_depth_log (x : array Z) (c : core) : core :=
    mkCore (D c) (B c) (covered c) (fixed c) (total_covered c) (total_fixed c) x (out c).
Definition with_out (x : list VertexSet.t) (c : core) : core :=
    mkCore (D c) (B c) (covered c) (fixed c) (total_covered c) (total_fixed c) (depth_log c) x.

  (** A freshly constructed solver object. *)
Definition new_core : core :=
    mkCore VertexSet.new VertexSet.new (fill 0) (fill 0) 0 0 (fill 0) [].

Definition reset_depth_log (c : core) : core := with_depth_log (fill 0) c.

  (** [report_node<check_resmod_depth>(depth)] *)
Definition report_node (NDEBUG check_resmod_depth : bool) (st : settings) (c : core) (depth : Z)
    : res (Z * core) :=
    k <- aread MAX_VERTS (depth_log c) depth ;;
    let c := with_depth_log (upd (depth_log c) depth (k + 1)) c in
    if check_resmod_depth then
      if to_unsigned depth =? resmod_depth st then
        if resmod_mod st =? 0 then Fail UndefinedBehaviour
        else if (k + 1 - 1) mod resmod_mod st =? resmod_res st then Ok (1, c) else Ok (0, c)
      else
        assert NDEBUG (to_unsigned depth <? resmod_depth st) ;;;
        Ok (-1, c)
    else Ok (1, c).

Definition unreport_node (c : core) (depth : Z) : res core :=
    k <- aread MAX_VERTS (depth_log c) depth ;;
    Ok (with_depth_log (upd (depth_log c) depth (k - 1)) c).

  (** The block every [FindDominatingSet] runs when [total_covered == n]:
      in generation mode a set within the bounds is handed to the output
      proxy; in optimization mode a set within the lower bound that is
      strictly smaller than [B] replaces [B] and is handed over. *)
Definition record_solution (GENERATE_ALL : bool) (st : settings) (c : core) : core :=
    let d := VertexSet.get_size (D c) in
    if GENERATE_ALL then
      if (to_unsigned d >=? total_lower_bound st) && (to_unsigned d <=? total_upper_bound st)
      then with_out (out c ++ [D c]) c
      else c
    else
      if (to_unsigned d >=? total_lower_bound st) && (d <? VertexSet.get_size (B c))
      then with_out (out c ++ [D c]) (with_B (D c) c)
      else c.

  (** [std::stable_sort] with the comparison [a > b]. *)
Fixpoint insert_descending (x : Z) (l : list Z) : list Z :=
    match l with
    | [] => [x]
    | y :: l' => if y >? x then y :: insert_descending x l' else x :: l
    end.

Definition stable_sort_descending (l : list Z) : list Z :=
    fold_right insert_descending [] l.

Definition sort_neighbours_descending (g : Graph.t) : Graph.t :=
    Graph.mkGraph
      (map (fun v => Graph.mkVertex (stable_sort_descending (Graph._neighbours v))
                       (Graph.real_index v) (Graph.index v))
         (Graph.vertices g)).

Definition add_loops (g : Graph.t) : Graph.t :=
    Graph.mkGraph
      (map (fun v => snd (Graph.add_neighbour_simple v (Graph.index v))) (Graph.vertices g)).

  (** The sentinel every [solve] gives [B]: [B.reset_full(size0)], then
      [B.reset_full(total_upper_bound+1)] in optimization mode when the
      upper bound is below [n]. *)
Definition reset_best (GENERATE_ALL : bool) (st : settings) (size0 n : Z) (c : core) : res core :=
    b <- VertexSet.reset_full (B c) size0 ;;
    b <- (if negb GENERATE_ALL && (total_upper_bound st <? to_unsigned n)
          then VertexSet.reset_full b (total_upper_bound st + 1)
          else Ok b) ;;
    Ok (with_B b c).

  (** *** OutputProxyOutputBest ([basic_io.cpp]) *)

Definition output_best_initialize (best_set : VertexSet.t) (inst : DominationInstance)
    : res VertexSet.t :=
    VertexSet.reset_full best_set (Graph.n (G inst)).

Definition output_best_process_set (best_set dominating_set : VertexSet.t) : VertexSet.t :=
    dominating_set.

  (** The set [finalize] prints after a solver handed over [sets]. *)
Definition output_best_run (best_set : VertexSet.t) (inst : DominationInstance)
      (sets : list VertexSet.t) : res VertexSet.t :=
    b <- output_best_initialize best_set inst ;;
    Ok (fold_left output_best_process_set sets b).

End Framework.

(** ** The fixed-order solver ([bbt_fixed_order.cpp]) *)

Module FixedOrder.
Import Framework.

Record state : Type := mkState {
    base : core;
    max_deg : Z
  }.

Definition with_base (x : core) (s : state) : state := mkState x (max_deg s).

  (** The solver object the factory makes: [std::make_shared<T>()]
      value-initialises, so [max_deg] starts at zero. *)
Definition new : state := mkState new_core 0.

Definition compute_max_deg (g : Graph.t) (s : state) : state :=
    mkState (base s)
      (fold_left (fun m v => Z.max m (Graph.deg v)) (Graph.vertices g) (max_deg s)).

  (** [if (covered[k] == 0) total_covered++; covered[k]++;] *)
Definition cover (c : core) (k : Z) : res core :=
    x <- aread MAX_VERTS (covered c) k ;;
    let c := if x =? 0 then with_total_covered (total_covered c + 1) c else c in
    Ok (with_covered (upd (covered c) k (x + 1)) c).

  (** [covered[k]--; if (covered[k] == 0) total_covered--;] *)
Definition uncover (c : core) (k : Z) : res core :=
    x <- aread MAX_VERTS (covered c) k ;;
    let c := with_covered (upd (covered c) k (x - 1)) c in
    Ok (if x - 1 =? 0 then with_total_covered (total_covered c - 1) c else c).

  (** [while(covered[i]) i++;] *)
Fixpoint skip_covered (fuel : nat) (c : core) (i : Z) : res Z :=
    match fuel with
    | O => Fail UndefinedBehaviour
    | S fuel' =>
        x <- aread MAX_VERTS (covered c) i ;;
        if negb (x =? 0) then skip_covered fuel' c (i + 1) else Ok i
    end.

  (** [for(int q = num_fixed - 1; q >= 0; q--)] visits [fixed_list[q]]. *)
Definition restore_order (fixed_list : list Z) : list Z :=
    map (fun q => nth q fixed_list 0) (rev (seq 0 (length fixed_list))).

Definition add_vertex_to_set (NDEBUG : bool) (g : Graph.t)
      (rec : state -> Z -> res state)
      (s : state) (i j : Z) (fixed_list : list Z) : res (state * list Z) :=
    let c := base s in
    f <- awrite MAX_VERTS (fixed c) j 1 ;;
    let c := with_fixed f c in
    let fixed_list := fixed_list ++ [j] in
    let c := with_total_fixed (total_fixed c + 1) c in
    d <- VertexSet.add NDEBUG (D c) j ;;
    let c := with_D d c in
    nb <- Graph.neighbours g j ;;
    c <- foreach nb cover c ;;
    ci <- aread MAX_VERTS (covered c) i ;;
    assert NDEBUG (negb (ci =? 0)) ;;;
    s <- rec (with_base c s) (i + 1) ;;
    let c := base s in
    c <- foreach nb uncover c ;;
    d <- VertexSet.remove_pop NDEBUG (D c) j ;;
    Ok (with_base (with_D d c) s, fixed_list).

  (** The candidate dominators of pivot [i]: [i] itself, then its
      uncovered unfixed neighbours, then its covered unfixed ones. *)
Definition neighbour_array (g : Graph.t) (c : core) (i : Z) : res (list Z) :=
    fi <- aread MAX_VERTS (fixed c) i ;;
    nb <- Graph.neighbours g i ;;
    first <- foreach nb
      (fun acc j =>
         fj <- aread MAX_VERTS (fixed c) j ;;
         cj <- (if fj =? 0 then aread MAX_VERTS (covered c) j else Ok 0) ;;
         Ok (if (fj =? 0) && (cj =? 0) && negb (j =? i) then acc ++ [j] else acc))
      (if fi =? 0 then [i] else []) ;;
    foreach nb
      (fun acc j =>
         fj <- aread MAX_VERTS (fixed c) j ;;
         cj <- (if fj =? 0 then aread MAX_VERTS (covered c) j else Ok 0) ;;
         Ok (if (fj =? 0) && negb (cj =? 0) then acc ++ [j] else acc))
      first.

Fixpoint FindDominatingSet (fuel : nat) (NDEBUG GENERATE_ALL check_resmod_depth : bool)
      (st : settings) (g : Graph.t) (s : state) (i : Z) {struct fuel} : res state :=
    match fuel with
    | O => Fail OutOfFuel
    | S fuel' =>
        '(resmod_check, c) <-
          report_node NDEBUG check_resmod_depth st (base s) (VertexSet.get_size (D (base s))) ;;
        if resmod_check =? 0 then Ok (with_base c s)
        else if check_resmod_depth && (resmod_check =? 1) then
          c <- unreport_node c (VertexSet.get_size (D c)) ;;
          FindDominatingSet fuel' NDEBUG GENERATE_ALL false st g (with_base c s) i
        else
          let n := Graph.n g in
          if total_covered c =? n then Ok (with_base (record_solution GENERATE_ALL st c) s)
          else
            i <- skip_covered (Z.to_nat MAX_VERTS + 1) c i ;;
            if i >=? n then Fail ConfigurableError
            else if max_deg s + 1 =? 0 then Fail UndefinedBehaviour
            else
              let min_vertices_needed := Z.quot (n - total_covered c + max_deg s) (max_deg s + 1) in
              let min_total_size := VertexSet.get_size (D c) + min_vertices_needed in
              if (if GENERATE_ALL
                  then (to_unsigned min_total_size >? total_upper_bound st)
                       || (n - total_fixed c <? min_vertices_needed)
                  else (min_total_size >=? VertexSet.get_size (B c))
                       || (n - total_fixed c <? min_vertices_needed))
              then Ok (with_base c s)
              else
                arr <- neighbour_array g c i ;;
                '(s, fixed_list) <-
                  foreach arr
                    (fun '(s, fixed_list) j =>
                       add_vertex_to_set NDEBUG g
                         (FindDominatingSet fuel' NDEBUG GENERATE_ALL check_resmod_depth st g)
                         s i j fixed_list)
                    (with_base c s, []) ;;
                c <- foreach (restore_order fixed_list)
                       (fun c v =>
                          f <- awrite MAX_VERTS (fixed c) v 0 ;;
                          Ok (with_total_fixed (total_fixed c - 1) (with_fixed f c)))
                       (base s) ;;
                Ok (with_base c s)
    end.

  (** One level of recursion per vertex added, one more for the switch
      to the variant without the res/mod check, one for the leaf. *)
Definition search_fuel (g : Graph.t) : nat := Z.to_nat (Graph.n g) + 3.

  (** [solve] up to the call of [FindDominatingSet]. *)
Definition solve_init (NDEBUG GENERATE_ALL : bool) (st : settings) (s : state)
      (inst : DominationInstance) : res (state * DominationInstance) :=
    let g := sort_neighbours_descending (add_loops (G inst)) in
    let inst := mkInstance g (force_in inst) (force_out inst) in
    let n := Graph.n g in
    let c := with_D (VertexSet.reset (D (base s))) (base s) in
    c <- reset_best GENERATE_ALL st n n c ;;
    let s := compute_max_deg g (with_base c s) in
    let c := base s in
    let c := with_fixed (fill 0) (with_covered (fill 0) c) in
    let c := with_total_fixed 0 (with_total_covered 0 c) in
    c <- foreach (VertexSet.elements (force_in inst))
           (fun c v =>
              d <- VertexSet.add NDEBUG (D c) v ;;
              nb <- Graph.neighbours g v ;;
              foreach nb cover (with_D d c)) c ;;
    c <- foreach (VertexSet.elements (force_out inst))
           (fun c v =>
              f <- awrite MAX_VERTS (fixed c) v 1 ;;
              Ok (with_total_fixed (total_fixed c + 1) (with_fixed f c))) c ;;
    let c := with_out [] (reset_depth_log c) in
    Ok (with_base c s, inst).

Definition solve (NDEBUG GENERATE_ALL : bool) (st : settings) (s : state)
      (inst : DominationInstance) : res (state * DominationInstance) :=
    '(s, inst) <- solve_init NDEBUG GENERATE_ALL st s inst ;;
    s <- FindDominatingSet (search_fuel (G inst)) NDEBUG GENERATE_ALL true st (G inst) s 0 ;;
    Ok (s, inst).

End FixedOrder.

(** ** The bucket sort of [rank_neighbours]

    Both [rank_neighbours] functions ([bbt_dd_variants.cpp],
    [bbt_mdd_variants.cpp]) keep the local [NeighbourListNode]s in a
    ring through the sentinel [head_tail] (whose [deg] is 0).  The ring
    is the list of its nodes in [next] order; a node is named by its
    index in [all_nodes]; [None] names [&head_tail]. *)

Module NeighbourList.

Inductive rank_rule : Set := RANK_NEIGHBOURS_ASCENDING | RANK_NEIGHBOURS_DESCENDING.

Record NeighbourListNode : Type := mkNode { id : nat; deg : Z; u : Z }.

Record t : Type := mk {
    chain : list NeighbourListNode;
    degrees_size : Z;
    degrees : array (option nat);
    neighbour_count : Z
  }.

  (** [head_tail.next = head_tail.prev = &head_tail], every entry of
      [degrees] null.  A variable-length array needs a positive size. *)
Definition empty (max_degree : Z) : res t :=
    if (0 <? max_degree + 1) && (max_degree + 1 <=? INT_MAX)
    then Ok (mk [] (max_degree + 1) (fill None) 0)
    else Fail UndefinedBehaviour.

  (** [prevNode = head_tail.prev; while(prevNode->deg > uncovered_deg)
      prevNode = prevNode->prev;] on the ring read backwards. *)
Fixpoint walk_back (uncovered_deg : Z) (backwards : list NeighbourListNode) : option nat :=
    match backwards with
    | [] => None
    | x :: rest => if deg x >? uncovered_deg then walk_back uncovered_deg rest else Some (id x)
    end.

  (** Linking [node] between [prevNode] and [prevNode->next]. *)
Fixpoint insert_after (prevNode : nat) (node : NeighbourListNode)
      (l : list NeighbourListNode) : res (list NeighbourListNode) :=
    match l with
    | [] => Fail UndefinedBehaviour
    | x :: rest =>
        if Nat.eqb (id x) prevNode then Ok (x :: node :: rest)
        else rest' <- insert_after prevNode node rest ;; Ok (x :: rest')
    end.

  (** The body of the insertion loop, from the read of [degrees] on. *)
Definition insert (l : t) (u uncovered_deg : Z) : res t :=
    let node := mkNode (Z.to_nat (neighbour_count l)) uncovered_deg u in
    prevNode <- aread (degrees_size l) (degrees l) uncovered_deg ;;
    let prevNode :=
      match prevNode with
      | Some p => Some p
      | None => walk_back uncovered_deg (rev (chain l))
      end in
    chain' <- match prevNode with
              | None => Ok (node :: chain l)
              | Some p => insert_after p node (chain l)
              end ;;
    Ok (mk chain' (degrees_size l) (upd (degrees l) uncovered_deg (Some (id node)))
          (neighbour_count l + 1)).

  (** [for(node = start; node->deg != 0; node = node->...)] *)
Fixpoint until_zero (l : list NeighbourListNode) : list Z :=
    match l with
    | [] => []
    | x :: rest => if deg x =? 0 then [] else u x :: until_zero rest
    end.

  (** The entries written to [neighbour_array], and [neighbour_count]. *)
Definition output (NDEBUG : bool) (rule : rank_rule) (l : t) : res (list Z * Z) :=
    let written :=
      match rule with
      | RANK_NEIGHBOURS_DESCENDING => until_zero (rev (chain l))
      | RANK_NEIGHBOURS_ASCENDING => until_zero (chain l)
      end in
    assert NDEBUG (Z.of_nat (length written) =? neighbour_count l) ;;;
    Ok (written, neighbour_count l).

  (** What [array_range(neighbour_array, neighbour_count)] iterates
      over: the written entries, then the ones left uninitialised. *)
Definition slots (r : list Z * Z) : list (option Z) :=
    map Some (fst r) ++ repeat None (Z.to_nat (snd r - Z.of_nat (length (fst r)))).

End NeighbourList.

(** ** The DD solver variants ([bbt_dd_variants.cpp]) *)

Module DD.
Import Framework.
Export NeighbourList.

Inductive choose_rule : Set := CHOOSE_VERTEX_MIN_CD | CHOOSE_VERTEX_MAX_CD.

  (** The template parameters of [BBTDDSolverVariant]. *)
Record variant : Type := mkVariant {
    CHOOSE_VERTEX_RULE : choose_rule;
    RANK_NEIGHBOURS_RULE : rank_rule;
    FORCE_STOP_ON_TRAPPED_VERTEX : bool;
    RECHECK_BOUNDS_IN_LOOP : bool;
    GENERATE_ALL : bool
  }.

Definition DD_minCD_asc : variant :=
    mkVariant CHOOSE_VERTEX_MIN_CD RANK_NEIGHBOURS_ASCENDING false false false.
Definition DD_minCD_asc_all : variant :=
    mkVariant CHOOSE_VERTEX_MIN_CD RANK_NEIGHBOURS_ASCENDING false false true.
Definition DD_minCD_desc : variant :=
    mkVariant CHOOSE_VERTEX_MIN_CD RANK_NEIGHBOURS_DESCENDING false false false.
Definition DD_minCD_desc_all : variant :=
    mkVariant CHOOSE_VERTEX_MIN_CD RANK_NEIGHBOURS_DESCENDING false false true.

Record state : Type := mkState {
    base : core;
    UndominatedDPQ : DegreePQ.t;
    CandidateDPQ : DegreePQ.t
  }.

Definition with_base (x : core) (s : state) : state :=
    mkState x (UndominatedDPQ s) (CandidateDPQ s).
Definition with_UndominatedDPQ (x : DegreePQ.t) (s : state) : state :=
    mkState (base s) x (CandidateDPQ s).
Definition with_CandidateDPQ (x : DegreePQ.t) (s : state) : state :=
    mkState (base s) (UndominatedDPQ s) x.

  (** The solver object before its first [solve]; the two pointers are
      set by [solve]. *)
Definition new : state :=
    mkState new_core (DegreePQ.new false 0) (DegreePQ.new true 0).

Definition add_candidate (NDEBUG : bool) (g : Graph.t) (s : state) (v : Z) : res state :=
    let c := base s in
    fv <- (if NDEBUG then Ok 1 else aread MAX_VERTS (fixed c) v) ;;
    assert NDEBUG (negb (fv =? 0)) ;;;
    f <- awrite MAX_VERTS (fixed c) v 0 ;;
    let c := with_total_fixed (total_fixed c - 1) (with_fixed f c) in
    ud <- DegreePQ.add_candidate NDEBUG (UndominatedDPQ s) v ;;
    cd <- DegreePQ.add_candidate NDEBUG (CandidateDPQ s) v ;;
    nb <- Graph.neighbours g v ;;
    cd <- foreach nb (fun cd u => '(_, cd) <- DegreePQ.increment NDEBUG cd u ;; Ok cd) cd ;;
    Ok (mkState c ud cd).

Definition remove_candidate (NDEBUG : bool) (g : Graph.t) (s : state) (v : Z)
    : res (bool * state) :=
    let c := base s in
    fv <- (if NDEBUG then Ok 0 else aread MAX_VERTS (fixed c) v) ;;
    assert NDEBUG (fv =? 0) ;;;
    f <- awrite MAX_VERTS (fixed c) v 1 ;;
    let c := with_total_fixed (total_fixed c + 1) (with_fixed f c) in
    ud <- DegreePQ.remove_candidate NDEBUG (UndominatedDPQ s) v ;;
    cd <- DegreePQ.remove_candidate NDEBUG (CandidateDPQ s) v ;;
    nb <- Graph.neighbours g v ;;
    '(forced, cd) <-
      foreach nb
        (fun '(forced, cd) u =>
           '(d, cd) <- DegreePQ.decrement NDEBUG cd u ;;
           if d =? 0 then
             cu <- aread MAX_VERTS (covered c) u ;;
             Ok (if cu =? 0 then true else forced, cd)
           else Ok (forced, cd))
        (false, cd) ;;
    Ok (forced, mkState c ud cd).

Definition dominate (NDEBUG : bool) (g : Graph.t) (s : state) (v : Z) : res state :=
    let c := base s in
    x <- aread MAX_VERTS (covered c) v ;;
    let c := with_covered (upd (covered c) v (x + 1)) c in
    if x + 1 >? 1 then Ok (with_base c s)
    else
      let c := with_total_covered (total_covered c + 1) c in
      ud <- DegreePQ.dominate NDEBUG (UndominatedDPQ s) v ;;
      cd <- DegreePQ.dominate NDEBUG (CandidateDPQ s) v ;;
      nb <- Graph.neighbours g v ;;
      ud <- foreach nb (fun ud u => '(_, ud) <- DegreePQ.decrement NDEBUG ud u ;; Ok ud) ud ;;
      Ok (mkState c ud cd).

Definition undominate (NDEBUG : bool) (g : Graph.t) (s : state) (v : Z) : res state :=
    let c := base s in
    x <- aread MAX_VERTS (covered c) v ;;
    let c := with_covered (upd (covered c) v (x - 1)) c in
    if x - 1 >? 0 then Ok (with_base c s)
    else
      let c := with_total_covered (total_covered c - 1) c in
      ud <- DegreePQ.undominate NDEBUG (UndominatedDPQ s) v ;;
      cd <- DegreePQ.undominate NDEBUG (CandidateDPQ s) v ;;
      nb <- Graph.neighbours g v ;;
      ud <- foreach nb (fun ud u => '(_, ud) <- DegreePQ.increment NDEBUG ud u ;; Ok ud) ud ;;
      Ok (mkState c ud cd).

Definition add_vertex_to_set (NDEBUG : bool) (g : Graph.t)
      (rec : state -> res state)
      (s : state) (j : Z) (fixed_list : list Z) : res (bool * state * list Z) :=
    '(forced, s) <- remove_candidate NDEBUG g s j ;;
    let fixed_list := fixed_list ++ [j] in
    d <- VertexSet.add NDEBUG (D (base s)) j ;;
    let s := with_base (with_D d (base s)) s in
    nb <- Graph.neighbours g j ;;
    s <- foreach nb (dominate NDEBUG g) s ;;
    s <- rec s ;;
    s <- foreach (rev nb) (undominate NDEBUG g) s ;;
    d <- VertexSet.remove_pop NDEBUG (D (base s)) j ;;
    Ok (forced, with_base (with_D d (base s)) s, fixed_list).

  (** The comparison of [bounds_satisfied] once [min_vertices_needed]
      is known; [true] means the bounds fail. *)
Definition bounds_fail (GENERATE_ALL : bool) (st : settings) (c : core) (n min_vertices_needed : Z)
    : bool :=
    let min_total_size := VertexSet.get_size (D c) + min_vertices_needed in
    if GENERATE_ALL
    then (to_unsigned min_total_size >? total_upper_bound st)
         || (n - total_fixed c <? min_vertices_needed)
    else (min_total_size >=? VertexSet.get_size (B c))
         || (n - total_fixed c <? min_vertices_needed).

Definition bounds_satisfied (V : variant) (st : settings) (g : Graph.t) (s : state) : res bool :=
    let n := Graph.n g in
    min_vertices_needed <-
      DegreePQ.count_minimum_to_dominate DegreePQ.walk_fuel (UndominatedDPQ s)
        (n - total_covered (base s)) ;;
    Ok (negb (bounds_fail (GENERATE_ALL V) st (base s) n min_vertices_needed)).

Definition rank_neighbours (NDEBUG : bool) (V : variant) (g : Graph.t) (s : state) (v : Z)
    : res (list Z * Z) :=
    nb <- Graph.neighbours g v ;;
    max_degree <- DegreePQ.get_max_degree (UndominatedDPQ s) ;;
    l <- NeighbourList.empty max_degree ;;
    l <- foreach nb
           (fun l u =>
              fu <- aread MAX_VERTS (fixed (base s)) u ;;
              if negb (fu =? 0) then Ok l
              else
                uncovered_deg <- DegreePQ.ranked_degree (UndominatedDPQ s) u ;;
                assert NDEBUG (uncovered_deg >? 0) ;;;
                NeighbourList.insert l u uncovered_deg) l ;;
    NeighbourList.output NDEBUG (RANK_NEIGHBOURS_RULE V) l.

  (** [for(int q = 0; q < num_fixed; q++)] visits [fixed_list[q]]. *)
Definition restore_order (fixed_list : list Z) : list Z :=
    map (fun q => nth q fixed_list 0) (seq 0 (length fixed_list)).

  (** The branching loop over [array_range(neighbour_array, neighbour_count)]. *)
Fixpoint branch (NDEBUG : bool) (V : variant) (st : settings) (g : Graph.t)
      (rec : state -> res state)
      (slots : list (option Z)) (s : state) (fixed_list : list Z) : res (state * list Z) :=
    match slots with
    | [] => Ok (s, fixed_list)
    | None :: _ => Fail UndefinedBehaviour
    | Some j :: slots' =>
        ok <- (if RECHECK_BOUNDS_IN_LOOP V then bounds_satisfied V st g s else Ok true) ;;
        if negb ok then Ok (s, fixed_list)
        else
          '(force_stop, s, fixed_list) <- add_vertex_to_set NDEBUG g rec s j fixed_list ;;
          if FORCE_STOP_ON_TRAPPED_VERTEX V && force_stop then Ok (s, fixed_list)
          else branch NDEBUG V st g rec slots' s fixed_list
    end.

Fixpoint FindDominatingSet (fuel : nat) (NDEBUG : bool) (V : variant) (check_resmod_depth : bool)
      (st : settings) (g : Graph.t) (s : state) {struct fuel} : res state :=
    match fuel with
    | O => Fail OutOfFuel
    | S fuel' =>
        '(resmod_check, c) <-
          report_node NDEBUG check_resmod_depth st (base s) (VertexSet.get_size (D (base s))) ;;
        if resmod_check =? 0 then Ok (with_base c s)
        else if check_resmod_depth && (resmod_check =? 1) then
          c <- unreport_node c (VertexSet.get_size (D c)) ;;
          FindDominatingSet fuel' NDEBUG V false st g (with_base c s)
        else
          let s := with_base c s in
          let n := Graph.n g in
          if total_covered c =? n
          then Ok (with_base (record_solution (GENERATE_ALL V) st c) s)
          else
            i <- match CHOOSE_VERTEX_RULE V with
                 | CHOOSE_VERTEX_MIN_CD => DegreePQ.get_min_undominated_vertex NDEBUG (CandidateDPQ s)
                 | CHOOSE_VERTEX_MAX_CD => DegreePQ.get_max_undominated_vertex NDEBUG (CandidateDPQ s)
                 end ;;
            if i =? INVALID_VERTEX then Ok s
            else
              chk <- (if NDEBUG then Ok true
                      else ci <- aread MAX_VERTS (covered c) i ;;
                           if (ci =? 0) && (i <? n)
                           then vi <- Graph.get g i ;; Ok (Graph.deg vi >? 0)
                           else Ok false) ;;
              assert NDEBUG chk ;;;
              _ <- Graph.get g i ;;
              ok <- (if negb (RECHECK_BOUNDS_IN_LOOP V) then bounds_satisfied V st g s else Ok true) ;;
              if negb ok then Ok s
              else
                r <- rank_neighbours NDEBUG V g s i ;;
                '(s, fixed_list) <-
                  branch NDEBUG V st g (FindDominatingSet fuel' NDEBUG V check_resmod_depth st g)
                    (NeighbourList.slots r) s [] ;;
                foreach (restore_order fixed_list) (add_candidate NDEBUG g) s
    end.

Definition search_fuel (g : Graph.t) : nat := Z.to_nat (Graph.n g) + 3.

  (** [solve] up to the call of [FindDominatingSet]. *)
Definition solve_init (NDEBUG : bool) (V : variant) (st : settings) (s : state)
      (inst : DominationInstance) : res (state * DominationInstance) :=
    let g := sort_neighbours_descending (add_loops (G inst)) in
    let inst := mkInstance g (force_in inst) (force_out inst) in
    let n := Graph.n g in
    let c := with_D (VertexSet.reset (D (base s))) (base s) in
    c <- reset_best (GENERATE_ALL V) st (n - 1) n c ;;
    let c := with_fixed (fill 0) (with_covered (fill 0) c) in
    let c := with_total_fixed 0 (with_total_covered 0 c) in
    UD_DPQ <- DegreePQ.create NDEBUG false g ;;
    C_DPQ <- DegreePQ.create NDEBUG true g ;;
    let s := mkState c UD_DPQ C_DPQ in
    s <- foreach (VertexSet.elements (force_in inst))
           (fun s v =>
              '(_, s) <- remove_candidate NDEBUG g s v ;;
              d <- VertexSet.add NDEBUG (D (base s)) v ;;
              let s := with_base (with_D d (base s)) s in
              nb <- Graph.neighbours g v ;;
              foreach nb (dominate NDEBUG g) s) s ;;
    s <- foreach (VertexSet.elements (force_out inst))
           (fun s v => '(_, s) <- remove_candidate NDEBUG g s v ;; Ok s) s ;;
    let s := with_base (with_out [] (reset_depth_log (base s))) s in
    Ok (s, inst).

Definition solve (NDEBUG : bool) (V : variant) (st : settings) (s : state)
      (inst : DominationInstance) : res (state * DominationInstance) :=
    '(s, inst) <- solve_init NDEBUG V st s inst ;;
    s <- FindDominatingSet (search_fuel (G inst)) NDEBUG V true st (G inst) s ;;
    Ok (s, inst).

End DD.

(** ** The MDD solver variants ([bbt_mdd_variants.cpp]) *)

Module MDD.
Import Framework.
Export NeighbourList.

Inductive choose_rule : Set :=
  | CHOOSE_VERTEX_MIN_MDD | CHOOSE_VERTEX_MAX_MDD | CHOOSE_VERTEX_MIN_CD | CHOOSE_VERTEX_MAX_CD.

  (** The template parameters of [BBTMDDSolverVariant]. *)
Record variant : Type := mkVariant {
    CHOOSE_VERTEX_RULE : choose_rule;
    RANK_NEIGHBOURS_RULE : rank_rule;
    FORCE_STOP_ON_TRAPPED_VERTEX : bool;
    RECHECK_BOUNDS_IN_LOOP : bool;
    GENERATE_ALL : bool
  }.

Definition MDD_minCD_desc : variant :=
    mkVariant CHOOSE_VERTEX_MIN_CD RANK_NEIGHBOURS_DESCENDING false true false.
Definition MDD_minCD_desc_all : variant :=
    mkVariant CHOOSE_VERTEX_MIN_CD RANK_NEIGHBOURS_DESCENDING false true true.
Definition MDD_minCD_asc : variant :=
    mkVariant CHOOSE_VERTEX_MIN_CD RANK_NEIGHBOURS_ASCENDING false true false.
Definition MDD_minCD_asc_all : variant :=
    mkVariant CHOOSE_VERTEX_MIN_CD RANK_NEIGHBOURS_ASCENDING false true true.
Definition MDD_minMDD_desc : variant :=
    mkVariant CHOOSE_VERTEX_MIN_MDD RANK_NEIGHBOURS_DESCENDING false true false.
Definition MDD_minMDD_desc_all : variant :=
    mkVariant CHOOSE_VERTEX_MIN_MDD RANK_NEIGHBOURS_DESCENDING false true true.
Definition MDD_maxMDD_desc : variant :=
    mkVariant CHOOSE_VERTEX_MAX_MDD RANK_NEIGHBOURS_DESCENDING false true false.
Definition MDD_maxMDD_desc_all : variant :=
    mkVariant CHOOSE_VERTEX_MAX_MDD RANK_NEIGHBOURS_DESCENDING false true true.

Record state : Type := mkState {
    base : core;
    UndominatedDPQ : DegreePQ.t;
    CandidateNeighbours : list VertexSet.t;
    UndominatedSet : VertexSet.t;
    mdd_stack : MDDStack.t
  }.

Definition with_base (x : core) (s : state) : state :=
    mkState x (UndominatedDPQ s) (CandidateNeighbours s) (UndominatedSet s) (mdd_stack s).
Definition with_UndominatedDPQ (x : DegreePQ.t) (s : state) : state :=
    mkState (base s) x (CandidateNeighbours s) (UndominatedSet s) (mdd_stack s).
Definition with_CandidateNeighbours (x : list VertexSet.t) (s : state) : state :=
    mkState (base s) (UndominatedDPQ s) x (UndominatedSet s) (mdd_stack s).
Definition with_UndominatedSet (x : VertexSet.t) (s : state) : state :=
    mkState (base s) (UndominatedDPQ s) (CandidateNeighbours s) x (mdd_stack s).
Definition with_mdd_stack (x : MDDStack.t) (s : state) : state :=
    mkState (base s) (UndominatedDPQ s) (CandidateNeighbours s) (UndominatedSet s) x.

Definition new : state :=
    mkState new_core (DegreePQ.new false 0) [] VertexSet.new
      (MDDStack.mk 0 [] (fill (-1)) (fill 0) 0).

  (** The objects the MDDStack refers to, as they stand in [s]. *)
Definition env_of (g : Graph.t) (s : state) : MDDStack.env :=
    MDDStack.mkEnv g (CandidateNeighbours s) (UndominatedSet s) (UndominatedDPQ s).

  (** [CandidateNeighbours[u]] read and written through the vector. *)
Definition get_cn (s : state) (u : Z) : res VertexSet.t :=
    if u <? 0 then Fail UndefinedBehaviour
    else match nth_error (CandidateNeighbours s) (Z.to_nat u) with
         | Some x => Ok x
         | None => Fail UndefinedBehaviour
         end.

Definition set_cn (s : state) (u : Z) (x : VertexSet.t) : state :=
    with_CandidateNeighbours (Graph.list_set (CandidateNeighbours s) (Z.to_nat u) x) s.

Definition add_candidate (NDEBUG : bool) (g : Graph.t) (s : state) (v : Z) : res state :=
    let c := base s in
    fv <- (if NDEBUG then Ok 1 else aread MAX_VERTS (fixed c) v) ;;
    assert NDEBUG (negb (fv =? 0)) ;;;
    f <- awrite MAX_VERTS (fixed c) v 0 ;;
    let c := with_total_fixed (total_fixed c - 1) (with_fixed f c) in
    ud <- DegreePQ.add_candidate NDEBUG (UndominatedDPQ s) v ;;
    let s := with_UndominatedDPQ ud (with_base c s) in
    nb <- Graph.neighbours g v ;;
    foreach nb
      (fun s u =>
         cn <- get_cn s u ;;
         cn <- VertexSet.add NDEBUG cn v ;;
         Ok (set_cn s u cn)) s.

Definition remove_candidate (NDEBUG : bool) (g : Graph.t) (s : state) (v : Z)
    : res (bool * state) :=
    let c := base s in
    fv <- (if NDEBUG then Ok 0 else aread MAX_VERTS (fixed c) v) ;;
    assert NDEBUG (fv =? 0) ;;;
    f <- awrite MAX_VERTS (fixed c) v 1 ;;
    let c := with_total_fixed (total_fixed c + 1) (with_fixed f c) in
    ud <- DegreePQ.remove_candidate NDEBUG (UndominatedDPQ s) v ;;
    let s := with_UndominatedDPQ ud (with_base c s) in
    nb <- Graph.neighbours g v ;;
    '(forced, s) <-
      foreach nb
        (fun '(forced, s) u =>
           cn <- get_cn s u ;;
           cn <- VertexSet.remove NDEBUG cn v ;;
           let s := set_cn s u cn in
           if VertexSet.get_size cn =? 0 then
             cu <- aread MAX_VERTS (covered c) u ;;
             Ok (if cu =? 0 then true else forced, s)
           else Ok (forced, s))
        (false, s) ;;
    Ok (forced, s).

Definition dominate (NDEBUG : bool) (g : Graph.t) (s : state) (v : Z) : res state :=
    let c := base s in
    x <- aread MAX_VERTS (covered c) v ;;
    let c := with_covered (upd (covered c) v (x + 1)) c in
    if x + 1 >? 1 then Ok (with_base c s)
    else
      let c := with_total_covered (total_covered c + 1) c in
      ud <- DegreePQ.dominate NDEBUG (UndominatedDPQ s) v ;;
      us <- VertexSet.remove NDEBUG (UndominatedSet s) v ;;
      nb <- Graph.neighbours g v ;;
      ud <- foreach nb (fun ud u => '(_, ud) <- DegreePQ.decrement NDEBUG ud u ;; Ok ud) ud ;;
      Ok (with_UndominatedSet us (with_UndominatedDPQ ud (with_base c s))).

Definition undominate (NDEBUG : bool) (g : Graph.t) (s : state) (v : Z) : res state :=
    let c := base s in
    x <- aread MAX_VERTS (covered c) v ;;
    let c := with_covered (upd (covered c) v (x - 1)) c in
    if x - 1 >? 0 then Ok (with_base c s)
    else
      let c := with_total_covered (total_covered c - 1) c in
      ud <- DegreePQ.undominate NDEBUG (UndominatedDPQ s) v ;;
      us <- VertexSet.add NDEBUG (UndominatedSet s) v ;;
      nb <- Graph.neighbours g v ;;
      ud <- foreach nb (fun ud u => '(_, ud) <- DegreePQ.increment NDEBUG ud u ;; Ok ud) ud ;;
      Ok (with_UndominatedSet us (with_UndominatedDPQ ud (with_base c s))).

Definition add_vertex_to_set (NDEBUG : bool) (g : Graph.t)
      (rec : state -> res (Z * state))
      (s : state) (j : Z) (fixed_list : list Z) : res (bool * state * list Z) :=
    '(forced, s) <- remove_candidate NDEBUG g s j ;;
    let fixed_list := fixed_list ++ [j] in
    d <- VertexSet.add NDEBUG (D (base s)) j ;;
    let s := with_base (with_D d (base s)) s in
    nb <- Graph.neighbours g j ;;
    s <- foreach nb (dominate NDEBUG g) s ;;
    m <- MDDStack.add_dominator NDEBUG (env_of g s) (mdd_stack s) j ;;
    let s := with_mdd_stack m s in
    '(r, s) <- rec s ;;
    let forced := if r =? 0 then true else forced in
    m <- MDDStack.remove_dominator NDEBUG (mdd_stack s) j ;;
    let s := with_mdd_stack m s in
    s <- foreach (rev nb) (undominate NDEBUG g) s ;;
    d <- VertexSet.remove_pop NDEBUG (D (base s)) j ;;
    let s := with_base (with_D d (base s)) s in
    m <- MDDStack.exclude_dominator NDEBUG (env_of g s) (mdd_stack s) j ;;
    Ok (forced, with_mdd_stack m s, fixed_list).

  (** The comparisons of [evaluate_bounds] once [min_vertices_needed]
      is known: 0 is fatal, -1 potentially not fatal, 1 within bounds. *)
Definition bounds_result (GENERATE_ALL : bool) (st : settings) (c : core) (n min_vertices_needed : Z)
    : Z :=
    if min_vertices_needed >=? MAX_VERTS then 0
    else
      let min_total_size := VertexSet.get_size (D c) + min_vertices_needed in
      if GENERATE_ALL then
        if n - total_fixed c + 1 <? min_vertices_needed then 0
        else if n - total_fixed c + 1 =? min_vertices_needed then -1
        else if to_unsigned min_total_size >? total_upper_bound st then -1
        else 1
      else
        if n - total_fixed c + 1 <? min_vertices_needed then 0
        else if n - total_fixed c + 1 =? min_vertices_needed then -1
        else if min_total_size >=? VertexSet.get_size (B c) then -1
        else 1.

Definition evaluate_bounds (V : variant) (st : settings) (g : Graph.t) (s : state) : res Z :=
    let n := Graph.n g in
    min_vertices_needed <- MDDStack.min_vertices_needed (mdd_stack s) ;;
    Ok (bounds_result (GENERATE_ALL V) st (base s) n min_vertices_needed).

Definition rank_neighbours (NDEBUG : bool) (V : variant) (g : Graph.t) (s : state) (v : Z)
    : res (list Z * Z) :=
    _ <- Graph.get g v ;;
    max_degree <- DegreePQ.get_max_degree (UndominatedDPQ s) ;;
    l <- NeighbourList.empty max_degree ;;
    cn <- get_cn s v ;;
    l <- foreach (VertexSet.elements cn)
           (fun l u =>
              uncovered_deg <- DegreePQ.ranked_degree (UndominatedDPQ s) u ;;
              NeighbourList.insert l u uncovered_deg) l ;;
    NeighbourList.output NDEBUG (RANK_NEIGHBOURS_RULE V) l.

Definition choose_next_vertex (NDEBUG : bool) (V : variant) (g : Graph.t) (s : state) : res Z :=
    match CHOOSE_VERTEX_RULE V with
    | CHOOSE_VERTEX_MIN_MDD => MDDStack.get_min_mdd_vertex NDEBUG (env_of g s) (mdd_stack s)
    | CHOOSE_VERTEX_MAX_MDD => MDDStack.get_max_mdd_vertex NDEBUG (env_of g s) (mdd_stack s)
    | CHOOSE_VERTEX_MIN_CD =>
        '(min_cd_vertex, _) <-
          foreach (VertexSet.elements (UndominatedSet s))
            (fun '(min_cd_vertex, min_cd) v =>
               cn <- get_cn s v ;;
               Ok (if VertexSet.get_size cn <? min_cd
                   then (v, VertexSet.get_size cn) else (min_cd_vertex, min_cd)))
            (INVALID_VERTEX, MAX_VERTS) ;;
        assert NDEBUG (negb (min_cd_vertex =? INVALID_VERTEX)) ;;;
        Ok min_cd_vertex
    | CHOOSE_VERTEX_MAX_CD =>
        '(max_cd_vertex, _) <-
          foreach (VertexSet.elements (UndominatedSet s))
            (fun '(max_cd_vertex, max_cd) v =>
               cn <- get_cn s v ;;
               Ok (if VertexSet.get_size cn >? max_cd
                   then (v, VertexSet.get_size cn) else (max_cd_vertex, max_cd)))
            (INVALID_VERTEX, 0) ;;
        assert NDEBUG (negb (max_cd_vertex =? INVALID_VERTEX)) ;;;
        Ok max_cd_vertex
    end.

  (** [for(int q = num_fixed - 1; q >= 0; q--)] visits [fixed_list[q]]. *)
Definition restore_order (fixed_list : list Z) : list Z :=
    map (fun q => nth q fixed_list 0) (rev (seq 0 (length fixed_list))).

  (** The body of the restoring loop. *)
Definition restore (NDEBUG : bool) (g : Graph.t) (s : state) (v : Z) : res state :=
    m <- MDDStack.unexclude_dominator NDEBUG (mdd_stack s) v ;;
    add_candidate NDEBUG g (with_mdd_stack m s) v.

  (** The branching loop over [array_range(neighbour_array, neighbour_count)]. *)
Fixpoint branch (NDEBUG : bool) (V : variant) (st : settings) (g : Graph.t)
      (rec : state -> res (Z * state))
      (slots : list (option Z)) (s : state) (fixed_list : list Z) : res (state * list Z) :=
    match slots with
    | [] => Ok (s, fixed_list)
    | None :: _ => Fail UndefinedBehaviour
    | Some j :: slots' =>
        '(force_stop, s, fixed_list) <- add_vertex_to_set NDEBUG g rec s j fixed_list ;;
        if FORCE_STOP_ON_TRAPPED_VERTEX V && force_stop then Ok (s, fixed_list)
        else
          b <- (if RECHECK_BOUNDS_IN_LOOP V then evaluate_bounds V st g s else Ok 1) ;;
          if negb (b =? 1) then Ok (s, fixed_list)
          else branch NDEBUG V st g rec slots' s fixed_list
    end.

Fixpoint FindDominatingSet (fuel : nat) (NDEBUG : bool) (V : variant) (check_resmod_depth : bool)
      (st : settings) (g : Graph.t) (s : state) {struct fuel} : res (Z * state) :=
    match fuel with
    | O => Fail OutOfFuel
    | S fuel' =>
        '(resmod_check, c) <-
          report_node NDEBUG check_resmod_depth st (base s) (VertexSet.get_size (D (base s))) ;;
        if resmod_check =? 0 then Ok (1, with_base c s)
        else if check_resmod_depth && (resmod_check =? 1) then
          c <- unreport_node c (VertexSet.get_size (D c)) ;;
          FindDominatingSet fuel' NDEBUG V false st g (with_base c s)
        else
          let s := with_base c s in
          let n := Graph.n g in
          if total_covered c =? n
          then Ok (1, with_base (record_solution (GENERATE_ALL V) st c) s)
          else
            bound_result <- evaluate_bounds V st g s ;;
            if negb (bound_result =? 1) then Ok (bound_result, s)
            else
              i <- choose_next_vertex NDEBUG V g s ;;
              assert NDEBUG (negb (i =? INVALID_VERTEX)) ;;;
              r <- rank_neighbours NDEBUG V g s i ;;
              '(s, fixed_list) <-
                branch NDEBUG V st g (FindDominatingSet fuel' NDEBUG V check_resmod_depth st g)
                  (NeighbourList.slots r) s [] ;;
              s <- foreach (restore_order fixed_list) (restore NDEBUG g) s ;;
              Ok (1, s)
    end.

Definition search_fuel (g : Graph.t) : nat := Z.to_nat (Graph.n g) + 3.

  (** [solve] up to the call of [FindDominatingSet].  [max_mdd0] is the
      indeterminate initial value of the member [max_mdd] of the
      MDDStack allocated by [new]. *)
Definition solve_init (NDEBUG : bool) (V : variant) (st : settings) (max_mdd0 : Z) (s : state)
      (inst : DominationInstance) : res (state * DominationInstance) :=
    let g := sort_neighbours_descending (add_loops (G inst)) in
    let inst := mkInstance g (force_in inst) (force_out inst) in
    let n := Graph.n g in
    let c := with_D (VertexSet.reset (D (base s))) (base s) in
    c <- reset_best (GENERATE_ALL V) st (n - 1) n c ;;
    let c := with_fixed (fill 0) (with_covered (fill 0) c) in
    let c := with_total_fixed 0 (with_total_covered 0 c) in
    us <- VertexSet.reset_full (UndominatedSet s) n ;;
    cns <- foreach (Graph.vertices g)
             (fun cns v =>
                cn <- foreach (Graph._neighbours v) (VertexSet.add NDEBUG) VertexSet.new ;;
                Ok (cns ++ [cn])) [] ;;
    UD_DPQ <- DegreePQ.create NDEBUG false g ;;
    let s := mkState c UD_DPQ cns us (mdd_stack s) in
    m <- MDDStack.create max_mdd0 (env_of g s) ;;
    let s := with_mdd_stack m s in
    s <- foreach (VertexSet.elements (force_in inst))
           (fun s v =>
              '(_, s) <- remove_candidate NDEBUG g s v ;;
              d <- VertexSet.add NDEBUG (D (base s)) v ;;
              let s := with_base (with_D d (base s)) s in
              nb <- Graph.neighbours g v ;;
              s <- foreach nb (dominate NDEBUG g) s ;;
              m <- MDDStack.add_dominator NDEBUG (env_of g s) (mdd_stack s) v ;;
              Ok (with_mdd_stack m s)) s ;;
    s <- foreach (VertexSet.elements (force_out inst))
           (fun s v =>
              '(_, s) <- remove_candidate NDEBUG g s v ;;
              m <- MDDStack.exclude_dominator NDEBUG (env_of g s) (mdd_stack s) v ;;
              Ok (with_mdd_stack m s)) s ;;
    let s := with_base (with_out [] (reset_depth_log (base s))) s in
    Ok (s, inst).

Definition solve (NDEBUG : bool) (V : variant) (st : settings) (max_mdd0 : Z) (s : state)
      (inst : DominationInstance) : res (state * DominationInstance) :=
    '(s, inst) <- solve_init NDEBUG V st max_mdd0 s inst ;;
    '(_, s) <- FindDominatingSet (search_fuel (G inst)) NDEBUG V true st (G inst) s ;;
    Ok (s, inst).

End MDD.

(** ** The solver registry ([REGISTER_SOLVER]) and [Solver::solve]

    A registered solver is a template instance together with the object
    the factory makes; [solve] dispatches on it as the virtual call
    [C.solver->solve(inst, *C.output_proxy)] does. *)

Module Registry.
Import Framework.

Inductive solver : Type :=
  | FixedOrderSolver (GENERATE_ALL : bool) (s : FixedOrder.state)
  | DDSolver (V : DD.variant) (s : DD.state)
  | MDDSolver (V : MDD.variant) (max_mdd0 : Z) (s : MDD.state).

Definition generate_all (sv : solver) : bool :=
    match sv with
    | FixedOrderSolver GA _ => GA
    | DDSolver V _ => DD.GENERATE_ALL V
    | MDDSolver V _ _ => MDD.GENERATE_ALL V
    end.

Definition base (sv : solver) : core :=
    match sv with
    | FixedOrderSolver _ s => FixedOrder.base s
    | DDSolver _ s => DD.base s
    | MDDSolver _ _ s => MDD.base s
    end.

Definition solve_init (NDEBUG : bool) (st : settings) (sv : solver) (inst : DominationInstance)
    : res (solver * DominationInstance) :=
    match sv with
    | FixedOrderSolver GA s =>
        '(s, inst) <- FixedOrder.solve_init NDEBUG GA st s inst ;; Ok (FixedOrderSolver GA s, inst)
    | DDSolver V s =>
        '(s, inst) <- DD.solve_init NDEBUG V st s inst ;; Ok (DDSolver V s, inst)
    | MDDSolver V m s =>
        '(s, inst) <- MDD.solve_init NDEBUG V st m s inst ;; Ok (MDDSolver V m s, inst)
    end.

Definition solve (NDEBUG : bool) (st : settings) (sv : solver) (inst : DominationInstance)
    : res (solver * DominationInstance) :=
    match sv with
    | FixedOrderSolver GA s =>
        '(s, inst) <- FixedOrder.solve NDEBUG GA st s inst ;; Ok (FixedOrderSolver GA s, inst)
    | DDSolver V s =>
        '(s, inst) <- DD.solve NDEBUG V st s inst ;; Ok (DDSolver V s, inst)
    | MDDSolver V m s =>
        '(s, inst) <- MDD.solve NDEBUG V st m s inst ;; Ok (MDDSolver V m s, inst)
    end.

  (** The sets handed to the output proxy, and the final best set. *)
Definition emitted (sv : solver) : list VertexSet.t := out (base sv).
Definition best (sv : solver) : VertexSet.t := B (base sv).

Local Open Scope string_scope.

  (** The solvers registered by the three files (aliases included); the
      MDDStack of a fresh MDD solver is allocated by [solve], and its
      indeterminate [max_mdd] is taken to be 0 here. *)
Definition registered : list (string * solver) :=
    [ ("fixed_order", FixedOrderSolver false FixedOrder.new);
      ("fixed_order_all", FixedOrderSolver true FixedOrder.new);
      ("DD_minCD_asc", DDSolver DD.DD_minCD_asc DD.new);
      ("DD_minCD_asc_all", DDSolver DD.DD_minCD_asc_all DD.new);
      ("DD_minCD_desc", DDSolver DD.DD_minCD_desc DD.new);
      ("DD_minCD_desc_all", DDSolver DD.DD_minCD_desc_all DD.new);
      ("DD", DDSolver DD.DD_minCD_asc DD.new);
      ("DD_all", DDSolver DD.DD_minCD_asc_all DD.new);
      ("MDD_minCD_desc", MDDSolver MDD.MDD_minCD_desc 0 MDD.new);
      ("MDD_minCD_desc_all", MDDSolver MDD.MDD_minCD_desc_all 0 MDD.new);
      ("MDD_minCD_asc", MDDSolver MDD.MDD_minCD_asc 0 MDD.new);
      ("MDD_minCD_asc_all", MDDSolver MDD.MDD_minCD_asc_all 0 MDD.new);
      ("MDD_minMDD_desc", MDDSolver MDD.MDD_minMDD_desc 0 MDD.new);
      ("MDD_minMDD_desc_all", MDDSolver MDD.MDD_minMDD_desc_all 0 MDD.new);
      ("MDD_maxMDD_desc", MDDSolver MDD.MDD_maxMDD_desc 0 MDD.new);
      ("MDD_maxMDD_desc_all", MDDSolver MDD.MDD_maxMDD_desc_all 0 MDD.new);
      ("MDD", MDDSolver MDD.MDD_minCD_desc 0 MDD.new);
      ("MDD_all", MDDSolver MDD.MDD_minCD_desc_all 0 MDD.new) ].

  (** The registered solvers that run in optimization mode. *)
Definition optimizers : list (string * solver) :=
    filter (fun p => negb (generate_all (snd p))) registered.

End Registry.

(** ** Preprocessing filters ([force_filters.cpp]) and the basic input
    source ([basic_io.cpp]) *)

Module Filters.
Import Framework.

  (** [ForceInFilter::process]; [vertices] are the indices given on the
      command line. *)
Definition force_in_process (NDEBUG : bool) (vertices : list Z) (inst : DominationInstance)
    : res DominationInstance :=
    let n := Graph.n (G inst) in
    foreach vertices
      (fun inst v =>
         if (v <? 0) || (v >=? n) then Fail ConfigurableError
         else
           c <- VertexSet.contains (force_in inst) v ;;
           if negb c then
             s <- VertexSet.add NDEBUG (force_in inst) v ;;
             Ok (mkInstance (G inst) s (force_out inst))
           else Ok inst)
      inst.

  (** [ForceOutFilter::process] *)
Definition force_out_process (NDEBUG : bool) (vertices : list Z) (inst : DominationInstance)
    : res DominationInstance :=
    let n := Graph.n (G inst) in
    foreach vertices
      (fun inst v =>
         if (v <? 0) || (v >=? n) then Fail ConfigurableError
         else
           c <- VertexSet.contains (force_out inst) v ;;
           if negb c then
             s <- VertexSet.add NDEBUG (force_out inst) v ;;
             Ok (mkInstance (G inst) (force_in inst) s)
           else Ok inst)
      inst.

  (** [SimpleGraphInputSource::read_next] on the stream [f]. *)
Definition read_next (f : GraphIO.stream) (inst : DominationInstance)
    : res (bool * DominationInstance * GraphIO.stream) :=
    let fin := VertexSet.reset_empty (force_in inst) in
    let fout := VertexSet.reset_empty (force_out inst) in
    '(ok, g, f') <- GraphIO.read_graph f (G inst) ;;
    Ok (ok, mkInstance g fin fout, f').

End Filters.

(** ** Notions used to state the properties *)

(** [frame c c']: the step from [c] to [c'] touched neither [B] nor the
    output. *)
Definition frame (c c' : Framework.core) : Prop := Framework.B c' = Framework.B c /\ Framework.out c' = Framework.out c.

(** [improves c c']: the sets handed over between [c] and [c'] are each
    strictly smaller than the ones before, all of them are smaller than
    the best set at [c], and the best set at [c'] is the last of them. *)
Definition improves (c c' : Framework.core) : Prop :=
  exists new : list VertexSet.t,
    Framework.out c' = Framework.out c ++ new /\
    StronglySorted Z.gt (map VertexSet.get_size new) /\
    Forall (fun e => VertexSet.get_size (Framework.B c') <= VertexSet.get_size e
                     /\ VertexSet.get_size e < VertexSet.get_size (Framework.B c)) new /\
    VertexSet.get_size (Framework.B c') <= VertexSet.get_size (Framework.B c) /\
    Framework.B c' = last new (Framework.B c).


(** The same, on the states of the DD and MDD solvers. *)
Definition dd_frame (s s' : DD.state) : Prop := frame (DD.base s) (DD.base s').

Definition mdd_frame (s s' : MDD.state) : Prop := frame (MDD.base s) (MDD.base s').

(** The pruning condition of the bounds check, as the design states it:
    with [min_total = |D| + min_needed], the subtree is pruned in
    generation mode when [min_total > upper_bound] or
    [n - total_fixed < min_needed], and in optimization mode when
    [min_total >= |B|] or [n - total_fixed < min_needed]. *)
Definition bounds_violated (GENERATE_ALL : bool) (st : Framework.settings) (c : Framework.core)
    (n min_needed : Z) : Prop :=
  let min_total := VertexSet.get_size (Framework.D c) + min_needed in
  if GENERATE_ALL
  then min_total > Framework.total_upper_bound st \/ n - Framework.total_fixed c < min_needed
  else min_total >= VertexSet.get_size (Framework.B c) \/ n - Framework.total_fixed c < min_needed.

(** *** The greedy estimate of [count_minimum_to_dominate]

    The design walks the rank nodes from the highest rank to the lowest;
    at a rank [d] with [u] unfixed members it either consumes
    [ceil(m/d)] vertices and stops (when [ceil(m/d) <= u]) or consumes
    all [u] and subtracts [d*u] from [m]; reaching rank 0 or the end of
    the list with [m > 0] is "infinity" ([MAX_VERTS + 1]). *)
Definition ceil_div (m d : Z) : Z := - ((- m) / d).

Fixpoint greedy_estimate (ranks : list (Z * Z)) (m : Z) : option Z :=
  match ranks with
  | [] => None
  | (d, u) :: rest =>
      if d =? 0 then None
      else if ceil_div m d <=? u then Some (ceil_div m d)
      else option_map (Z.add u) (greedy_estimate rest (m - d * u))
  end.

Definition greedy_result (ranks : list (Z * Z)) (m : Z) : Z :=
  match greedy_estimate ranks m with
  | Some count => count
  | None => MAX_VERTS + 1
  end.

(** [rank_list q bound node ranks]: following [prev] from [node] visits
    rank nodes at strictly decreasing positions below [bound], whose
    ([deg], [unfixed_count]) pairs are [ranks], and ends at the sentinel
    [head_tail]. *)
Inductive rank_list (q : DegreePQ.t) : Z -> DegreePQ.nref -> list (Z * Z) -> Prop :=
| rank_list_end (bound : Z) : rank_list q bound DegreePQ.NHeadTail []
| rank_list_node (bound i : Z) (nd : DegreePQ.PQNode.t) (ranks : list (Z * Z)) :
    0 <= i < bound ->
    aread MAX_VERTS (DegreePQ.nodes q) i = Ok nd ->
    rank_list q i (DegreePQ.PQNode.prev nd) ranks ->
    rank_list q bound (DegreePQ.NNode i)
      ((DegreePQ.PQNode.deg nd, DegreePQ.PQNode.unfixed_count nd) :: ranks).

(** *** MDDStack: what a paired pop restores *)

(** Two arrays with the same contents. *)
Definition same_array (a b : array Z) : Prop := forall i, a i = b i.

(** [same_mdd s s']: [mdd_values], [mdd_counts], [max_mdd] and the
    stack of rows of [s'] are those of [s]. *)
Definition same_mdd (s s' : MDDStack.t) : Prop :=
  same_array (MDDStack.mdd_values s) (MDDStack.mdd_values s') /\
  same_array (MDDStack.mdd_counts s) (MDDStack.mdd_counts s') /\
  MDDStack.max_mdd s = MDDStack.max_mdd s' /\
  MDDStack.stack s = MDDStack.stack s'.

(** The state the class maintains between calls: [max_mdd] is not
    negative, no valid MDD exceeds it, and its bucket is not empty
    unless it is 0. *)
Definition mdd_tight (s : MDDStack.t) : Prop :=
  0 <= MDDStack.max_mdd s /\
  (forall u, in_bounds MAX_VERTS u = true ->
             MDDStack.mdd_values s u <> MDDStack.INVALID_MDD ->
             MDDStack.mdd_values s u <= MDDStack.max_mdd s) /\
  (0 < MDDStack.max_mdd s -> 0 < MDDStack.mdd_counts s (MDDStack.max_mdd s)).

(** Properly paired calls: every [add_dominator] is undone by the
    matching [remove_dominator], every [exclude_dominator] by the
    matching [unexclude_dominator], last in first out. *)
Inductive lifo_paired (NDEBUG : bool) : MDDStack.t -> MDDStack.t -> Prop :=
| lifo_done (s : MDDStack.t) : lifo_paired NDEBUG s s
| lifo_add (e : MDDStack.env) (v : Z) (s s1 s2 s3 s4 : MDDStack.t) :
    mdd_tight s ->
    MDDStack.add_dominator NDEBUG e s v = Ok s1 ->
    lifo_paired NDEBUG s1 s2 ->
    MDDStack.remove_dominator NDEBUG s2 v = Ok s3 ->
    lifo_paired NDEBUG s3 s4 ->
    lifo_paired NDEBUG s s4
| lifo_exclude (e : MDDStack.env) (v : Z) (s s1 s2 s3 s4 : MDDStack.t) :
    mdd_tight s ->
    MDDStack.exclude_dominator NDEBUG e s v = Ok s1 ->
    lifo_paired NDEBUG s1 s2 ->
    MDDStack.unexclude_dominator NDEBUG s2 v = Ok s3 ->
    lifo_paired NDEBUG s3 s4 ->
    lifo_paired NDEBUG s s4.

(** [pushed s u old new s']: [s'] is [s] after the MDD of [u] went from
    [old] to [new] and the entry [(u, old)] was stacked on the top row. *)
Definition pushed (s : MDDStack.t) (u old new : Z) (s' : MDDStack.t) : Prop :=
  in_bounds MAX_VERTS u = true /\
  in_bounds MAX_VERTS old = true /\
  (new = MDDStack.INVALID_MDD \/ in_bounds MAX_VERTS new = true) /\
  old = MDDStack.mdd_values s u /\
  exists row rest,
    MDDStack.stack s = row :: rest /\
    s' = MDDStack.mk (MDDStack.n s)
           (MDDStack.mkRow (MDDStack.mkEntry u old :: MDDStack.entries row)
              (MDDStack.dominator row) :: rest)
           (upd (MDDStack.mdd_values s) u new)
           (let c1 := upd (MDDStack.mdd_counts s) old (MDDStack.mdd_counts s old - 1) in
            if new =? MDDStack.INVALID_MDD then c1 else upd c1 new (c1 new + 1))
           (MDDStack.max_mdd s).

(** [pushes ok s0 es s]: [s] is [s0] after the entries [es] (most recent
    first) were stacked, each for a vertex still at its MDD of [s0];
    [ok old new] holds of every change. *)
Inductive pushes (ok : Z -> Z -> Prop) (s0 : MDDStack.t) : list MDDStack.StackEntry -> MDDStack.t -> Prop :=
| pushes_nil : pushes ok s0 [] s0
| pushes_cons (es : list MDDStack.StackEntry) (s s' : MDDStack.t) (u new : Z) :
    pushes ok s0 es s ->
    ok (MDDStack.mdd_values s0 u) new ->
    pushed s u (MDDStack.mdd_values s0 u) new s' ->
    pushes ok s0 (MDDStack.mkEntry u (MDDStack.mdd_values s0 u) :: es) s'.

(** [highest_new_mdd] after the entries [es] were popped. *)
Definition highest (es : list MDDStack.StackEntry) (h : Z) : Z :=
  fold_left (fun h e => Z.max h (MDDStack.old_mdd e)) es h.

(** Same [mdd_values] and [mdd_counts]. *)
Definition same_tables (s s' : MDDStack.t) : Prop :=
  same_array (MDDStack.mdd_values s) (MDDStack.mdd_values s') /\
  same_array (MDDStack.mdd_counts s) (MDDStack.mdd_counts s').

(** A change the second loops make: to a valid MDD, a lower one in a
    build with assertions. *)
Definition strict_change (NDEBUG : bool) (old new : Z) : Prop :=
  (NDEBUG = true \/ new < old) /\ in_bounds MAX_VERTS new = true.

(** A change [add_dominator] makes. *)
Definition add_change (NDEBUG : bool) (old new : Z) : Prop :=
  new = MDDStack.INVALID_MDD \/ strict_change NDEBUG old new.

(** During the first loop of [add_dominator] an MDD is the one of [s0]
    or was invalidated. *)
Definition cleared_from (s0 s : MDDStack.t) : Prop :=
  forall i, MDDStack.mdd_values s i = MDDStack.mdd_values s0 i \/
            MDDStack.mdd_values s i = MDDStack.INVALID_MDD.

(** During the second loop it may also be the recomputed one. *)
Definition refreshed_from (e : MDDStack.env) (s0 s : MDDStack.t) : Prop :=
  forall i, MDDStack.mdd_values s i = MDDStack.mdd_values s0 i \/
            MDDStack.mdd_values s i = MDDStack.INVALID_MDD \/
            MDDStack.recompute_mdd e i = Ok (MDDStack.mdd_values s i).

(** [mdd_tight], decided. *)
Definition mdd_tightb (s : MDDStack.t) : bool :=
  (0 <=? MDDStack.max_mdd s) &&
  forallb (fun u => (MDDStack.mdd_values s u =? MDDStack.INVALID_MDD) ||
                    (MDDStack.mdd_values s u <=? MDDStack.max_mdd s))
          (zrange 0 (Z.to_nat MAX_VERTS)) &&
  ((MDDStack.max_mdd s <=? 0) || (0 <? MDDStack.mdd_counts s (MDDStack.max_mdd s))).

(** *** The text format *)

(** The neighbours of one line, as [write_graph] writes them. *)
Definition write_neighbours (l : list Z) : GraphIO.stream :=
  flat_map (fun u => GraphIO.write_int u ++ [GraphIO.sp]) l.

(** White space only. *)
Definition spaces (w : GraphIO.stream) : Prop := Forall (fun c => GraphIO.isspace c = true) w.

(** The format's constraints on a vertex: degree below [MAX_DEGREE],
    every neighbour index in [0, MAX_DEGREE). *)
Definition vertex_fits (v : Graph.Vertex) : Prop :=
  Graph.deg v < MAX_DEGREE /\ Forall (fun u => 0 <= u < MAX_DEGREE) (Graph._neighbours v).

(** *** rank_neighbours *)

(** A candidate is a pair (vertex, uncovered degree).  The candidates
    of the DD variants: the unfixed neighbours in the order of
    [G[v].neighbours()], each with its rank in [UndominatedDPQ]. *)
Definition dd_candidates (s : DD.state) (nb : list Z) : res (list (Z * Z)) :=
  foreach nb
    (fun acc u =>
       fu <- aread MAX_VERTS (Framework.fixed (DD.base s)) u ;;
       if negb (fu =? 0) then Ok acc
       else d <- DegreePQ.ranked_degree (DD.UndominatedDPQ s) u ;; Ok (acc ++ [(u, d)])) [].

(** The candidates of the MDD variants: the members of
    [CandidateNeighbours[v]] in the order of the set. *)
Definition mdd_candidates (s : MDD.state) (members : list Z) : res (list (Z * Z)) :=
  foreach members
    (fun acc u =>
       d <- DegreePQ.ranked_degree (MDD.UndominatedDPQ s) u ;; Ok (acc ++ [(u, d)])) [].

Definition by_degree (a b : Z * Z) : Prop := snd a <= snd b.

(** [sorted] is [cands] sorted by uncovered degree ascending, ties in
    the order of [cands]. *)
Definition stable_ascending (cands sorted : list (Z * Z)) : Prop :=
  Permutation cands sorted /\
  StronglySorted by_degree sorted /\
  forall d, filter (fun p => snd p =? d) sorted = filter (fun p => snd p =? d) cands.

(** What is handed to the branching loop. *)
Definition ranked_output (rule : NeighbourList.rank_rule) (sorted : list (Z * Z)) : list Z :=
  map fst
    (match rule with
     | NeighbourList.RANK_NEIGHBOURS_ASCENDING => sorted
     | NeighbourList.RANK_NEIGHBOURS_DESCENDING => rev sorted
     end).

(** Insertion behind every candidate of degree at most that of [p]. *)
Fixpoint stable_insert (p : Z * Z) (l : list (Z * Z)) : list (Z * Z) :=
  match l with
  | [] => [p]
  | x :: r => if snd x <=? snd p then x :: stable_insert p r else p :: l
  end.

(** The ring as candidates. *)
Definition view (chain : list NeighbourList.NeighbourListNode) : list (Z * Z) :=
  map (fun x => (NeighbourList.u x, NeighbourList.deg x)) chain.

Definition node_le (a b : NeighbourList.NeighbourListNode) : Prop :=
  NeighbourList.deg a <= NeighbourList.deg b.

(** The last node of degree [d] in the ring. *)
Fixpoint last_with (d : Z) (l : list NeighbourList.NeighbourListNode) : option nat :=
  match l with
  | [] => None
  | x :: r =>
      match last_with d r with
      | Some i => Some i
      | None => if NeighbourList.deg x =? d then Some (NeighbourList.id x) else None
      end
  end.

(** The ring between two insertions: nodes are numbered as they were
    taken from [all_nodes], the ring ascends, [degrees[d]] is the last
    node of degree [d]. *)
Definition ring_inv (l : NeighbourList.t) : Prop :=
  NeighbourList.neighbour_count l = Z.of_nat (length (NeighbourList.chain l)) /\
  NoDup (map NeighbourList.id (NeighbourList.chain l)) /\
  Forall (fun x => (NeighbourList.id x < length (NeighbourList.chain l))%nat)
         (NeighbourList.chain l) /\
  StronglySorted node_le (NeighbourList.chain l) /\
  forall d, NeighbourList.degrees l d = last_with d (NeighbourList.chain l).

(** *** The calls of the branching loop *)

(** [loop_calls call s fixed_list js s' fixed_list']: from state [s]
    with the vertices [fixed_list] banned so far, [add_vertex_to_set]
    (passed as [call]) ran on the vertices [js], one after the other in
    this order, every call appending its vertex to the list, and left
    state [s'] and the list [fixed_list']. *)
Inductive loop_calls {S : Type} (call : S -> Z -> list Z -> res (bool * S * list Z))
  : S -> list Z -> list Z -> S -> list Z -> Prop :=
| loop_calls_done (s : S) (fixed_list : list Z) : loop_calls call s fixed_list [] s fixed_list
| loop_calls_next (s : S) (fixed_list : list Z) (j : Z) (force_stop : bool) (s1 : S)
    (js : list Z) (s' : S) (fixed_list' : list Z) :
    call s j fixed_list = Ok (force_stop, s1, fixed_list ++ [j]) ->
    loop_calls call s1 (fixed_list ++ [j]) js s' fixed_list' ->
    loop_calls call s fixed_list (j :: js) s' fixed_list'.

(** ** Small instances *)

Module Examples.

(** The graph with the given adjacency lists, as [Graph::reset] and
    [push_back] build it. *)
Definition graph_of (adj : list (list Z)) : Graph.t :=
  Graph.mkGraph
    (map (fun p => Graph.mkVertex (snd p) (fst p) (fst p))
       (combine (zrange 0 (length adj)) adj)).

(** An instance without forced vertices, as [basic_input] reads it. *)
Definition instance_of (adj : list (list Z)) : Framework.DominationInstance :=
  Framework.mkInstance (graph_of adj) VertexSet.new VertexSet.new.

(** The single vertex, the path on three and on six vertices. *)
Definition K1 : list (list Z) := [[]].
Definition P3 : list (list Z) := [[1]; [0; 2]; [1]].
Definition P6 : list (list Z) := [[1]; [0; 2]; [1; 3]; [2; 4]; [3; 5]; [4]].

(** The cycle on six vertices. *)
Definition Cycle6 : list (list Z) := [[1; 5]; [0; 2]; [1; 3]; [2; 4]; [3; 5]; [4; 0]].

(** The MDD solver on [P6] at the root, when [add_vertex_to_set(1)] is
    about to call [add_dominator(1)]: the environment and the stack. *)
Definition P6_before_add : res (MDDStack.env * MDDStack.t) :=
  '(s, inst) <- MDD.solve_init false MDD.MDD_minCD_desc Framework.default_settings 0
                  MDD.new (instance_of P6) ;;
  let g := Framework.G inst in
  '(_, s) <- MDD.remove_candidate false g s 1 ;;
  nb <- Graph.neighbours g 1 ;;
  s <- foreach nb (MDD.dominate false g) s ;;
  Ok (MDD.env_of g s, MDD.mdd_stack s).

End Examples.

(** *** Whole runs *)

(** The sets a solver hands to the output proxy on the instance with
    the given adjacency lists, under the default settings. *)
Definition emitted_by (NDEBUG : bool) (sv : Registry.solver) (adj : list (list Z))
  : res (list (list Z)) :=
  '(sv', _) <- Registry.solve NDEBUG Framework.default_settings sv (Examples.instance_of adj) ;;
  Ok (map VertexSet.elements (Registry.emitted sv')).

(** The best set [B] when the solver returns. *)
Definition best_by (NDEBUG : bool) (sv : Registry.solver) (adj : list (list Z)) : res (list Z) :=
  '(sv', _) <- Registry.solve NDEBUG Framework.default_settings sv (Examples.instance_of adj) ;;
  Ok (VertexSet.elements (Registry.best sv')).

(** What [OutputProxyOutputBest::finalize] prints after the run. *)
Definition reported_by (NDEBUG : bool) (sv : Registry.solver) (adj : list (list Z))
  : res (list Z) :=
  '(sv', inst) <- Registry.solve NDEBUG Framework.default_settings sv (Examples.instance_of adj) ;;
  b <- Framework.output_best_run VertexSet.new inst (Registry.emitted sv') ;;
  Ok (VertexSet.elements b).

(** [D] dominates the graph with the given adjacency lists. *)
Definition dominating (adj : list (list Z)) (D : list Z) : bool :=
  forallb (fun p => existsb (fun d => (d =? fst p) || existsb (Z.eqb d) (snd p)) D)
          (combine (zrange 0 (length adj)) adj).

(** ** Notions for the properties of the search *)

(** The number of positive entries among the indices of [l]. *)
Fixpoint count_pos (a : array Z) (l : list Z) : nat :=
  match l with
  | [] => 0%nat
  | k :: l' => ((if a k >? 0 then 1 else 0) + count_pos a l')%nat
  end.

(** The number of array entries that are positive. *)
Definition pos_count (a : array Z) : Z :=
  Z.of_nat (count_pos a (zrange 0 (Z.to_nat MAX_VERTS))).

(** [k] is in the neighbour list of a member. *)
Definition covers (g : Graph.t) (members : list Z) (k : Z) : Prop :=
  exists j nb, In j members /\ Graph.neighbours g j = Ok nb /\ In k nb.

(** Every vertex is in the neighbour list of a member. *)
Definition dominates (g : Graph.t) (members : list Z) : Prop :=
  forall k, 0 <= k < Graph.n g -> covers g members k.

(** Every neighbour is a vertex of the graph. *)
Definition closed (g : Graph.t) : Prop :=
  Forall (fun v => Forall (fun u => 0 <= u < Graph.n g) (Graph._neighbours v)) (Graph.vertices g).

(** What the counters [covered] and [total_covered] mean. *)
Definition cover_inv (g : Graph.t) (c : Framework.core) : Prop :=
  (forall k, Framework.covered c k > 0 ->
             covers g (VertexSet.elements (Framework.D c)) k) /\
  Framework.total_covered c = pos_count (Framework.covered c).

(** [D] and the cover counters are as they were. *)
Definition cover_restored (c c' : Framework.core) : Prop :=
  VertexSet.size (Framework.D c') = VertexSet.size (Framework.D c) /\
  VertexSet.elements (Framework.D c') = VertexSet.elements (Framework.D c) /\
  (forall k, Framework.covered c' k = Framework.covered c k) /\
  Framework.total_covered c' = Framework.total_covered c.

(** The marks of the banned vertices are as they were. *)
Definition fixed_restored (c c' : Framework.core) : Prop :=
  (forall k, Framework.fixed c' k = Framework.fixed c k) /\
  Framework.total_fixed c' = Framework.total_fixed c.

(** The sets handed over between [c] and [c'] all satisfy [P]. *)
Definition emits (P : VertexSet.t -> Prop) (c c' : Framework.core) : Prop :=
  exists news, Framework.out c' = Framework.out c ++ news /\ Forall P news.

(** A set the search may hand over: it dominates, and its size is
    within the bounds of the mode. *)
Definition solution (GENERATE_ALL : bool) (st : Framework.settings) (g : Graph.t)
    (S : VertexSet.t) : Prop :=
  dominates g (VertexSet.elements S) /\
  Framework.total_lower_bound st <= to_unsigned (VertexSet.get_size S) /\
  (GENERATE_ALL = true -> to_unsigned (VertexSet.get_size S) <= Framework.total_upper_bound st).

(** The vertices carry their positions as [index], as [Graph::reset]
    numbers them. *)
Definition numbered (g : Graph.t) : Prop :=
  map Graph.index (Graph.vertices g) = zrange 0 (length (Graph.vertices g)).

(** Every vertex is a member or in the neighbour list of a member. *)
Definition dominating_set (g : Graph.t) (members : list Z) : Prop :=
  forall k, 0 <= k < Graph.n g ->
    exists j, In j members /\
              (j = k \/ exists nb, Graph.neighbours g j = Ok nb /\ In k nb).

(** A set a solver may hand over for the instance read: it dominates
    the graph, and its size is within the bounds of the mode. *)
Definition acceptable (GENERATE_ALL : bool) (st : Framework.settings) (g : Graph.t)
    (S : VertexSet.t) : Prop :=
  dominating_set g (VertexSet.elements S) /\
  Framework.total_lower_bound st <= to_unsigned (VertexSet.get_size S) /\
  (GENERATE_ALL = true -> to_unsigned (VertexSet.get_size S) <= Framework.total_upper_bound st).

(** [0, 1] as an integer. *)
Definition b2z (b : bool) : Z := if b then 1 else 0.

(** How many times [k] occurs in a neighbour list. *)
Definition occ (l : list Z) (k : Z) : Z := Z.of_nat (count_occ Z.eq_dec l k).

(** [c'] differs from [c] in the cover counters only, which moved in step. *)
Definition counters_moved (c c' : Framework.core) : Prop :=
  Framework.D c' = Framework.D c /\ Framework.B c' = Framework.B c /\
  Framework.fixed c' = Framework.fixed c /\
  Framework.total_fixed c' = Framework.total_fixed c /\
  Framework.depth_log c' = Framework.depth_log c /\ Framework.out c' = Framework.out c /\
  Framework.total_covered c' - pos_count (Framework.covered c') =
  Framework.total_covered c - pos_count (Framework.covered c).

(** The state of the branching loop of the fixed-order search: the
    cover counters are those of the pivot's node, the vertices tried so
    far are marked. *)
Definition branching (c0 c : Framework.core) (fl : list Z) : Prop :=
  cover_restored c0 c /\
  (forall k, Framework.fixed c k = if existsb (Z.eqb k) fl then 1 else Framework.fixed c0 k) /\
  Framework.total_fixed c = Framework.total_fixed c0 + Z.of_nat (length fl).

(** [D], the cover counters and the output are untouched. *)
Definition cover_frame (c c' : Framework.core) : Prop :=
  Framework.D c' = Framework.D c /\ Framework.covered c' = Framework.covered c /\
  Framework.total_covered c' = Framework.total_covered c /\ Framework.out c' = Framework.out c.

(** The meaning of the counters, which are not negative. *)
Definition cover_inv_nn (g : Graph.t) (c : Framework.core) : Prop :=
  cover_inv g c /\ forall k, 0 <= Framework.covered c k.

(** [S] holds the members of [D] as they stand in [c], then others. *)
Definition extends (c : Framework.core) (S : VertexSet.t) : Prop :=
  exists rest, VertexSet.elements S = VertexSet.elements (Framework.D c) ++ rest.

(** The others were not marked in [c]. *)
Definition grown_from (c : Framework.core) (S : VertexSet.t) : Prop :=
  exists rest,
    VertexSet.elements S = VertexSet.elements (Framework.D c) ++ rest /\
    Forall (fun j => Framework.fixed c j = 0) rest.

(** What a search below a node of the DD search has to do. *)
Definition dd_sound (ga : bool) (st : Framework.settings) (g : Graph.t)
    (rec : DD.state -> res DD.state) : Prop :=
  forall s s',
    cover_inv_nn g (DD.base s) -> rec s = Ok s' ->
    cover_restored (DD.base s) (DD.base s') /\
    fixed_restored (DD.base s) (DD.base s') /\
    emits (fun S => solution ga st g S /\ grown_from (DD.base s) S) (DD.base s) (DD.base s').

(** The same, of the MDD search. *)
Definition mdd_sound (ga : bool) (st : Framework.settings) (g : Graph.t)
    (rec : MDD.state -> res (Z * MDD.state)) : Prop :=
  forall s r s',
    cover_inv_nn g (MDD.base s) -> rec s = Ok (r, s') ->
    cover_restored (MDD.base s) (MDD.base s') /\
    emits (fun S => solution ga st g S /\ extends (MDD.base s) S) (MDD.base s) (MDD.base s').

(** The result is not the exhaustion of the recursion budget of the
    model. *)
Definition within_budget {A : Type} (r : res A) : Prop := r <> Fail OutOfFuel.

(** *** VertexSet *)

(** The two arrays of a [VertexSet] describe one set: position [i]
    below [size] holds a vertex whose index is [i]; a vertex either sits
    at its index, below [size], or its index is one of the marks
    [MAX_VERTS], [MAX_VERTS + 1] of a vertex that is not in the set. *)
Definition set_wf (s : VertexSet.t) : Prop :=
  0 <= VertexSet.size s <= MAX_VERTS /\
  (forall i, 0 <= i < VertexSet.size s ->
             in_bounds MAX_VERTS (VertexSet.set_elements s i) = true /\
             VertexSet.set_indices s (VertexSet.set_elements s i) = i) /\
  (forall v, in_bounds MAX_VERTS v = true ->
             (0 <= VertexSet.set_indices s v < VertexSet.size s /\
              VertexSet.set_elements s (VertexSet.set_indices s v) = v) \/
             MAX_VERTS <= VertexSet.set_indices s v).

(** * Properties *)

(** ** The result monad *)

Lemma bind_Ok {A B : Type} (c : res A) (k : A -> res B) (b : B) :
  bind c k = Ok b -> exists a, c = Ok a /\ k a = Ok b.
Proof. destruct c; simpl; intros H; [eauto | discriminate]. Qed.

Ltac inv_bind H :=
  let a := fresh "x" in
  let E := fresh "E" in
  apply bind_Ok in H; destruct H as (a & E & H).

Tactic Notation "step" hyp(H) "as" ident(a) ident(E) :=
  apply bind_Ok in H; destruct H as (a & E & H).

Lemma assert_Ok (nd b : bool) : assert nd b = Ok tt -> nd = true \/ b = true.
Proof. unfold assert. destruct nd, b; auto; discriminate. Qed.

Lemma foreach_app {A S : Type} (l1 l2 : list A) (body : S -> A -> res S) (s : S) :
  foreach (l1 ++ l2) body s = (s' <- foreach l1 body s ;; foreach l2 body s').
Proof.
  revert s; induction l1 as [|x l1 IH]; intros s; simpl; [reflexivity|].
  destruct (body s x); simpl; auto.
Qed.

(** A loop keeps what every iteration keeps. *)
Lemma foreach_invariant {A S : Type} (P : S -> Prop) (l : list A) (body : S -> A -> res S) :
  (forall s x s', P s -> body s x = Ok s' -> P s') ->
  forall s s', P s -> foreach l body s = Ok s' -> P s'.
Proof.
  intros Hbody. induction l as [|x l IH]; simpl; intros s s' HP H.
  - injection H as <-. exact HP.
  - inv_bind H. eauto.
Qed.

(** A loop relates its ends by any preorder its iterations respect. *)
Lemma foreach_preorder {A S : Type} (R : S -> S -> Prop) (l : list A) (body : S -> A -> res S) :
  (forall s, R s s) ->
  (forall s1 s2 s3, R s1 s2 -> R s2 s3 -> R s1 s3) ->
  (forall s x s', body s x = Ok s' -> R s s') ->
  forall s s', foreach l body s = Ok s' -> R s s'.
Proof.
  intros Hrefl Htrans Hbody. induction l as [|x l IH]; simpl; intros s s' H.
  - injection H as <-. apply Hrefl.
  - inv_bind H. eauto.
Qed.

Lemma zrange_length (lo : Z) (len : nat) : length (zrange lo len) = len.
Proof. unfold zrange. now rewrite length_map, length_seq. Qed.

(** ** Graph.reset *)

(** C9 (as amended): [Graph::reset(n)] raises the graph-construction
    error exactly when [n >= MAX_VERTS], and it completes, leaving a
    graph of [n] vertices, exactly when [0 <= n < MAX_VERTS]; the size
    [n = MAX_VERTS] is refused. *)
Theorem reset_accepts_below_MAX_VERTS (g : Graph.t) (n : Z) :
  (Graph.reset g n = Fail GraphError <-> MAX_VERTS <= n) /\
  ((exists g', Graph.reset g n = Ok g' /\ Graph.n g' = n) <-> 0 <= n < MAX_VERTS).
Proof.
  unfold Graph.reset.
  destruct (n >=? MAX_VERTS) eqn:E1; [|destruct (n <? 0) eqn:E2].
  - split; split; intros H; try reflexivity; try lia.
    destruct H as (g' & H & _); discriminate.
  - split; split; intros H; try discriminate; try lia.
    destruct H as (g' & H & _); discriminate.
  - split; split; intros H; try discriminate; try lia.
    eexists; split; [reflexivity|].
    unfold Graph.n; simpl. rewrite length_map, zrange_length. lia.
Qed.

(** C9, counterexample: the claim accepts every [0 <= n <= MAX_VERTS],
    but [reset(MAX_VERTS)] throws. *)
Lemma reset_MAX_VERTS_rejected :
  0 <= MAX_VERTS <= MAX_VERTS /\ Graph.reset Graph.empty MAX_VERTS = Fail GraphError.
Proof. split; [unfold MAX_VERTS; lia | reflexivity]. Qed.

(** ** Restoring the fixed-excluded siblings *)

Lemma nth_seq_self {A : Type} (l : list A) (d : A) :
  map (fun q => nth q l d) (seq 0 (length l)) = l.
Proof.
  induction l as [|x l IH]; simpl; [reflexivity|].
  f_equal. rewrite <- seq_shift, map_map. exact IH.
Qed.

(** [for(int q = 0; q < num_fixed; q++)] reads [fixed_list] from its
    first entry to its last. *)
Lemma dd_restore_order (fixed_list : list Z) : DD.restore_order fixed_list = fixed_list.
Proof. unfold DD.restore_order. apply nth_seq_self. Qed.

(** [for(int q = num_fixed - 1; q >= 0; q--)] reads it from its last
    entry to its first. *)
Lemma mdd_restore_order (fixed_list : list Z) : MDD.restore_order fixed_list = rev fixed_list.
Proof. unfold MDD.restore_order. now rewrite map_rev, nth_seq_self. Qed.

(** ** Emission in optimization mode *)

Section Improvement.
Import Framework.

Lemma frame_refl (c : core) : frame c c.
Proof. split; reflexivity. Qed.

Lemma frame_trans (c1 c2 c3 : core) : frame c1 c2 -> frame c2 c3 -> frame c1 c3.
Proof. intros [H1 H2] [H3 H4]; split; congruence. Qed.

Lemma frame_improves (c c' : core) : frame c c' -> improves c c'.
Proof.
  intros [HB Ho]. exists []. rewrite app_nil_r, HB. simpl.
  repeat split; auto using StronglySorted, Forall. lia.
Qed.

Lemma improves_refl (c : core) : improves c c.
Proof. apply frame_improves, frame_refl. Qed.

Lemma last_app_default {A : Type} (l1 l2 : list A) (d : A) :
  last (l1 ++ l2) d = last l2 (last l1 d).
Proof.
  revert d; induction l1 as [|x l1 IH]; intros d; [reflexivity|].
  destruct l1 as [|y l1].
  - simpl. destruct l2; [reflexivity|]. clear. revert a.
    induction l2 as [|z l2 IH]; intros a; [reflexivity|]. simpl in *. apply IH.
  - change (last (y :: l1 ++ l2) d = last l2 (last (y :: l1) d)). apply (IH d).
Qed.

Lemma StronglySorted_gt_app (l1 l2 : list Z) :
  StronglySorted Z.gt l1 -> StronglySorted Z.gt l2 ->
  (forall x y, In x l1 -> In y l2 -> x > y) ->
  StronglySorted Z.gt (l1 ++ l2).
Proof.
  intros H1 H2 H. induction l1 as [|a l1 IH]; simpl; [exact H2|].
  inversion H1; subst. constructor.
  - apply IH; auto. intros; apply H; simpl; auto.
  - apply Forall_app; split; auto.
    apply Forall_forall. intros y Hy. apply H; simpl; auto.
Qed.

Lemma improves_trans (c1 c2 c3 : core) : improves c1 c2 -> improves c2 c3 -> improves c1 c3.
Proof.
  intros (n1 & Ho1 & Hs1 & Hf1 & Hb1 & Hl1) (n2 & Ho2 & Hs2 & Hf2 & Hb2 & Hl2).
  exists (n1 ++ n2). repeat split.
  - rewrite Ho2, Ho1, app_assoc. reflexivity.
  - rewrite map_app. apply StronglySorted_gt_app; auto.
    intros x y Hx Hy. apply in_map_iff in Hx, Hy.
    destruct Hx as (e1 & <- & He1), Hy as (e2 & <- & He2).
    rewrite Forall_forall in Hf1, Hf2.
    specialize (Hf1 _ He1). specialize (Hf2 _ He2). lia.
  - apply Forall_app; split.
    + eapply Forall_impl; [|exact Hf1]. simpl; intros; lia.
    + eapply Forall_impl; [|exact Hf2]. simpl; intros; lia.
  - lia.
  - rewrite last_app_default, <- Hl1. exact Hl2.
Qed.

(** The block run at [total_covered == n], in optimization mode. *)
Lemma record_solution_improves (st : settings) (c : core) :
  improves c (record_solution false st c).
Proof.
  unfold record_solution.
  destruct (_ && _) eqn:E; [|apply improves_refl].
  apply andb_true_iff in E. destruct E as [_ E]. apply Z.ltb_lt in E.
  exists [D c]. simpl. repeat split; auto using StronglySorted, Forall.
  - constructor; [|constructor]. unfold VertexSet.get_size in *. lia.
  - unfold VertexSet.get_size in *. lia.
Qed.

Lemma report_node_frame (nd chk : bool) (st : settings) (c : core) (depth r : Z) (c' : core) :
  report_node nd chk st c depth = Ok (r, c') -> frame c c'.
Proof.
  unfold report_node. intros H. inv_bind H.
  repeat match type of H with
         | (if ?b then _ else _) = _ => destruct b
         | bind _ _ = Ok _ => inv_bind H
         end;
    try discriminate; injection H as <- <-; split; reflexivity.
Qed.

Lemma unreport_node_frame (c : core) (depth : Z) (c' : core) :
  unreport_node c depth = Ok c' -> frame c c'.
Proof. unfold unreport_node. intros H. inv_bind H. injection H as <-. split; reflexivity. Qed.

End Improvement.

(** A tactic that runs a monadic hypothesis to its end, case by case. *)
Ltac run_res H :=
  repeat (first
    [ discriminate H
    | match type of H with
      | bind _ _ = Ok _ => inv_bind H
      | (let (_, _) := ?x in _) = Ok _ => destruct x
      | (match ?x with _ => _ end) = Ok _ => destruct x eqn:?
      end ]).

(** *** The fixed-order solver *)

Section FixedOrderEmission.
Import Framework.

Lemma fo_cover_frame (c : core) (k : Z) (c' : core) :
  FixedOrder.cover c k = Ok c' -> frame c c'.
Proof.
  unfold FixedOrder.cover. intros H. inv_bind H. injection H as <-.
  destruct (x =? 0); split; reflexivity.
Qed.

Lemma fo_uncover_frame (c : core) (k : Z) (c' : core) :
  FixedOrder.uncover c k = Ok c' -> frame c c'.
Proof.
  unfold FixedOrder.uncover. intros H. inv_bind H. injection H as <-.
  destruct (x - 1 =? 0); split; reflexivity.
Qed.

Lemma fo_add_vertex_to_set_improves (nd : bool) (g : Graph.t)
    (rec : FixedOrder.state -> Z -> res FixedOrder.state) :
  (forall s i s', rec s i = Ok s' -> improves (FixedOrder.base s) (FixedOrder.base s')) ->
  forall s i j fl s' fl',
    FixedOrder.add_vertex_to_set nd g rec s i j fl = Ok (s', fl') ->
    improves (FixedOrder.base s) (FixedOrder.base s').
Proof.
  intros Hrec s i j fl s' fl' H. unfold FixedOrder.add_vertex_to_set in H.
  run_res H. injection H as <- <-.
  match goal with E : rec _ _ = Ok _ |- _ => apply Hrec in E; rename E into Hr end.
  match goal with
  | E1 : foreach _ FixedOrder.cover _ = Ok _, E2 : foreach _ FixedOrder.uncover _ = Ok _ |- _ =>
      apply (foreach_preorder frame _ _ frame_refl frame_trans fo_cover_frame) in E1;
      apply (foreach_preorder frame _ _ frame_refl frame_trans fo_uncover_frame) in E2;
      rename E1 into Hc; rename E2 into Hu
  end.
  eapply improves_trans; [apply frame_improves; eapply frame_trans; [|exact Hc]; split; reflexivity|].
  eapply improves_trans; [exact Hr|].
  apply frame_improves. eapply frame_trans; [exact Hu|]. split; reflexivity.
Qed.

Lemma fo_FindDominatingSet_improves (nd : bool) (st : settings) (g : Graph.t) (fuel : nat) :
  forall chk s i s',
    FixedOrder.FindDominatingSet fuel nd false chk st g s i = Ok s' ->
    improves (FixedOrder.base s) (FixedOrder.base s').
Proof.
  induction fuel as [|fuel IH]; intros chk s i s' H; [discriminate|].
  cbn [FixedOrder.FindDominatingSet DD.FindDominatingSet MDD.FindDominatingSet] in H.
  inv_bind H. destruct x as [resmod_check c]. cbv beta iota zeta in H.
  apply report_node_frame in E. apply frame_improves in E.
  eapply improves_trans; [exact E|]. clear E.
  destruct (resmod_check =? 0); [injection H as <-; apply improves_refl|].
  destruct (chk && (resmod_check =? 1)).
  { inv_bind H. apply unreport_node_frame in E.
    eapply improves_trans; [apply frame_improves; exact E|]. apply IH in H. exact H. }
  destruct (total_covered c =? Graph.n g).
  { injection H as <-. apply record_solution_improves. }
  inv_bind H.
  destruct (x >=? Graph.n g); [discriminate|].
  destruct (FixedOrder.max_deg s + 1 =? 0); [discriminate|].
  match type of H with (if ?b then _ else _) = _ => destruct b end;
    [injection H as <-; apply improves_refl|].
  inv_bind H. inv_bind H. destruct x1 as [s1 fl]. inv_bind H. injection H as <-.
  eapply improves_trans.
  - revert E1.
    apply (foreach_preorder
             (fun p p' : FixedOrder.state * list Z =>
                improves (FixedOrder.base (fst p)) (FixedOrder.base (fst p')))).
    + intros; apply improves_refl.
    + intros ? ? ?; apply improves_trans.
    + intros [s2 fl2] j [s3 fl3] Hb. simpl.
      eapply fo_add_vertex_to_set_improves; [|exact Hb].
      intros; eapply IH; eassumption.
  - simpl. apply frame_improves. revert E2.
    apply (foreach_preorder frame _ _ frame_refl frame_trans).
    intros c1 v c2 Hb. inv_bind Hb. injection Hb as <-. split; reflexivity.
Qed.

Lemma fo_solve_init_out (nd ga : bool) (st : settings) (s : FixedOrder.state)
    (inst : DominationInstance) (s' : FixedOrder.state) (inst' : DominationInstance) :
  FixedOrder.solve_init nd ga st s inst = Ok (s', inst') -> out (FixedOrder.base s') = [].
Proof.
  unfold FixedOrder.solve_init. intros H. run_res H. injection H as <- <-. reflexivity.
Qed.

End FixedOrderEmission.

(** *** The DD variants *)

Section DDEmission.
Import Framework.

Ltac close_frame H := run_res H; injection H as <-; split; reflexivity.

Lemma dd_add_candidate_frame (nd : bool) (g : Graph.t) (s : DD.state) (v : Z) (s' : DD.state) :
  DD.add_candidate nd g s v = Ok s' -> frame (DD.base s) (DD.base s').
Proof. unfold DD.add_candidate. intros H. close_frame H. Qed.

Lemma dd_remove_candidate_frame (nd : bool) (g : Graph.t) (s : DD.state) (v : Z)
    (forced : bool) (s' : DD.state) :
  DD.remove_candidate nd g s v = Ok (forced, s') -> frame (DD.base s) (DD.base s').
Proof.
  unfold DD.remove_candidate. intros H. run_res H. injection H as <- <-. split; reflexivity.
Qed.

Lemma dd_dominate_frame (nd : bool) (g : Graph.t) (s : DD.state) (v : Z) (s' : DD.state) :
  DD.dominate nd g s v = Ok s' -> frame (DD.base s) (DD.base s').
Proof. unfold DD.dominate. intros H. close_frame H. Qed.

Lemma dd_undominate_frame (nd : bool) (g : Graph.t) (s : DD.state) (v : Z) (s' : DD.state) :
  DD.undominate nd g s v = Ok s' -> frame (DD.base s) (DD.base s').
Proof. unfold DD.undominate. intros H. close_frame H. Qed.

Lemma dd_frame_refl (s : DD.state) : dd_frame s s.
Proof. apply frame_refl. Qed.

Lemma dd_frame_trans (s1 s2 s3 : DD.state) : dd_frame s1 s2 -> dd_frame s2 s3 -> dd_frame s1 s3.
Proof. apply frame_trans. Qed.

Lemma dd_add_vertex_to_set_improves (nd : bool) (g : Graph.t) (rec : DD.state -> res DD.state) :
  (forall s s', rec s = Ok s' -> improves (DD.base s) (DD.base s')) ->
  forall s j fl forced s' fl',
    DD.add_vertex_to_set nd g rec s j fl = Ok (forced, s', fl') ->
    improves (DD.base s) (DD.base s').
Proof.
  intros Hrec s j fl forced s' fl' H. unfold DD.add_vertex_to_set in H.
  run_res H. injection H as <- <- <-.
  match goal with E : rec _ = Ok _ |- _ => apply Hrec in E; rename E into Hr end.
  match goal with
  | E0 : DD.remove_candidate _ _ _ _ = Ok _,
    E1 : foreach _ (DD.dominate _ _) _ = Ok _,
    E2 : foreach _ (DD.undominate _ _) _ = Ok _ |- _ =>
      apply dd_remove_candidate_frame in E0;
      apply (foreach_preorder dd_frame _ _ dd_frame_refl dd_frame_trans
               (dd_dominate_frame nd g)) in E1;
      apply (foreach_preorder dd_frame _ _ dd_frame_refl dd_frame_trans
               (dd_undominate_frame nd g)) in E2;
      rename E0 into H0; rename E1 into H1; rename E2 into H2
  end.
  eapply improves_trans; [apply frame_improves; exact H0|].
  eapply improves_trans; [apply frame_improves; eapply frame_trans; [|exact H1]; split; reflexivity|].
  eapply improves_trans; [exact Hr|].
  apply frame_improves. eapply frame_trans; [exact H2|]. split; reflexivity.
Qed.

Lemma dd_branch_improves (nd : bool) (V : DD.variant) (st : settings) (g : Graph.t)
    (rec : DD.state -> res DD.state) :
  (forall s s', rec s = Ok s' -> improves (DD.base s) (DD.base s')) ->
  forall slots s fl s' fl',
    DD.branch nd V st g rec slots s fl = Ok (s', fl') ->
    improves (DD.base s) (DD.base s').
Proof.
  intros Hrec. induction slots as [|[j|] slots IH]; intros s fl s' fl' H; cbn [DD.branch MDD.branch] in H.
  - injection H as <- <-. apply improves_refl.
  - inv_bind H. destruct (negb x); [injection H as <- <-; apply improves_refl|].
    inv_bind H. destruct x0 as [[force_stop s1] fl1].
    eapply improves_trans; [eapply dd_add_vertex_to_set_improves; eassumption|].
    destruct (_ && _); [injection H as <- <-; apply improves_refl|].
    eapply IH; eassumption.
  - discriminate.
Qed.

Lemma dd_FindDominatingSet_improves (nd : bool) (V : DD.variant) (st : settings) (g : Graph.t)
    (fuel : nat) :
  DD.GENERATE_ALL V = false ->
  forall chk s s',
    DD.FindDominatingSet fuel nd V chk st g s = Ok s' ->
    improves (DD.base s) (DD.base s').
Proof.
  intros HV. induction fuel as [|fuel IH]; intros chk s s' H; [discriminate|].
  cbn [FixedOrder.FindDominatingSet DD.FindDominatingSet MDD.FindDominatingSet] in H.
  inv_bind H. destruct x as [resmod_check c]. cbv beta iota zeta in H.
  apply report_node_frame in E. apply frame_improves in E.
  eapply improves_trans; [exact E|]. clear E.
  destruct (resmod_check =? 0); [injection H as <-; apply improves_refl|].
  destruct (chk && (resmod_check =? 1)).
  { inv_bind H. apply unreport_node_frame in E.
    eapply improves_trans; [apply frame_improves; exact E|]. apply IH in H. exact H. }
  destruct (total_covered c =? Graph.n g).
  { injection H as <-. rewrite HV. apply record_solution_improves. }
  inv_bind H. destruct (x =? INVALID_VERTEX); [injection H as <-; apply improves_refl|].
  inv_bind H. inv_bind H. inv_bind H. inv_bind H.
  destruct (negb x3); [injection H as <-; apply improves_refl|].
  inv_bind H. inv_bind H. destruct x5 as [s1 fl]. cbv beta iota zeta in H.
  apply (improves_trans _ (DD.base s1)).
  - match goal with E : DD.branch _ _ _ _ _ _ _ _ = Ok _ |- _ =>
      apply (dd_branch_improves nd V st g _ (fun s s' Hs => IH _ s s' Hs)) in E; exact E
    end.
  - apply frame_improves. revert H.
    apply (foreach_preorder dd_frame _ _ dd_frame_refl dd_frame_trans).
    intros ? ? ?. apply dd_add_candidate_frame.
Qed.

Lemma dd_solve_init_out (nd : bool) (V : DD.variant) (st : settings) (s : DD.state)
    (inst : DominationInstance) (s' : DD.state) (inst' : DominationInstance) :
  DD.solve_init nd V st s inst = Ok (s', inst') -> out (DD.base s') = [].
Proof.
  unfold DD.solve_init. intros H. run_res H. injection H as <- <-. reflexivity.
Qed.

End DDEmission.

(** *** The MDD variants *)

Section MDDEmission.
Import Framework.

Ltac close_frame H := run_res H; injection H as <-; split; reflexivity.

Lemma mdd_frame_refl (s : MDD.state) : mdd_frame s s.
Proof. apply frame_refl. Qed.

Lemma mdd_frame_trans (s1 s2 s3 : MDD.state) :
  mdd_frame s1 s2 -> mdd_frame s2 s3 -> mdd_frame s1 s3.
Proof. apply frame_trans. Qed.

Lemma mdd_add_candidate_frame (nd : bool) (g : Graph.t) (s : MDD.state) (v : Z) (s' : MDD.state) :
  MDD.add_candidate nd g s v = Ok s' -> mdd_frame s s'.
Proof.
  unfold MDD.add_candidate. intros H. run_res H.
  match type of H with foreach _ _ ?s0 = Ok _ => assert (F : mdd_frame s0 s') end.
  { revert H. apply (foreach_preorder mdd_frame _ _ mdd_frame_refl mdd_frame_trans).
    intros s1 u s2 Hb. run_res Hb. injection Hb as <-. split; reflexivity. }
  destruct F as [F1 F2]. split; [rewrite F1|rewrite F2]; reflexivity.
Qed.

Lemma mdd_remove_candidate_frame (nd : bool) (g : Graph.t) (s : MDD.state) (v : Z)
    (forced : bool) (s' : MDD.state) :
  MDD.remove_candidate nd g s v = Ok (forced, s') -> mdd_frame s s'.
Proof.
  unfold MDD.remove_candidate. intros H. run_res H. injection H as <- <-.
  match goal with E : foreach _ _ (false, ?s0) = Ok (?b, ?s1) |- _ =>
    assert (F : mdd_frame (snd (false, s0)) (snd (b, s1)));
    [revert E;
     apply (foreach_preorder (fun p p' : bool * MDD.state => mdd_frame (snd p) (snd p')))|]
  end.
  - intros; apply mdd_frame_refl.
  - intros ? ? ?; apply mdd_frame_trans.
  - intros [f1 s1] u [f2 s2] Hb. run_res Hb; injection Hb as <- <-; split; reflexivity.
  - destruct F as [F1 F2]. simpl in F1, F2. split; [rewrite F1|rewrite F2]; reflexivity.
Qed.

Lemma mdd_dominate_frame (nd : bool) (g : Graph.t) (s : MDD.state) (v : Z) (s' : MDD.state) :
  MDD.dominate nd g s v = Ok s' -> mdd_frame s s'.
Proof. unfold MDD.dominate. intros H. close_frame H. Qed.

Lemma mdd_undominate_frame (nd : bool) (g : Graph.t) (s : MDD.state) (v : Z) (s' : MDD.state) :
  MDD.undominate nd g s v = Ok s' -> mdd_frame s s'.
Proof. unfold MDD.undominate. intros H. close_frame H. Qed.

Lemma mdd_restore_frame (nd : bool) (g : Graph.t) (s : MDD.state) (v : Z) (s' : MDD.state) :
  MDD.restore nd g s v = Ok s' -> mdd_frame s s'.
Proof.
  unfold MDD.restore. intros H. inv_bind H. apply mdd_add_candidate_frame in H.
  eapply mdd_frame_trans; [|exact H]. split; reflexivity.
Qed.

Lemma mdd_add_vertex_to_set_improves (nd : bool) (g : Graph.t)
    (rec : MDD.state -> res (Z * MDD.state)) :
  (forall s r s', rec s = Ok (r, s') -> improves (MDD.base s) (MDD.base s')) ->
  forall s j fl forced s' fl',
    MDD.add_vertex_to_set nd g rec s j fl = Ok (forced, s', fl') ->
    improves (MDD.base s) (MDD.base s').
Proof.
  intros Hrec s j fl forced s' fl' H. unfold MDD.add_vertex_to_set in H.
  run_res H. injection H as <- <- <-.
  match goal with E : rec _ = Ok _ |- _ => apply Hrec in E; rename E into Hr end.
  match goal with
  | E0 : MDD.remove_candidate _ _ _ _ = Ok _,
    E1 : foreach _ (MDD.dominate _ _) _ = Ok _,
    E2 : foreach _ (MDD.undominate _ _) _ = Ok _ |- _ =>
      apply mdd_remove_candidate_frame in E0;
      apply (foreach_preorder mdd_frame _ _ mdd_frame_refl mdd_frame_trans
               (mdd_dominate_frame nd g)) in E1;
      apply (foreach_preorder mdd_frame _ _ mdd_frame_refl mdd_frame_trans
               (mdd_undominate_frame nd g)) in E2;
      rename E0 into H0; rename E1 into H1; rename E2 into H2
  end.
  eapply improves_trans; [apply frame_improves; exact H0|].
  eapply improves_trans;
    [apply frame_improves; eapply frame_trans; [|exact H1]; split; reflexivity|].
  eapply improves_trans; [exact Hr|].
  apply frame_improves; eapply frame_trans; [|split; reflexivity].
  eapply frame_trans; [|exact H2]; split; reflexivity.
Qed.

Lemma mdd_branch_improves (nd : bool) (V : MDD.variant) (st : settings) (g : Graph.t)
    (rec : MDD.state -> res (Z * MDD.state)) :
  (forall s r s', rec s = Ok (r, s') -> improves (MDD.base s) (MDD.base s')) ->
  forall slots s fl s' fl',
    MDD.branch nd V st g rec slots s fl = Ok (s', fl') ->
    improves (MDD.base s) (MDD.base s').
Proof.
  intros Hrec. induction slots as [|[j|] slots IH]; intros s fl s' fl' H; cbn [DD.branch MDD.branch] in H.
  - injection H as <- <-. apply improves_refl.
  - inv_bind H. destruct x as [[force_stop s1] fl1].
    eapply improves_trans; [eapply mdd_add_vertex_to_set_improves; eassumption|].
    destruct (_ && _); [injection H as <- <-; apply improves_refl|].
    inv_bind H. destruct (negb _); [injection H as <- <-; apply improves_refl|].
    eapply IH; eassumption.
  - discriminate.
Qed.

Lemma mdd_FindDominatingSet_improves (nd : bool) (V : MDD.variant) (st : settings) (g : Graph.t)
    (fuel : nat) :
  MDD.GENERATE_ALL V = false ->
  forall chk s r s',
    MDD.FindDominatingSet fuel nd V chk st g s = Ok (r, s') ->
    improves (MDD.base s) (MDD.base s').
Proof.
  intros HV. induction fuel as [|fuel IH]; intros chk s r s' H; [discriminate|].
  cbn [FixedOrder.FindDominatingSet DD.FindDominatingSet MDD.FindDominatingSet] in H.
  inv_bind H. destruct x as [resmod_check c]. cbv beta iota zeta in H.
  apply report_node_frame in E. apply frame_improves in E.
  eapply improves_trans; [exact E|]. clear E.
  destruct (resmod_check =? 0); [injection H as <- <-; apply improves_refl|].
  destruct (chk && (resmod_check =? 1)).
  { inv_bind H. apply unreport_node_frame in E.
    eapply improves_trans; [apply frame_improves; exact E|]. apply IH in H. exact H. }
  destruct (total_covered c =? Graph.n g).
  { injection H as <- <-. rewrite HV. apply record_solution_improves. }
  inv_bind H. destruct (negb _); [injection H as <- <-; apply improves_refl|].
  run_res H. injection H as <- <-.
  match goal with E : MDD.branch _ _ _ _ _ _ _ _ = Ok (?s1', _) |- _ => rename s1' into s1 end.
  apply (improves_trans _ (MDD.base s1)).
  - match goal with E : MDD.branch _ _ _ _ _ _ _ _ = Ok _ |- _ =>
      apply (mdd_branch_improves nd V st g _ (fun s r s' Hs => IH _ s r s' Hs)) in E; exact E
    end.
  - apply frame_improves.
    match goal with E : foreach _ (MDD.restore _ _) _ = Ok _ |- _ => revert E end.
    apply (foreach_preorder mdd_frame _ _ mdd_frame_refl mdd_frame_trans).
    intros ? ? ?. apply mdd_restore_frame.
Qed.

Lemma mdd_solve_init_out (nd : bool) (V : MDD.variant) (st : settings) (m : Z) (s : MDD.state)
    (inst : DominationInstance) (s' : MDD.state) (inst' : DominationInstance) :
  MDD.solve_init nd V st m s inst = Ok (s', inst') -> out (MDD.base s') = [].
Proof.
  unfold MDD.solve_init. intros H. run_res H. injection H as <- <-. reflexivity.
Qed.

End MDDEmission.

(** *** Every solver *)

Section Emission.
Import Framework.

Lemma solve_improves (nd : bool) (st : settings) (sv sv' : Registry.solver)
    (inst inst' : DominationInstance) :
  Registry.generate_all sv = false ->
  Registry.solve nd st sv inst = Ok (sv', inst') ->
  exists c0, out c0 = [] /\ improves c0 (Registry.base sv').
Proof.
  intros HG H. destruct sv as [GA s|V s|V m s]; cbn [Registry.solve Registry.generate_all] in HG, H;
    inv_bind H; destruct x as [s1 i1]; injection H as <- <-; cbn [Registry.base].
  - subst GA. unfold FixedOrder.solve in E. run_res E. injection E as <- <-.
    match goal with E : FixedOrder.solve_init _ _ _ _ _ = _ |- _ => apply fo_solve_init_out in E end.
    match goal with E : FixedOrder.FindDominatingSet _ _ _ _ _ _ _ _ = _ |- _ =>
      apply fo_FindDominatingSet_improves in E end.
    eauto.
  - unfold DD.solve in E. run_res E. injection E as <- <-.
    match goal with E : DD.solve_init _ _ _ _ _ = _ |- _ => apply dd_solve_init_out in E end.
    match goal with E : DD.FindDominatingSet _ _ _ _ _ _ _ = _ |- _ =>
      apply dd_FindDominatingSet_improves in E; [|exact HG] end.
    eauto.
  - unfold MDD.solve in E. run_res E. injection E as <- <-.
    match goal with E : MDD.solve_init _ _ _ _ _ _ = _ |- _ => apply mdd_solve_init_out in E end.
    match goal with E : MDD.FindDominatingSet _ _ _ _ _ _ _ = _ |- _ =>
      apply mdd_FindDominatingSet_improves in E; [|exact HG] end.
    eauto.
Qed.

Lemma last_nonempty_default {A : Type} (l : list A) (d d' : A) :
  l <> [] -> last l d = last l d'.
Proof.
  induction l as [|x l IH]; intros H; [contradiction|].
  destruct l as [|y l]; [reflexivity|]. apply IH. discriminate.
Qed.

Lemma fold_left_process_set (sets : list VertexSet.t) (b : VertexSet.t) :
  fold_left output_best_process_set sets b = last sets b.
Proof.
  revert b; induction sets as [|x sets IH]; intros b; [reflexivity|].
  simpl. rewrite IH. unfold output_best_process_set.
  destruct sets; [reflexivity|]. apply last_nonempty_default. discriminate.
Qed.

(** C10: in optimization mode, for every solver variant, the sets handed
    to [process_set] during one [solve] have strictly decreasing sizes
    (each is strictly smaller than every earlier one); the last of them
    is a smallest one, it is the best set [B] the solver ends with, and
    it is the set [output_best] retains. *)
Theorem optimization_emits_strictly_smaller (nd : bool) (st : settings)
    (sv sv' : Registry.solver) (inst inst' : DominationInstance) :
  Registry.generate_all sv = false ->
  Registry.solve nd st sv inst = Ok (sv', inst') ->
  let sets := Registry.emitted sv' in
  StronglySorted Z.gt (map VertexSet.get_size sets) /\
  (sets <> [] ->
   Forall (fun e => VertexSet.get_size (Registry.best sv') <= VertexSet.get_size e) sets /\
   (forall d, Registry.best sv' = last sets d) /\
   (forall best_set b, output_best_run best_set inst' sets = Ok b -> b = Registry.best sv')).
Proof.
  intros HG H. destruct (solve_improves _ _ _ _ _ _ HG H) as (c0 & H0 & new & Ho & Hs & Hf & _ & Hl).
  rewrite H0 in Ho. simpl in Ho. unfold Registry.emitted, Registry.best. rewrite Ho.
  simpl. split; [exact Hs|]. intros Hne. split; [|split].
  - eapply Forall_impl; [|exact Hf]. simpl. intros; lia.
  - intros d. rewrite Hl. apply last_nonempty_default, Hne.
  - intros best_set b Hb. unfold output_best_run in Hb. inv_bind Hb. injection Hb as <-.
    rewrite fold_left_process_set, Hl. apply last_nonempty_default, Hne.
Qed.

(** On the path with six vertices, [DD_minCD_asc] hands over sets of
    sizes 4, 3 and 2. *)
Lemma optimization_emits_strictly_smaller_witness :
  let sv := Registry.DDSolver DD.DD_minCD_asc DD.new in
  Registry.generate_all sv = false /\
  exists sv' inst',
    Registry.solve false default_settings sv (Examples.instance_of Examples.P6) = Ok (sv', inst') /\
    map VertexSet.get_size (Registry.emitted sv') = [4; 3; 2] /\
    StronglySorted Z.gt (map VertexSet.get_size (Registry.emitted sv')).
Proof.
  split; [reflexivity|].
  destruct (Registry.solve false default_settings (Registry.DDSolver DD.DD_minCD_asc DD.new)
              (Examples.instance_of Examples.P6)) as [[sv' inst']|f] eqn:E.
  - exists sv', inst'. split; [reflexivity|].
    split.
    + assert (Hm : match Registry.solve false default_settings
                             (Registry.DDSolver DD.DD_minCD_asc DD.new)
                             (Examples.instance_of Examples.P6) with
                   | Ok (sv', _) => map VertexSet.get_size (Registry.emitted sv')
                   | Fail _ => []
                   end = [4; 3; 2]) by (vm_compute; reflexivity).
      rewrite E in Hm. exact Hm.
    + exact (proj1 (optimization_emits_strictly_smaller false default_settings
                      (Registry.DDSolver DD.DD_minCD_asc DD.new) sv'
                      (Examples.instance_of Examples.P6) inst' eq_refl E)).
  - exfalso.
    assert (Hm : match Registry.solve false default_settings
                           (Registry.DDSolver DD.DD_minCD_asc DD.new)
                           (Examples.instance_of Examples.P6) with
                 | Ok _ => true
                 | Fail _ => false
                 end = true) by (vm_compute; reflexivity).
    rewrite E in Hm. discriminate.
Defined.

End Emission.

(** ** The sentinel given to the best set *)

Section Sentinel.
Import Framework.

Lemma reset_full_size (s : VertexSet.t) (n : Z) (s' : VertexSet.t) :
  VertexSet.reset_full s n = Ok s' -> VertexSet.size s' = n.
Proof.
  unfold VertexSet.reset_full. destruct (_ && _); [|discriminate].
  intros H; injection H as <-. reflexivity.
Qed.

Lemma reset_best_size (ga : bool) (st : settings) (size0 n : Z) (c c' : core) :
  reset_best ga st size0 n c = Ok c' ->
  VertexSet.get_size (B c') =
    if negb ga && (total_upper_bound st <? to_unsigned n)
    then total_upper_bound st + 1 else size0.
Proof.
  unfold reset_best. intros H. inv_bind H. inv_bind H. injection H as <-. simpl.
  apply reset_full_size in E.
  destruct (negb ga && _).
  - apply reset_full_size in E0. exact E0.
  - injection E0 as <-. exact E.
Qed.

Lemma prepared_graph_n (g : Graph.t) :
  Graph.n (sort_neighbours_descending (add_loops g)) = Graph.n g.
Proof.
  unfold Graph.n, sort_neighbours_descending, add_loops. simpl.
  now rewrite !length_map.
Qed.

Lemma to_unsigned_n (g : Graph.t) : Graph.n g < UINT_MODULUS -> to_unsigned (Graph.n g) = Graph.n g.
Proof.
  intros H. unfold to_unsigned. apply Z.mod_small. unfold Graph.n in *. lia.
Qed.

Lemma foreach_frame {A : Type} (l : list A) (body : core -> A -> res core) (c c' : core) :
  (forall c x c', body c x = Ok c' -> frame c c') ->
  foreach l body c = Ok c' -> frame c c'.
Proof. intros Hb. apply (foreach_preorder frame _ _ frame_refl frame_trans Hb). Qed.

Lemma foreach_dd_frame {A : Type} (l : list A) (body : DD.state -> A -> res DD.state)
    (s s' : DD.state) :
  (forall s x s', body s x = Ok s' -> dd_frame s s') ->
  foreach l body s = Ok s' -> dd_frame s s'.
Proof. intros Hb. apply (foreach_preorder dd_frame _ _ dd_frame_refl dd_frame_trans Hb). Qed.

Lemma foreach_mdd_frame {A : Type} (l : list A) (body : MDD.state -> A -> res MDD.state)
    (s s' : MDD.state) :
  (forall s x s', body s x = Ok s' -> mdd_frame s s') ->
  foreach l body s = Ok s' -> mdd_frame s s'.
Proof. intros Hb. apply (foreach_preorder mdd_frame _ _ mdd_frame_refl mdd_frame_trans Hb). Qed.

Lemma fo_solve_init_best (nd ga : bool) (st : settings) (s : FixedOrder.state)
    (inst : DominationInstance) (s' : FixedOrder.state) (inst' : DominationInstance) :
  FixedOrder.solve_init nd ga st s inst = Ok (s', inst') ->
  exists c0 c1, reset_best ga st (Graph.n (G inst)) (Graph.n (G inst)) c0 = Ok c1 /\
                B (FixedOrder.base s') = B c1.
Proof.
  unfold FixedOrder.solve_init. rewrite prepared_graph_n. intros H.
  step H as c1 Hreset. step H as c2 Hin. step H as c3 Hout. injection H as <- <-.
  eexists _, c1. split; [exact Hreset|].
  apply foreach_frame in Hin.
  2:{ intros c v c' Hb. step Hb as d Hadd. step Hb as nb Hnb.
      apply foreach_frame in Hb; [|apply fo_cover_frame].
      destruct Hb as [F1 F2]. split; [rewrite F1|rewrite F2]; reflexivity. }
  apply foreach_frame in Hout.
  2:{ intros c v c' Hb. step Hb as f Hf. injection Hb as <-. split; reflexivity. }
  destruct Hin as [F1 _], Hout as [F2 _].
  change (B c3 = B c1). rewrite F2, F1. reflexivity.
Qed.

Lemma dd_solve_init_best (nd : bool) (V : DD.variant) (st : settings) (s : DD.state)
    (inst : DominationInstance) (s' : DD.state) (inst' : DominationInstance) :
  DD.solve_init nd V st s inst = Ok (s', inst') ->
  exists c0 c1, reset_best (DD.GENERATE_ALL V) st (Graph.n (G inst) - 1) (Graph.n (G inst)) c0 = Ok c1 /\
                B (DD.base s') = B c1.
Proof.
  unfold DD.solve_init. rewrite prepared_graph_n. intros H.
  step H as c1 Hreset. step H as ud Hud. step H as cd Hcd.
  step H as s1 Hin. step H as s2 Hout. injection H as <- <-.
  eexists _, c1. split; [exact Hreset|].
  apply foreach_dd_frame in Hin.
  2:{ intros sa v sb Hb. step Hb as p Hrm. destruct p as [f sc].
      step Hb as d Hadd. step Hb as nb Hnb.
      apply dd_remove_candidate_frame in Hrm.
      apply foreach_dd_frame in Hb; [|intros ? ? ?; apply dd_dominate_frame].
      destruct Hrm as [F1 F2], Hb as [F3 F4].
      split; [rewrite F3|rewrite F4]; [rewrite <- F1|rewrite <- F2]; reflexivity. }
  apply foreach_dd_frame in Hout.
  2:{ intros sa v sb Hb. step Hb as p Hrm. destruct p as [f sc]. injection Hb as <-.
      eapply dd_remove_candidate_frame; eassumption. }
  destruct Hin as [F1 _], Hout as [F2 _].
  change (B (DD.base s2) = B c1). rewrite F2, F1. reflexivity.
Qed.

Lemma mdd_solve_init_best (nd : bool) (V : MDD.variant) (st : settings) (m : Z) (s : MDD.state)
    (inst : DominationInstance) (s' : MDD.state) (inst' : DominationInstance) :
  MDD.solve_init nd V st m s inst = Ok (s', inst') ->
  exists c0 c1, reset_best (MDD.GENERATE_ALL V) st (Graph.n (G inst) - 1) (Graph.n (G inst)) c0 = Ok c1 /\
                B (MDD.base s') = B c1.
Proof.
  unfold MDD.solve_init. rewrite prepared_graph_n. intros H.
  step H as c1 Hreset. step H as us Hus. step H as cns Hcns.
  step H as ud Hud. step H as ms Hms.
  step H as s1 Hin. step H as s2 Hout. injection H as <- <-.
  eexists _, c1. split; [exact Hreset|].
  apply foreach_mdd_frame in Hin.
  2:{ intros sa v sb Hb. step Hb as p Hrm. destruct p as [f sc].
      step Hb as d Hadd. step Hb as nb Hnb. step Hb as sd Hdom.
      step Hb as md Hmd. injection Hb as <-.
      apply mdd_remove_candidate_frame in Hrm.
      apply foreach_mdd_frame in Hdom; [|intros ? ? ?; apply mdd_dominate_frame].
      destruct Hrm as [F1 F2], Hdom as [F3 F4].
      split; cbn [MDD.base MDD.with_mdd_stack]; [rewrite F3|rewrite F4];
        [rewrite <- F1|rewrite <- F2]; reflexivity. }
  apply foreach_mdd_frame in Hout.
  2:{ intros sa v sb Hb. step Hb as p Hrm. destruct p as [f sc].
      step Hb as md Hmd. injection Hb as <-.
      apply mdd_remove_candidate_frame in Hrm. exact Hrm. }
  destruct Hin as [F1 _], Hout as [F2 _].
  change (B (MDD.base s2) = B c1). rewrite F2, F1. reflexivity.
Qed.

(** C2 (as amended): immediately after the initialization in [solve],
    before the first search call, the best set [B] of every solver
    variant has size [upper_bound + 1] when the variant optimizes and an
    upper bound below [n] is configured; in every other case (no such
    bound, or a generating variant) the fixed-order solver's [B] has
    size [n]. *)
Theorem sentinel_after_init (nd : bool) (st : settings) (sv sv' : Registry.solver)
    (inst inst' : DominationInstance) :
  Graph.n (G inst) < UINT_MODULUS ->
  Registry.solve_init nd st sv inst = Ok (sv', inst') ->
  let n := Graph.n (G inst) in
  let optimizing_below_n := negb (Registry.generate_all sv) && (total_upper_bound st <? n) in
  (optimizing_below_n = true ->
   VertexSet.get_size (Registry.best sv') = total_upper_bound st + 1) /\
  (optimizing_below_n = false ->
   forall ga s, sv = Registry.FixedOrderSolver ga s ->
                VertexSet.get_size (Registry.best sv') = n).
Proof.
  intros Hn H. destruct sv as [GA s|V s|V m s]; simpl in H; inv_bind H; destruct x as [s1 i1];
    injection H as <- <-; unfold Registry.best; simpl.
  - apply fo_solve_init_best in E. destruct E as (c0 & c1 & E & ->).
    apply reset_best_size in E. rewrite E, to_unsigned_n by exact Hn.
    split; intros Hc; [rewrite Hc; reflexivity|]. intros _ _ _. rewrite Hc. reflexivity.
  - apply dd_solve_init_best in E. destruct E as (c0 & c1 & E & ->).
    apply reset_best_size in E. rewrite E, to_unsigned_n by exact Hn.
    split; intros Hc; [rewrite Hc; reflexivity|]. intros ? ? [=].
  - apply mdd_solve_init_best in E. destruct E as (c0 & c1 & E & ->).
    apply reset_best_size in E. rewrite E, to_unsigned_n by exact Hn.
    split; intros Hc; [rewrite Hc; reflexivity|]. intros ? ? [=].
Qed.

(** What the amended claim leaves open: without an upper bound below
    [n], or when generating, the DD and MDD variants start [B] at size
    [n - 1]. *)
Lemma dd_mdd_sentinel (nd : bool) (st : settings) (sv sv' : Registry.solver)
    (inst inst' : DominationInstance) :
  Graph.n (G inst) < UINT_MODULUS ->
  Registry.solve_init nd st sv inst = Ok (sv', inst') ->
  negb (Registry.generate_all sv) && (total_upper_bound st <? Graph.n (G inst)) = false ->
  (forall ga s, sv <> Registry.FixedOrderSolver ga s) ->
  VertexSet.get_size (Registry.best sv') = Graph.n (G inst) - 1.
Proof.
  intros Hn H Hc Hsv. destruct sv as [GA s|V s|V m s]; simpl in H; inv_bind H; destruct x as [s1 i1];
    injection H as <- <-; unfold Registry.best; simpl.
  - exfalso. eapply Hsv. reflexivity.
  - apply dd_solve_init_best in E. destruct E as (c0 & c1 & E & ->).
    apply reset_best_size in E. rewrite E, to_unsigned_n by exact Hn.
    simpl in Hc. rewrite Hc. reflexivity.
  - apply mdd_solve_init_best in E. destruct E as (c0 & c1 & E & ->).
    apply reset_best_size in E. rewrite E, to_unsigned_n by exact Hn.
    simpl in Hc. rewrite Hc. reflexivity.
Qed.

(** The fixed-order optimizer on the path with three vertices and the
    upper bound 1: the sentinel has size 2. *)
Lemma sentinel_after_init_witness :
  let st := mkSettings 1 0 INVALID_DEPTH 0 1 in
  let sv := Registry.FixedOrderSolver false FixedOrder.new in
  Graph.n (G (Examples.instance_of Examples.P3)) < UINT_MODULUS /\
  exists sv' inst',
    Registry.solve_init false st sv (Examples.instance_of Examples.P3) = Ok (sv', inst') /\
    VertexSet.get_size (Registry.best sv') = 2.
Proof.
  split; [reflexivity|].
  destruct (Registry.solve_init false (mkSettings 1 0 INVALID_DEPTH 0 1)
              (Registry.FixedOrderSolver false FixedOrder.new)
              (Examples.instance_of Examples.P3)) as [[sv' inst']|f] eqn:E.
  - exists sv', inst'. split; [reflexivity|].
    exact (proj1 (sentinel_after_init false (mkSettings 1 0 INVALID_DEPTH 0 1)
                    (Registry.FixedOrderSolver false FixedOrder.new) sv'
                    (Examples.instance_of Examples.P3) inst' eq_refl E) eq_refl).
  - exfalso. vm_compute in E. discriminate.
Defined.

(** C2, counterexample: the generating fixed-order solver with the
    upper bound 1 on the path with three vertices starts [B] at size 3,
    not at [upper_bound + 1 = 2]; and [DD_minCD_asc] without an upper
    bound on the path with six vertices starts it at size 5, not at
    [n = 6]. *)
Lemma sentinel_is_not_always_n_or_bound :
  (match Registry.solve_init false (mkSettings 1 0 INVALID_DEPTH 0 1)
           (Registry.FixedOrderSolver true FixedOrder.new)
           (Examples.instance_of Examples.P3) with
   | Ok (sv', _) => VertexSet.get_size (Registry.best sv')
   | Fail _ => -1
   end = 3) /\
  (match Registry.solve_init false default_settings
           (Registry.DDSolver DD.DD_minCD_asc DD.new)
           (Examples.instance_of Examples.P6) with
   | Ok (sv', _) => VertexSet.get_size (Registry.best sv')
   | Fail _ => -1
   end = 5).
Proof. split; vm_compute; reflexivity. Qed.

End Sentinel.

(** ** The bounds check *)

Section Bounds.
Import Framework.

Lemma consume_nonneg (fuel : nat) (mdd c k c' k' : Z) :
  MDDStack.consume fuel mdd c k = Ok (c', k') -> 0 <= k -> 0 <= k'.
Proof.
  revert c k. induction fuel as [|fuel IH]; intros c k H Hk; simpl in H.
  - destruct (c >? 0); [discriminate|]. injection H as <- <-. exact Hk.
  - destruct (c >? 0).
    + apply IH in H; lia.
    + injection H as <- <-. exact Hk.
Qed.

Lemma min_vertices_needed_nonneg (s : MDDStack.t) (m : Z) :
  MDDStack.min_vertices_needed s = Ok m -> 0 <= m.
Proof.
  unfold MDDStack.min_vertices_needed. intros H. inv_bind H.
  destruct (x >? 0); [injection H as <-; unfold MAX_VERTS; lia|].
  step H as p Hloop. destruct p as [c k]. injection H as <-.
  apply (foreach_invariant (fun p : Z * Z => 0 <= snd p)) in Hloop; [exact Hloop| |simpl; lia].
  intros [c1 k1] mdd [c2 k2] Hk Hb. simpl in Hk |- *. step Hb as cnt Hcnt.
  eapply consume_nonneg; eassumption.
Qed.

Lemma to_unsigned_small (z : Z) : 0 <= z <= INT_MAX -> to_unsigned z = z.
Proof. intros H. unfold to_unsigned. apply Z.mod_small. unfold INT_MAX, UINT_MODULUS in *. lia. Qed.

(** C3: for the DD variants [bounds_satisfied] returns false, and for
    the MDD variants [evaluate_bounds] returns 0 or -1, exactly when, in
    generation mode, [min_total > upper_bound] or
    [n - total_fixed < min_needed] and, in optimization mode,
    [min_total >= |B|] or [n - total_fixed < min_needed]; here
    [min_needed] is the variant's estimate and
    [min_total = |D| + min_needed].  The state is one the search can
    reach: the sizes and counters are not negative, their sum fits an
    [int], and the graph has fewer than [MAX_VERTS] vertices. *)
Theorem bounds_check_fails_iff (st : settings) (g : Graph.t) :
  (forall V s min_needed,
      0 <= VertexSet.get_size (D (DD.base s)) ->
      DegreePQ.count_minimum_to_dominate DegreePQ.walk_fuel (DD.UndominatedDPQ s)
        (Graph.n g - total_covered (DD.base s)) = Ok min_needed ->
      0 <= min_needed ->
      VertexSet.get_size (D (DD.base s)) + min_needed <= INT_MAX ->
      exists b, DD.bounds_satisfied V st g s = Ok b /\
                (b = false <->
                 bounds_violated (DD.GENERATE_ALL V) st (DD.base s) (Graph.n g) min_needed)) /\
  (forall V s min_needed,
      0 <= VertexSet.get_size (D (MDD.base s)) ->
      MDDStack.min_vertices_needed (MDD.mdd_stack s) = Ok min_needed ->
      VertexSet.get_size (D (MDD.base s)) + min_needed <= INT_MAX ->
      0 <= total_fixed (MDD.base s) ->
      Graph.n g < MAX_VERTS ->
      exists r, MDD.evaluate_bounds V st g s = Ok r /\
                (r = 0 \/ r = -1 <->
                 bounds_violated (MDD.GENERATE_ALL V) st (MDD.base s) (Graph.n g) min_needed)).
Proof.
  split.
  - intros V s m HD Hm Hm0 Hsum. unfold DD.bounds_satisfied. rewrite Hm. simpl.
    eexists; split; [reflexivity|].
    unfold DD.bounds_fail, bounds_violated.
    rewrite to_unsigned_small by lia.
    destruct (DD.GENERATE_ALL V);
      rewrite negb_false_iff, orb_true_iff, ?Z.gtb_ltb, ?Z.geb_leb, ?Z.ltb_lt, ?Z.leb_le; lia.
  - intros V s m HD Hm Hsum Hf Hn. unfold MDD.evaluate_bounds. rewrite Hm. simpl.
    pose proof (min_vertices_needed_nonneg _ _ Hm) as Hm0.
    eexists; split; [reflexivity|].
    unfold MDD.bounds_result, bounds_violated.
    rewrite to_unsigned_small by lia.
    destruct (m >=? MAX_VERTS) eqn:E1.
    { rewrite Z.geb_leb, Z.leb_le in E1. split; [intros _|auto].
      destruct (MDD.GENERATE_ALL V); right; lia. }
    rewrite Z.geb_leb, Z.leb_gt in E1.
    destruct (MDD.GENERATE_ALL V).
    + destruct (_ <? m) eqn:E2; [rewrite Z.ltb_lt in E2; split; [intros _; right; lia|auto]|].
      rewrite Z.ltb_ge in E2.
      destruct (_ =? m) eqn:E3; [rewrite Z.eqb_eq in E3; split; [intros _; right; lia|auto]|].
      rewrite Z.eqb_neq in E3.
      destruct (_ >? _) eqn:E4; rewrite Z.gtb_ltb in E4.
      * rewrite Z.ltb_lt in E4. split; [intros _; left; lia|auto].
      * rewrite Z.ltb_ge in E4. split; [intros [|]; discriminate|intros [|]; lia].
    + destruct (_ <? m) eqn:E2; [rewrite Z.ltb_lt in E2; split; [intros _; right; lia|auto]|].
      rewrite Z.ltb_ge in E2.
      destruct (_ =? m) eqn:E3; [rewrite Z.eqb_eq in E3; split; [intros _; right; lia|auto]|].
      rewrite Z.eqb_neq in E3.
      destruct (_ >=? _) eqn:E4; rewrite Z.geb_leb in E4.
      * rewrite Z.leb_le in E4. split; [intros _; left; lia|auto].
      * rewrite Z.leb_gt in E4. split; [intros [|]; discriminate|intros [|]; lia].
Qed.

End Bounds.

(** ** DegreePQ: the minimum needed to dominate *)

Section CountMinimum.

Lemma quot_is_ceil_div (m d : Z) : 0 < m -> 0 < d -> Z.quot (m + d - 1) d = ceil_div m d.
Proof.
  intros Hm Hd. unfold ceil_div. rewrite Z.quot_div_nonneg by lia.
  symmetry. apply Z.div_unique with (r := d - 1 - (- m) mod d).
  - left. pose proof (Z.mod_pos_bound (- m) d Hd). lia.
  - pose proof (Z.div_mod (- m) d ltac:(lia)). nia.
Qed.

Lemma ceil_div_gt (m d u : Z) : 0 < d -> u < ceil_div m d -> d * u < m.
Proof.
  intros Hd H. unfold ceil_div in H.
  pose proof (Z.div_mod (- m) d ltac:(lia)).
  pose proof (Z.mod_pos_bound (- m) d Hd). nia.
Qed.

Lemma rank_list_length (q : DegreePQ.t) (bound : Z) (node : DegreePQ.nref) (ranks : list (Z * Z)) :
  rank_list q bound node ranks -> 0 <= bound -> Z.of_nat (length ranks) <= bound.
Proof.
  induction 1 as [bound|bound i nd ranks Hi Hr Hc IH]; intros Hb; simpl length; [simpl; lia|].
  specialize (IH ltac:(lia)). lia.
Qed.

Lemma ceil_div_bounds (m d : Z) : 0 < m -> 0 < d -> 1 <= ceil_div m d <= m.
Proof.
  intros Hm Hd. unfold ceil_div.
  pose proof (Z.div_mod (- m) d ltac:(lia)).
  pose proof (Z.mod_pos_bound (- m) d Hd). nia.
Qed.

Lemma int_result_in (z : Z) : INT_MIN <= z <= INT_MAX -> int_result z = Ok z.
Proof.
  intros H. unfold int_result.
  destruct (Z.leb_spec INT_MIN z); [|lia]. destruct (Z.leb_spec z INT_MAX); [reflexivity|lia].
Qed.

Lemma count_minimum_to_dominate_loop_greedy (q : DegreePQ.t) (bound : Z) (node : DegreePQ.nref)
    (ranks : list (Z * Z)) :
  DegreePQ.PQNode.deg (DegreePQ.head_tail q) = INVALID_VERTEX ->
  rank_list q bound node ranks ->
  Forall (fun r => 0 <= fst r <= MAX_VERTS /\ 0 <= snd r <= MAX_VERTS) ranks ->
  forall (fuel : nat) (m count : Z),
    0 < m <= INT_MAX - MAX_VERTS ->
    0 <= count -> count + MAX_VERTS * Z.of_nat (length ranks) <= INT_MAX ->
    (length ranks < fuel)%nat ->
    DegreePQ.count_minimum_to_dominate_loop fuel q node m count =
      Ok (match greedy_estimate ranks m with
          | Some c => count + c
          | None => MAX_VERTS + 1
          end).
Proof.
  intros Hht Hc. induction Hc as [bound|bound i nd ranks Hi Hr Hc IH];
    intros Hf fuel m count Hm Hcount Hroom Hfuel;
    (destruct fuel as [|fuel]; [simpl in Hfuel; lia|]);
    cbn [DegreePQ.count_minimum_to_dominate_loop DegreePQ.get_node bind].
  - rewrite Hht, Z.eqb_refl, orb_true_r. reflexivity.
  - rewrite Hr. cbn [bind greedy_estimate]. inversion Hf as [|? ? Hd Hf']; subst.
    cbn [fst snd] in Hd. destruct Hd as [Hd Hu].
    set (d := DegreePQ.PQNode.deg nd) in *. set (u := DegreePQ.PQNode.unfixed_count nd) in *.
    cbn [length] in Hroom. rewrite Nat2Z.inj_succ in Hroom.
    assert (HM : MAX_VERTS = 1024) by reflexivity.
    assert (HI : INT_MAX = 2147483647 /\ INT_MIN = -2147483648) by (split; reflexivity).
    destruct (d =? 0) eqn:E0; [reflexivity|].
    apply Z.eqb_neq in E0.
    replace (d =? INVALID_VERTEX) with false
      by (symmetry; apply Z.eqb_neq; unfold INVALID_VERTEX; lia).
    cbn [orb].
    rewrite (int_result_in (m + d)) by lia. cbn [bind].
    rewrite (int_result_in (m + d - 1)) by lia. cbn [bind].
    rewrite quot_is_ceil_div by lia.
    pose proof (ceil_div_bounds m d ltac:(lia) ltac:(lia)) as Hcd.
    rewrite (int_result_in (ceil_div m d)) by lia. cbn [bind].
    destruct (ceil_div m d <=? u) eqn:E1.
    + apply Z.leb_le in E1. rewrite int_result_in; [reflexivity|nia].
    + apply Z.leb_gt in E1. assert (Hdu : d * u < m) by (apply ceil_div_gt; [lia|exact E1]).
      rewrite (int_result_in (count + u)) by nia. cbn [bind].
      rewrite (int_result_in (d * u)) by nia. cbn [bind].
      rewrite (int_result_in (m - d * u)) by nia. cbn [bind].
      rewrite IH; [|assumption|nia|lia|nia|simpl in Hfuel; lia].
      destruct (greedy_estimate ranks _); simpl; [f_equal; lia|reflexivity].
Qed.


Ltac rank_step i :=
  match goal with
  | |- rank_list ?q ?b _ _ =>
      let nd := eval vm_compute in (DegreePQ.nodes q i) in
      apply (rank_list_node q b i nd); [unfold MAX_VERTS; lia | vm_compute; reflexivity | ]
  end.



End CountMinimum.

(** ** MDDStack: a pop restores what its push changed *)

Section MDDStackRestore.

Ltac upd_cases :=
  unfold upd in *; cbn [MDDStack.mdd_values MDDStack.mdd_counts] in *;
  repeat (match goal with
          | |- context [?a =? ?b] => destruct (Z.eqb_spec a b)
          | H : context [?a =? ?b] |- _ => destruct (Z.eqb_spec a b)
          end; cbv beta iota in *);
  subst; try lia; try congruence.

Lemma aread_Ok {A : Type} (size : Z) (a : array A) (i : Z) (x : A) :
  aread size a i = Ok x -> in_bounds size i = true /\ x = a i.
Proof. unfold aread. destruct (in_bounds size i); [|discriminate]. intros [= <-]. auto. Qed.

Lemma awrite_Ok {A : Type} (size : Z) (a : array A) (i : Z) (x : A) (a' : array A) :
  awrite size a i x = Ok a' -> in_bounds size i = true /\ a' = upd a i x.
Proof. unfold awrite. destruct (in_bounds size i); [|discriminate]. intros [= <-]. auto. Qed.

Lemma aread_in {A : Type} (size : Z) (a : array A) (i : Z) :
  in_bounds size i = true -> aread size a i = Ok (a i).
Proof. unfold aread. now intros ->. Qed.

Lemma awrite_in {A : Type} (size : Z) (a : array A) (i : Z) (x : A) :
  in_bounds size i = true -> awrite size a i x = Ok (upd a i x).
Proof. unfold awrite. now intros ->. Qed.

Lemma in_bounds_not_INVALID (d : Z) : in_bounds MAX_VERTS d = true -> d <> MDDStack.INVALID_MDD.
Proof.
  unfold in_bounds, MAX_VERTS, MDDStack.INVALID_MDD. intros H.
  apply andb_true_iff in H. destruct H as [_ H]. apply Z.ltb_lt in H. lia.
Qed.

Lemma set_value_Ok (s : MDDStack.t) (u x : Z) (s' : MDDStack.t) :
  MDDStack.set_value s u x = Ok s' ->
  in_bounds MAX_VERTS u = true /\
  s' = MDDStack.mk (MDDStack.n s) (MDDStack.stack s) (upd (MDDStack.mdd_values s) u x)
         (MDDStack.mdd_counts s) (MDDStack.max_mdd s).
Proof.
  unfold MDDStack.set_value. intros H. step H as a Ha. apply awrite_Ok in Ha.
  destruct Ha as [Hb ->]. injection H as <-. auto.
Qed.

Lemma bump_count_Ok (s : MDDStack.t) (d k : Z) (s' : MDDStack.t) :
  MDDStack.bump_count s d k = Ok s' ->
  in_bounds MAX_VERTS d = true /\
  s' = MDDStack.mk (MDDStack.n s) (MDDStack.stack s) (MDDStack.mdd_values s)
         (upd (MDDStack.mdd_counts s) d (MDDStack.mdd_counts s d + k)) (MDDStack.max_mdd s).
Proof.
  unfold MDDStack.bump_count. intros H. step H as c Hc. step H as a Ha.
  apply aread_Ok in Hc. destruct Hc as [Hb ->]. apply awrite_Ok in Ha. destruct Ha as [_ ->].
  injection H as <-. auto.
Qed.

Lemma new_entry_Ok (s : MDDStack.t) (u old : Z) (s' : MDDStack.t) :
  MDDStack.new_entry s u old = Ok s' ->
  exists row rest,
    MDDStack.stack s = row :: rest /\
    s' = MDDStack.with_stack
           (MDDStack.mkRow (MDDStack.mkEntry u old :: MDDStack.entries row)
              (MDDStack.dominator row) :: rest) s.
Proof.
  unfold MDDStack.new_entry. destruct (MDDStack.stack s) as [|row rest]; [discriminate|].
  destruct (_ <? _); [|discriminate]. intros [= <-]. eauto.
Qed.

(** What the three loop bodies that stack an entry do. *)
Lemma stack_and_change (s : MDDStack.t) (u new : Z) (sa sb sc : MDDStack.t) :
  in_bounds MAX_VERTS u = true ->
  MDDStack.new_entry s u (MDDStack.mdd_values s u) = Ok sa ->
  MDDStack.set_value sa u new = Ok sb ->
  MDDStack.bump_count sb (MDDStack.mdd_values s u) (-1) = Ok sc ->
  (new = MDDStack.INVALID_MDD ->
   pushed s u (MDDStack.mdd_values s u) new sc) /\
  (forall sd, MDDStack.bump_count sc new 1 = Ok sd ->
              in_bounds MAX_VERTS new = true /\
              pushed s u (MDDStack.mdd_values s u) new sd).
Proof.
  intros Hu Ha Hb Hc.
  apply new_entry_Ok in Ha. destruct Ha as (row & rest & Hst & ->).
  apply set_value_Ok in Hb. destruct Hb as [_ ->].
  apply bump_count_Ok in Hc. destruct Hc as [Hold ->]. cbn in Hold |- *.
  split.
  - intros ->. repeat split; auto. exists row, rest. split; [exact Hst|]. reflexivity.
  - intros sd Hd. apply bump_count_Ok in Hd. destruct Hd as [Hnew ->]. cbn.
    split; [exact Hnew|]. repeat split; auto. exists row, rest. split; [exact Hst|].
    pose proof (in_bounds_not_INVALID _ Hnew) as Hne. apply Z.eqb_neq in Hne.
    rewrite Hne. reflexivity.
Qed.

Lemma clear_neighbour_pushed (s : MDDStack.t) (u : Z) (s' : MDDStack.t) :
  MDDStack.clear_neighbour s u = Ok s' ->
  s' = s \/ pushed s u (MDDStack.mdd_values s u) MDDStack.INVALID_MDD s'.
Proof.
  unfold MDDStack.clear_neighbour, MDDStack.get_mdd. intros H. step H as old Hold.
  apply aread_Ok in Hold. destruct Hold as [Hu ->].
  destruct (_ =? _); [injection H as <-; auto|].
  step H as sa Ha. step H as sb Hb. right.
  destruct (stack_and_change _ _ _ _ _ _ Hu Ha Hb H) as [P _]. now apply P.
Qed.

Lemma refresh_undominated_pushed (nd : bool) (e : MDDStack.env) (s : MDDStack.t) (u : Z)
    (s' : MDDStack.t) :
  MDDStack.refresh_undominated nd e s u = Ok s' ->
  s' = s \/
  exists new, MDDStack.recompute_mdd e u = Ok new /\ new <> MDDStack.mdd_values s u /\
              strict_change nd (MDDStack.mdd_values s u) new /\
              pushed s u (MDDStack.mdd_values s u) new s'.
Proof.
  unfold MDDStack.refresh_undominated, MDDStack.get_mdd. intros H. step H as old Hold.
  apply aread_Ok in Hold. destruct Hold as [Hu ->].
  step H as x0 Has. step H as new Hnew.
  destruct (_ =? new) eqn:Heq; [injection H as <-; auto|]. apply Z.eqb_neq in Heq.
  step H as x1 Has2. step H as sa Ha. step H as sb Hb. step H as sc Hc. right.
  destruct (stack_and_change _ _ _ _ _ _ Hu Ha Hb Hc) as [_ P].
  destruct (P _ H) as [Hin Hp].
  exists new. split; [exact Hnew|]. split; [congruence|]. split; [split; [|exact Hin]|exact Hp].
  destruct x1. apply assert_Ok in Has2. destruct Has2 as [|Hlt]; [auto|]. right. now apply Z.ltb_lt.
Qed.

Lemma refresh_excluded_pushed (nd : bool) (e : MDDStack.env) (s : MDDStack.t) (u : Z)
    (s' : MDDStack.t) :
  MDDStack.refresh_excluded nd e s u = Ok s' ->
  s' = s \/
  exists new, MDDStack.recompute_mdd e u = Ok new /\ new <> MDDStack.mdd_values s u /\
              strict_change nd (MDDStack.mdd_values s u) new /\
              pushed s u (MDDStack.mdd_values s u) new s'.
Proof.
  unfold MDDStack.refresh_excluded. intros H. step H as c Hc.
  destruct (negb c); [injection H as <-; auto|].
  step H as old Hold. apply aread_Ok in Hold. destruct Hold as [Hu ->].
  step H as new Hnew.
  destruct (new =? _) eqn:Heq; cbn [negb] in H; [injection H as <-; auto|]. apply Z.eqb_neq in Heq.
  step H as x1 Has2. step H as sa Ha. step H as sb Hb. step H as sc Hc2. right.
  destruct (stack_and_change _ _ _ _ _ _ Hu Ha Hb Hc2) as [_ P].
  destruct (P _ H) as [Hin Hp].
  exists new. split; [exact Hnew|]. split; [congruence|]. split; [split; [|exact Hin]|exact Hp].
  destruct x1. apply assert_Ok in Has2. destruct Has2 as [|Hlt]; [auto|]. right. now apply Z.ltb_lt.
Qed.

Lemma clear_loop (ok : Z -> Z -> Prop) (s0 : MDDStack.t) :
  (forall old, ok old MDDStack.INVALID_MDD) ->
  forall l es s s',
    pushes ok s0 es s -> cleared_from s0 s ->
    foreach l MDDStack.clear_neighbour s = Ok s' ->
    exists es', pushes ok s0 es' s' /\ cleared_from s0 s'.
Proof.
  intros Hok. induction l as [|u l IH]; intros es s s' Hp HJ H; cbn [foreach] in H.
  - injection H as <-. eauto.
  - step H as s1 H1. apply clear_neighbour_pushed in H1. destruct H1 as [->|H1]; [eauto|].
    assert (Hv : MDDStack.mdd_values s u = MDDStack.mdd_values s0 u).
    { destruct H1 as (_ & Hold & _). apply in_bounds_not_INVALID in Hold.
      destruct (HJ u); congruence. }
    rewrite Hv in H1. eapply (IH _ s1); [econstructor; eauto| |exact H].
    destruct H1 as (_ & _ & _ & _ & row & rest & _ & ->). intros i. cbn. unfold upd.
    destruct (i =? u); [auto|apply HJ].
Qed.

Lemma refresh_loop (ok : Z -> Z -> Prop) (nd : bool) (e : MDDStack.env) (s0 : MDDStack.t)
    (body : MDDStack.t -> Z -> res MDDStack.t) :
  (forall old new, strict_change nd old new -> ok old new) ->
  (forall s u s', body s u = Ok s' ->
     s' = s \/
     exists new, MDDStack.recompute_mdd e u = Ok new /\ new <> MDDStack.mdd_values s u /\
                 strict_change nd (MDDStack.mdd_values s u) new /\
                 pushed s u (MDDStack.mdd_values s u) new s') ->
  forall l es s s',
    pushes ok s0 es s -> refreshed_from e s0 s ->
    foreach l body s = Ok s' ->
    exists es', pushes ok s0 es' s' /\ refreshed_from e s0 s'.
Proof.
  intros Hok Hbody. induction l as [|u l IH]; intros es s s' Hp HJ H; cbn [foreach] in H.
  - injection H as <-. eauto.
  - step H as s1 H1. apply Hbody in H1. destruct H1 as [->|(new & Hnew & Hne & Hch & H1)]; [eauto|].
    assert (Hv : MDDStack.mdd_values s u = MDDStack.mdd_values s0 u).
    { destruct H1 as (_ & Hold & _). apply in_bounds_not_INVALID in Hold.
      destruct (HJ u) as [|[|Hr]]; [congruence|congruence|].
      rewrite Hr in Hnew. congruence. }
    rewrite Hv in H1, Hch. eapply (IH _ s1); [econstructor; eauto| |exact H].
    destruct H1 as (_ & _ & _ & _ & row & rest & _ & ->). intros i. cbn. unfold upd.
    destruct (i =? u) eqn:Hi; [|apply HJ]. apply Z.eqb_eq in Hi. subst i. auto.
Qed.

Lemma cleared_refreshed (e : MDDStack.env) (s0 s : MDDStack.t) :
  cleared_from s0 s -> refreshed_from e s0 s.
Proof. intros H i. destruct (H i); auto. Qed.

Lemma pushes_shape (ok : Z -> Z -> Prop) (s0 : MDDStack.t) (es : list MDDStack.StackEntry)
    (s : MDDStack.t) (row0 : MDDStack.StackRow) (rest : list MDDStack.StackRow) :
  pushes ok s0 es s ->
  MDDStack.stack s0 = row0 :: rest ->
  MDDStack.stack s =
    MDDStack.mkRow (es ++ MDDStack.entries row0) (MDDStack.dominator row0) :: rest /\
  MDDStack.n s = MDDStack.n s0 /\ MDDStack.max_mdd s = MDDStack.max_mdd s0.
Proof.
  intros Hp H0. induction Hp as [|es s s' u new Hp IH Hok Hpush].
  - rewrite H0. destruct row0; auto.
  - destruct IH as (Hst & Hn & Hm).
    destruct Hpush as (_ & _ & _ & _ & row & rest' & Hrow & ->). cbn.
    rewrite Hst in Hrow. injection Hrow as <- <-. cbn. auto.
Qed.

Lemma pushes_old_bounded (ok : Z -> Z -> Prop) (s0 : MDDStack.t)
    (es : list MDDStack.StackEntry) (s : MDDStack.t) (M : Z) :
  (forall u, in_bounds MAX_VERTS u = true ->
             MDDStack.mdd_values s0 u <> MDDStack.INVALID_MDD ->
             MDDStack.mdd_values s0 u <= M) ->
  pushes ok s0 es s ->
  Forall (fun e => MDDStack.old_mdd e <= M) es.
Proof.
  intros HM Hp. induction Hp as [|es s s' u new Hp IH Hok Hpush]; constructor; [|exact IH].
  cbn. destruct Hpush as (Hu & Hold & _). apply HM; [exact Hu|].
  now apply in_bounds_not_INVALID.
Qed.

Lemma pushes_counts (ok : Z -> Z -> Prop) (s0 : MDDStack.t)
    (es : list MDDStack.StackEntry) (s : MDDStack.t) (d : Z) :
  pushes ok s0 es s ->
  (exists e, In e es /\ MDDStack.old_mdd e = d) \/
  MDDStack.mdd_counts s0 d <= MDDStack.mdd_counts s d.
Proof.
  intros Hp. induction Hp as [|es s s' u new Hp IH Hok Hpush]; [right; lia|].
  destruct IH as [(e & He & Hd)|IH]; [left; exists e; simpl; auto|].
  destruct (Z.eq_dec (MDDStack.mdd_values s0 u) d) as [Heq|Hne].
  - left. eexists. split; [left; reflexivity|exact Heq].
  - right. destruct Hpush as (_ & _ & _ & _ & row & rest' & _ & ->). cbn.
    upd_cases.
Qed.

Lemma highest_ge (es : list MDDStack.StackEntry) (h : Z) : h <= highest es h.
Proof.
  unfold highest. revert h. induction es as [|e es IH]; intros h; cbn; [lia|].
  specialize (IH (Z.max h (MDDStack.old_mdd e))). lia.
Qed.

Lemma highest_In (es : list MDDStack.StackEntry) (h : Z) (e : MDDStack.StackEntry) :
  In e es -> MDDStack.old_mdd e <= highest es h.
Proof.
  revert h. induction es as [|e' es IH]; intros h Hin; [destruct Hin|].
  destruct Hin as [->|Hin]; cbn.
  - pose proof (highest_ge es (Z.max h (MDDStack.old_mdd e))). unfold highest in *. lia.
  - apply IH, Hin.
Qed.

Lemma highest_le (es : list MDDStack.StackEntry) (h M : Z) :
  Forall (fun e => MDDStack.old_mdd e <= M) es -> h <= M -> highest es h <= M.
Proof.
  unfold highest. revert h. induction es as [|e es IH]; intros h HF Hh; cbn; [exact Hh|].
  inversion HF; subst. apply IH; [assumption|lia].
Qed.

Lemma set_value_in (s : MDDStack.t) (u x : Z) :
  in_bounds MAX_VERTS u = true ->
  MDDStack.set_value s u x =
    Ok (MDDStack.mk (MDDStack.n s) (MDDStack.stack s) (upd (MDDStack.mdd_values s) u x)
          (MDDStack.mdd_counts s) (MDDStack.max_mdd s)).
Proof. intros H. unfold MDDStack.set_value. now rewrite (awrite_in _ _ _ _ H). Qed.

Lemma bump_count_in (s : MDDStack.t) (d k : Z) :
  in_bounds MAX_VERTS d = true ->
  MDDStack.bump_count s d k =
    Ok (MDDStack.mk (MDDStack.n s) (MDDStack.stack s) (MDDStack.mdd_values s)
          (upd (MDDStack.mdd_counts s) d (MDDStack.mdd_counts s d + k)) (MDDStack.max_mdd s)).
Proof.
  intros H. unfold MDDStack.bump_count.
  rewrite (aread_in _ _ _ H). cbn [bind]. now rewrite (awrite_in _ _ _ _ H).
Qed.

(** [remove_dominator] undoes one stacked change. *)
Lemma remove_entry_undo (s : MDDStack.t) (u old new : Z) (s' t : MDDStack.t) (h : Z) :
  pushed s u old new s' -> same_tables s' t ->
  exists t', MDDStack.remove_entry (t, h) (MDDStack.mkEntry u old) = Ok (t', Z.max h old) /\
             same_tables s t' /\ MDDStack.stack t' = MDDStack.stack t /\
             MDDStack.max_mdd t' = MDDStack.max_mdd t /\ MDDStack.n t' = MDDStack.n t.
Proof.
  intros (Hu & Hold & Hnew & Hv & row & rest & Hst & ->) [HV HC]. cbn in HV, HC.
  assert (Hcur : MDDStack.mdd_values t u = new).
  { rewrite <- HV. unfold upd. now rewrite Z.eqb_refl. }
  unfold MDDStack.remove_entry. cbn [MDDStack.vertex MDDStack.old_mdd].
  rewrite (aread_in _ _ _ Hu), Hcur. cbn [bind].
  rewrite (set_value_in _ _ _ Hu). cbn [bind].
  destruct Hnew as [->|Hnew].
  - rewrite Z.eqb_refl. cbn [negb bind].
    rewrite bump_count_in by exact Hold. cbn.
    eexists. split; [reflexivity|]. cbn. rewrite Z.eqb_refl in HC.
    repeat split; auto; intros i;
      pose proof (HV i); pose proof (HC i); pose proof (HC old); clear HV HC; upd_cases.
  - pose proof (in_bounds_not_INVALID _ Hnew) as Hne. apply Z.eqb_neq in Hne.
    rewrite Hne in HC |- *. cbn [negb bind].
    rewrite bump_count_in by exact Hnew. cbn [bind].
    rewrite bump_count_in by exact Hold. cbn.
    eexists. split; [reflexivity|]. cbn.
    repeat split; auto; intros i;
      pose proof (HV i); pose proof (HC i); pose proof (HC old); pose proof (HC new);
      clear HV HC; upd_cases.
Qed.

(** [unexclude_dominator] undoes one stacked change. *)
Lemma unexclude_entry_undo (nd : bool) (s : MDDStack.t) (u old new : Z) (s' t : MDDStack.t)
    (h : Z) :
  strict_change nd old new ->
  pushed s u old new s' -> same_tables s' t ->
  exists t', MDDStack.unexclude_entry nd (t, h) (MDDStack.mkEntry u old) = Ok (t', Z.max h old) /\
             same_tables s t' /\ MDDStack.stack t' = MDDStack.stack t /\
             MDDStack.max_mdd t' = MDDStack.max_mdd t /\ MDDStack.n t' = MDDStack.n t.
Proof.
  intros [Hlt Hnew] (Hu & Hold & _ & Hv & row & rest & Hst & ->) [HV HC]. cbn in HV, HC.
  assert (Hcur : MDDStack.mdd_values t u = new).
  { rewrite <- HV. unfold upd. now rewrite Z.eqb_refl. }
  unfold MDDStack.unexclude_entry. cbn [MDDStack.vertex MDDStack.old_mdd].
  rewrite (aread_in _ _ _ Hu), Hcur. cbn [bind].
  assert (Has : assert nd (old >? new) = Ok tt).
  { unfold assert. destruct nd; [reflexivity|]. destruct Hlt as [|Hlt]; [discriminate|].
    apply Z.gtb_lt in Hlt. now rewrite Hlt. }
  rewrite Has. cbn [bind].
  rewrite (set_value_in _ _ _ Hu). cbn [bind].
  pose proof (in_bounds_not_INVALID _ Hnew) as Hne. apply Z.eqb_neq in Hne.
  rewrite Hne in HC.
  rewrite bump_count_in by exact Hnew. cbn [bind].
  rewrite bump_count_in by exact Hold. cbn.
  eexists. split; [reflexivity|]. cbn.
  repeat split; auto; intros i;
    pose proof (HV i); pose proof (HC i); pose proof (HC old); pose proof (HC new);
    clear HV HC; upd_cases.
Qed.

(** The whole row is undone, whoever undoes each entry. *)
Lemma unwind (ok : Z -> Z -> Prop) (undo : MDDStack.t * Z -> MDDStack.StackEntry -> res (MDDStack.t * Z)) :
  (forall s u old new s' t h,
     ok old new -> pushed s u old new s' -> same_tables s' t ->
     exists t', undo (t, h) (MDDStack.mkEntry u old) = Ok (t', Z.max h old) /\
                same_tables s t' /\ MDDStack.stack t' = MDDStack.stack t /\
                MDDStack.max_mdd t' = MDDStack.max_mdd t /\ MDDStack.n t' = MDDStack.n t) ->
  forall s0 es s, pushes ok s0 es s ->
  forall t h, same_tables s t ->
  exists t', foreach es undo (t, h) = Ok (t', highest es h) /\
             same_tables s0 t' /\ MDDStack.stack t' = MDDStack.stack t /\
             MDDStack.max_mdd t' = MDDStack.max_mdd t /\ MDDStack.n t' = MDDStack.n t.
Proof.
  intros Hundo s0 es s Hp. induction Hp as [|es s s' u new Hp IH Hok Hpush]; intros t h Ht.
  - exists t. cbn. auto.
  - destruct (Hundo _ _ _ _ _ _ h Hok Hpush Ht) as (t1 & H1 & Ht1 & Hs1 & Hm1 & Hn1).
    destruct (IH t1 (Z.max h (MDDStack.mdd_values s0 u)) Ht1) as (t2 & H2 & Ht2 & Hs2 & Hm2 & Hn2).
    exists t2. cbn [foreach]. rewrite H1. cbn [bind]. rewrite H2.
    repeat split; try congruence; apply Ht2.
Qed.

Lemma lower_max_mdd_guarded_spec (fuel : nat) (s s' : MDDStack.t) :
  MDDStack.lower_max_mdd_guarded fuel s = Ok s' ->
  MDDStack.n s' = MDDStack.n s /\ MDDStack.stack s' = MDDStack.stack s /\
  MDDStack.mdd_values s' = MDDStack.mdd_values s /\
  MDDStack.mdd_counts s' = MDDStack.mdd_counts s /\
  MDDStack.max_mdd s' <= MDDStack.max_mdd s /\
  (0 <= MDDStack.max_mdd s -> 0 <= MDDStack.max_mdd s') /\
  (MDDStack.max_mdd s' <> MDDStack.max_mdd s ->
   MDDStack.mdd_counts s (MDDStack.max_mdd s) = 0 /\ 0 < MDDStack.max_mdd s).
Proof.
  revert s. induction fuel as [|fuel IH]; intros s H; cbn [MDDStack.lower_max_mdd_guarded] in H;
    [discriminate|].
  step H as c Hc. apply aread_Ok in Hc. destruct Hc as [_ ->].
  destruct (_ && _) eqn:Hb.
  - apply andb_true_iff in Hb. destruct Hb as [Hz Hpos].
    apply Z.eqb_eq in Hz. apply Z.gtb_lt in Hpos.
    apply IH in H. cbn in H. destruct H as (Hn & Hs & Hv & Hcn & Hle & Hge & _).
    repeat split; auto; lia.
  - injection H as <-. repeat split; auto; lia.
Qed.

Lemma lower_max_mdd_spec (fuel : nat) (s s' : MDDStack.t) :
  MDDStack.lower_max_mdd fuel s = Ok s' ->
  MDDStack.n s' = MDDStack.n s /\ MDDStack.stack s' = MDDStack.stack s /\
  MDDStack.mdd_values s' = MDDStack.mdd_values s /\
  MDDStack.mdd_counts s' = MDDStack.mdd_counts s /\
  MDDStack.max_mdd s' <= MDDStack.max_mdd s /\
  0 <= MDDStack.max_mdd s' /\
  (MDDStack.max_mdd s' <> MDDStack.max_mdd s ->
   MDDStack.mdd_counts s (MDDStack.max_mdd s) = 0 /\ 0 < MDDStack.max_mdd s).
Proof.
  revert s. induction fuel as [|fuel IH]; intros s H; cbn [MDDStack.lower_max_mdd] in H;
    [discriminate|].
  step H as c Hc. apply aread_Ok in Hc. destruct Hc as [Hin ->].
  assert (Hnn : 0 <= MDDStack.max_mdd s).
  { unfold in_bounds in Hin. apply andb_true_iff in Hin. destruct Hin as [Hin _].
    now apply Z.leb_le. }
  destruct (_ =? 0) eqn:Hz.
  - apply Z.eqb_eq in Hz.
    apply IH in H. cbn in H. destruct H as (Hn & Hs & Hv & Hcn & Hle & Hge & _).
    repeat split; auto; lia.
  - injection H as <-. repeat split; auto; lia.
Qed.

(** What is left of [max_mdd] after the push is raised again by the pop. *)
Lemma raise_restores (ok : Z -> Z -> Prop) (s0 : MDDStack.t) (es : list MDDStack.StackEntry)
    (sc : MDDStack.t) (t : MDDStack.t) (m0 : Z) :
  0 <= m0 ->
  (forall u, in_bounds MAX_VERTS u = true ->
             MDDStack.mdd_values s0 u <> MDDStack.INVALID_MDD ->
             MDDStack.mdd_values s0 u <= m0) ->
  (0 < m0 -> 0 < MDDStack.mdd_counts s0 m0) ->
  pushes ok s0 es sc ->
  MDDStack.max_mdd t <= m0 ->
  (MDDStack.max_mdd t <> m0 -> MDDStack.mdd_counts sc m0 = 0 /\ 0 < m0) ->
  MDDStack.max_mdd (MDDStack.raise_max_mdd (t, highest es 0)) = m0 /\
  MDDStack.mdd_values (MDDStack.raise_max_mdd (t, highest es 0)) = MDDStack.mdd_values t /\
  MDDStack.mdd_counts (MDDStack.raise_max_mdd (t, highest es 0)) = MDDStack.mdd_counts t /\
  MDDStack.stack (MDDStack.raise_max_mdd (t, highest es 0)) = MDDStack.stack t.
Proof.
  intros H0 Hb Hc Hp Hle Hlow.
  assert (Hh : highest es 0 <= m0).
  { apply highest_le; [|exact H0]. eapply pushes_old_bounded; eauto. }
  unfold MDDStack.raise_max_mdd.
  destruct (Z.eq_dec (MDDStack.max_mdd t) m0) as [Heq|Hne].
  - destruct (_ >? _) eqn:Hgt; [apply Z.gtb_lt in Hgt; lia|]. auto.
  - destruct (Hlow Hne) as [Hz Hpos]. specialize (Hc Hpos).
    destruct (pushes_counts _ _ _ _ m0 Hp) as [(e & He & Hd)|Hcnt]; [|lia].
    pose proof (highest_In es 0 e He) as Hge. rewrite Hd in Hge.
    destruct (_ >? _) eqn:Hgt; [cbn; repeat split; lia|].
    rewrite Z.gtb_ltb in Hgt. apply Z.ltb_ge in Hgt. lia.
Qed.

Lemma same_mdd_refl (s : MDDStack.t) : same_mdd s s.
Proof. repeat split. Qed.

Lemma same_mdd_trans (s1 s2 s3 : MDDStack.t) : same_mdd s1 s2 -> same_mdd s2 s3 -> same_mdd s1 s3.
Proof.
  intros (HV1 & HC1 & Hm1 & Hs1) (HV2 & HC2 & Hm2 & Hs2).
  split; [intros i; rewrite (HV1 i); apply HV2|].
  split; [intros i; rewrite (HC1 i); apply HC2|]. split; congruence.
Qed.

Lemma pop_row_top (nd : bool) (s : MDDStack.t) (es : list MDDStack.StackEntry) (v : Z)
    (rest : list MDDStack.StackRow) :
  MDDStack.stack s = MDDStack.mkRow es v :: rest ->
  MDDStack.pop_row nd s v = Ok (MDDStack.mkRow es v, MDDStack.with_stack rest s).
Proof.
  intros H. unfold MDDStack.pop_row. rewrite H. cbn [MDDStack.dominator].
  rewrite Z.eqb_refl. unfold assert. destruct nd; reflexivity.
Qed.

(** The common part of both pairs: a row of changes, a lowered
    [max_mdd], then the row undone and [max_mdd] raised. *)
Lemma push_then_pop (ok : Z -> Z -> Prop)
    (undo : MDDStack.t * Z -> MDDStack.StackEntry -> res (MDDStack.t * Z))
    (s : MDDStack.t) (v : Z) (es : list MDDStack.StackEntry) (sc s1 s1' : MDDStack.t) :
  (forall s u old new s' t h,
     ok old new -> pushed s u old new s' -> same_tables s' t ->
     exists t', undo (t, h) (MDDStack.mkEntry u old) = Ok (t', Z.max h old) /\
                same_tables s t' /\ MDDStack.stack t' = MDDStack.stack t /\
                MDDStack.max_mdd t' = MDDStack.max_mdd t /\ MDDStack.n t' = MDDStack.n t) ->
  mdd_tight s ->
  pushes ok (MDDStack.with_stack (MDDStack.mkRow [] v :: MDDStack.stack s) s) es sc ->
  MDDStack.stack s1 = MDDStack.stack sc ->
  MDDStack.mdd_values s1 = MDDStack.mdd_values sc ->
  MDDStack.mdd_counts s1 = MDDStack.mdd_counts sc ->
  MDDStack.max_mdd s1 <= MDDStack.max_mdd sc ->
  (MDDStack.max_mdd s1 <> MDDStack.max_mdd sc ->
   MDDStack.mdd_counts sc (MDDStack.max_mdd sc) = 0 /\ 0 < MDDStack.max_mdd sc) ->
  same_mdd s1 s1' ->
  forall nd,
  exists p, (row_s <- MDDStack.pop_row nd s1' v ;;
             foreach (MDDStack.entries (fst row_s)) undo (snd row_s, 0)) = Ok p /\
            same_mdd s (MDDStack.raise_max_mdd p).
Proof.
  intros Hundo (Hnn & Hbound & Hcount) Hp Hst HV HC Hle Hlow (HV' & HC' & Hm' & Hst') nd.
  set (sa := MDDStack.with_stack (MDDStack.mkRow [] v :: MDDStack.stack s) s) in *.
  destruct (pushes_shape _ _ _ _ (MDDStack.mkRow [] v) (MDDStack.stack s) Hp eq_refl)
    as (Hshape & Hn & Hmax).
  cbn [MDDStack.entries MDDStack.dominator] in Hshape. rewrite app_nil_r in Hshape.
  rewrite (pop_row_top nd s1' es v (MDDStack.stack s)) by congruence.
  cbn [bind fst snd MDDStack.entries].
  destruct (unwind ok undo Hundo _ _ _ Hp (MDDStack.with_stack (MDDStack.stack s) s1') 0)
    as (t' & Hrun & [HVt HCt] & Hst_t & Hm_t & Hn_t).
  { split; intros i; cbn; [rewrite <- HV, (HV' i)|rewrite <- HC, (HC' i)]; reflexivity. }
  exists (t', highest es 0). split; [exact Hrun|].
  cbn in Hst_t, Hm_t, HVt, HCt.
  destruct (raise_restores ok sa es sc t' (MDDStack.max_mdd s) Hnn Hbound Hcount Hp)
    as (Rm & RV & RC & Rs).
  { rewrite Hm_t, <- Hm'. cbn in Hmax. lia. }
  { cbn in Hmax. rewrite Hm_t, <- Hm', <- Hmax. exact Hlow. }
  repeat split.
  - intros i. rewrite RV. apply HVt.
  - intros i. rewrite RC. apply HCt.
  - now rewrite Rm.
  - now rewrite Rs, Hst_t.
Qed.

Lemma add_then_remove (nd : bool) (e : MDDStack.env) (s : MDDStack.t) (v : Z)
    (s1 s1' : MDDStack.t) :
  mdd_tight s ->
  MDDStack.add_dominator nd e s v = Ok s1 ->
  same_mdd s1 s1' ->
  exists s2, MDDStack.remove_dominator nd s1' v = Ok s2 /\ same_mdd s s2.
Proof.
  intros Ht Hadd Hsame. unfold MDDStack.add_dominator in Hadd.
  step Hadd as sa Ha. step Hadd as nb Hnb. step Hadd as sb Hb. step Hadd as sc Hc.
  unfold MDDStack.new_row in Ha. destruct (_ <? _); [|discriminate]. injection Ha as <-.
  destruct (clear_loop (add_change nd) _ (fun _ => or_introl eq_refl) _ _ _ _
              (pushes_nil _ _) (fun i => or_introl eq_refl) Hb) as (es1 & Hp1 & HJ1).
  destruct (refresh_loop (add_change nd) nd e _ _ (fun _ _ H => or_intror H)
              (refresh_undominated_pushed nd e) _ _ _ _ Hp1 (cleared_refreshed e _ _ HJ1) Hc)
    as (es & Hp & _).
  apply lower_max_mdd_guarded_spec in Hadd. destruct Hadd as (_ & Hst & HV & HC & Hle & _ & Hlow).
  destruct (push_then_pop (add_change nd) MDDStack.remove_entry s v es sc s1 s1'
              (fun s u old new s' t h _ => remove_entry_undo s u old new s' t h)
              Ht Hp Hst HV HC Hle Hlow Hsame nd) as (p & Hrun & Hres).
  exists (MDDStack.raise_max_mdd p). split; [|exact Hres].
  unfold MDDStack.remove_dominator. step Hrun as rs Hpop. rewrite Hpop. cbn [bind].
  destruct rs as [row t]. cbn [fst snd] in Hrun. rewrite Hrun. reflexivity.
Qed.

Lemma exclude_then_unexclude (nd : bool) (e : MDDStack.env) (s : MDDStack.t) (v : Z)
    (s1 s1' : MDDStack.t) :
  mdd_tight s ->
  MDDStack.exclude_dominator nd e s v = Ok s1 ->
  same_mdd s1 s1' ->
  exists s2, MDDStack.unexclude_dominator nd s1' v = Ok s2 /\ same_mdd s s2.
Proof.
  intros Ht Hadd Hsame. unfold MDDStack.exclude_dominator in Hadd.
  step Hadd as sa Ha. step Hadd as nb Hnb. step Hadd as sc Hc.
  unfold MDDStack.new_row in Ha. destruct (_ <? _); [|discriminate]. injection Ha as <-.
  destruct (refresh_loop (strict_change nd) nd e _ _ (fun _ _ H => H)
              (refresh_excluded_pushed nd e) _ _ _ _ (pushes_nil _ _)
              (fun i => or_introl eq_refl) Hc)
    as (es & Hp & _).
  apply lower_max_mdd_spec in Hadd. destruct Hadd as (_ & Hst & HV & HC & Hle & _ & Hlow).
  destruct (push_then_pop (strict_change nd) (MDDStack.unexclude_entry nd) s v es sc s1 s1'
              (unexclude_entry_undo nd)
              Ht Hp Hst HV HC Hle Hlow Hsame nd) as (p & Hrun & Hres).
  exists (MDDStack.raise_max_mdd p). split; [|exact Hres].
  unfold MDDStack.unexclude_dominator. step Hrun as rs Hpop. rewrite Hpop. cbn [bind].
  destruct rs as [row t]. cbn [fst snd] in Hrun. rewrite Hrun. reflexivity.
Qed.

Lemma lifo_paired_same (nd : bool) (s s' : MDDStack.t) : lifo_paired nd s s' -> same_mdd s s'.
Proof.
  induction 1 as [s|e v s s1 s2 s3 s4 Ht Hpush _ IH1 Hpop _ IH2
                   |e v s s1 s2 s3 s4 Ht Hpush _ IH1 Hpop _ IH2].
  - apply same_mdd_refl.
  - destruct (add_then_remove nd e s v s1 s2 Ht Hpush IH1) as (s3' & Hpop' & Hsame).
    rewrite Hpop in Hpop'. injection Hpop' as <-. eapply same_mdd_trans; eauto.
  - destruct (exclude_then_unexclude nd e s v s1 s2 Ht Hpush IH1) as (s3' & Hpop' & Hsame).
    rewrite Hpop in Hpop'. injection Hpop' as <-. eapply same_mdd_trans; eauto.
Qed.

Lemma in_zrange (size i : Z) : in_bounds size i = true -> In i (zrange 0 (Z.to_nat size)).
Proof.
  unfold in_bounds. intros H. apply andb_true_iff in H. destruct H as [H0 H1].
  apply Z.leb_le in H0. apply Z.ltb_lt in H1.
  unfold zrange. apply in_map_iff. exists (Z.to_nat i). split; [lia|].
  apply in_seq. lia.
Qed.

Lemma mdd_tightb_sound (s : MDDStack.t) : mdd_tightb s = true -> mdd_tight s.
Proof.
  unfold mdd_tightb. intros H. apply andb_true_iff in H. destruct H as [H H2].
  apply andb_true_iff in H. destruct H as [H0 H1]. apply Z.leb_le in H0.
  rewrite forallb_forall in H1. split; [exact H0|]. split.
  - intros u Hu Hne. specialize (H1 u (in_zrange _ _ Hu)).
    apply orb_true_iff in H1. destruct H1 as [H1|H1]; [apply Z.eqb_eq in H1; contradiction|].
    now apply Z.leb_le.
  - intros Hpos. apply orb_true_iff in H2. destruct H2 as [H2|H2];
      [apply Z.leb_le in H2; lia|now apply Z.ltb_lt].
Qed.

(** C6: from a state as the class keeps it, a [remove_dominator] paired
    with an [add_dominator], and an [unexclude_dominator] paired with an
    [exclude_dominator], with any properly paired calls in between,
    completes and leaves [mdd_values], [mdd_counts], [max_mdd] (and the
    stack of rows) as they were before the push. *)
Theorem paired_calls_restore (NDEBUG : bool) (e : MDDStack.env) (s : MDDStack.t) (v : Z) :
  mdd_tight s ->
  (forall s1 s2,
      MDDStack.add_dominator NDEBUG e s v = Ok s1 -> lifo_paired NDEBUG s1 s2 ->
      exists s3, MDDStack.remove_dominator NDEBUG s2 v = Ok s3 /\ same_mdd s s3) /\
  (forall s1 s2,
      MDDStack.exclude_dominator NDEBUG e s v = Ok s1 -> lifo_paired NDEBUG s1 s2 ->
      exists s3, MDDStack.unexclude_dominator NDEBUG s2 v = Ok s3 /\ same_mdd s s3).
Proof.
  intros Ht. split; intros s1 s2 Hpush Hbetween; apply lifo_paired_same in Hbetween.
  - eapply add_then_remove; eauto.
  - eapply exclude_then_unexclude; eauto.
Qed.

(** On the path with six vertices, at the root: [add_dominator(1)] and
    then [remove_dominator(1)]. *)
Lemma paired_calls_restore_witness :
  exists e s s1,
    Examples.P6_before_add = Ok (e, s) /\ mdd_tight s /\
    MDDStack.add_dominator false e s 1 = Ok s1 /\
    exists s3, MDDStack.remove_dominator false s1 1 = Ok s3 /\ same_mdd s s3.
Proof.
  destruct Examples.P6_before_add as [[e s]|f] eqn:E; [|vm_compute in E; discriminate].
  exists e, s.
  assert (Ht : mdd_tight s).
  { apply mdd_tightb_sound. vm_compute in E. injection E as <- <-. vm_compute. reflexivity. }
  destruct (MDDStack.add_dominator false e s 1) as [s1|f] eqn:E1;
    [|vm_compute in E; injection E as <- <-; vm_compute in E1; discriminate].
  exists s1. split; [reflexivity|]. split; [exact Ht|]. split; [reflexivity|].
  exact (proj1 (paired_calls_restore false e s 1 Ht) s1 s1 E1 (lifo_done false s1)).
Defined.

End MDDStackRestore.

(** ** The text format: what is written is read back *)

Section RoundTrip.
Import GraphIO.

Lemma digit_not_space (d : Decimal.uint) (s : stream) :
  d <> Decimal.Nil -> skipws (chars_of_uint d ++ s) = chars_of_uint d ++ s.
Proof. destruct d; intros H; [contradiction| reflexivity ..]. Qed.

Lemma skipws_spaces (w s : stream) :
  Forall (fun c => isspace c = true) w -> skipws (w ++ s) = skipws s.
Proof. induction 1 as [|c w Hc _ IH]; [reflexivity|]. cbn [app skipws]. now rewrite Hc. Qed.

Lemma read_digits_chars (d : Decimal.uint) (c : ascii) (s : stream) :
  digit_cons c = None ->
  read_digits (chars_of_uint d ++ c :: s) = (d, c :: s).
Proof.
  intros Hc. induction d; cbn [chars_of_uint app read_digits];
    [now rewrite Hc | cbn [digit_cons]; now rewrite IHd ..].
Qed.

(** [f >> z] after [f << z]: white space is skipped, the digits are
    read up to the separator. *)
Lemma read_int_write_int (w : stream) (z : Z) (c : ascii) (s : stream) :
  Forall (fun c => isspace c = true) w ->
  0 <= z <= INT_MAX ->
  digit_cons c = None ->
  read_int (w ++ write_int z ++ c :: s) = Some (z, c :: s).
Proof.
  intros Hw Hz Hc. unfold read_int, write_int.
  pose proof (DecimalZ.of_to z) as Hof.
  assert (Hd : exists d, Z.to_int z = Decimal.Pos d /\ d <> Decimal.Nil).
  { destruct z as [|p|p]; cbn; [eexists; split; [reflexivity|discriminate]| |lia].
    eexists; split; [reflexivity|]. apply Unsigned.to_uint_nonnil. }
  destruct Hd as (d & Hd & Hnil). rewrite Hd in Hof |- *.
  rewrite skipws_spaces by exact Hw.
  rewrite digit_not_space by exact Hnil.
  match goal with
  | |- (let '(neg, s1) := ?m in _) = _ =>
      replace m with (false, chars_of_uint d ++ c :: s)
        by (destruct d; [contradiction|reflexivity ..])
  end.
  cbv beta iota. rewrite (read_digits_chars d c s Hc). rewrite Hof.
  assert (Hr : (INT_MIN <=? z) && (z <=? INT_MAX) = true).
  { apply andb_true_iff. split; apply Z.leb_le; unfold INT_MIN; lia. }
  rewrite Hr. destruct d; [contradiction|reflexivity ..].
Qed.

Lemma list_set_middle {A : Type} (pre : list A) (x y : A) (post : list A) :
  Graph.list_set (pre ++ x :: post) (length pre) y = pre ++ y :: post.
Proof. induction pre as [|a pre IH]; cbn; [reflexivity|now rewrite IH]. Qed.

Lemma push_neighbour_middle (pre : list Graph.Vertex) (x : Graph.Vertex)
    (post : list Graph.Vertex) (u : Z) :
  Graph.push_neighbour (Graph.mkGraph (pre ++ x :: post)) (Z.of_nat (length pre)) u =
  Ok (Graph.mkGraph
        (pre ++ Graph.mkVertex (Graph._neighbours x ++ [u]) (Graph.real_index x) (Graph.index x)
             :: post)).
Proof.
  unfold Graph.push_neighbour, Graph.get, Graph.set, Graph.n. cbn [Graph.vertices].
  destruct (Z.ltb_spec (Z.of_nat (length pre)) 0) as [H|_]; [lia|].
  rewrite Nat2Z.id, nth_error_app2, Nat.sub_diag by lia. cbn [nth_error bind].
  assert (Hin : in_bounds (Z.of_nat (length (pre ++ x :: post))) (Z.of_nat (length pre)) = true).
  { unfold in_bounds. rewrite length_app. cbn [length].
    apply andb_true_iff. split; [apply Z.leb_le|apply Z.ltb_lt]; lia. }
  rewrite Hin, list_set_middle. reflexivity.
Qed.

Lemma read_neighbours_written (l : list Z) :
  Forall (fun u => 0 <= u < MAX_DEGREE) l ->
  forall (w tail : stream) (pre : list Graph.Vertex) (x : Graph.Vertex) (post : list Graph.Vertex),
    spaces w ->
    exists w',
      spaces w' /\
      read_neighbours (length l) (Z.of_nat (length pre))
        (w ++ write_neighbours l ++ tail) (Graph.mkGraph (pre ++ x :: post)) =
      Ok (true,
          Graph.mkGraph
            (pre ++ Graph.mkVertex (Graph._neighbours x ++ l) (Graph.real_index x) (Graph.index x)
                 :: post),
          w' ++ tail).
Proof.
  induction 1 as [|u l Hu _ IH]; intros w tail pre x post Hw.
  - exists w. split; [exact Hw|]. cbn. rewrite app_nil_r. now destruct x.
  - cbn [length read_neighbours write_neighbours flat_map].
    rewrite <- !app_assoc. cbn [app].
    rewrite read_int_write_int; [|exact Hw|unfold MAX_DEGREE, INT_MAX in *; lia|reflexivity].
    destruct (Z.ltb_spec u 0) as [?|_]; [lia|].
    destruct (Z.geb_spec u MAX_DEGREE) as [?|_]; [lia|]. cbn [orb].
    rewrite push_neighbour_middle. cbn [bind].
    destruct (IH [sp] tail pre
                (Graph.mkVertex (Graph._neighbours x ++ [u]) (Graph.real_index x) (Graph.index x))
                post) as (w' & Hw' & Hrun).
    { repeat constructor. }
    exists w'. split; [exact Hw'|].
    unfold write_neighbours in Hrun. cbn [app] in Hrun. rewrite Hrun.
    cbn [Graph._neighbours Graph.real_index Graph.index]. now rewrite <- app_assoc.
Qed.

Lemma read_vertices_written (vs : list Graph.Vertex) :
  Forall vertex_fits vs ->
  forall (w tail : stream) (pre fresh : list Graph.Vertex),
    spaces w ->
    length fresh = length vs ->
    Forall (fun x => Graph._neighbours x = []) fresh ->
    exists w' read,
      spaces w' /\
      map Graph._neighbours read = map Graph._neighbours vs /\
      read_vertices (length vs) (Z.of_nat (length pre))
        (w ++ flat_map write_vertex vs ++ tail) (Graph.mkGraph (pre ++ fresh)) =
      Ok (true, Graph.mkGraph (pre ++ read), w' ++ tail).
Proof.
  induction 1 as [|v vs [Hdeg Hnb] _ IH]; intros w tail pre fresh Hw Hlen Hfresh.
  - destruct fresh; [|discriminate]. exists w, []. cbn. auto.
  - destruct fresh as [|x fresh]; [discriminate|].
    injection Hlen as Hlen. inversion Hfresh as [|? ? Hx Hfresh']; subst.
    cbn [length read_vertices flat_map]. unfold write_vertex at 1.
    rewrite <- !app_assoc. cbn [app].
    rewrite read_int_write_int;
      [|exact Hw|unfold Graph.deg, MAX_DEGREE, INT_MAX in *; lia|reflexivity].
    destruct (Z.ltb_spec (Graph.deg v) 0) as [?|_]; [unfold Graph.deg in *; lia|].
    destruct (Z.geb_spec (Graph.deg v) MAX_DEGREE) as [?|_]; [lia|]. cbn [orb].
    unfold Graph.deg at 1. rewrite Nat2Z.id.
    destruct (read_neighbours_written (Graph._neighbours v) Hnb [sp]
                (nl :: flat_map write_vertex vs ++ tail) pre x fresh)
      as (w1 & Hw1 & Hrun1).
    { repeat constructor. }
    unfold write_neighbours in Hrun1. cbn [app] in Hrun1. rewrite Hrun1. cbn [bind].
    rewrite Hx. cbn [app].
    set (x' := Graph.mkVertex (Graph._neighbours v) (Graph.real_index x) (Graph.index x)).
    destruct (IH (w1 ++ [nl]) tail (pre ++ [x']) fresh) as (w' & read & Hw' & Hmap & Hrun).
    { apply Forall_app. split; [exact Hw1|repeat constructor]. }
    { exact Hlen. }
    { exact Hfresh'. }
    exists w', (x' :: read). split; [exact Hw'|]. split; [cbn; now rewrite Hmap|].
    rewrite length_app in Hrun. cbn [length] in Hrun.
    replace (Z.of_nat (length pre) + 1) with (Z.of_nat (length pre + 1)) by lia.
    rewrite <- !app_assoc in Hrun. cbn [app] in Hrun. exact Hrun.
Qed.

Lemma Forall_fresh (l : list Z) :
  Forall (fun x => Graph._neighbours x = []) (map (fun i => Graph.mkVertex [] i i) l).
Proof. induction l; constructor; auto. Qed.

(** C8: a graph within the format's limits, written by [write_graph]
    and read back by [read_graph], gives [true] and a graph with the
    same number of vertices and the same adjacency lists, neighbours in
    the same order. *)
Theorem read_graph_write_graph (g g0 : Graph.t) :
  Graph.n g < MAX_VERTS ->
  Forall vertex_fits (Graph.vertices g) ->
  exists g' rest,
    read_graph (write_graph [] g) g0 = Ok (true, g', rest) /\
    Graph.n g' = Graph.n g /\
    map Graph._neighbours (Graph.vertices g') = map Graph._neighbours (Graph.vertices g).
Proof.
  intros Hn Hfit. unfold read_graph, write_graph. cbn [app].
  assert (H0 : 0 <= Graph.n g) by (unfold Graph.n; lia).
  assert (Hread : forall s, read_int (write_int (Graph.n g) ++ nl :: s) = Some (Graph.n g, nl :: s)).
  { intros s. apply (read_int_write_int [] (Graph.n g) nl s);
      [constructor|unfold Graph.n, MAX_VERTS, INT_MAX in *; lia|reflexivity]. }
  rewrite Hread.
  destruct (Z.ltb_spec (Graph.n g) 0) as [?|_]; [lia|].
  destruct (Z.geb_spec (Graph.n g) MAX_VERTS) as [?|_]; [lia|]. cbn [orb].
  unfold Graph.reset.
  destruct (Z.geb_spec (Graph.n g) MAX_VERTS) as [?|_]; [lia|].
  destruct (Z.ltb_spec (Graph.n g) 0) as [?|_]; [lia|]. cbn [bind].
  unfold Graph.n at 1 2. rewrite Nat2Z.id.
  destruct (read_vertices_written (Graph.vertices g) Hfit [nl] [] []
              (map (fun i => Graph.mkVertex [] i i) (zrange 0 (length (Graph.vertices g)))))
    as (w' & read & Hw' & Hmap & Hrun).
  { repeat constructor. }
  { now rewrite length_map, zrange_length. }
  { apply Forall_fresh. }
  cbn [app length Z.of_nat] in Hrun. rewrite app_nil_r in Hrun.
  exists (Graph.mkGraph read), (w' ++ []). split; [exact Hrun|].
  split; [|exact Hmap]. unfold Graph.n. cbn [Graph.vertices].
  apply (f_equal (@length _)) in Hmap. rewrite !length_map in Hmap. now rewrite Hmap.
Qed.

(** The path with three vertices, written and read back. *)
Lemma read_graph_write_graph_witness :
  exists g' rest,
    read_graph (write_graph [] (Examples.graph_of Examples.P3)) Graph.empty = Ok (true, g', rest) /\
    Graph.n g' = 3 /\
    map Graph._neighbours (Graph.vertices g') = Examples.P3.
Proof.
  apply (read_graph_write_graph (Examples.graph_of Examples.P3) Graph.empty).
  - vm_compute. reflexivity.
  - repeat constructor; vm_compute; congruence.
Defined.

End RoundTrip.

(** ** rank_neighbours: the ring is a stable ascending sort *)

Section RankNeighbours.
Import NeighbourList.

Lemma StronglySorted_app_inv {A : Type} (R : A -> A -> Prop) (l1 l2 : list A) :
  StronglySorted R (l1 ++ l2) ->
  StronglySorted R l1 /\ StronglySorted R l2 /\
  (forall a b, In a l1 -> In b l2 -> R a b).
Proof.
  induction l1 as [|x l1 IH]; cbn; intros H.
  - repeat split; [constructor|exact H|intros a b []].
  - inversion H as [|? ? Hs Hf]; subst. destruct (IH Hs) as (H1 & H2 & H3).
    rewrite Forall_app in Hf. destruct Hf as [Hf1 Hf2].
    repeat split; [constructor; assumption|exact H2|].
    intros a b [<-|Ha] Hb; [|auto]. rewrite Forall_forall in Hf2. auto.
Qed.

Lemma StronglySorted_app {A : Type} (R : A -> A -> Prop) (l1 l2 : list A) :
  StronglySorted R l1 -> StronglySorted R l2 ->
  (forall a b, In a l1 -> In b l2 -> R a b) ->
  StronglySorted R (l1 ++ l2).
Proof.
  intros H1 H2 H. induction l1 as [|x l1 IH]; cbn; [exact H2|].
  inversion H1; subst. constructor.
  - apply IH; auto. intros; apply H; cbn; auto.
  - apply Forall_app; split; auto.
    apply Forall_forall. intros y Hy. apply H; cbn; auto.
Qed.

Lemma insert_after_split (p : nat) (node x : NeighbourListNode) (A B : list NeighbourListNode) :
  ~ In p (map id A) -> id x = p ->
  insert_after p node (A ++ x :: B) = Ok (A ++ x :: node :: B).
Proof.
  intros Hp Hx. induction A as [|a A IH]; cbn [app insert_after].
  - now rewrite Hx, Nat.eqb_refl.
  - destruct (Nat.eqb_spec (id a) p) as [E|_]; [exfalso; apply Hp; cbn; auto|].
    rewrite IH; [reflexivity|]. intros H. apply Hp. cbn. auto.
Qed.

Lemma last_with_app (d : Z) (A B : list NeighbourListNode) :
  last_with d (A ++ B) =
  match last_with d B with Some i => Some i | None => last_with d A end.
Proof.
  induction A as [|a A IH]; cbn [app last_with]; [now destruct (last_with d B)|].
  rewrite IH. destruct (last_with d B); reflexivity.
Qed.

Lemma last_with_None (d : Z) (l : list NeighbourListNode) :
  last_with d l = None <-> Forall (fun y => deg y <> d) l.
Proof.
  induction l as [|x l IH]; cbn [last_with]; [split; auto|].
  destruct (last_with d l) eqn:E.
  - split; [discriminate|]. intros H. inversion H; subst.
    destruct IH as [_ IH]. specialize (IH H3). discriminate.
  - destruct (Z.eqb_spec (deg x) d) as [Hd|Hd].
    + split; [discriminate|]. intros H. inversion H; subst. contradiction.
    + split; [|reflexivity]. intros _. constructor; [exact Hd|]. now apply IH.
Qed.

Lemma last_with_Some (d : Z) (l : list NeighbourListNode) (p : nat) :
  last_with d l = Some p ->
  exists A x B, l = A ++ x :: B /\ id x = p /\ deg x = d /\ Forall (fun y => deg y <> d) B.
Proof.
  induction l as [|a l IH]; cbn [last_with]; [discriminate|].
  destruct (last_with d l) eqn:E.
  - intros [= <-]. destruct (IH eq_refl) as (A & x & B & -> & Hid & Hd & HB).
    exists (a :: A), x, B. auto.
  - destruct (Z.eqb_spec (deg a) d) as [Hd|Hd]; [|discriminate].
    intros [= <-]. exists [], a, l. repeat split; auto. now apply last_with_None.
Qed.

(** The walk from [head_tail.prev] backwards stops at the last node of
    degree at most [d], or at [head_tail]. *)
Lemma walk_back_split (d : Z) (l : list NeighbourListNode) :
  exists A B,
    l = A ++ B /\ Forall (fun y => d < deg y) B /\
    ((A = [] /\ walk_back d (rev l) = None) \/
     (exists A' x, A = A' ++ [x] /\ deg x <= d /\ walk_back d (rev l) = Some (id x))).
Proof.
  induction l as [|x l IH] using rev_ind.
  - exists [], []. repeat split; auto.
  - rewrite rev_app_distr. cbn [rev app walk_back].
    destruct (Z.gtb_spec (deg x) d) as [Hgt|Hle].
    + destruct IH as (A & B & -> & HB & Hcase).
      exists A, (B ++ [x]). split; [now rewrite app_assoc|].
      split; [apply Forall_app; split; [exact HB|constructor; [lia|constructor]]|].
      exact Hcase.
    + exists (l ++ [x]), []. split; [now rewrite app_nil_r|]. split; [constructor|].
      right. exists l, x. repeat split; [lia].
Qed.

Lemma stable_insert_split (p : Z * Z) (A B : list (Z * Z)) :
  Forall (fun x => snd x <= snd p) A ->
  Forall (fun x => snd p < snd x) B ->
  stable_insert p (A ++ B) = A ++ p :: B.
Proof.
  intros HA HB. induction HA as [|a A Ha _ IH]; cbn [app stable_insert].
  - destruct HB as [|b B Hb _]; [reflexivity|]. cbn [stable_insert].
    destruct (Z.leb_spec (snd b) (snd p)); [lia|reflexivity].
  - destruct (Z.leb_spec (snd a) (snd p)); [|lia]. now rewrite IH.
Qed.

(** Where the new node is linked, in both cases of the source. *)
Lemma insert_position (l : NeighbourList.t) (node : NeighbourListNode) (d : Z) :
  ring_inv l ->
  exists A B,
    chain l = A ++ B /\
    Forall (fun y => deg y <= d) A /\ Forall (fun y => d < deg y) B /\
    match (match degrees l d with
           | Some p => Some p
           | None => walk_back d (rev (chain l))
           end) with
    | None => Ok (node :: chain l)
    | Some p => insert_after p node (chain l)
    end = Ok (A ++ node :: B).
Proof.
  intros (_ & Hnd & _ & Hsorted & Hdeg). rewrite Hdeg.
  destruct (last_with d (chain l)) as [p|] eqn:E.
  - destruct (last_with_Some _ _ _ E) as (A & x & B & Hl & Hid & Hd & HB).
    rewrite Hl in Hnd, Hsorted |- *.
    exists (A ++ [x]), B. rewrite <- !app_assoc. cbn [app].
    destruct (StronglySorted_app_inv _ _ _ Hsorted) as (_ & HxB & HAx).
    split; [reflexivity|]. split; [|split].
    + apply Forall_app. split; [|constructor; [lia|constructor]].
      apply Forall_forall. intros a Ha. specialize (HAx a x Ha (or_introl eq_refl)).
      unfold node_le in HAx. lia.
    + inversion HxB as [|? ? _ Hf]; subst.
      rewrite Forall_forall in Hf, HB |- *. intros b Hb.
      specialize (Hf b Hb). specialize (HB b Hb). unfold node_le in Hf. lia.
    + apply insert_after_split; [|exact Hid].
      rewrite map_app in Hnd. cbn [map] in Hnd. apply NoDup_remove_2 in Hnd.
      intros Hin. apply Hnd. apply in_or_app. left. rewrite Hid. exact Hin.
  - destruct (walk_back_split d (chain l)) as (A & B & Hl & HB & [[-> Hw]|(A' & x & -> & Hx & Hw)]);
      rewrite Hw.
    + exists [], B. cbn [app] in Hl |- *. rewrite Hl. repeat split; auto.
    + exists (A' ++ [x]), B. rewrite Hl in Hnd, Hsorted |- *.
      rewrite <- !app_assoc in *. cbn [app] in *.
      destruct (StronglySorted_app_inv _ _ _ Hsorted) as (_ & _ & HAx).
      split; [reflexivity|]. split; [|split; [exact HB|]].
      * apply Forall_app. split; [|constructor; [lia|constructor]].
        apply Forall_forall. intros a Ha. specialize (HAx a x Ha (or_introl eq_refl)).
        unfold node_le in HAx. lia.
      * apply insert_after_split; [|reflexivity].
        rewrite map_app in Hnd. cbn [map] in Hnd. apply NoDup_remove_2 in Hnd.
        intros Hin. apply Hnd. apply in_or_app. now left.
Qed.

Lemma view_app (A B : list NeighbourListNode) : view (A ++ B) = view A ++ view B.
Proof. apply map_app. Qed.

(** One insertion links the node behind the nodes of degree at most its own. *)
Lemma insert_stable (l : NeighbourList.t) (v d : Z) :
  ring_inv l ->
  in_bounds (degrees_size l) d = true ->
  exists l',
    insert l v d = Ok l' /\ ring_inv l' /\ degrees_size l' = degrees_size l /\
    view (chain l') = stable_insert (v, d) (view (chain l)).
Proof.
  intros Hinv Hd. unfold insert. rewrite (aread_in _ _ _ Hd). cbn [bind].
  set (node := mkNode (Z.to_nat (neighbour_count l)) d v).
  destruct (insert_position l node d Hinv) as (A & B & Hl & HA & HB & Hrun).
  rewrite Hrun. cbn [bind]. eexists. split; [reflexivity|].
  destruct Hinv as (Hcount & Hnd & Hid & Hsorted & Hdeg).
  rewrite Hl in Hcount, Hnd, Hid, Hsorted, Hdeg |- *.
  assert (Hnode : id node = length (A ++ B)) by (cbn; rewrite Hcount; apply Nat2Z.id).
  destruct (StronglySorted_app_inv _ _ _ Hsorted) as (HsA & HsB & _).
  split; [|split; [reflexivity|]].
  - unfold ring_inv. cbn [chain neighbour_count degrees]. split; [|split; [|split; [|split]]].
    + rewrite Hcount, !length_app. cbn [length]. lia.
    + rewrite map_app in Hnd |- *. cbn [map]. apply NoDup_Add with (a := id node) (l := map id A ++ map id B).
      * apply Add_app.
      * split; [exact Hnd|]. rewrite <- map_app. intros Hin. apply in_map_iff in Hin.
        destruct Hin as (y & Hy & Hin). rewrite Forall_forall in Hid. specialize (Hid y Hin). lia.
    + assert (Hlen : length (A ++ node :: B) = S (length (A ++ B))).
      { rewrite !length_app. cbn [length]. lia. }
      rewrite Hlen. rewrite Forall_app in Hid |- *. destruct Hid as [HidA HidB].
      split; [eapply Forall_impl; [|exact HidA]; cbn; intros; lia|].
      constructor; [lia|eapply Forall_impl; [|exact HidB]; cbn; intros; lia].
    + apply StronglySorted_app; [exact HsA|constructor; [exact HsB|]|].
      * eapply Forall_impl; [|exact HB]. unfold node_le. cbn. intros; lia.
      * intros a b Ha [<-|Hb]; unfold node_le.
        -- rewrite Forall_forall in HA. specialize (HA a Ha). cbn. lia.
        -- rewrite Forall_forall in HA, HB. specialize (HA a Ha). specialize (HB b Hb). lia.
    + intros d'. rewrite last_with_app. cbn [last_with]. unfold upd.
      specialize (Hdeg d'). rewrite last_with_app in Hdeg.
      destruct (Z.eqb_spec d' d) as [->|Hne].
      * assert (HN : last_with d B = None).
        { apply last_with_None. eapply Forall_impl; [|exact HB]. cbn. intros; lia. }
        rewrite HN. cbn [deg node]. now rewrite Z.eqb_refl.
      * cbn [deg node]. destruct (Z.eqb_spec d d'); [congruence|].
        rewrite Hdeg. now destruct (last_with d' B).
  - cbn [chain]. rewrite !view_app. cbn [view map]. cbn [u deg node].
    symmetry. apply (stable_insert_split (v, d)).
    + unfold view. apply Forall_map. exact HA.
    + unfold view. apply Forall_map. exact HB.
Qed.

(** The insertion loop. *)
Lemma insert_all (cands : list (Z * Z)) :
  forall l,
    ring_inv l ->
    Forall (fun p => in_bounds (degrees_size l) (snd p) = true) cands ->
    exists l',
      foreach cands (fun l p => insert l (fst p) (snd p)) l = Ok l' /\ ring_inv l' /\
      view (chain l') = fold_left (fun acc p => stable_insert p acc) cands (view (chain l)).
Proof.
  induction cands as [|[v d] cands IH]; intros l Hinv Hb.
  - exists l. auto.
  - inversion Hb as [|? ? Hd Hb']; subst. cbn [fst snd] in Hd.
    destruct (insert_stable l v d Hinv Hd) as (l1 & Hrun & Hinv1 & Hsize & Hview).
    destruct (IH l1 Hinv1) as (l' & Hrun' & Hinv' & Hview').
    { now rewrite Hsize. }
    exists l'. cbn [foreach fold_left fst snd]. rewrite Hrun. cbn [bind].
    rewrite <- Hview. auto.
Qed.

Lemma stable_insert_perm (p : Z * Z) (l : list (Z * Z)) :
  Permutation (l ++ [p]) (stable_insert p l).
Proof.
  induction l as [|x l IH]; cbn [app stable_insert]; [reflexivity|].
  destruct (snd x <=? snd p).
  - now constructor.
  - change (Permutation ((x :: l) ++ [p]) (p :: x :: l)).
    symmetry. apply Permutation_cons_append.
Qed.

Lemma stable_insert_sorted (p : Z * Z) (l : list (Z * Z)) :
  StronglySorted by_degree l -> StronglySorted by_degree (stable_insert p l).
Proof.
  induction 1 as [|x l Hs IH Hf]; cbn [stable_insert]; [repeat constructor|].
  destruct (Z.leb_spec (snd x) (snd p)) as [Hle|Hgt].
  - constructor; [exact IH|].
    eapply Permutation_Forall; [apply stable_insert_perm|].
    apply Forall_app. split; [exact Hf|repeat constructor; exact Hle].
  - constructor; [constructor; assumption|].
    constructor; [unfold by_degree; lia|].
    eapply Forall_impl; [|exact Hf]. unfold by_degree. intros; lia.
Qed.

Lemma filter_none (d : Z) (l : list (Z * Z)) :
  Forall (fun q => snd q <> d) l -> filter (fun q => snd q =? d) l = [].
Proof.
  induction 1 as [|x l Hx _ IH]; [reflexivity|]. cbn [filter].
  destruct (Z.eqb_spec (snd x) d); [contradiction|exact IH].
Qed.

Lemma stable_insert_filter (p : Z * Z) (l : list (Z * Z)) (d : Z) :
  StronglySorted by_degree l ->
  filter (fun q => snd q =? d) (stable_insert p l) =
  filter (fun q => snd q =? d) l ++ filter (fun q => snd q =? d) [p].
Proof.
  induction 1 as [|x l Hs IH Hf]; cbn [stable_insert]; [reflexivity|].
  destruct (Z.leb_spec (snd x) (snd p)) as [Hle|Hgt].
  - cbn [filter] in IH |- *. destruct (snd x =? d); rewrite IH; reflexivity.
  - change (p :: x :: l) with ([p] ++ x :: l). rewrite filter_app.
    destruct (Z.eqb_spec (snd p) d) as [Hp|Hp].
    + assert (HN : filter (fun q => snd q =? d) (x :: l) = []).
      { apply filter_none. constructor; [lia|].
        eapply Forall_impl; [|exact Hf]. unfold by_degree. intros; lia. }
      rewrite HN. now rewrite app_nil_r.
    + assert (HN : filter (fun q => snd q =? d) [p] = []).
      { apply filter_none. repeat constructor. exact Hp. }
      rewrite HN. now rewrite app_nil_r.
Qed.

Lemma fold_stable_insert (cands : list (Z * Z)) :
  forall acc,
    StronglySorted by_degree acc ->
    Permutation (acc ++ cands) (fold_left (fun acc p => stable_insert p acc) cands acc) /\
    StronglySorted by_degree (fold_left (fun acc p => stable_insert p acc) cands acc) /\
    forall d,
      filter (fun q => snd q =? d) (fold_left (fun acc p => stable_insert p acc) cands acc) =
      filter (fun q => snd q =? d) acc ++ filter (fun q => snd q =? d) cands.
Proof.
  induction cands as [|p cands IH]; intros acc Hs; cbn [fold_left].
  - rewrite app_nil_r. repeat split; auto. intros d. now rewrite app_nil_r.
  - destruct (IH (stable_insert p acc) (stable_insert_sorted p acc Hs)) as (Hp & Hs' & Hf).
    split; [|split; [exact Hs'|]].
    + etransitivity; [|exact Hp].
      change (p :: cands) with ([p] ++ cands). rewrite app_assoc.
      apply Permutation_app_tail, stable_insert_perm.
    + intros d. rewrite Hf, (stable_insert_filter p acc d Hs), <- app_assoc.
      change (p :: cands) with ([p] ++ cands). now rewrite filter_app.
Qed.

Lemma until_zero_all (l : list NeighbourListNode) :
  Forall (fun x => deg x <> 0) l -> until_zero l = map u l.
Proof.
  induction 1 as [|x l Hx _ IH]; [reflexivity|]. cbn [until_zero map].
  destruct (Z.eqb_spec (deg x) 0); [contradiction|now rewrite IH].
Qed.

Lemma output_all (nd : bool) (rule : rank_rule) (l : NeighbourList.t) :
  ring_inv l ->
  Forall (fun x => deg x <> 0) (chain l) ->
  output nd rule l = Ok (ranked_output rule (view (chain l)), Z.of_nat (length (chain l))).
Proof.
  intros (Hcount & _) Hnz. unfold output, ranked_output.
  assert (Hw : match rule with
               | RANK_NEIGHBOURS_ASCENDING => until_zero (chain l)
               | RANK_NEIGHBOURS_DESCENDING => until_zero (rev (chain l))
               end =
               map fst (match rule with
                        | RANK_NEIGHBOURS_ASCENDING => view (chain l)
                        | RANK_NEIGHBOURS_DESCENDING => rev (view (chain l))
                        end)).
  { destruct rule.
    - rewrite (until_zero_all _ Hnz). unfold view. now rewrite map_map.
    - rewrite until_zero_all by (now apply Forall_rev).
      unfold view. now rewrite <- map_rev, map_map. }
  rewrite Hw.
  assert (Hlen : (Z.of_nat (length (map fst (match rule with
                                             | RANK_NEIGHBOURS_ASCENDING => view (chain l)
                                             | RANK_NEIGHBOURS_DESCENDING => rev (view (chain l))
                                             end))) =? neighbour_count l) = true).
  { apply Z.eqb_eq. rewrite Hcount, length_map. unfold view.
    destruct rule; rewrite ?length_rev, length_map; reflexivity. }
  rewrite Hlen, Hcount. unfold assert. destruct nd; reflexivity.
Qed.

(** From the empty ring: insertion of the candidates, then the output. *)
Lemma rank_from_empty (nd : bool) (rule : rank_rule) (max_degree : Z) (cands : list (Z * Z)) :
  0 <= max_degree < INT_MAX ->
  Forall (fun p => 0 < snd p <= max_degree) cands ->
  exists sorted,
    stable_ascending cands sorted /\
    (l <- NeighbourList.empty max_degree ;;
     l <- foreach cands (fun l p => insert l (fst p) (snd p)) l ;;
     output nd rule l) = Ok (ranked_output rule sorted, Z.of_nat (length cands)).
Proof.
  intros Hmax Hc. unfold NeighbourList.empty.
  destruct (Z.ltb_spec 0 (max_degree + 1)); [|lia].
  destruct (Z.leb_spec (max_degree + 1) INT_MAX); [|lia]. cbn [andb bind].
  destruct (insert_all cands (mk [] (max_degree + 1) (fill None) 0)) as (l & Hrun & Hinv & Hview).
  { unfold ring_inv. cbn. repeat split; constructor. }
  { eapply Forall_impl; [|exact Hc]. cbn. intros p Hp. unfold in_bounds.
    apply andb_true_iff. split; [apply Z.leb_le|apply Z.ltb_lt]; lia. }
  cbn [chain view map] in Hview.
  destruct (fold_stable_insert cands [] (SSorted_nil _)) as (Hperm & Hsorted & Hfilter).
  cbn [app] in Hperm. rewrite <- Hview in Hperm, Hsorted, Hfilter.
  exists (view (chain l)). split; [repeat split; assumption|].
  rewrite Hrun. cbn [bind].
  rewrite (output_all nd rule l Hinv).
  - apply Permutation_length in Hperm. unfold view in Hperm. rewrite length_map in Hperm.
    now rewrite Hperm.
  - assert (Hpos : Forall (fun p => 0 < snd p <= max_degree) (view (chain l))).
    { eapply Permutation_Forall; eauto. }
    unfold view in Hpos. rewrite Forall_map in Hpos.
    eapply Forall_impl; [|exact Hpos]. cbn. intros; lia.
Qed.

Lemma dd_loop (nd : bool) (s : DD.state) (nb : list Z) :
  forall acc total l,
    foreach nb
      (fun acc u =>
         fu <- aread MAX_VERTS (Framework.fixed (DD.base s)) u ;;
         if negb (fu =? 0) then Ok acc
         else d <- DegreePQ.ranked_degree (DD.UndominatedDPQ s) u ;; Ok (acc ++ [(u, d)])) acc
    = Ok total ->
    exists rest,
      total = acc ++ rest /\
      (Forall (fun p => 0 < snd p) rest ->
       foreach nb
         (fun l u =>
            fu <- aread MAX_VERTS (Framework.fixed (DD.base s)) u ;;
            if negb (fu =? 0) then Ok l
            else
              uncovered_deg <- DegreePQ.ranked_degree (DD.UndominatedDPQ s) u ;;
              assert nd (uncovered_deg >? 0) ;;;
              NeighbourList.insert l u uncovered_deg) l
       = foreach rest (fun l p => insert l (fst p) (snd p)) l).
Proof.
  induction nb as [|v nb IH]; intros acc total l H; cbn [foreach] in H |- *.
  - injection H as <-. exists []. now rewrite app_nil_r.
  - step H as acc1 H1. step H1 as fu Hfu. rewrite Hfu. cbn [bind].
    destruct (negb (fu =? 0)).
    + injection H1 as <-. cbn [bind]. apply IH, H.
    + step H1 as d Hd. injection H1 as <-. rewrite Hd. cbn [bind].
      destruct (IH _ _ l H) as (rest & -> & _).
      exists ((v, d) :: rest). split; [now rewrite <- app_assoc|].
      intros Hpos. inversion Hpos as [|? ? Hd0 Hpos']; subst. cbn [snd] in Hd0.
      assert (Has : assert nd (d >? 0) = Ok tt).
      { unfold assert. destruct nd; [reflexivity|].
        destruct (Z.gtb_spec d 0); [reflexivity|lia]. }
      rewrite Has. cbn [bind foreach fst snd].
      destruct (insert l v d) as [l1|f]; cbn [bind]; [|reflexivity].
      destruct (IH _ _ l1 H) as (rest' & Heq & Hrun).
      apply app_inv_head in Heq. subst rest'. now apply Hrun.
Qed.

Lemma mdd_loop (s : MDD.state) (members : list Z) :
  forall acc total l,
    foreach members
      (fun acc u =>
         d <- DegreePQ.ranked_degree (MDD.UndominatedDPQ s) u ;; Ok (acc ++ [(u, d)])) acc
    = Ok total ->
    exists rest,
      total = acc ++ rest /\
      foreach members
        (fun l u =>
           uncovered_deg <- DegreePQ.ranked_degree (MDD.UndominatedDPQ s) u ;;
           NeighbourList.insert l u uncovered_deg) l
      = foreach rest (fun l p => insert l (fst p) (snd p)) l.
Proof.
  induction members as [|v members IH]; intros acc total l H; cbn [foreach] in H |- *.
  - injection H as <-. exists []. now rewrite app_nil_r.
  - step H as acc1 H1. step H1 as d Hd. injection H1 as <-. rewrite Hd. cbn [bind].
    destruct (IH _ _ l H) as (rest & -> & _).
    exists ((v, d) :: rest). split; [now rewrite <- app_assoc|].
    cbn [bind foreach fst snd].
    destruct (insert l v d) as [l1|f]; cbn [bind]; [|reflexivity].
    destruct (IH _ _ l1 H) as (rest' & Heq & Hrun).
    apply app_inv_head in Heq. subst rest'. exact Hrun.
Qed.

(** C5 (as amended): when every unfixed candidate neighbour of the
    pivot has an uncovered degree between 1 and the largest rank of
    [UndominatedDPQ], [rank_neighbours] of the DD and of the MDD variants
    completes and hands over exactly these neighbours, all of them
    counted by [neighbour_count]: sorted by uncovered degree ascending
    with ties in insertion order for the ascending rule, and that list
    reversed, that is descending with ties in reverse insertion order,
    for the descending rule. *)
Theorem rank_neighbours_stable (NDEBUG : bool) :
  (forall (V : DD.variant) (g : Graph.t) (s : DD.state) (v : Z)
          (nb : list Z) (max_degree : Z) (cands : list (Z * Z)),
      Graph.neighbours g v = Ok nb ->
      DegreePQ.get_max_degree (DD.UndominatedDPQ s) = Ok max_degree ->
      0 <= max_degree < INT_MAX ->
      dd_candidates s nb = Ok cands ->
      Forall (fun p => 0 < snd p <= max_degree) cands ->
      exists sorted,
        stable_ascending cands sorted /\
        DD.rank_neighbours NDEBUG V g s v =
          Ok (ranked_output (DD.RANK_NEIGHBOURS_RULE V) sorted, Z.of_nat (length cands))) /\
  (forall (V : MDD.variant) (g : Graph.t) (s : MDD.state) (v : Z)
          (x : Graph.Vertex) (cn : VertexSet.t) (max_degree : Z) (cands : list (Z * Z)),
      Graph.get g v = Ok x ->
      MDD.get_cn s v = Ok cn ->
      DegreePQ.get_max_degree (MDD.UndominatedDPQ s) = Ok max_degree ->
      0 <= max_degree < INT_MAX ->
      mdd_candidates s (VertexSet.elements cn) = Ok cands ->
      Forall (fun p => 0 < snd p <= max_degree) cands ->
      exists sorted,
        stable_ascending cands sorted /\
        MDD.rank_neighbours NDEBUG V g s v =
          Ok (ranked_output (MDD.RANK_NEIGHBOURS_RULE V) sorted, Z.of_nat (length cands))).
Proof.
  split.
  - intros V g s v nb max_degree cands Hnb Hmax Hrange Hc Hpos.
    destruct (rank_from_empty NDEBUG (DD.RANK_NEIGHBOURS_RULE V) max_degree cands Hrange Hpos)
      as (sorted & Hsorted & Hrun).
    exists sorted. split; [exact Hsorted|].
    unfold DD.rank_neighbours. rewrite Hnb. cbn [bind]. rewrite Hmax. cbn [bind].
    destruct (NeighbourList.empty max_degree) as [l0|f]; [|discriminate]. cbn [bind] in Hrun |- *.
    destruct (dd_loop NDEBUG s nb [] cands l0 Hc) as (rest & Heq & Hloop).
    cbn [app] in Heq. subst rest. rewrite Hloop; [exact Hrun|].
    eapply Forall_impl; [|exact Hpos]. cbn. intros; lia.
  - intros V g s v x cn max_degree cands Hx Hcn Hmax Hrange Hc Hpos.
    destruct (rank_from_empty NDEBUG (MDD.RANK_NEIGHBOURS_RULE V) max_degree cands Hrange Hpos)
      as (sorted & Hsorted & Hrun).
    exists sorted. split; [exact Hsorted|].
    unfold MDD.rank_neighbours. rewrite Hx. cbn [bind]. rewrite Hmax. cbn [bind].
    destruct (NeighbourList.empty max_degree) as [l0|f]; [|discriminate]. cbn [bind] in Hrun |- *.
    rewrite Hcn. cbn [bind].
    destruct (mdd_loop s (VertexSet.elements cn) [] cands l0 Hc) as (rest & Heq & Hloop).
    cbn [app] in Heq. subst rest. rewrite Hloop. exact Hrun.
Qed.

(** The cycle on six vertices at the root, ascending rule: the pivot 0
    has the candidates 5, 1, 0, all of uncovered degree 3. *)
Lemma rank_neighbours_stable_witness :
  exists s inst sorted,
    DD.solve_init false DD.DD_minCD_asc Framework.default_settings DD.new
      (Examples.instance_of Examples.Cycle6) = Ok (s, inst) /\
    stable_ascending [(5, 3); (1, 3); (0, 3)] sorted /\
    DD.rank_neighbours false DD.DD_minCD_asc (Framework.G inst) s 0 =
      Ok (ranked_output RANK_NEIGHBOURS_ASCENDING sorted, 3).
Proof.
  destruct (DD.solve_init false DD.DD_minCD_asc Framework.default_settings DD.new
              (Examples.instance_of Examples.Cycle6)) as [[s inst]|f] eqn:E;
    [|vm_compute in E; discriminate].
  destruct (proj1 (rank_neighbours_stable false) DD.DD_minCD_asc (Framework.G inst) s 0
              [5; 1; 0] 3 [(5, 3); (1, 3); (0, 3)]) as (sorted & Hsorted & Hrun).
  - vm_compute in E. injection E as <- <-. vm_compute. reflexivity.
  - vm_compute in E. injection E as <- <-. vm_compute. reflexivity.
  - unfold INT_MAX. lia.
  - vm_compute in E. injection E as <- <-. vm_compute. reflexivity.
  - repeat constructor; cbn; lia.
  - exists s, inst, sorted. auto.
Defined.

(** The descending rule on the same state: the three candidates tie,
    were inserted in the order 5, 1, 0, and come out as 0, 1, 5. *)
Lemma descending_ties_reversed :
  exists s inst,
    DD.solve_init false DD.DD_minCD_desc Framework.default_settings DD.new
      (Examples.instance_of Examples.Cycle6) = Ok (s, inst) /\
    DegreePQ.get_min_undominated_vertex false (DD.CandidateDPQ s) = Ok 0 /\
    dd_candidates s [5; 1; 0] = Ok [(5, 3); (1, 3); (0, 3)] /\
    DD.rank_neighbours false DD.DD_minCD_desc (Framework.G inst) s 0 = Ok ([0; 1; 5], 3).
Proof.
  destruct (DD.solve_init false DD.DD_minCD_desc Framework.default_settings DD.new
              (Examples.instance_of Examples.Cycle6)) as [[s inst]|f] eqn:E;
    [|vm_compute in E; discriminate].
  exists s, inst. split; [reflexivity|].
  vm_compute in E. injection E as <- <-. repeat split; vm_compute; reflexivity.
Qed.

(** A candidate of uncovered degree 0 is not filtered out: it is linked
    right behind the sentinel, where it ends the ascending traversal
    before anything is written, and the descending one before it is
    reached; [neighbour_count] counts it in both cases. *)
Lemma zero_degree_is_counted :
  (l <- NeighbourList.empty 2 ;; l <- insert l 7 0 ;; l <- insert l 8 2 ;;
   output true RANK_NEIGHBOURS_ASCENDING l) = Ok ([], 2) /\
  (l <- NeighbourList.empty 2 ;; l <- insert l 7 0 ;; l <- insert l 8 2 ;;
   output true RANK_NEIGHBOURS_DESCENDING l) = Ok ([8], 2) /\
  (l <- NeighbourList.empty 2 ;; l <- insert l 7 0 ;; l <- insert l 8 2 ;;
   output false RANK_NEIGHBOURS_DESCENDING l) = Fail AssertionFailure.
Proof. repeat split; vm_compute; reflexivity. Qed.

End RankNeighbours.

(** ** The single vertex *)

Section SingleVertex.
Import Framework.

Ltac each_solver :=
  apply Forall_forall; intros p Hp; vm_compute in Hp;
  repeat (destruct Hp as [<-|Hp]; [vm_compute; auto|]); destruct Hp.

(** C1, counterexample: on the single vertex no registered optimizing
    solver hands any set to the output proxy, in either build; with
    assertions the DD and MDD variants stop on a failed assertion. *)
Lemma K1_no_optimizer_emits :
  Forall (fun p => emitted_by true (snd p) Examples.K1 = Ok []) Registry.optimizers /\
  Forall (fun p => emitted_by false (snd p) Examples.K1 = Ok [] \/
                   emitted_by false (snd p) Examples.K1 = Fail AssertionFailure)
         Registry.optimizers.
Proof. split; each_solver. Qed.

(** C1 (as amended): on the single vertex the fixed-order solver in
    optimization mode, in either build, returns without handing any set
    to the output proxy; its best set [B] is still the initial sentinel
    [{0}], whose size 1 is the domination number, and the proxy that
    keeps the best set, which starts from the full vertex set, reports
    [{0}]. *)
Theorem K1_fixed_order_keeps_sentinel (NDEBUG : bool) :
  emitted_by NDEBUG (Registry.FixedOrderSolver false FixedOrder.new) Examples.K1 = Ok [] /\
  best_by NDEBUG (Registry.FixedOrderSolver false FixedOrder.new) Examples.K1 = Ok [0] /\
  reported_by NDEBUG (Registry.FixedOrderSolver false FixedOrder.new) Examples.K1 = Ok [0] /\
  dominating Examples.K1 [0] = true /\ dominating Examples.K1 [] = false.
Proof. destruct NDEBUG; repeat split; vm_compute; reflexivity. Qed.

(** The DD and MDD variants start [B] at size [n - 1] and rank a vertex
    of closed degree [n] at a node whose [deg] was never set: on the
    single vertex [B] ends empty, and on the path with three vertices,
    whose middle vertex dominates, nothing is found. *)
Lemma dd_mdd_with_a_dominating_vertex :
  Forall (fun p => match snd p with
                   | Registry.FixedOrderSolver _ _ => True
                   | sv => best_by true sv Examples.K1 = Ok [] /\
                           emitted_by true sv Examples.P3 = Ok [] /\
                           best_by true sv Examples.P3 = Ok [0; 1]
                   end) Registry.optimizers.
Proof. each_solver. Qed.

End SingleVertex.

(** * Further properties *)

(** ** VertexSet as a list *)

Section VertexSetList.

Lemma zrange_snoc (lo : Z) (len : nat) :
  zrange lo (S len) = zrange lo len ++ [lo + Z.of_nat len].
Proof. unfold zrange. rewrite seq_S, map_app. reflexivity. Qed.

Lemma in_zrange_iff (lo : Z) (len : nat) (i : Z) :
  In i (zrange lo len) <-> lo <= i < lo + Z.of_nat len.
Proof.
  unfold zrange. rewrite in_map_iff. split.
  - intros (k & <- & Hk). apply in_seq in Hk. lia.
  - intros H. exists (Z.to_nat (i - lo)). split; [lia|]. apply in_seq. lia.
Qed.

Lemma zrange_NoDup (lo : Z) (len : nat) : NoDup (zrange lo len).
Proof.
  unfold zrange. apply NoDup_map_NoDup_ForallPairs; [|apply seq_NoDup].
  intros a b _ _ H. lia.
Qed.

Lemma in_bounds_iff (size i : Z) : in_bounds size i = true <-> 0 <= i < size.
Proof. unfold in_bounds. rewrite andb_true_iff, Z.leb_le, Z.ltb_lt. reflexivity. Qed.

(** [add] appends to the list of members. *)
Lemma elements_add (nd : bool) (s : VertexSet.t) (v : Z) (s' : VertexSet.t) :
  VertexSet.add nd s v = Ok s' ->
  0 <= VertexSet.size s < MAX_VERTS /\
  VertexSet.size s' = VertexSet.size s + 1 /\
  VertexSet.elements s' = VertexSet.elements s ++ [v].
Proof.
  unfold VertexSet.add. intros H. step H as c Hc. step H as a Ha.
  step H as ind Hind. step H as elt Helt. injection H as <-.
  apply awrite_Ok in Helt. destruct Helt as [Hb ->]. apply in_bounds_iff in Hb.
  split; [exact Hb|]. split; [reflexivity|].
  unfold VertexSet.elements. cbn [VertexSet.size VertexSet.set_elements].
  replace (Z.to_nat (VertexSet.size s + 1)) with (S (Z.to_nat (VertexSet.size s))) by lia.
  rewrite zrange_snoc, map_app. cbn [map]. f_equal.
  - apply map_ext_in. intros i Hi. apply in_zrange_iff in Hi. unfold upd.
    destruct (Z.eqb_spec i (VertexSet.size s)); [lia|reflexivity].
  - unfold upd. rewrite Z2Nat.id by lia. cbn. now rewrite Z.eqb_refl.
Qed.

(** [remove_pop] drops the last member. *)
Lemma elements_remove_pop (nd : bool) (s : VertexSet.t) (v : Z) (s' : VertexSet.t) :
  VertexSet.remove_pop nd s v = Ok s' ->
  VertexSet.size s' = VertexSet.size s - 1 /\
  VertexSet.elements s' = removelast (VertexSet.elements s).
Proof.
  unfold VertexSet.remove_pop. intros H. step H as idx Hidx. step H as a Ha.
  step H as ind Hind. injection H as <-. split; [reflexivity|].
  unfold VertexSet.elements. cbn [VertexSet.size VertexSet.set_elements].
  destruct (Z.to_nat (VertexSet.size s)) as [|k] eqn:E.
  - replace (Z.to_nat (VertexSet.size s - 1)) with 0%nat by lia. reflexivity.
  - replace (Z.to_nat (VertexSet.size s - 1)) with k by lia.
    rewrite zrange_snoc, map_app. cbn [map]. now rewrite removelast_last.
Qed.

End VertexSetList.

(** ** The cover counters *)

Section CoverCounters.
Import Framework.

Lemma count_pos_filter (a : array Z) (l : list Z) :
  count_pos a l = length (filter (fun k => a k >? 0) l).
Proof.
  induction l as [|k l IH]; [reflexivity|].
  cbn [count_pos filter]. rewrite IH. now destruct (a k >? 0).
Qed.

Lemma count_pos_ext (a b : array Z) (l : list Z) :
  (forall k, a k = b k) -> count_pos a l = count_pos b l.
Proof.
  intros H. induction l as [|k l IH]; [reflexivity|].
  cbn [count_pos]. now rewrite IH, H.
Qed.

Lemma count_pos_zero (a : array Z) (l : list Z) :
  (forall k, a k <= 0) -> count_pos a l = 0%nat.
Proof.
  intros H. induction l as [|k l IH]; [reflexivity|].
  cbn [count_pos]. rewrite IH.
  destruct (Z.gtb_spec (a k) 0); [specialize (H k); lia|reflexivity].
Qed.

Lemma count_pos_upd_out (a : array Z) (k x : Z) (l : list Z) :
  ~ In k l -> count_pos (upd a k x) l = count_pos a l.
Proof.
  induction l as [|i l IH]; intros Hk; [reflexivity|].
  cbn [count_pos]. rewrite IH by (intros Hin; apply Hk; now right).
  unfold upd. destruct (Z.eqb_spec i k) as [->|_]; [|reflexivity].
  exfalso. apply Hk. now left.
Qed.

Lemma count_pos_upd (a : array Z) (k x : Z) (l : list Z) :
  NoDup l -> In k l ->
  Z.of_nat (count_pos (upd a k x) l) =
  Z.of_nat (count_pos a l) + b2z (x >? 0) - b2z (a k >? 0).
Proof.
  induction 1 as [|i l Hi Hnd IH]; intros Hk; [destruct Hk|].
  cbn [count_pos]. destruct (Z.eq_dec i k) as [E|Hne].
  - rewrite E in *. rewrite count_pos_upd_out by exact Hi.
    unfold upd. rewrite Z.eqb_refl.
    destruct (x >? 0), (a k >? 0); cbn [b2z]; lia.
  - destruct Hk as [Hk|Hk]; [contradiction|].
    specialize (IH Hk). unfold upd at 1.
    destruct (Z.eqb_spec i k) as [|_]; [contradiction|].
    destruct (a i >? 0); lia.
Qed.

Lemma pos_count_upd (a : array Z) (k x : Z) :
  in_bounds MAX_VERTS k = true ->
  pos_count (upd a k x) = pos_count a + b2z (x >? 0) - b2z (a k >? 0).
Proof.
  intros Hk. unfold pos_count. apply count_pos_upd; [apply zrange_NoDup|].
  apply in_zrange_iff. apply in_bounds_iff in Hk. lia.
Qed.

Lemma pos_count_ext (a b : array Z) : (forall k, a k = b k) -> pos_count a = pos_count b.
Proof. intros H. unfold pos_count. f_equal. now apply count_pos_ext. Qed.

Lemma pos_count_zero (a : array Z) : (forall k, a k <= 0) -> pos_count a = 0.
Proof. intros H. unfold pos_count. now rewrite count_pos_zero. Qed.

Lemma pos_count_filter (a : array Z) :
  pos_count a = Z.of_nat (length (filter (fun k => a k >? 0) (zrange 0 (Z.to_nat MAX_VERTS)))).
Proof. unfold pos_count. now rewrite count_pos_filter. Qed.

Lemma counters_moved_refl (c : core) : counters_moved c c.
Proof. repeat split. Qed.

Lemma counters_moved_trans (c1 c2 c3 : core) :
  counters_moved c1 c2 -> counters_moved c2 c3 -> counters_moved c1 c3.
Proof.
  intros (H1 & H2 & H3 & H4 & H5 & H6 & H7) (G1 & G2 & G3 & G4 & G5 & G6 & G7).
  repeat split; try congruence; lia.
Qed.

Lemma cover_moved (c : core) (k : Z) (c' : core) :
  FixedOrder.cover c k = Ok c' ->
  counters_moved c c' /\ covered c' = upd (covered c) k (covered c k + 1).
Proof.
  unfold FixedOrder.cover. intros H. step H as x Hx. apply aread_Ok in Hx.
  destruct Hx as [Hk ->]. injection H as <-.
  split; [|now destruct (_ =? 0)].
  assert (Hp := pos_count_upd (covered c) k (covered c k + 1) Hk).
  unfold counters_moved.
  destruct (Z.eqb_spec (covered c k) 0) as [E|E]; cbn; rewrite Hp;
    repeat (split; [reflexivity|]);
    destruct (Z.gtb_spec (covered c k + 1) 0), (Z.gtb_spec (covered c k) 0); cbn; lia.
Qed.

Lemma uncover_moved (c : core) (k : Z) (c' : core) :
  FixedOrder.uncover c k = Ok c' ->
  counters_moved c c' /\ covered c' = upd (covered c) k (covered c k - 1).
Proof.
  unfold FixedOrder.uncover. intros H. step H as x Hx. apply aread_Ok in Hx.
  destruct Hx as [Hk ->]. injection H as <-.
  split; [|now destruct (_ =? 0)].
  assert (Hp := pos_count_upd (covered c) k (covered c k - 1) Hk).
  unfold counters_moved.
  destruct (Z.eqb_spec (covered c k - 1) 0) as [E|E]; cbn; rewrite Hp;
    repeat (split; [reflexivity|]);
    destruct (Z.gtb_spec (covered c k - 1) 0), (Z.gtb_spec (covered c k) 0); cbn; lia.
Qed.

Lemma occ_cons (x : Z) (l : list Z) (k : Z) :
  occ (x :: l) k = (if k =? x then 1 else 0) + occ l k.
Proof.
  unfold occ. cbn [count_occ]. destruct (Z.eq_dec x k) as [->|Hne].
  - rewrite Z.eqb_refl. lia.
  - destruct (Z.eqb_spec k x); [congruence|lia].
Qed.

Lemma foreach_cover (nb : list Z) :
  forall c c',
    foreach nb FixedOrder.cover c = Ok c' ->
    counters_moved c c' /\ forall k, covered c' k = covered c k + occ nb k.
Proof.
  induction nb as [|x nb IH]; intros c c' H; cbn [foreach] in H.
  - injection H as <-. split; [apply counters_moved_refl|]. intros k. unfold occ. cbn. lia.
  - step H as c1 H1. apply cover_moved in H1. destruct H1 as [Hm Hc].
    destruct (IH _ _ H) as [Hm' Hc']. split; [eapply counters_moved_trans; eauto|].
    intros k. rewrite Hc', Hc, occ_cons. unfold upd. destruct (k =? x) eqn:E; [|lia].
    apply Z.eqb_eq in E. subst. lia.
Qed.

Lemma foreach_uncover (nb : list Z) :
  forall c c',
    foreach nb FixedOrder.uncover c = Ok c' ->
    counters_moved c c' /\ forall k, covered c' k = covered c k - occ nb k.
Proof.
  induction nb as [|x nb IH]; intros c c' H; cbn [foreach] in H.
  - injection H as <-. split; [apply counters_moved_refl|]. intros k. unfold occ. cbn. lia.
  - step H as c1 H1. apply uncover_moved in H1. destruct H1 as [Hm Hc].
    destruct (IH _ _ H) as [Hm' Hc']. split; [eapply counters_moved_trans; eauto|].
    intros k. rewrite Hc', Hc, occ_cons. unfold upd. destruct (k =? x) eqn:E; [|lia].
    apply Z.eqb_eq in E. subst. lia.
Qed.

End CoverCounters.
(** ** VertexSet: the set behind the arrays *)

Section VertexSetWf.

Lemma set_wf_new : set_wf VertexSet.new.
Proof.
  unfold set_wf, VertexSet.new, VertexSet.reset_empty. cbn.
  split; [unfold MAX_VERTS; lia|]. split; [intros; lia|].
  intros v _. right. unfold fill. lia.
Qed.

Lemma set_wf_reset_empty (s : VertexSet.t) : set_wf (VertexSet.reset_empty s).
Proof.
  unfold set_wf, VertexSet.reset_empty. cbn.
  split; [unfold MAX_VERTS; lia|]. split; [intros; lia|].
  intros v _. right. unfold fill. lia.
Qed.

Lemma contains_in (s : VertexSet.t) (v : Z) :
  in_bounds MAX_VERTS v = true ->
  VertexSet.contains s v = Ok (VertexSet.set_indices s v <? VertexSet.size s).
Proof. intros H. unfold VertexSet.contains. now rewrite (aread_in _ _ _ H). Qed.

(** [contains] answers membership in the list of members. *)
Lemma contains_elements (s : VertexSet.t) (v : Z) :
  set_wf s -> in_bounds MAX_VERTS v = true ->
  (VertexSet.contains s v = Ok true <-> In v (VertexSet.elements s)).
Proof.
  intros (Hsz & Hpos & Hidx) Hv. rewrite (contains_in s v Hv).
  unfold VertexSet.elements. rewrite in_map_iff. split.
  - intros [= H]. apply Z.ltb_lt in H. destruct (Hidx v Hv) as [[H0 Hback]|Hout]; [|lia].
    exists (VertexSet.set_indices s v). split; [exact Hback|].
    apply in_zrange_iff. lia.
  - intros (i & Hi & Hin). apply in_zrange_iff in Hin.
    destruct (Hpos i) as [_ Hp]; [lia|]. rewrite Hi in Hp. f_equal. apply Z.ltb_lt. lia.
Qed.

Lemma elements_NoDup (s : VertexSet.t) : set_wf s -> NoDup (VertexSet.elements s).
Proof.
  intros (Hsz & Hpos & _). unfold VertexSet.elements.
  apply NoDup_map_NoDup_ForallPairs; [|apply zrange_NoDup].
  intros i j Hi Hj Heq. apply in_zrange_iff in Hi, Hj.
  destruct (Hpos i) as [_ Hp1]; [lia|]. destruct (Hpos j) as [_ Hp2]; [lia|]. congruence.
Qed.

Lemma elements_in_bounds (s : VertexSet.t) (v : Z) :
  set_wf s -> In v (VertexSet.elements s) -> in_bounds MAX_VERTS v = true.
Proof.
  intros (Hsz & Hpos & _) H. unfold VertexSet.elements in H. apply in_map_iff in H.
  destruct H as (i & <- & Hi). apply in_zrange_iff in Hi. apply Hpos. lia.
Qed.

Lemma elements_length (s : VertexSet.t) :
  0 <= VertexSet.size s -> Z.of_nat (length (VertexSet.elements s)) = VertexSet.size s.
Proof. intros H. unfold VertexSet.elements. rewrite length_map, zrange_length. lia. Qed.

(** A set that lacks a vertex has room for it. *)
Lemma set_has_room (s : VertexSet.t) (v : Z) :
  set_wf s -> in_bounds MAX_VERTS v = true -> ~ In v (VertexSet.elements s) ->
  VertexSet.size s < MAX_VERTS.
Proof.
  intros Hwf Hv Hnot.
  assert (Hnd : NoDup (v :: VertexSet.elements s)).
  { constructor; [exact Hnot|now apply elements_NoDup]. }
  assert (Hincl : incl (v :: VertexSet.elements s) (zrange 0 (Z.to_nat MAX_VERTS))).
  { intros u [<-|Hu]; apply in_zrange_iff.
    - apply in_bounds_iff in Hv. lia.
    - apply (elements_in_bounds s u Hwf), in_bounds_iff in Hu. lia. }
  pose proof (NoDup_incl_length Hnd Hincl) as Hlen. rewrite zrange_length in Hlen.
  cbn [length] in Hlen. destruct Hwf as (Hsz & _).
  pose proof (elements_length s (proj1 Hsz)). lia.
Qed.

Lemma elements_index (s : VertexSet.t) (v : Z) :
  set_wf s -> in_bounds MAX_VERTS v = true ->
  (In v (VertexSet.elements s) <-> VertexSet.set_indices s v < VertexSet.size s).
Proof.
  intros Hwf Hv. rewrite <- (contains_elements s v Hwf Hv), (contains_in s v Hv).
  split; [intros [= H]; now apply Z.ltb_lt|intros H; f_equal; now apply Z.ltb_lt].
Qed.

Lemma set_wf_elements_of (s : VertexSet.t) (v : Z) :
  set_wf s -> In v (VertexSet.elements s) ->
  in_bounds MAX_VERTS v = true /\
  0 <= VertexSet.set_indices s v < VertexSet.size s /\
  VertexSet.set_elements s (VertexSet.set_indices s v) = v.
Proof.
  intros Hwf Hin. pose proof (elements_in_bounds s v Hwf Hin) as Hv. split; [exact Hv|].
  apply (elements_index s v Hwf Hv) in Hin. destruct Hwf as (Hsz & _ & Hidx).
  destruct (Hidx v Hv) as [H|H]; [exact H|]. lia.
Qed.

(** The set after [add]. *)
Lemma add_appends_run (NDEBUG : bool) (s : VertexSet.t) (v : Z) :
  set_wf s -> in_bounds MAX_VERTS v = true -> ~ In v (VertexSet.elements s) ->
  let s' := VertexSet.mk (VertexSet.size s + 1)
              (upd (VertexSet.set_elements s) (VertexSet.size s) v)
              (upd (VertexSet.set_indices s) v (VertexSet.size s)) in
  VertexSet.add NDEBUG s v = Ok s' /\ set_wf s' /\
  VertexSet.elements s' = VertexSet.elements s ++ [v].
Proof.
  intros Hwf Hv Hnot s'.
  pose proof (set_has_room s v Hwf Hv Hnot) as Hroom.
  assert (Hc : VertexSet.contains s v = Ok false).
  { rewrite (contains_in s v Hv). f_equal. apply Z.ltb_ge.
    rewrite (elements_index s v Hwf Hv) in Hnot. lia. }
  assert (Hidx_v : VertexSet.size s <= VertexSet.set_indices s v).
  { rewrite (elements_index s v Hwf Hv) in Hnot. lia. }
  destruct Hwf as (Hsz & Hpos & Hidx).
  assert (Hsb : in_bounds MAX_VERTS (VertexSet.size s) = true) by (apply in_bounds_iff; lia).
  assert (Hrun : VertexSet.add NDEBUG s v = Ok s').
  { unfold VertexSet.add. destruct NDEBUG; cbn [bind assert]; [|rewrite Hc; cbn [bind negb assert]];
      rewrite (awrite_in _ _ _ _ Hv); cbn [bind]; rewrite (awrite_in _ _ _ _ Hsb); reflexivity. }
  split; [exact Hrun|].
  pose proof (elements_add _ _ _ _ Hrun) as (_ & _ & Helts).
  split; [|exact Helts].
  split; [cbn; lia|]. split; cbn.
  - intros i Hi. destruct (Z.eq_dec i (VertexSet.size s)) as [->|Hne].
    + unfold upd. rewrite !Z.eqb_refl. auto.
    + destruct (Hpos i) as [Hb Hp]; [lia|]. unfold upd.
      destruct (Z.eqb_spec i (VertexSet.size s)); [lia|].
      split; [exact Hb|]. destruct (Z.eqb_spec (VertexSet.set_elements s i) v); [|exact Hp].
      rewrite e in Hp. lia.
  - intros u Hu. destruct (Z.eq_dec u v) as [->|Hne].
    + left. unfold upd. rewrite !Z.eqb_refl. lia.
    + unfold upd. destruct (Z.eqb_spec u v); [contradiction|].
      destruct (Hidx u Hu) as [[H1 H2]|H3]; [left|right; exact H3].
      destruct (Z.eqb_spec (VertexSet.set_indices s u) (VertexSet.size s)); [lia|].
      split; [lia|exact H2].
Qed.

(** X4: [add] of a vertex the set lacks completes in both builds, keeps
    the set well formed and appends the vertex to the members;
    afterwards [contains] answers for it and as before for the others. *)
Theorem add_appends (NDEBUG : bool) (s : VertexSet.t) (v : Z) :
  set_wf s -> in_bounds MAX_VERTS v = true -> ~ In v (VertexSet.elements s) ->
  exists s',
    VertexSet.add NDEBUG s v = Ok s' /\ set_wf s' /\
    VertexSet.elements s' = VertexSet.elements s ++ [v] /\
    VertexSet.contains s' v = Ok true /\
    forall u, u <> v -> VertexSet.contains s' u = VertexSet.contains s u.
Proof.
  intros Hwf Hv Hnot.
  destruct (add_appends_run NDEBUG s v Hwf Hv Hnot) as (Hrun & Hwf' & Helts).
  eexists. split; [exact Hrun|]. split; [exact Hwf'|]. split; [exact Helts|]. split.
  - apply (contains_elements _ v Hwf' Hv). rewrite Helts. apply in_or_app. right. now left.
  - intros u Hu. unfold VertexSet.contains, aread.
    destruct (in_bounds MAX_VERTS u) eqn:Hub; [|reflexivity]. cbn.
    unfold upd. destruct (Z.eqb_spec u v); [contradiction|]. f_equal.
    pose proof (set_has_room s v Hwf Hv Hnot) as Hroom.
    destruct Hwf as (Hsz & Hpos & Hidx).
    destruct (Hidx u Hub) as [[H1 H2]|H3].
    + destruct (Z.ltb_spec (VertexSet.set_indices s u) (VertexSet.size s + 1)),
               (Z.ltb_spec (VertexSet.set_indices s u) (VertexSet.size s)); try reflexivity; lia.
    + destruct (Z.ltb_spec (VertexSet.set_indices s u) (VertexSet.size s + 1)),
               (Z.ltb_spec (VertexSet.set_indices s u) (VertexSet.size s)); try reflexivity; lia.
Qed.

(** The empty set takes vertex 3. *)
Lemma add_appends_witness :
  exists s', VertexSet.add false VertexSet.new 3 = Ok s' /\ VertexSet.elements s' = [3].
Proof.
  destruct (add_appends false VertexSet.new 3 set_wf_new) as (s' & Hrun & _ & Helts & _).
  - reflexivity.
  - cbn. auto.
  - exists s'. auto.
Defined.

(** What [remove] of a member does. *)
Lemma remove_member_run (NDEBUG : bool) (s : VertexSet.t) (v : Z) :
  set_wf s -> In v (VertexSet.elements s) ->
  exists s',
    VertexSet.remove NDEBUG s v = Ok s' /\ set_wf s' /\
    VertexSet.size s' = VertexSet.size s - 1 /\
    (forall u, In u (VertexSet.elements s') <-> In u (VertexSet.elements s) /\ u <> v) /\
    (VertexSet.set_indices s v < VertexSet.size s - 1 ->
     VertexSet.set_elements s' (VertexSet.set_indices s v) =
     VertexSet.set_elements s (VertexSet.size s - 1)).
Proof.
  intros Hwf Hin.
  destruct (set_wf_elements_of s v Hwf Hin) as (Hv & Hi & Hback).
  assert (Hc : VertexSet.contains s v = Ok true) by (now apply contains_elements).
  pose proof Hwf as (Hsz & Hpos & Hidx).
  set (idx := VertexSet.set_indices s v) in *.
  set (last := VertexSet.size s - 1) in *.
  set (u := VertexSet.set_elements s last).
  destruct (Hpos last) as [Hu Hulast]; [unfold last; lia|]. fold u in Hu, Hulast.
  assert (Hib : in_bounds MAX_VERTS idx = true) by (apply in_bounds_iff; lia).
  assert (Hlb : in_bounds MAX_VERTS last = true) by (apply in_bounds_iff; unfold last; lia).
  set (s' := VertexSet.mk last
               (upd (upd (VertexSet.set_elements s) idx u) last v)
               (upd (upd (VertexSet.set_indices s) u idx) v (MAX_VERTS + 1))).
  assert (Hrun : VertexSet.remove NDEBUG s v = Ok s').
  { unfold VertexSet.remove. destruct NDEBUG; cbn [bind assert]; [|rewrite Hc; cbn [bind assert]];
      rewrite (aread_in _ _ _ Hv); cbn [bind]; fold idx; fold last;
      rewrite (aread_in _ _ _ Hlb); cbn [bind]; fold u;
      rewrite (awrite_in _ _ _ _ Hib); cbn [bind];
      rewrite (awrite_in _ _ _ _ Hu); cbn [bind];
      rewrite (awrite_in _ _ _ _ Hlb); cbn [bind];
      rewrite (awrite_in _ _ _ _ Hv); reflexivity. }
  assert (Huv : u = v <-> idx = last).
  { split; intros E; [unfold idx; rewrite <- E; exact Hulast|].
    unfold u. rewrite <- E. exact Hback. }
  assert (Hwf' : set_wf s').
  { split; [cbn; unfold last; lia|]. split; cbn.
    - intros i Hi'. destruct (Hpos i) as [Hb Hp]; [unfold last in Hi'; lia|].
      unfold upd; cbv beta. destruct (Z.eqb_spec i last); [lia|].
      destruct (Z.eqb_spec i idx) as [->|Hne].
      + split; [exact Hu|]. destruct (Z.eqb_spec u v) as [E|_]; [apply Huv in E; lia|].
        now rewrite Z.eqb_refl.
      + split; [exact Hb|].
        destruct (Z.eqb_spec (VertexSet.set_elements s i) v) as [E|_].
        { rewrite E in Hp. unfold idx in Hne. congruence. }
        destruct (Z.eqb_spec (VertexSet.set_elements s i) u) as [E|_]; [|exact Hp].
        rewrite E, Hulast in Hp. lia.
    - intros w Hw. unfold upd; cbv beta. destruct (Z.eqb_spec w v) as [->|Hwv]; [right; cbv beta iota; unfold MAX_VERTS; lia|].
      destruct (Z.eqb_spec w u) as [->|Hwu].
      + left. assert (idx <> last) by (intros E; apply Huv in E; congruence).
        destruct (Z.eqb_spec idx last); [contradiction|]. rewrite Z.eqb_refl.
        cbv beta iota. unfold last in *. split; [lia|reflexivity].
      + destruct (Hidx w Hw) as [[H1 H2]|H3]; [left|right; exact H3].
        assert (VertexSet.set_indices s w <> last).
        { intros E. rewrite E in H2. fold u in H2. congruence. }
        assert (VertexSet.set_indices s w <> idx).
        { intros E. rewrite E in H2. congruence. }
        destruct (Z.eqb_spec (VertexSet.set_indices s w) last); [contradiction|].
        destruct (Z.eqb_spec (VertexSet.set_indices s w) idx); [contradiction|].
        cbv beta iota. unfold last in *. split; [lia|exact H2]. }
  exists s'. split; [exact Hrun|]. split; [exact Hwf'|]. split; [reflexivity|]. split.
  - intros w. split.
    + intros Hw. pose proof (elements_in_bounds s' w Hwf' Hw) as Hwb.
      apply (elements_index s' w Hwf' Hwb) in Hw.
      cbn [VertexSet.set_indices VertexSet.size s'] in Hw. unfold upd in Hw.
      destruct (Z.eq_dec w v) as [E|Hwv].
      { rewrite E, Z.eqb_refl in Hw. unfold last, MAX_VERTS in *. lia. }
      split; [|exact Hwv].
      apply (elements_index s w Hwf Hwb).
      destruct (Z.eq_dec w u) as [E|Hwu]; [rewrite E, Hulast; unfold last; lia|].
      apply Z.eqb_neq in Hwv, Hwu. rewrite Hwv, Hwu in Hw. unfold last in Hw. lia.
    + intros [Hw Hwv]. pose proof (elements_in_bounds s w Hwf Hw) as Hwb.
      destruct (set_wf_elements_of s w Hwf Hw) as (_ & Hwi & Hwback).
      apply (elements_index s' w Hwf' Hwb).
      cbn [VertexSet.set_indices VertexSet.size s']. unfold upd.
      pose proof Hwv as Hwv'. apply Z.eqb_neq in Hwv'. rewrite Hwv'.
      destruct (Z.eq_dec w u) as [E|Hwu].
      * assert (idx <> last) by (intros E'; apply Huv in E'; congruence).
        rewrite E, Z.eqb_refl. unfold last in *. lia.
      * assert (VertexSet.set_indices s w <> last).
        { intros E. rewrite E in Hwback. fold u in Hwback. congruence. }
        apply Z.eqb_neq in Hwu. rewrite Hwu. unfold last in *. lia.
  - intros Hlt. cbn. unfold upd; cbv beta. destruct (Z.eqb_spec idx last); [unfold last in *; lia|].
    now rewrite Z.eqb_refl.
Qed.

(** X5: [remove] of a member completes in both builds and keeps the set
    well formed; the member is gone, the other members stay, and the
    last member takes the place of the removed one. *)
Theorem remove_swaps_last_in (NDEBUG : bool) (s : VertexSet.t) (v : Z) :
  set_wf s -> In v (VertexSet.elements s) ->
  exists s',
    VertexSet.remove NDEBUG s v = Ok s' /\ set_wf s' /\
    VertexSet.size s' = VertexSet.size s - 1 /\
    (forall u, In u (VertexSet.elements s') <-> In u (VertexSet.elements s) /\ u <> v) /\
    (VertexSet.set_indices s v < VertexSet.size s - 1 ->
     VertexSet.set_elements s' (VertexSet.set_indices s v) =
     VertexSet.set_elements s (VertexSet.size s - 1)).
Proof.
  intros Hwf Hin.
  destruct (remove_member_run NDEBUG s v Hwf Hin) as (s' & Hrun & Hwf' & Hsize & Hmem & Hswap).
  exists s'. split; [exact Hrun|]. split; [exact Hwf'|]. split; [exact Hsize|].
  split; [exact Hmem|exact Hswap].
Qed.

(** [remove] completes on a well-formed set for members only. *)
Lemma remove_Ok (NDEBUG : bool) (s : VertexSet.t) (v : Z) (s' : VertexSet.t) :
  set_wf s -> VertexSet.remove NDEBUG s v = Ok s' ->
  In v (VertexSet.elements s) /\ set_wf s' /\
  forall u, In u (VertexSet.elements s') <-> In u (VertexSet.elements s) /\ u <> v.
Proof.
  intros Hwf H.
  assert (Hin : In v (VertexSet.elements s)).
  { pose proof H as H'. unfold VertexSet.remove in H'.
    step H' as c Hc. step H' as a Ha. step H' as idx Hidx. step H' as u Hu.
    step H' as elt Helt. apply aread_Ok in Hidx. destruct Hidx as [Hv ->].
    apply awrite_Ok in Helt. destruct Helt as [Hib _]. apply in_bounds_iff in Hib.
    pose proof Hwf as (Hsz0 & Hpos0 & Hthird).
    destruct (Hthird v Hv) as [[Hlt Hback]|Hbig]; [|lia].
    apply (elements_index s v); [|exact Hv|lia].
    exact (conj Hsz0 (conj Hpos0 Hthird)). }
  destruct (remove_member_run NDEBUG s v Hwf Hin) as (s'' & Hrun & Hwf' & _ & Hmem & _).
  rewrite Hrun in H. injection H as <-. auto.
Qed.

(** [add] of a vertex the set lacks keeps it well formed. *)
Lemma add_Ok (NDEBUG : bool) (s : VertexSet.t) (v : Z) (s' : VertexSet.t) :
  set_wf s -> ~ In v (VertexSet.elements s) -> VertexSet.add NDEBUG s v = Ok s' ->
  set_wf s' /\ VertexSet.elements s' = VertexSet.elements s ++ [v].
Proof.
  intros Hwf Hnot H.
  assert (Hv : in_bounds MAX_VERTS v = true).
  { pose proof H as H'. unfold VertexSet.add in H'.
    step H' as c Hc. step H' as a Ha. step H' as ind Hind.
    apply awrite_Ok in Hind. apply Hind. }
  destruct (add_appends_run NDEBUG s v Hwf Hv Hnot) as (Hrun & Hwf' & Hel).
  rewrite Hrun in H. injection H as <-. auto.
Qed.

Lemma zrange_map_id (n : nat) (f : Z -> Z) :
  (forall i, 0 <= i < Z.of_nat n -> f i = i) -> map f (zrange 0 n) = zrange 0 n.
Proof.
  intros H. rewrite <- (map_id (zrange 0 n)) at 2. apply map_ext_in.
  intros i Hi. apply in_zrange_iff in Hi. apply H. lia.
Qed.

Lemma reset_full_empty_run (s : VertexSet.t) (n : Z) :
  0 <= n <= MAX_VERTS ->
  exists s', VertexSet.reset_full (VertexSet.reset_empty s) n = Ok s' /\ set_wf s' /\
             VertexSet.elements s' = zrange 0 (Z.to_nat n).
Proof.
  intros Hn. unfold VertexSet.reset_full.
  destruct (Z.leb_spec 0 n); [|lia]. destruct (Z.leb_spec n MAX_VERTS); [|lia]. cbn [andb].
  eexists. split; [reflexivity|]. split.
  - split; [cbn; lia|]. split; cbn.
    + intros i Hi. assert (Hb : in_bounds n i = true) by (apply in_bounds_iff; lia).
      rewrite Hb, Hb. split; [apply in_bounds_iff; lia|reflexivity].
    + intros v Hv. destruct (in_bounds n v) eqn:Hb.
      * left. rewrite Hb. apply in_bounds_iff in Hb. auto.
      * right. unfold fill. lia.
  - unfold VertexSet.elements. cbn. apply zrange_map_id.
    intros i Hi. assert (Hb : in_bounds n i = true) by (apply in_bounds_iff; lia).
    now rewrite Hb.
Qed.

(** X6: [reset_full(n)] on an empty set gives the well-formed set of
    the vertices [0 .. n-1], in this order; it is undefined for a
    negative [n] and beyond [MAX_VERTS]. *)
Theorem reset_full_of_empty (s : VertexSet.t) (n : Z) :
  (0 <= n <= MAX_VERTS ->
   exists s', VertexSet.reset_full (VertexSet.reset_empty s) n = Ok s' /\ set_wf s' /\
              VertexSet.elements s' = zrange 0 (Z.to_nat n)) /\
  (n < 0 \/ MAX_VERTS < n -> VertexSet.reset_full s n = Fail UndefinedBehaviour).
Proof.
  split; [apply reset_full_empty_run|].
  intros Hn. unfold VertexSet.reset_full.
  destruct (Z.leb_spec 0 n), (Z.leb_spec n MAX_VERTS); cbn [andb]; try reflexivity; lia.
Qed.

(** [{0, 1, 2}] without 0 is [{2, 1}]. *)
Lemma remove_swaps_last_in_witness :
  exists s3 s',
    VertexSet.reset_full VertexSet.new 3 = Ok s3 /\
    VertexSet.remove false s3 0 = Ok s' /\
    VertexSet.elements s' = [2; 1].
Proof.
  destruct (reset_full_empty_run (VertexSet.mk 0 (fill 0) (fill 0)) 3) as (s3 & H3 & Hwf & Hel);
    [unfold MAX_VERTS; lia|].
  assert (Hin : In 0 (VertexSet.elements s3)) by (rewrite Hel; vm_compute; auto).
  destruct (remove_swaps_last_in false s3 0 Hwf Hin) as (s' & Hrun & _).
  exists s3, s'. split; [exact H3|]. split; [exact Hrun|].
  vm_compute in H3. injection H3 as <-. vm_compute in Hrun. injection Hrun as <-. reflexivity.
Defined.

(** X7: [reset_full(n)] rewrites the entries below [n] only: a vertex
    from [n] on whose stored index is below [n] is reported by
    [contains] although it is not among the members. *)
Theorem reset_full_keeps_stale_indices (s : VertexSet.t) (n v : Z) :
  0 <= n <= MAX_VERTS -> n <= v < MAX_VERTS ->
  VertexSet.set_indices s v < n ->
  exists s',
    VertexSet.reset_full s n = Ok s' /\
    VertexSet.contains s' v = Ok true /\
    ~ In v (VertexSet.elements s').
Proof.
  intros Hn Hv Hidx. unfold VertexSet.reset_full.
  destruct (Z.leb_spec 0 n); [|lia]. destruct (Z.leb_spec n MAX_VERTS); [|lia]. cbn [andb].
  eexists. split; [reflexivity|].
  assert (Hvb : in_bounds MAX_VERTS v = true) by (apply in_bounds_iff; lia).
  assert (Hnb : in_bounds n v = false).
  { apply not_true_is_false. intros Hb. apply in_bounds_iff in Hb. lia. }
  split.
  - rewrite (contains_in _ v Hvb). cbn. rewrite Hnb. f_equal. now apply Z.ltb_lt.
  - unfold VertexSet.elements. cbn. rewrite zrange_map_id.
    + rewrite in_zrange_iff. lia.
    + intros i Hi. assert (Hb : in_bounds n i = true) by (apply in_bounds_iff; lia).
      now rewrite Hb.
Qed.

(** The set [{5}] reset to [{0,1,2}]: vertex 5 is still reported. *)
Lemma reset_full_keeps_stale_indices_witness :
  exists s1 s',
    VertexSet.add false VertexSet.new 5 = Ok s1 /\
    VertexSet.reset_full s1 3 = Ok s' /\
    VertexSet.contains s' 5 = Ok true /\
    ~ In 5 (VertexSet.elements s').
Proof.
  destruct (VertexSet.add false VertexSet.new 5) as [s1|f] eqn:E; [|vm_compute in E; discriminate].
  destruct (reset_full_keeps_stale_indices s1 3 5) as (s' & H1 & H2 & H3).
  - unfold MAX_VERTS. lia.
  - unfold MAX_VERTS. lia.
  - vm_compute in E. injection E as <-. vm_compute. reflexivity.
  - exists s1, s'. auto.
Defined.

(** X8: [remove_pop] right after [add] of the same vertex completes in
    both builds and gives back the members and a well-formed set. *)
Theorem remove_pop_undoes_add (NDEBUG : bool) (s : VertexSet.t) (v : Z) :
  set_wf s -> in_bounds MAX_VERTS v = true -> ~ In v (VertexSet.elements s) ->
  exists s1 s2,
    VertexSet.add NDEBUG s v = Ok s1 /\
    VertexSet.remove_pop NDEBUG s1 v = Ok s2 /\
    set_wf s2 /\
    VertexSet.size s2 = VertexSet.size s /\
    VertexSet.elements s2 = VertexSet.elements s.
Proof.
  intros Hwf Hv Hnot.
  destruct (add_appends_run NDEBUG s v Hwf Hv Hnot) as (Hrun & Hwf1 & Helts).
  eexists. eexists. split; [exact Hrun|].
  assert (Hpop : VertexSet.remove_pop NDEBUG
                   (VertexSet.mk (VertexSet.size s + 1)
                      (upd (VertexSet.set_elements s) (VertexSet.size s) v)
                      (upd (VertexSet.set_indices s) v (VertexSet.size s))) v =
                 Ok (VertexSet.mk (VertexSet.size s)
                       (upd (VertexSet.set_elements s) (VertexSet.size s) v)
                       (upd (upd (VertexSet.set_indices s) v (VertexSet.size s)) v
                          (MAX_VERTS + 1)))).
  { unfold VertexSet.remove_pop. cbn [VertexSet.set_indices VertexSet.size VertexSet.set_elements].
    rewrite (aread_in _ _ _ Hv). cbn [bind]. unfold upd at 1. rewrite Z.eqb_refl.
    replace (VertexSet.size s =? VertexSet.size s + 1 - 1) with true
      by (symmetry; apply Z.eqb_eq; lia).
    replace (assert NDEBUG true) with (Ok tt) by (now destruct NDEBUG). cbn [bind].
    rewrite (awrite_in _ _ _ _ Hv). cbn [bind]. f_equal. f_equal. lia. }
  split; [exact Hpop|].
  pose proof (elements_remove_pop _ _ _ _ Hpop) as [_ Hel]. rewrite Helts, removelast_last in Hel.
  split; [|split; [reflexivity|exact Hel]].
  pose proof Hwf as (Hsz & Hpos & Hidx).
  assert (Hidx_v : VertexSet.size s <= VertexSet.set_indices s v).
  { rewrite (elements_index s v Hwf Hv) in Hnot. lia. }
  split; [exact Hsz|]. split; cbn.
  - intros i Hi. destruct (Hpos i Hi) as [Hb Hp]. unfold upd.
    destruct (Z.eqb_spec i (VertexSet.size s)); [lia|]. split; [exact Hb|].
    destruct (Z.eqb_spec (VertexSet.set_elements s i) v) as [E|_]; [|exact Hp].
    rewrite E in Hp. lia.
  - intros u Hu. unfold upd. destruct (Z.eqb_spec u v) as [E|_]; [right; unfold MAX_VERTS; lia|].
    destruct (Hidx u Hu) as [[H1 H2]|H3]; [left|right; exact H3].
    destruct (Z.eqb_spec (VertexSet.set_indices s u) (VertexSet.size s)); [lia|]. auto.
Qed.

(** From the empty set: add 3, pop 3. *)
Lemma remove_pop_undoes_add_witness :
  exists s1 s2,
    VertexSet.add false VertexSet.new 3 = Ok s1 /\
    VertexSet.remove_pop false s1 3 = Ok s2 /\
    VertexSet.elements s2 = [].
Proof.
  destruct (remove_pop_undoes_add false VertexSet.new 3 set_wf_new)
    as (s1 & s2 & H1 & H2 & _ & _ & H3).
  - reflexivity.
  - cbn. auto.
  - exists s1, s2. auto.
Defined.

(** X9: on a set with between 1 and [MAX_VERTS] members,
    [remove_pop(v)] that completes lowers the size by one and shortens
    the list of members by its last entry, whatever [v] is; with
    assertions on a well-formed set it completes only when [v] is that
    last member. *)
Theorem remove_pop_drops_last (NDEBUG : bool) (s : VertexSet.t) (v : Z) (s' : VertexSet.t) :
  0 < VertexSet.size s <= MAX_VERTS ->
  VertexSet.remove_pop NDEBUG s v = Ok s' ->
  VertexSet.size s' = VertexSet.size s - 1 /\
  VertexSet.elements s' = removelast (VertexSet.elements s) /\
  (NDEBUG = false -> set_wf s -> last (VertexSet.elements s) 0 = v).
Proof.
  intros Hpos H. split; [|split; [eapply elements_remove_pop; eauto|]].
  { unfold VertexSet.remove_pop in H.
    step H as idx Hidx. step H as a Ha. step H as ind Hind.
    injection H as <-. reflexivity. }
  intros -> Hwf. unfold VertexSet.remove_pop in H.
  step H as idx Hidx. step H as a Ha. destruct a.
  apply aread_Ok in Hidx. destruct Hidx as [Hv ->].
  apply assert_Ok in Ha. destruct Ha as [Ha|Ha]; [discriminate|]. apply Z.eqb_eq in Ha.
  destruct Hwf as (Hsz & _ & Hback). destruct (Hback v Hv) as [[_ Hb]|Hb]; [|lia].
  unfold VertexSet.elements.
  replace (Z.to_nat (VertexSet.size s)) with (S (Z.to_nat (VertexSet.size s - 1))) by lia.
  rewrite zrange_snoc, map_app. cbn [map]. rewrite last_last. rewrite Z2Nat.id by lia.
  rewrite Z.add_0_l, <- Ha. exact Hb.
Qed.

(** Without assertions, popping 0 from [{0, 1}] drops 1. *)
Lemma remove_pop_drops_last_witness :
  exists s2 s',
    VertexSet.reset_full VertexSet.new 2 = Ok s2 /\
    0 < VertexSet.size s2 <= MAX_VERTS /\
    VertexSet.remove_pop true s2 0 = Ok s' /\
    VertexSet.size s' = 1 /\
    VertexSet.elements s' = [0].
Proof.
  destruct (VertexSet.reset_full VertexSet.new 2) as [s2|f] eqn:E; [|vm_compute in E; discriminate].
  destruct (VertexSet.remove_pop true s2 0) as [s'|f] eqn:E2;
    [|vm_compute in E; injection E as <-; vm_compute in E2; discriminate].
  assert (Hsz : 0 < VertexSet.size s2 <= MAX_VERTS).
  { vm_compute in E. injection E as <-. cbn. unfold MAX_VERTS. lia. }
  exists s2, s'. split; [reflexivity|]. split; [exact Hsz|]. split; [exact E2|].
  destruct (remove_pop_drops_last true s2 0 s' Hsz E2) as (H1 & H2 & _).
  rewrite H1, H2. vm_compute in E. injection E as <-. split; reflexivity.
Defined.

End VertexSetWf.
Section SearchInvariants.
Import Framework.

Lemma emits_refl (P : VertexSet.t -> Prop) (c : core) : emits P c c.
Proof. exists []. now rewrite app_nil_r. Qed.

Lemma emits_trans (P : VertexSet.t -> Prop) (c1 c2 c3 : core) :
  emits P c1 c2 -> emits P c2 c3 -> emits P c1 c3.
Proof.
  intros (n1 & H1 & F1) (n2 & H2 & F2). exists (n1 ++ n2).
  split; [now rewrite H2, H1, app_assoc|]. apply Forall_app. auto.
Qed.

Lemma emits_impl (P Q : VertexSet.t -> Prop) (c c' : core) :
  (forall S, P S -> Q S) -> emits P c c' -> emits Q c c'.
Proof.
  intros HPQ (news & H & F). exists news. split; [exact H|].
  eapply Forall_impl; [|exact F]. exact HPQ.
Qed.

Lemma emits_same_out (P : VertexSet.t -> Prop) (c c' : core) : out c' = out c -> emits P c c'.
Proof. intros H. exists []. now rewrite app_nil_r. Qed.

Lemma cover_restored_refl (c : core) : cover_restored c c.
Proof. repeat split. Qed.

Lemma cover_restored_trans (c1 c2 c3 : core) :
  cover_restored c1 c2 -> cover_restored c2 c3 -> cover_restored c1 c3.
Proof.
  intros (H1 & H2 & H3 & H4) (G1 & G2 & G3 & G4).
  split; [congruence|]. split; [congruence|]. split; [|congruence].
  intros k. rewrite G3. apply H3.
Qed.

Lemma fixed_restored_refl (c : core) : fixed_restored c c.
Proof. repeat split. Qed.

Lemma fixed_restored_trans (c1 c2 c3 : core) :
  fixed_restored c1 c2 -> fixed_restored c2 c3 -> fixed_restored c1 c3.
Proof.
  intros (H1 & H2) (G1 & G2). split; [|congruence]. intros k. rewrite G1. apply H1.
Qed.

Lemma cover_inv_restored (g : Graph.t) (c c' : core) :
  cover_inv g c -> cover_restored c c' -> cover_inv g c'.
Proof.
  intros [Hcov Htot] (Hs & He & Hc & Ht). split.
  - intros k Hk. rewrite He. apply Hcov. now rewrite <- Hc.
  - rewrite Ht, Htot. apply pos_count_ext. intros k. now rewrite Hc.
Qed.

Lemma neighbours_closed (g : Graph.t) (j : Z) (nb : list Z) :
  closed g -> Graph.neighbours g j = Ok nb -> Forall (fun u => 0 <= u < Graph.n g) nb.
Proof.
  unfold closed, Graph.neighbours, Graph.get. intros Hc H.
  destruct (j <? 0); [discriminate|].
  destruct (nth_error (Graph.vertices g) (Z.to_nat j)) as [x|] eqn:E; [|discriminate].
  cbn in H. injection H as <-. apply nth_error_In in E.
  rewrite Forall_forall in Hc. now apply Hc.
Qed.

(** A filter of a duplicate-free list that is at least as long as a
    list it is included in keeps every element of that list. *)
Lemma filter_covers_all (f : Z -> bool) (U T : list Z) :
  NoDup U -> incl (filter f U) T -> (length T <= length (filter f U))%nat ->
  forall k, In k T -> f k = true.
Proof.
  intros HU Hin Hlen k Hk.
  assert (HL : NoDup (filter f U)) by now apply NoDup_filter.
  pose proof (NoDup_length_incl HL Hlen Hin) as Hall.
  specialize (Hall k Hk). apply filter_In in Hall. tauto.
Qed.

(** When the counter says that every vertex is covered, [D] dominates. *)
Lemma full_cover (g : Graph.t) (c : core) :
  closed g -> cover_inv g c -> total_covered c = Graph.n g ->
  dominates g (VertexSet.elements (D c)).
Proof.
  intros Hclosed [Hcov Htot] Hn k Hk.
  assert (Hpos : covered c k >? 0 = true).
  { apply (filter_covers_all (fun i => covered c i >? 0)
             (zrange 0 (Z.to_nat MAX_VERTS)) (zrange 0 (Z.to_nat (Graph.n g)))).
    - apply zrange_NoDup.
    - intros i Hi. apply filter_In in Hi. destruct Hi as [_ Hi]. apply Z.gtb_lt in Hi.
      destruct (Hcov i) as (j & nb & _ & Hnb & Hinb); [lia|].
      apply (neighbours_closed g j nb Hclosed) in Hnb. rewrite Forall_forall in Hnb.
      specialize (Hnb i Hinb). apply in_zrange_iff. lia.
    - rewrite zrange_length. apply Nat2Z.inj_le. rewrite Z2Nat.id.
      + rewrite <- Hn, Htot, pos_count_filter. apply Z.le_refl.
      + rewrite <- Hn, Htot, pos_count_filter. apply Nat2Z.is_nonneg.
    - apply in_zrange_iff. lia. }
  apply Z.gtb_lt in Hpos. apply Hcov. lia.
Qed.

(** The block run at [total_covered == n] hands over solutions only. *)
Lemma record_solution_sound (ga : bool) (st : settings) (g : Graph.t) (c : core) :
  closed g -> cover_inv g c -> total_covered c = Graph.n g ->
  cover_restored c (record_solution ga st c) /\
  fixed_restored c (record_solution ga st c) /\
  emits (fun S => solution ga st g S /\ grown_from c S) c (record_solution ga st c).
Proof.
  intros Hclosed Hinv Hn. pose proof (full_cover g c Hclosed Hinv Hn) as Hdom.
  unfold record_solution. destruct ga.
  - destruct (_ && _) eqn:E; [|repeat split; apply emits_refl].
    repeat split. exists [D c]. split; [reflexivity|]. constructor; [|constructor].
    apply andb_true_iff in E. destruct E as [E1 E2].
    rewrite Z.geb_le in E1. apply Z.leb_le in E2.
    split; [repeat split; auto|]. exists []. now rewrite app_nil_r.
  - destruct (_ && _) eqn:E; [|repeat split; apply emits_refl].
    repeat split. exists [D c]. split; [reflexivity|]. constructor; [|constructor].
    apply andb_true_iff in E. destruct E as [E1 E2].
    rewrite Z.geb_le in E1.
    split; [repeat split; auto; discriminate|]. exists []. now rewrite app_nil_r.
Qed.

End SearchInvariants.
(** ** The fixed-order search *)

Section FixedOrderSearch.
Import Framework.

Lemma foreach_invariant_in {A S : Type} (P : S -> Prop) (l : list A) (body : S -> A -> res S) :
  (forall s x s', In x l -> P s -> body s x = Ok s' -> P s') ->
  forall s s', P s -> foreach l body s = Ok s' -> P s'.
Proof.
  induction l as [|x l IH]; cbn [foreach]; intros Hbody s s' HP H.
  - injection H as <-. exact HP.
  - step H as s1 H1. apply (IH (fun s x s' Hin => Hbody s x s' (or_intror Hin)) s1);
      [|exact H]. eapply Hbody; [left; reflexivity|exact HP|exact H1].
Qed.

Lemma neighbour_array_unfixed (g : Graph.t) (c : core) (i : Z) (arr : list Z) :
  FixedOrder.neighbour_array g c i = Ok arr -> Forall (fun j => fixed c j = 0) arr.
Proof.
  unfold FixedOrder.neighbour_array. intros H.
  step H as fi Hfi. step H as nb Hnb. step H as first Hfirst.
  apply aread_Ok in Hfi. destruct Hfi as [_ ->].
  assert (H0 : Forall (fun j => fixed c j = 0) (if fixed c i =? 0 then [i] else [])).
  { destruct (Z.eqb_spec (fixed c i) 0); repeat constructor; auto. }
  assert (H1 : Forall (fun j => fixed c j = 0) first).
  { revert Hfirst. apply foreach_invariant; [|exact H0].
    intros acc j acc' Hacc Hb. step Hb as fj Hfj. step Hb as cj Hcj. injection Hb as <-.
    apply aread_Ok in Hfj. destruct Hfj as [_ ->].
    destruct (Z.eqb_spec (fixed c j) 0); cbn [andb]; [|exact Hacc].
    destruct (_ && _); [|exact Hacc]. apply Forall_app. split; [exact Hacc|].
    repeat constructor. assumption. }
  revert H. apply foreach_invariant; [|exact H1].
  intros acc j acc' Hacc Hb. step Hb as fj Hfj. step Hb as cj Hcj. injection Hb as <-.
  apply aread_Ok in Hfj. destruct Hfj as [_ ->].
  destruct (Z.eqb_spec (fixed c j) 0); cbn [andb]; [|exact Hacc].
  destruct (negb _); [|exact Hacc]. apply Forall_app. split; [exact Hacc|].
  repeat constructor. assumption.
Qed.

Lemma existsb_snoc (k : Z) (fl : list Z) (j : Z) :
  existsb (Z.eqb k) (fl ++ [j]) = existsb (Z.eqb k) fl || (k =? j).
Proof. rewrite existsb_app. cbn. now rewrite orb_false_r. Qed.

Lemma occ_pos_In (nb : list Z) (k : Z) : 0 < occ nb k -> In k nb.
Proof. unfold occ. intros H. apply (count_occ_In Z.eq_dec). lia. Qed.

Lemma occ_nonneg (nb : list Z) (k : Z) : 0 <= occ nb k.
Proof. unfold occ. lia. Qed.

Lemma fo_add_vertex_to_set_sound (nd ga : bool) (st : settings) (g : Graph.t)
    (rec : FixedOrder.state -> Z -> res FixedOrder.state) :
  (forall s i s',
      cover_inv g (FixedOrder.base s) -> rec s i = Ok s' ->
      cover_restored (FixedOrder.base s) (FixedOrder.base s') /\
      fixed_restored (FixedOrder.base s) (FixedOrder.base s') /\
      emits (fun S => solution ga st g S /\ grown_from (FixedOrder.base s) S)
        (FixedOrder.base s) (FixedOrder.base s')) ->
  forall c0 s i j fl s' fl',
    cover_inv g c0 ->
    branching c0 (FixedOrder.base s) fl ->
    fixed c0 j = 0 ->
    FixedOrder.add_vertex_to_set nd g rec s i j fl = Ok (s', fl') ->
    fl' = fl ++ [j] /\
    branching c0 (FixedOrder.base s') fl' /\
    emits (fun S => solution ga st g S /\ grown_from c0 S)
      (FixedOrder.base s) (FixedOrder.base s').
Proof.
  intros Hrec c0 s i j fl s' fl' Hinv0 (Hres & Hfix & Htf) Hj0 H.
  pose proof (cover_inv_restored g _ _ Hinv0 Hres) as [Hcov Htot].
  unfold FixedOrder.add_vertex_to_set in H.
  step H as f Hf. step H as d Hd. step H as nb Hnb. step H as c4 Hc4.
  step H as ci Hci. step H as a Ha. step H as s5 Hs5. step H as c6 Hc6.
  step H as d' Hd'. injection H as <- <-.
  apply awrite_Ok in Hf. destruct Hf as [Hj ->].
  apply elements_add in Hd. destruct Hd as (Hsz & Hsize & Helts).
  cbn in Hsz, Hsize, Helts.
  apply foreach_cover in Hc4. cbn in Hc4.
  destruct Hc4 as ((HD4 & HB4 & Hf4 & Htf4 & Hdl4 & Hout4 & Hdelta4) & Hcov4).
  cbn in HD4, HB4, Hf4, Htf4, Hdl4, Hout4, Hdelta4, Hcov4.
  apply Hrec in Hs5; cycle 1.
  { cbn. split.
    - intros k Hk. rewrite HD4, Helts. rewrite Hcov4 in Hk.
      destruct (Z.ltb_spec 0 (covered (FixedOrder.base s) k)) as [Hold|Hold].
      + destruct (Hcov k) as (j' & nb' & Hin & Hnb' & Hk'); [lia|].
        exists j', nb'. split; [apply in_or_app; now left|auto].
      + exists j, nb. split; [apply in_or_app; right; now left|].
        split; [exact Hnb|]. apply occ_pos_In. lia.
    - lia. }
  cbn in Hs5. destruct Hs5 as ((Hs5 & He5 & Hc5 & Ht5) & (Hf5 & Htf5) & Hem5).
  apply foreach_uncover in Hc6.
  destruct Hc6 as ((HD6 & HB6 & Hf6 & Htf6 & Hdl6 & Hout6 & Hdelta6) & Hcov6).
  apply elements_remove_pop in Hd'. destruct Hd' as [Hsize' Helts'].
  assert (Hcovered : forall k, covered c6 k = covered (FixedOrder.base s) k).
  { intros k. rewrite Hcov6, Hc5, Hcov4. lia. }
  split; [reflexivity|]. split; [split; [|split]|].
  - eapply cover_restored_trans; [exact Hres|]. unfold cover_restored. cbn. split; [|split; [|split]].
    + rewrite Hsize', HD6, Hs5, HD4, Hsize. lia.
    + rewrite Helts', HD6, He5, HD4, Helts. apply removelast_last.
    + exact Hcovered.
    + assert (pos_count (covered c6) = pos_count (covered (FixedOrder.base s)))
        by (apply pos_count_ext, Hcovered).
      assert (pos_count (covered (FixedOrder.base s5)) = pos_count (covered c4))
        by (apply pos_count_ext, Hc5).
      lia.
  - intros k. cbn. rewrite Hf6, Hf5, Hf4, existsb_snoc. unfold upd.
    rewrite Hfix. destruct (existsb (Z.eqb k) fl), (k =? j); reflexivity.
  - cbn. rewrite Htf6, Htf5, Htf4, Htf, length_app. cbn [length]. lia.
  - destruct Hem5 as (news & Hnews & HP). exists news. split.
    + cbn. rewrite Hout6, Hnews, Hout4. reflexivity.
    + eapply Forall_impl; [|exact HP]. cbn. intros S [Hsol (rest & Hrest & Hun)].
      split; [exact Hsol|]. exists (j :: rest). split.
      * rewrite Hrest, HD4, Helts. destruct Hres as (_ & He0 & _). rewrite He0.
        now rewrite <- app_assoc.
      * constructor; [exact Hj0|]. eapply Forall_impl; [|exact Hun]. cbn. intros k Hk.
        rewrite Hf4 in Hk. cbn in Hk. unfold upd in Hk. rewrite Hfix in Hk.
        destruct (k =? j); [discriminate|].
        destruct (existsb (Z.eqb k) fl); [discriminate|exact Hk].
Qed.

Lemma fo_restore_order (fl : list Z) : FixedOrder.restore_order fl = rev fl.
Proof. unfold FixedOrder.restore_order. now rewrite map_rev, nth_seq_self. Qed.

(** The loop that unmarks the vertices of [fixed_list]. *)
Lemma fo_unmark (l : list Z) :
  forall c c',
    foreach l
      (fun c v =>
         f <- awrite MAX_VERTS (fixed c) v 0 ;;
         Ok (with_total_fixed (total_fixed c - 1) (with_fixed f c))) c = Ok c' ->
    cover_restored c c' /\ out c' = out c /\
    (forall k, fixed c' k = if existsb (Z.eqb k) l then 0 else fixed c k) /\
    total_fixed c' = total_fixed c - Z.of_nat (length l).
Proof.
  induction l as [|v l IH]; intros c c' H; cbn [foreach] in H.
  - injection H as <-. repeat split. cbn. lia.
  - step H as c1 H1. step H1 as f Hf. injection H1 as <-.
    apply awrite_Ok in Hf. destruct Hf as [_ ->].
    destruct (IH _ _ H) as (Hres & Hout & Hfix & Htf). cbn in Hres, Hout, Hfix, Htf.
    split; [exact Hres|]. split; [exact Hout|]. split.
    + intros k. rewrite Hfix. cbn [existsb]. unfold upd.
      destruct (k =? v), (existsb (Z.eqb k) l); reflexivity.
    + rewrite Htf. cbn [length]. lia.
Qed.

Lemma existsb_rev (k : Z) (l : list Z) : existsb (Z.eqb k) (rev l) = existsb (Z.eqb k) l.
Proof.
  induction l as [|x l IH]; [reflexivity|]. cbn [rev existsb].
  rewrite existsb_app, IH. cbn. rewrite orb_false_r. apply orb_comm.
Qed.

Lemma report_node_keeps (nd chk : bool) (st : settings) (c : core) (depth r : Z) (c' : core) :
  report_node nd chk st c depth = Ok (r, c') ->
  exists dl, c' = with_depth_log dl c.
Proof.
  unfold report_node. intros H. step H as k Hk.
  repeat match type of H with
         | (if ?b then _ else _) = _ => destruct b
         | bind _ _ = Ok _ => inv_bind H
         end;
    try discriminate; injection H as <- <-; eexists; reflexivity.
Qed.

Lemma unreport_node_keeps (c : core) (depth : Z) (c' : core) :
  unreport_node c depth = Ok c' -> exists dl, c' = with_depth_log dl c.
Proof. unfold unreport_node. intros H. step H as k Hk. injection H as <-. eexists; reflexivity. Qed.

(** The search returns with [D], the cover counters and the marks as it
    found them, and hands over solutions only. *)
Lemma fo_FindDominatingSet_sound (nd ga : bool) (st : settings) (g : Graph.t) :
  closed g ->
  forall fuel chk s i s',
    cover_inv g (FixedOrder.base s) ->
    FixedOrder.FindDominatingSet fuel nd ga chk st g s i = Ok s' ->
    cover_restored (FixedOrder.base s) (FixedOrder.base s') /\
    fixed_restored (FixedOrder.base s) (FixedOrder.base s') /\
    emits (fun S => solution ga st g S /\ grown_from (FixedOrder.base s) S)
      (FixedOrder.base s) (FixedOrder.base s').
Proof.
  intros Hclosed. induction fuel as [|fuel IH]; intros chk s i s' Hinv H; [discriminate|].
  cbn [FixedOrder.FindDominatingSet] in H.
  step H as rc Hrep. destruct rc as [resmod_check c]. cbv beta iota zeta in H.
  apply report_node_keeps in Hrep. destruct Hrep as [dl ->].
  set (c := with_depth_log dl (FixedOrder.base s)) in *.
  assert (Hinvc : cover_inv g c) by exact Hinv.
  assert (Hgoal : forall s1,
             cover_restored c (FixedOrder.base s1) /\ fixed_restored c (FixedOrder.base s1) /\
             emits (fun S => solution ga st g S /\ grown_from c S) c (FixedOrder.base s1) ->
             cover_restored (FixedOrder.base s) (FixedOrder.base s1) /\
             fixed_restored (FixedOrder.base s) (FixedOrder.base s1) /\
             emits (fun S => solution ga st g S /\ grown_from (FixedOrder.base s) S)
               (FixedOrder.base s) (FixedOrder.base s1)).
  { intros s1 H1. exact H1. }
  clearbody c. clear Hinv.
  destruct (resmod_check =? 0).
  { injection H as <-. apply Hgoal. repeat split. apply emits_refl. }
  destruct (chk && (resmod_check =? 1)).
  { step H as c1 Hun. apply unreport_node_keeps in Hun. destruct Hun as [dl1 ->].
    apply IH in H; [|exact Hinvc]. apply Hgoal. exact H. }
  destruct (Z.eqb_spec (total_covered c) (Graph.n g)) as [Hn|_].
  { injection H as <-. apply Hgoal. cbn. now apply record_solution_sound. }
  step H as i1 Hskip.
  destruct (i1 >=? Graph.n g); [discriminate|].
  destruct (FixedOrder.max_deg s + 1 =? 0); [discriminate|].
  match type of H with (if ?b then _ else _) = _ => destruct b end.
  { injection H as <-. apply Hgoal. repeat split. apply emits_refl. }
  step H as arr Harr. step H as p Hloop. destruct p as [s1 fl].
  step H as c2 Hun. injection H as <-.
  apply neighbour_array_unfixed in Harr.
  assert (Hbranch : branching c (FixedOrder.base s1) fl /\
                    Forall (fun j => fixed c j = 0) fl /\
                    emits (fun S => solution ga st g S /\ grown_from c S) c (FixedOrder.base s1)).
  { revert Hloop.
    apply (foreach_invariant_in
             (fun p : FixedOrder.state * list Z =>
                branching c (FixedOrder.base (fst p)) (snd p) /\
                Forall (fun j => fixed c j = 0) (snd p) /\
                emits (fun S => solution ga st g S /\ grown_from c S) c
                  (FixedOrder.base (fst p)))).
    - intros [s2 fl2] j [s3 fl3] Hj (Hb & Hf & He) Hstep. cbn [fst snd] in *.
      assert (Hj0 : fixed c j = 0) by (rewrite Forall_forall in Harr; now apply Harr).
      destruct (fo_add_vertex_to_set_sound nd ga st g _
                  (fun s i s' Hi Hr => IH chk s i s' Hi Hr)
                  c s2 i1 j fl2 s3 fl3 Hinvc Hb Hj0 Hstep) as (-> & Hb' & He').
      split; [exact Hb'|]. split; [|eapply emits_trans; eauto].
      apply Forall_app. split; [exact Hf|]. repeat constructor. exact Hj0.
    - cbn. split; [|split; [constructor|apply emits_refl]].
      split; [apply cover_restored_refl|]. split; [reflexivity|cbn [length]; lia]. }
  destruct Hbranch as ((Hres & Hfix & Htf) & Hzero & Hem).
  rewrite fo_restore_order in Hun. apply fo_unmark in Hun.
  destruct Hun as (Hres2 & Hout2 & Hfix2 & Htf2).
  apply Hgoal. cbn. split; [eapply cover_restored_trans; eauto|]. split; [split|].
  - intros k. rewrite Hfix2, existsb_rev, Hfix.
    destruct (existsb (Z.eqb k) fl) eqn:E; [|reflexivity].
    apply existsb_exists in E. destruct E as (y & Hy & Hky). apply Z.eqb_eq in Hky. subst y.
    rewrite Forall_forall in Hzero. symmetry. now apply Hzero.
  - rewrite Htf2, Htf, length_rev. lia.
  - eapply emits_trans; [exact Hem|]. now apply emits_same_out.
Qed.

End FixedOrderSearch.
(** ** The DD search *)

Section CounterSteps.
Import Framework.
Context {S : Type} (base : S -> core).

Lemma foreach_steps_up (body : S -> Z -> res S) :
  (forall s k s',
      0 <= covered (base s) k -> body s k = Ok s' ->
      counters_moved (base s) (base s') /\
      covered (base s') = upd (covered (base s)) k (covered (base s) k + 1)) ->
  forall nb s s',
    (forall k, 0 <= covered (base s) k) ->
    foreach nb body s = Ok s' ->
    counters_moved (base s) (base s') /\
    forall k, covered (base s') k = covered (base s) k + occ nb k.
Proof.
  intros Hbody. induction nb as [|x nb IH]; intros s s' Hnn H; cbn [foreach] in H.
  - injection H as <-. split; [apply counters_moved_refl|]. intros k. unfold occ. cbn. lia.
  - step H as s1 H1. apply Hbody in H1; [|apply Hnn]. destruct H1 as [Hm Hc].
    destruct (IH _ _ (fun k => ltac:(rewrite Hc; unfold upd; destruct (k =? x) eqn:E;
                                     [apply Z.eqb_eq in E; subst; specialize (Hnn x); lia
                                     |apply Hnn])) H) as [Hm' Hc'].
    split; [eapply counters_moved_trans; eauto|].
    intros k. rewrite Hc', Hc, occ_cons. unfold upd. destruct (k =? x) eqn:E; [|lia].
    apply Z.eqb_eq in E. subst. lia.
Qed.

Lemma foreach_steps_down (body : S -> Z -> res S) :
  (forall s k s',
      1 <= covered (base s) k -> body s k = Ok s' ->
      counters_moved (base s) (base s') /\
      covered (base s') = upd (covered (base s)) k (covered (base s) k - 1)) ->
  forall l s s',
    (forall k, occ l k <= covered (base s) k) ->
    foreach l body s = Ok s' ->
    counters_moved (base s) (base s') /\
    forall k, covered (base s') k = covered (base s) k - occ l k.
Proof.
  intros Hbody. induction l as [|x l IH]; intros s s' Hnn H; cbn [foreach] in H.
  - injection H as <-. split; [apply counters_moved_refl|]. intros k. unfold occ. cbn. lia.
  - step H as s1 H1. apply Hbody in H1.
    2:{ specialize (Hnn x). rewrite occ_cons, Z.eqb_refl in Hnn.
        pose proof (occ_nonneg l x). lia. }
    destruct H1 as [Hm Hc].
    assert (Hnn1 : forall k, occ l k <= covered (base s1) k).
    { intros k. rewrite Hc. unfold upd. specialize (Hnn k). rewrite occ_cons in Hnn.
      destruct (k =? x) eqn:E; [apply Z.eqb_eq in E; subst|]; lia. }
    destruct (IH _ _ Hnn1 H) as [Hm' Hc'].
    split; [eapply counters_moved_trans; eauto|].
    intros k. rewrite Hc', Hc, occ_cons. unfold upd. destruct (k =? x) eqn:E; [|lia].
    apply Z.eqb_eq in E. subst. lia.
Qed.

End CounterSteps.

Section DDSearch.
Import Framework.
Import NeighbourList.

Lemma occ_rev (l : list Z) (k : Z) : occ (rev l) k = occ l k.
Proof. unfold occ. now rewrite count_occ_rev. Qed.

Lemma dd_dominate_moved (nd : bool) (g : Graph.t) (s : DD.state) (v : Z) (s' : DD.state) :
  0 <= covered (DD.base s) v ->
  DD.dominate nd g s v = Ok s' ->
  counters_moved (DD.base s) (DD.base s') /\
  covered (DD.base s') = upd (covered (DD.base s)) v (covered (DD.base s) v + 1).
Proof.
  intros Hnn H. unfold DD.dominate in H. step H as x Hx. apply aread_Ok in Hx.
  destruct Hx as [Hv ->].
  assert (Hp := pos_count_upd (covered (DD.base s)) v (covered (DD.base s) v + 1) Hv).
  destruct (Z.gtb_spec (covered (DD.base s) v + 1) 1) as [Hgt|Hle].
  - injection H as <-. split; [|reflexivity]. unfold counters_moved. cbn. rewrite Hp.
    repeat (split; [reflexivity|]).
    destruct (Z.gtb_spec (covered (DD.base s) v + 1) 0), (Z.gtb_spec (covered (DD.base s) v) 0);
      cbn; lia.
  - run_res H. injection H as <-. split; [|reflexivity]. unfold counters_moved. cbn. rewrite Hp.
    repeat (split; [reflexivity|]).
    destruct (Z.gtb_spec (covered (DD.base s) v + 1) 0), (Z.gtb_spec (covered (DD.base s) v) 0);
      cbn; lia.
Qed.

Lemma dd_undominate_moved (nd : bool) (g : Graph.t) (s : DD.state) (v : Z) (s' : DD.state) :
  1 <= covered (DD.base s) v ->
  DD.undominate nd g s v = Ok s' ->
  counters_moved (DD.base s) (DD.base s') /\
  covered (DD.base s') = upd (covered (DD.base s)) v (covered (DD.base s) v - 1).
Proof.
  intros Hnn H. unfold DD.undominate in H. step H as x Hx. apply aread_Ok in Hx.
  destruct Hx as [Hv ->].
  assert (Hp := pos_count_upd (covered (DD.base s)) v (covered (DD.base s) v - 1) Hv).
  destruct (Z.gtb_spec (covered (DD.base s) v - 1) 0) as [Hgt|Hle].
  - injection H as <-. split; [|reflexivity]. unfold counters_moved. cbn. rewrite Hp.
    repeat (split; [reflexivity|]).
    destruct (Z.gtb_spec (covered (DD.base s) v - 1) 0), (Z.gtb_spec (covered (DD.base s) v) 0);
      cbn; lia.
  - run_res H. injection H as <-. split; [|reflexivity]. unfold counters_moved. cbn. rewrite Hp.
    repeat (split; [reflexivity|]).
    destruct (Z.gtb_spec (covered (DD.base s) v - 1) 0), (Z.gtb_spec (covered (DD.base s) v) 0);
      cbn; lia.
Qed.

Lemma cover_frame_refl (c : core) : cover_frame c c.
Proof. repeat split. Qed.

Lemma cover_frame_trans (c1 c2 c3 : core) : cover_frame c1 c2 -> cover_frame c2 c3 -> cover_frame c1 c3.
Proof. intros (H1 & H2 & H3 & H4) (G1 & G2 & G3 & G4). repeat split; congruence. Qed.

Lemma cover_frame_restored (c c' : core) : cover_frame c c' -> cover_restored c c'.
Proof. intros (H1 & H2 & H3 & H4). repeat split; congruence. Qed.

Lemma cover_frame_emits (P : VertexSet.t -> Prop) (c c' : core) : cover_frame c c' -> emits P c c'.
Proof. intros (_ & _ & _ & H). now apply emits_same_out. Qed.

Lemma cover_inv_nn_restored (g : Graph.t) (c c' : core) :
  cover_inv_nn g c -> cover_restored c c' -> cover_inv_nn g c'.
Proof.
  intros [Hinv Hnn] Hres. split; [eapply cover_inv_restored; eauto|].
  intros k. destruct Hres as (_ & _ & Hc & _). rewrite Hc. apply Hnn.
Qed.

(** [D.add(j)] and the counters of the neighbours of [j] raised keep
    the meaning of the counters. *)
Lemma cover_inv_raised (nd : bool) (g : Graph.t) (c c1 c4 : core) (j : Z) (d : VertexSet.t)
    (nb : list Z) :
  cover_inv g c ->
  VertexSet.add nd (D c) j = Ok d ->
  Graph.neighbours g j = Ok nb ->
  D c1 = d -> covered c1 = covered c -> total_covered c1 = total_covered c ->
  counters_moved c1 c4 ->
  (forall k, covered c4 k = covered c1 k + occ nb k) ->
  cover_inv g c4.
Proof.
  intros [Hcov Htot] Hd Hnb HD1 Hc1 Ht1 (HD4 & _ & _ & _ & _ & _ & Hdelta) Hcov4.
  apply elements_add in Hd. destruct Hd as (_ & _ & Helts). split.
  - intros k Hk. rewrite HD4, HD1, Helts. rewrite Hcov4, Hc1 in Hk.
    destruct (Z.ltb_spec 0 (covered c k)) as [Hold|Hold].
    + destruct (Hcov k) as (j' & nb' & Hin & Hnb' & Hk'); [lia|].
      exists j', nb'. split; [apply in_or_app; now left|auto].
    + exists j, nb. split; [apply in_or_app; right; now left|].
      split; [exact Hnb|]. apply occ_pos_In. lia.
  - rewrite Hc1, Ht1 in Hdelta. lia.
Qed.

Lemma dd_remove_candidate_cover_frame (nd : bool) (g : Graph.t) (s : DD.state) (v : Z)
    (forced : bool) (s' : DD.state) :
  DD.remove_candidate nd g s v = Ok (forced, s') -> cover_frame (DD.base s) (DD.base s').
Proof.
  unfold DD.remove_candidate. intros H. run_res H. injection H as <- <-. repeat split.
Qed.

Lemma dd_add_candidate_cover_frame (nd : bool) (g : Graph.t) (s : DD.state) (v : Z)
    (s' : DD.state) :
  DD.add_candidate nd g s v = Ok s' -> cover_frame (DD.base s) (DD.base s').
Proof. unfold DD.add_candidate. intros H. run_res H. injection H as <-. repeat split. Qed.

Lemma dd_remove_candidate_marks (nd : bool) (g : Graph.t) (s : DD.state) (v : Z)
    (forced : bool) (s' : DD.state) :
  DD.remove_candidate nd g s v = Ok (forced, s') ->
  cover_frame (DD.base s) (DD.base s') /\
  fixed (DD.base s') = upd (fixed (DD.base s)) v 1 /\
  total_fixed (DD.base s') = total_fixed (DD.base s) + 1.
Proof.
  unfold DD.remove_candidate. intros H. step H as fv Hfv. step H as a Ha. step H as f Hf.
  apply awrite_Ok in Hf. destruct Hf as [_ ->].
  run_res H. injection H as <- <-. repeat split.
Qed.

Lemma dd_add_candidate_unmarks (nd : bool) (g : Graph.t) (s : DD.state) (v : Z)
    (s' : DD.state) :
  DD.add_candidate nd g s v = Ok s' ->
  cover_frame (DD.base s) (DD.base s') /\
  fixed (DD.base s') = upd (fixed (DD.base s)) v 0 /\
  total_fixed (DD.base s') = total_fixed (DD.base s) - 1.
Proof.
  unfold DD.add_candidate. intros H. step H as fv Hfv. step H as a Ha. step H as f Hf.
  apply awrite_Ok in Hf. destruct Hf as [_ ->].
  run_res H. injection H as <-. repeat split.
Qed.

(** The loop that makes the vertices of [fixed_list] candidates again. *)
Lemma dd_unmark (nd : bool) (g : Graph.t) (l : list Z) :
  forall s s',
    foreach l (DD.add_candidate nd g) s = Ok s' ->
    cover_frame (DD.base s) (DD.base s') /\
    (forall k, fixed (DD.base s') k = if existsb (Z.eqb k) l then 0 else fixed (DD.base s) k) /\
    total_fixed (DD.base s') = total_fixed (DD.base s) - Z.of_nat (length l).
Proof.
  induction l as [|v l IH]; intros s s' H; cbn [foreach] in H.
  - injection H as <-. split; [apply cover_frame_refl|]. split; [reflexivity|cbn; lia].
  - step H as s1 H1. apply dd_add_candidate_unmarks in H1. destruct H1 as (Hf1 & Hfix1 & Htf1).
    destruct (IH _ _ H) as (Hf & Hfix & Htf).
    split; [eapply cover_frame_trans; eauto|]. split.
    + intros k. rewrite Hfix, Hfix1. cbn [existsb]. unfold upd.
      rewrite (Z.eqb_sym k v). destruct (existsb (Z.eqb k) l), (v =? k); reflexivity.
    + rewrite Htf, Htf1. cbn [length]. lia.
Qed.

(** *** The neighbours [rank_neighbours] writes *)

Lemma insert_after_us (p : nat) (node : NeighbourListNode) (l l' : list NeighbourListNode) :
  insert_after p node l = Ok l' ->
  forall x, In x (map NeighbourList.u l') -> x = NeighbourList.u node \/ In x (map NeighbourList.u l).
Proof.
  revert l'. induction l as [|y l IH]; intros l' H x Hx; cbn [insert_after] in H; [discriminate|].
  destruct (Nat.eqb (id y) p).
  - injection H as <-. cbn [map In] in *. destruct Hx as [Hx|[Hx|Hx]]; auto.
  - step H as rest Hrest. injection H as <-. cbn [map In] in *.
    destruct Hx as [Hx|Hx]; [tauto|]. destruct (IH _ Hrest x Hx); tauto.
Qed.

Lemma insert_us (l : NeighbourList.t) (v d : Z) (l' : NeighbourList.t) :
  NeighbourList.insert l v d = Ok l' ->
  forall x, In x (map NeighbourList.u (chain l')) -> x = v \/ In x (map NeighbourList.u (chain l)).
Proof.
  unfold NeighbourList.insert. intros H x Hx. step H as prevNode Hprev. step H as chain' Hchain.
  injection H as <-. cbn [chain] in Hx.
  destruct (match prevNode with Some p => Some p | None => _ end) as [p|].
  - apply (insert_after_us _ _ _ _ Hchain) in Hx. exact Hx.
  - injection Hchain as <-. cbn [map In NeighbourList.u] in Hx. destruct Hx; auto.
Qed.

Lemma until_zero_us (l : list NeighbourListNode) (x : Z) :
  In x (until_zero l) -> In x (map NeighbourList.u l).
Proof.
  induction l as [|y l IH]; cbn [until_zero map In]; [tauto|].
  destruct (deg y =? 0); [intros []|]. cbn [In]. tauto.
Qed.

Lemma output_us (nd : bool) (rule : rank_rule) (l : NeighbourList.t) (r : list Z * Z) :
  NeighbourList.output nd rule l = Ok r ->
  forall x, In (Some x) (slots r) -> In x (map NeighbourList.u (chain l)).
Proof.
  unfold NeighbourList.output. intros H x Hx. step H as a Ha. injection H as <-.
  unfold slots in Hx. cbn [fst snd] in Hx. apply in_app_or in Hx. destruct Hx as [Hx|Hx].
  - apply in_map_iff in Hx. destruct Hx as (y & Hy & Hin). injection Hy as ->.
    destruct rule; apply until_zero_us in Hin; [exact Hin|].
    rewrite map_rev in Hin. now apply in_rev in Hin.
  - apply repeat_spec in Hx. discriminate.
Qed.

(** [rank_neighbours] of the DD search writes unfixed vertices only. *)
Lemma dd_rank_neighbours_unfixed (nd : bool) (V : DD.variant) (g : Graph.t) (s : DD.state)
    (v : Z) (r : list Z * Z) :
  DD.rank_neighbours nd V g s v = Ok r ->
  forall j, In (Some j) (slots r) -> fixed (DD.base s) j = 0.
Proof.
  unfold DD.rank_neighbours. intros H j Hj.
  step H as nb Hnb. step H as md Hmd. step H as l0 Hl0. step H as l Hl.
  apply (output_us _ _ _ _ H) in Hj. revert j Hj.
  revert Hl.
  apply (foreach_invariant
           (fun l => forall j, In j (map NeighbourList.u (chain l)) -> fixed (DD.base s) j = 0)).
  - intros l1 u l2 HP Hbody j Hj. step Hbody as fu Hfu. apply aread_Ok in Hfu.
    destruct Hfu as [_ ->].
    destruct (Z.eqb_spec (fixed (DD.base s) u) 0) as [Hu|Hu]; cbn [negb] in Hbody.
    + step Hbody as ud Hud. step Hbody as a Ha.
      destruct (insert_us _ _ _ _ Hbody j Hj) as [->|Hin]; [exact Hu|now apply HP].
    + injection Hbody as <-. now apply HP.
  - unfold NeighbourList.empty in Hl0. destruct (_ && _); [|discriminate].
    injection Hl0 as <-. intros j [].
Qed.

Lemma dd_add_vertex_to_set_sound (nd ga : bool) (st : settings) (g : Graph.t)
    (rec : DD.state -> res DD.state) :
  dd_sound ga st g rec ->
  forall c0 s j fl forced s' fl',
    cover_inv_nn g c0 ->
    branching c0 (DD.base s) fl ->
    fixed c0 j = 0 ->
    DD.add_vertex_to_set nd g rec s j fl = Ok (forced, s', fl') ->
    fl' = fl ++ [j] /\
    branching c0 (DD.base s') fl' /\
    emits (fun S => solution ga st g S /\ grown_from c0 S) (DD.base s) (DD.base s').
Proof.
  intros Hrec c0 s j fl forced s' fl' Hinv0 (Hres & Hfix & Htf) Hj0 H.
  pose proof (cover_inv_nn_restored g _ _ Hinv0 Hres) as [Hinv Hnn].
  unfold DD.add_vertex_to_set in H.
  step H as p Hrem. destruct p as [forced0 s1]. step H as d Hd. step H as nb Hnb.
  step H as s4 Hdom. step H as s5 Hrec5. step H as s6 Hundom. step H as d' Hd'.
  injection H as <- <- <-.
  apply dd_remove_candidate_marks in Hrem.
  destruct Hrem as ((HD1 & Hc1 & Ht1 & Hout1) & Hfix1 & Htf1).
  rewrite HD1 in Hd.
  apply (foreach_steps_up DD.base _ (dd_dominate_moved nd g)) in Hdom;
    [|cbn; intros k; rewrite Hc1; apply Hnn].
  cbn in Hdom. destruct Hdom as [Hm4 Hcov4].
  assert (Hinv4 : cover_inv_nn g (DD.base s4)).
  { split.
    - eapply (cover_inv_raised nd g (DD.base s) (with_D d (DD.base s1)));
        try eassumption; try reflexivity.
    - intros k. rewrite Hcov4, Hc1. pose proof (occ_nonneg nb k). specialize (Hnn k). lia. }
  destruct (Hrec _ _ Hinv4 Hrec5) as ((Hs5 & He5 & Hc5 & Ht5) & (Hf5 & Htf5) & Hem5).
  apply (foreach_steps_down DD.base _ (dd_undominate_moved nd g)) in Hundom.
  2:{ intros k. rewrite occ_rev, Hc5, Hcov4, Hc1. specialize (Hnn k). lia. }
  destruct Hundom as [Hm6 Hcov6].
  destruct Hm4 as (HD4 & _ & Hf4 & Htf4 & _ & Hout4 & Hdelta4).
  destruct Hm6 as (HD6 & _ & Hf6 & Htf6 & _ & Hout6 & Hdelta6).
  cbn in HD4, Hf4, Htf4, Hout4, Hdelta4.
  apply elements_add in Hd. destruct Hd as (Hsz & Hsize & Helts).
  apply elements_remove_pop in Hd'. destruct Hd' as [Hsize' Helts'].
  assert (Hcovered : forall k, covered (DD.base s6) k = covered (DD.base s) k).
  { intros k. rewrite Hcov6, occ_rev, Hc5, Hcov4, Hc1. lia. }
  split; [reflexivity|]. split; [split; [|split]|].
  - eapply cover_restored_trans; [exact Hres|]. unfold cover_restored. cbn.
    split; [|split; [|split]].
    + rewrite Hsize', HD6, Hs5, HD4, Hsize. lia.
    + rewrite Helts', HD6, He5, HD4, Helts. apply removelast_last.
    + exact Hcovered.
    + assert (pos_count (covered (DD.base s6)) = pos_count (covered (DD.base s)))
        by (apply pos_count_ext, Hcovered).
      assert (pos_count (covered (DD.base s5)) = pos_count (covered (DD.base s4)))
        by (apply pos_count_ext, Hc5).
      rewrite Hc1 in Hdelta4. lia.
  - intros k. cbn. rewrite Hf6, Hf5, Hf4, Hfix1, existsb_snoc. unfold upd.
    rewrite Hfix. destruct (existsb (Z.eqb k) fl), (k =? j); reflexivity.
  - cbn. rewrite Htf6, Htf5, Htf4, Htf1, Htf, length_app. cbn [length]. lia.
  - destruct Hem5 as (news & Hnews & HP). exists news. split.
    + cbn. rewrite Hout6, Hnews, Hout4, Hout1. reflexivity.
    + eapply Forall_impl; [|exact HP]. cbn. intros S [Hsol (rest & Hrest & Hun)].
      split; [exact Hsol|]. exists (j :: rest). split.
      * rewrite Hrest, HD4. cbn. rewrite Helts. destruct Hres as (_ & He0 & _). rewrite He0.
        now rewrite <- app_assoc.
      * constructor; [exact Hj0|]. eapply Forall_impl; [|exact Hun]. cbn. intros k Hk.
        rewrite Hf4, Hfix1 in Hk. unfold upd in Hk. rewrite Hfix in Hk.
        destruct (k =? j); [discriminate|].
        destruct (existsb (Z.eqb k) fl); [discriminate|exact Hk].
Qed.

Lemma dd_branch_sound (nd : bool) (V : DD.variant) (st : settings) (g : Graph.t)
    (rec : DD.state -> res DD.state) (c0 : core) :
  dd_sound (DD.GENERATE_ALL V) st g rec ->
  cover_inv_nn g c0 ->
  forall sl s fl s' fl',
    (forall j, In (Some j) sl -> fixed c0 j = 0) ->
    branching c0 (DD.base s) fl ->
    Forall (fun j => fixed c0 j = 0) fl ->
    DD.branch nd V st g rec sl s fl = Ok (s', fl') ->
    branching c0 (DD.base s') fl' /\
    Forall (fun j => fixed c0 j = 0) fl' /\
    emits (fun S => solution (DD.GENERATE_ALL V) st g S /\ grown_from c0 S)
      (DD.base s) (DD.base s').
Proof.
  intros Hrec Hinv0. induction sl as [|[j|] sl IH]; intros s fl s' fl' Hslots Hb Hfl H;
    cbn [DD.branch] in H.
  - injection H as <- <-. split; [exact Hb|]. split; [exact Hfl|apply emits_refl].
  - step H as ok Hok. destruct (negb ok).
    { injection H as <- <-. split; [exact Hb|]. split; [exact Hfl|apply emits_refl]. }
    step H as p Hadd. destruct p as [[force_stop s1] fl1].
    assert (Hj0 : fixed c0 j = 0) by (apply Hslots; now left).
    destruct (dd_add_vertex_to_set_sound nd _ st g rec Hrec c0 _ _ _ _ _ _ Hinv0 Hb Hj0 Hadd)
      as (-> & Hb1 & He).
    assert (Hfl1 : Forall (fun j => fixed c0 j = 0) (fl ++ [j])).
    { apply Forall_app. split; [exact Hfl|]. repeat constructor. exact Hj0. }
    destruct (_ && _).
    { injection H as <- <-. auto. }
    destruct (IH _ _ _ _ (fun j Hj => Hslots j (or_intror Hj)) Hb1 Hfl1 H) as (Hb' & Hfl' & He').
    split; [exact Hb'|]. split; [exact Hfl'|]. eapply emits_trans; eauto.
  - discriminate.
Qed.

(** The DD search returns with [D], the cover counters and the marks
    in [fixed] as it found them, and hands over solutions only, each
    grown from [D] by vertices that were not marked. *)
Lemma dd_FindDominatingSet_sound (nd : bool) (V : DD.variant) (st : settings) (g : Graph.t) :
  closed g ->
  forall fuel chk, dd_sound (DD.GENERATE_ALL V) st g (DD.FindDominatingSet fuel nd V chk st g).
Proof.
  intros Hclosed. induction fuel as [|fuel IH]; intros chk s s' Hinv H; [discriminate|].
  cbn [DD.FindDominatingSet] in H.
  step H as rc Hrep. destruct rc as [resmod_check c]. cbv beta iota zeta in H.
  apply report_node_keeps in Hrep. destruct Hrep as [dl ->].
  set (c := with_depth_log dl (DD.base s)) in *.
  assert (Hinvc : cover_inv_nn g c) by exact Hinv.
  assert (Hgoal : forall s1,
             cover_restored c (DD.base s1) /\
             fixed_restored c (DD.base s1) /\
             emits (fun S => solution (DD.GENERATE_ALL V) st g S /\ grown_from c S)
               c (DD.base s1) ->
             cover_restored (DD.base s) (DD.base s1) /\
             fixed_restored (DD.base s) (DD.base s1) /\
             emits (fun S => solution (DD.GENERATE_ALL V) st g S /\ grown_from (DD.base s) S)
               (DD.base s) (DD.base s1)).
  { intros s1 H1. exact H1. }
  clearbody c. clear Hinv.
  destruct (resmod_check =? 0).
  { injection H as <-. apply Hgoal. repeat split. apply emits_refl. }
  destruct (chk && (resmod_check =? 1)).
  { step H as c1 Hun. apply unreport_node_keeps in Hun. destruct Hun as [dl1 ->].
    apply IH in H; [|exact Hinvc]. apply Hgoal. exact H. }
  destruct (Z.eqb_spec (total_covered c) (Graph.n g)) as [Hn|_].
  { injection H as <-. apply Hgoal. cbn.
    now apply record_solution_sound; [|apply Hinvc|]. }
  step H as i Hi. destruct (i =? INVALID_VERTEX).
  { injection H as <-. apply Hgoal. repeat split. apply emits_refl. }
  step H as chk' Hchk. step H as a Ha. step H as vi Hvi. step H as ok Hok.
  destruct (negb ok).
  { injection H as <-. apply Hgoal. repeat split. apply emits_refl. }
  step H as r Hr. step H as p Hbranch. destruct p as [s1 fl]. cbv beta iota zeta in H.
  pose proof (dd_rank_neighbours_unfixed _ _ _ _ _ _ Hr) as Hslots. cbn [DD.base DD.with_base] in Hslots.
  apply (dd_branch_sound nd V st g _ c (IH chk) Hinvc _ _ _ _ _ Hslots) in Hbranch.
  2:{ cbn. split; [apply cover_restored_refl|]. split; [reflexivity|cbn [length]; lia]. }
  2:{ constructor. }
  destruct Hbranch as ((Hres & Hfix & Htf) & Hzero & Hem).
  unfold DD.restore_order in H. rewrite nth_seq_self in H. apply dd_unmark in H.
  destruct H as (Hf & Hfix2 & Htf2).
  apply Hgoal. split; [|split; [split|]].
  - eapply cover_restored_trans; [exact Hres|]. now apply cover_frame_restored.
  - intros k. rewrite Hfix2, Hfix.
    destruct (existsb (Z.eqb k) fl) eqn:E; [|reflexivity].
    apply existsb_exists in E. destruct E as (y & Hy & Hky). apply Z.eqb_eq in Hky. subst y.
    rewrite Forall_forall in Hzero. symmetry. now apply Hzero.
  - rewrite Htf2, Htf. lia.
  - eapply emits_trans; [exact Hem|]. eapply cover_frame_emits; eauto.
Qed.

End DDSearch.
(** ** The MDD search *)

Section MDDSearch.
Import Framework.

Lemma mdd_dominate_moved (nd : bool) (g : Graph.t) (s : MDD.state) (v : Z) (s' : MDD.state) :
  0 <= covered (MDD.base s) v ->
  MDD.dominate nd g s v = Ok s' ->
  counters_moved (MDD.base s) (MDD.base s') /\
  covered (MDD.base s') = upd (covered (MDD.base s)) v (covered (MDD.base s) v + 1).
Proof.
  intros Hnn H. unfold MDD.dominate in H. step H as x Hx. apply aread_Ok in Hx.
  destruct Hx as [Hv ->].
  assert (Hp := pos_count_upd (covered (MDD.base s)) v (covered (MDD.base s) v + 1) Hv).
  destruct (Z.gtb_spec (covered (MDD.base s) v + 1) 1) as [Hgt|Hle].
  - injection H as <-. split; [|reflexivity]. unfold counters_moved. cbn. rewrite Hp.
    repeat (split; [reflexivity|]).
    destruct (Z.gtb_spec (covered (MDD.base s) v + 1) 0), (Z.gtb_spec (covered (MDD.base s) v) 0);
      cbn; lia.
  - run_res H. injection H as <-. split; [|reflexivity]. unfold counters_moved. cbn. rewrite Hp.
    repeat (split; [reflexivity|]).
    destruct (Z.gtb_spec (covered (MDD.base s) v + 1) 0), (Z.gtb_spec (covered (MDD.base s) v) 0);
      cbn; lia.
Qed.

Lemma mdd_undominate_moved (nd : bool) (g : Graph.t) (s : MDD.state) (v : Z) (s' : MDD.state) :
  1 <= covered (MDD.base s) v ->
  MDD.undominate nd g s v = Ok s' ->
  counters_moved (MDD.base s) (MDD.base s') /\
  covered (MDD.base s') = upd (covered (MDD.base s)) v (covered (MDD.base s) v - 1).
Proof.
  intros Hnn H. unfold MDD.undominate in H. step H as x Hx. apply aread_Ok in Hx.
  destruct Hx as [Hv ->].
  assert (Hp := pos_count_upd (covered (MDD.base s)) v (covered (MDD.base s) v - 1) Hv).
  destruct (Z.gtb_spec (covered (MDD.base s) v - 1) 0) as [Hgt|Hle].
  - injection H as <-. split; [|reflexivity]. unfold counters_moved. cbn. rewrite Hp.
    repeat (split; [reflexivity|]).
    destruct (Z.gtb_spec (covered (MDD.base s) v - 1) 0), (Z.gtb_spec (covered (MDD.base s) v) 0);
      cbn; lia.
  - run_res H. injection H as <-. split; [|reflexivity]. unfold counters_moved. cbn. rewrite Hp.
    repeat (split; [reflexivity|]).
    destruct (Z.gtb_spec (covered (MDD.base s) v - 1) 0), (Z.gtb_spec (covered (MDD.base s) v) 0);
      cbn; lia.
Qed.

Lemma mdd_remove_candidate_cover_frame (nd : bool) (g : Graph.t) (s : MDD.state) (v : Z)
    (forced : bool) (s' : MDD.state) :
  MDD.remove_candidate nd g s v = Ok (forced, s') -> cover_frame (MDD.base s) (MDD.base s').
Proof.
  unfold MDD.remove_candidate. intros H.
  step H as fv Hfv. step H as a Ha. step H as f Hf. step H as ud Hud. step H as nb Hnb.
  step H as p Hloop. destruct p as [forced1 s1]. injection H as <- <-.
  revert Hloop.
  apply (foreach_preorder
           (fun p p' : bool * MDD.state => cover_frame (MDD.base (snd p)) (MDD.base (snd p')))
           _ _ (fun _ => cover_frame_refl _) (fun _ _ _ => cover_frame_trans _ _ _)).
  intros [f1 s2] u [f2 s3] Hb. run_res Hb; injection Hb as <- <-; repeat split.
Qed.

Lemma mdd_add_candidate_cover_frame (nd : bool) (g : Graph.t) (s : MDD.state) (v : Z)
    (s' : MDD.state) :
  MDD.add_candidate nd g s v = Ok s' -> cover_frame (MDD.base s) (MDD.base s').
Proof.
  unfold MDD.add_candidate. intros H.
  step H as fv Hfv. step H as a Ha. step H as f Hf. step H as ud Hud. step H as nb Hnb.
  revert H.
  apply (foreach_preorder
           (fun p p' : MDD.state => cover_frame (MDD.base p) (MDD.base p'))
           _ _ (fun _ => cover_frame_refl _) (fun _ _ _ => cover_frame_trans _ _ _)).
  intros s2 u s3 Hb. run_res Hb; injection Hb as <-; repeat split.
Qed.

Lemma mdd_add_vertex_to_set_sound (nd ga : bool) (st : settings) (g : Graph.t)
    (rec : MDD.state -> res (Z * MDD.state)) :
  mdd_sound ga st g rec ->
  forall s j fl forced s' fl',
    cover_inv_nn g (MDD.base s) ->
    MDD.add_vertex_to_set nd g rec s j fl = Ok (forced, s', fl') ->
    cover_restored (MDD.base s) (MDD.base s') /\
    emits (fun S => solution ga st g S /\ extends (MDD.base s) S) (MDD.base s) (MDD.base s').
Proof.
  intros Hrec s j fl forced s' fl' [Hinv Hnn] H.
  unfold MDD.add_vertex_to_set in H.
  step H as p Hrem. destruct p as [forced0 s1]. step H as d Hd. step H as nb Hnb.
  step H as s4 Hdom. step H as m4 Hm4. step H as p5 Hrec5. destruct p5 as [r s5].
  step H as m5 Hm5. step H as s6 Hundom. step H as d' Hd'. step H as m6 Hm6'.
  injection H as <- <- <-.
  apply mdd_remove_candidate_cover_frame in Hrem. destruct Hrem as (HD1 & Hc1 & Ht1 & Hout1).
  rewrite HD1 in Hd.
  apply (foreach_steps_up MDD.base _ (mdd_dominate_moved nd g)) in Hdom;
    [|cbn; intros k; rewrite Hc1; apply Hnn].
  cbn in Hdom. destruct Hdom as [Hm4' Hcov4].
  assert (Hinv4 : cover_inv_nn g (MDD.base (MDD.with_mdd_stack m4 s4))).
  { cbn. split.
    - eapply (cover_inv_raised nd g (MDD.base s) (with_D d (MDD.base s1)));
        try eassumption; try reflexivity.
    - intros k. rewrite Hcov4, Hc1. pose proof (occ_nonneg nb k). specialize (Hnn k). lia. }
  destruct (Hrec _ _ _ Hinv4 Hrec5) as ((Hs5 & He5 & Hc5 & Ht5) & Hem5).
  cbn in Hs5, He5, Hc5, Ht5, Hem5.
  apply (foreach_steps_down MDD.base _ (mdd_undominate_moved nd g)) in Hundom.
  2:{ intros k. cbn. rewrite occ_rev, Hc5, Hcov4, Hc1. specialize (Hnn k). lia. }
  cbn in Hundom. destruct Hundom as [Hm6 Hcov6].
  destruct Hm4' as (HD4 & _ & _ & _ & _ & Hout4 & Hdelta4).
  destruct Hm6 as (HD6 & _ & _ & _ & _ & Hout6 & Hdelta6).
  cbn in HD4, Hout4, Hdelta4.
  apply elements_add in Hd. destruct Hd as (Hsz & Hsize & Helts).
  apply elements_remove_pop in Hd'. destruct Hd' as [Hsize' Helts'].
  assert (Hcovered : forall k, covered (MDD.base s6) k = covered (MDD.base s) k).
  { intros k. rewrite Hcov6, occ_rev, Hc5, Hcov4, Hc1. lia. }
  split.
  - unfold cover_restored. cbn. split; [|split; [|split]].
    + rewrite Hsize', HD6, Hs5, HD4, Hsize. lia.
    + rewrite Helts', HD6, He5, HD4, Helts. apply removelast_last.
    + exact Hcovered.
    + assert (pos_count (covered (MDD.base s6)) = pos_count (covered (MDD.base s)))
        by (apply pos_count_ext, Hcovered).
      assert (pos_count (covered (MDD.base s5)) = pos_count (covered (MDD.base s4)))
        by (apply pos_count_ext, Hc5).
      rewrite Hc1 in Hdelta4. lia.
  - destruct Hem5 as (news & Hnews & HP). exists news. split.
    + cbn. rewrite Hout6, Hnews, Hout4, Hout1. reflexivity.
    + eapply Forall_impl; [|exact HP]. cbn. intros S [Hsol (rest & Hrest)].
      split; [exact Hsol|]. exists (j :: rest).
      rewrite Hrest, HD4. cbn. rewrite Helts. now rewrite <- app_assoc.
Qed.

Lemma mdd_branch_sound (nd : bool) (V : MDD.variant) (st : settings) (g : Graph.t)
    (rec : MDD.state -> res (Z * MDD.state)) :
  mdd_sound (MDD.GENERATE_ALL V) st g rec ->
  forall slots s fl s' fl',
    cover_inv_nn g (MDD.base s) ->
    MDD.branch nd V st g rec slots s fl = Ok (s', fl') ->
    cover_restored (MDD.base s) (MDD.base s') /\
    emits (fun S => solution (MDD.GENERATE_ALL V) st g S /\ extends (MDD.base s) S)
      (MDD.base s) (MDD.base s').
Proof.
  intros Hrec. induction slots as [|[j|] slots IH]; intros s fl s' fl' Hinv H;
    cbn [MDD.branch] in H.
  - injection H as <- <-. split; [apply cover_restored_refl|apply emits_refl].
  - step H as p Hadd. destruct p as [[force_stop s1] fl1].
    destruct (mdd_add_vertex_to_set_sound nd _ st g rec Hrec _ _ _ _ _ _ Hinv Hadd) as [Hr He].
    destruct (_ && _).
    { injection H as <- <-. auto. }
    step H as b Hb. destruct (negb _).
    { injection H as <- <-. auto. }
    destruct (IH _ _ _ _ (cover_inv_nn_restored g _ _ Hinv Hr) H) as [Hr' He'].
    split; [eapply cover_restored_trans; eauto|eapply emits_trans; [exact He|]].
    eapply emits_impl; [|exact He']. cbn. intros S [Hsol (rest & Hrest)].
    split; [exact Hsol|]. exists rest. destruct Hr as (_ & He1 & _). now rewrite <- He1.
  - discriminate.
Qed.

Lemma mdd_restore_cover_frame (nd : bool) (g : Graph.t) (s : MDD.state) (v : Z) (s' : MDD.state) :
  MDD.restore nd g s v = Ok s' -> cover_frame (MDD.base s) (MDD.base s').
Proof.
  unfold MDD.restore. intros H. step H as m Hm.
  apply mdd_add_candidate_cover_frame in H. exact H.
Qed.

(** The MDD search returns with [D] and the cover counters as it found
    them, and hands over solutions only. *)
Lemma mdd_FindDominatingSet_sound (nd : bool) (V : MDD.variant) (st : settings) (g : Graph.t) :
  closed g ->
  forall fuel chk, mdd_sound (MDD.GENERATE_ALL V) st g (MDD.FindDominatingSet fuel nd V chk st g).
Proof.
  intros Hclosed. induction fuel as [|fuel IH]; intros chk s r s' Hinv H; [discriminate|].
  cbn [MDD.FindDominatingSet] in H.
  step H as rc Hrep. destruct rc as [resmod_check c]. cbv beta iota zeta in H.
  apply report_node_keeps in Hrep. destruct Hrep as [dl ->].
  set (c := with_depth_log dl (MDD.base s)) in *.
  assert (Hinvc : cover_inv_nn g c) by exact Hinv.
  assert (Hgoal : forall s1,
             cover_restored c (MDD.base s1) /\
             emits (fun S => solution (MDD.GENERATE_ALL V) st g S /\ extends c S) c (MDD.base s1) ->
             cover_restored (MDD.base s) (MDD.base s1) /\
             emits (fun S => solution (MDD.GENERATE_ALL V) st g S /\ extends (MDD.base s) S)
               (MDD.base s) (MDD.base s1)).
  { intros s1 H1. exact H1. }
  clearbody c. clear Hinv.
  destruct (resmod_check =? 0).
  { injection H as <- <-. apply Hgoal. repeat split. apply emits_refl. }
  destruct (chk && (resmod_check =? 1)).
  { step H as c1 Hun. apply unreport_node_keeps in Hun. destruct Hun as [dl1 ->].
    apply IH in H; [|exact Hinvc]. apply Hgoal. exact H. }
  destruct (Z.eqb_spec (total_covered c) (Graph.n g)) as [Hn|_].
  { injection H as <- <-. apply Hgoal. cbn.
    destruct (record_solution_sound (MDD.GENERATE_ALL V) st g c Hclosed (proj1 Hinvc) Hn)
      as (R1 & _ & R3). split; [exact R1|].
    eapply emits_impl; [|exact R3]. cbn. intros S [Hsol (rest & Hrest & _)].
    split; [exact Hsol|]. now exists rest. }
  step H as b Hb. destruct (negb _).
  { injection H as <- <-. apply Hgoal. repeat split. apply emits_refl. }
  step H as i Hi. step H as a Ha. step H as rk Hrk.
  step H as p Hbranch. destruct p as [s1 fl]. step H as s2 Hrest. injection H as <- <-.
  apply (mdd_branch_sound nd V st g _ (IH chk)) in Hbranch; [|exact Hinvc].
  destruct Hbranch as [Hres Hem].
  assert (Hf : cover_frame (MDD.base s1) (MDD.base s2)).
  { revert Hrest. apply (foreach_preorder (fun a b => cover_frame (MDD.base a) (MDD.base b))).
    - intros; apply cover_frame_refl.
    - intros ? ? ?; apply cover_frame_trans.
    - intros ? ? ?; apply mdd_restore_cover_frame. }
  apply Hgoal. split.
  - eapply cover_restored_trans; [exact Hres|]. now apply cover_frame_restored.
  - eapply emits_trans; [exact Hem|]. eapply cover_frame_emits; eauto.
Qed.

End MDDSearch.
(** ** From [solve] to the handed-over sets *)

Section SolveSound.
Import Framework.

Lemma cover_inv_nn_start (g : Graph.t) (c : core) :
  VertexSet.elements (D c) = [] -> covered c = fill 0 -> total_covered c = 0 ->
  cover_inv_nn g c.
Proof.
  intros HD Hc Ht. split; [split|].
  - intros k Hk. rewrite Hc in Hk. unfold fill in Hk. lia.
  - rewrite Ht, Hc. symmetry. apply pos_count_zero. intros k. unfold fill. lia.
  - intros k. rewrite Hc. unfold fill. lia.
Qed.

Lemma cover_inv_nn_frame (g : Graph.t) (c c' : core) :
  cover_inv_nn g c -> cover_frame c c' -> cover_inv_nn g c'.
Proof. intros H F. eapply cover_inv_nn_restored; [exact H|]. now apply cover_frame_restored. Qed.

Lemma fo_solve_init_inv (nd ga : bool) (st : settings) (s : FixedOrder.state)
    (inst : DominationInstance) (s' : FixedOrder.state) (inst' : DominationInstance) :
  FixedOrder.solve_init nd ga st s inst = Ok (s', inst') ->
  G inst' = sort_neighbours_descending (add_loops (G inst)) /\
  cover_inv_nn (G inst') (FixedOrder.base s').
Proof.
  unfold FixedOrder.solve_init. intros H.
  step H as c0 Hbest. step H as c1 Hin. step H as c2 Hout. injection H as <- <-.
  split; [reflexivity|]. cbn [G FixedOrder.base FixedOrder.with_base].
  set (g := sort_neighbours_descending (add_loops (G inst))) in *.
  unfold reset_best in Hbest. step Hbest as b Hb. step Hbest as b' Hb'. injection Hbest as <-.
  cbn in Hin.
  assert (H1 : cover_inv_nn g c1).
  { revert Hin. apply foreach_invariant.
    - intros c v c' Hc Hbody. step Hbody as d Hd. step Hbody as nb Hnb.
      apply foreach_cover in Hbody. destruct Hbody as [Hm Hcov]. destruct Hc as [Hinv Hnn].
      split.
      + eapply (cover_inv_raised nd g c (with_D d c)); try eassumption; reflexivity.
      + intros k. rewrite Hcov. cbn. pose proof (occ_nonneg nb k). specialize (Hnn k). lia.
    - apply cover_inv_nn_start; reflexivity. }
  assert (H2 : cover_inv_nn g c2).
  { revert Hout. apply foreach_invariant; [|exact H1].
    intros c v c' Hc Hbody. step Hbody as f Hf. injection Hbody as <-.
    eapply cover_inv_nn_frame; [exact Hc|]. repeat split. }
  eapply cover_inv_nn_restored; [exact H2|]. repeat split.
Qed.

Lemma dd_solve_init_inv (nd : bool) (V : DD.variant) (st : settings) (s : DD.state)
    (inst : DominationInstance) (s' : DD.state) (inst' : DominationInstance) :
  DD.solve_init nd V st s inst = Ok (s', inst') ->
  G inst' = sort_neighbours_descending (add_loops (G inst)) /\
  cover_inv_nn (G inst') (DD.base s').
Proof.
  unfold DD.solve_init. intros H.
  step H as c0 Hbest. step H as ud Hud. step H as cd Hcd.
  step H as s1 Hin. step H as s2 Hout. injection H as <- <-.
  split; [reflexivity|]. cbn [G DD.base DD.with_base].
  set (g := sort_neighbours_descending (add_loops (G inst))) in *.
  unfold reset_best in Hbest. step Hbest as b Hb. step Hbest as b' Hb'. injection Hbest as <-.
  assert (H1 : cover_inv_nn g (DD.base s1)).
  { revert Hin. apply (foreach_invariant (fun s => cover_inv_nn g (DD.base s))).
    - intros sa v sb Hc Hbody. step Hbody as p Hrem. destruct p as [forced sr].
      step Hbody as d Hd. step Hbody as nb Hnb.
      apply dd_remove_candidate_cover_frame in Hrem.
      pose proof (cover_inv_nn_frame g _ _ Hc Hrem) as [Hinv Hnn].
      apply (foreach_steps_up DD.base _ (dd_dominate_moved nd g)) in Hbody; [|exact Hnn].
      destruct Hbody as [Hm Hcov]. split.
      + eapply (cover_inv_raised nd g (DD.base sr) (with_D d (DD.base sr)));
          try eassumption; reflexivity.
      + intros k. rewrite Hcov. cbn. pose proof (occ_nonneg nb k). specialize (Hnn k). lia.
    - apply cover_inv_nn_start; reflexivity. }
  assert (H2 : cover_inv_nn g (DD.base s2)).
  { revert Hout. apply (foreach_invariant (fun s => cover_inv_nn g (DD.base s))); [|exact H1].
    intros sa v sb Hc Hbody. step Hbody as p Hrem. destruct p as [forced sr].
    injection Hbody as <-. apply dd_remove_candidate_cover_frame in Hrem.
    eapply cover_inv_nn_frame; eauto. }
  eapply cover_inv_nn_restored; [exact H2|]. repeat split.
Qed.

Lemma mdd_solve_init_inv (nd : bool) (V : MDD.variant) (st : settings) (m0 : Z) (s : MDD.state)
    (inst : DominationInstance) (s' : MDD.state) (inst' : DominationInstance) :
  MDD.solve_init nd V st m0 s inst = Ok (s', inst') ->
  G inst' = sort_neighbours_descending (add_loops (G inst)) /\
  cover_inv_nn (G inst') (MDD.base s').
Proof.
  unfold MDD.solve_init. intros H.
  step H as c0 Hbest. step H as us Hus. step H as cns Hcns. step H as ud Hud.
  step H as m Hm. step H as s1 Hin. step H as s2 Hout. injection H as <- <-.
  split; [reflexivity|]. cbn [G MDD.base MDD.with_base].
  set (g := sort_neighbours_descending (add_loops (G inst))) in *.
  unfold reset_best in Hbest. step Hbest as b Hb. step Hbest as b' Hb'. injection Hbest as <-.
  assert (H1 : cover_inv_nn g (MDD.base s1)).
  { revert Hin. apply (foreach_invariant (fun s => cover_inv_nn g (MDD.base s))).
    - intros sa v sb Hc Hbody. step Hbody as p Hrem. destruct p as [forced sr].
      step Hbody as d Hd. step Hbody as nb Hnb. step Hbody as sd Hdom. step Hbody as m' Hm'.
      injection Hbody as <-.
      apply mdd_remove_candidate_cover_frame in Hrem.
      pose proof (cover_inv_nn_frame g _ _ Hc Hrem) as [Hinv Hnn].
      apply (foreach_steps_up MDD.base _ (mdd_dominate_moved nd g)) in Hdom; [|exact Hnn].
      destruct Hdom as [Hmv Hcov]. cbn. split.
      + eapply (cover_inv_raised nd g (MDD.base sr) (with_D d (MDD.base sr)));
          try eassumption; reflexivity.
      + intros k. rewrite Hcov. cbn. pose proof (occ_nonneg nb k). specialize (Hnn k). lia.
    - apply cover_inv_nn_start; reflexivity. }
  assert (H2 : cover_inv_nn g (MDD.base s2)).
  { revert Hout. apply (foreach_invariant (fun s => cover_inv_nn g (MDD.base s))); [|exact H1].
    intros sa v sb Hc Hbody. step Hbody as p Hrem. destruct p as [forced sr].
    step Hbody as m' Hm'. injection Hbody as <-. apply mdd_remove_candidate_cover_frame in Hrem.
    cbn. eapply cover_inv_nn_frame; eauto. }
  eapply cover_inv_nn_restored; [exact H2|]. repeat split.
Qed.

Lemma foreach_collect {A S : Type} (f : S -> list A) (l : list A) (body : S -> A -> res S) :
  (forall s x s', body s x = Ok s' -> f s' = f s ++ [x]) ->
  forall s s', foreach l body s = Ok s' -> f s' = f s ++ l.
Proof.
  intros Hbody. induction l as [|x l IH]; intros s s' H; cbn [foreach] in H.
  - injection H as <-. now rewrite app_nil_r.
  - step H as s1 H1. apply Hbody in H1. apply IH in H. rewrite H, H1, <- app_assoc. reflexivity.
Qed.

Lemma foreach_D_kept {A S : Type} (f : S -> core) (l : list A) (body : S -> A -> res S) :
  (forall s x s', body s x = Ok s' -> D (f s') = D (f s)) ->
  forall s s', foreach l body s = Ok s' -> D (f s') = D (f s).
Proof.
  intros Hbody. apply (foreach_preorder (fun a b => D (f b) = D (f a))).
  - reflexivity.
  - intros; congruence.
  - exact Hbody.
Qed.

(** After the initialisation [D] holds the forced-in vertices. *)
Lemma fo_solve_init_D (nd ga : bool) (st : settings) (s : FixedOrder.state)
    (inst : DominationInstance) (s' : FixedOrder.state) (inst' : DominationInstance) :
  FixedOrder.solve_init nd ga st s inst = Ok (s', inst') ->
  VertexSet.elements (D (FixedOrder.base s')) = VertexSet.elements (force_in inst) /\
  forall k, fixed (FixedOrder.base s') k =
            if existsb (Z.eqb k) (VertexSet.elements (force_out inst)) then 1 else 0.
Proof.
  unfold FixedOrder.solve_init. intros H.
  step H as c0 Hbest. step H as c1 Hin. step H as c2 Hout. injection H as <- <-.
  cbn [G FixedOrder.base FixedOrder.with_base force_in force_out] in *.
  unfold reset_best in Hbest. step Hbest as b Hb. step Hbest as b' Hb'. injection Hbest as <-.
  cbn in Hin.
  assert (H1 : VertexSet.elements (D c1) = VertexSet.elements (force_in inst) /\
               fixed c1 = fill 0).
  { split.
    - apply (foreach_collect (fun c => VertexSet.elements (D c))) in Hin; [exact Hin|].
      intros c v c' Hbody. step Hbody as d Hd. step Hbody as nb Hnb.
      apply foreach_cover in Hbody. destruct Hbody as [(HD & _) _]. rewrite HD. cbn.
      apply elements_add in Hd. apply Hd.
    - revert Hin. apply (foreach_invariant (fun c => fixed c = fill 0)); [|reflexivity].
      intros c v c' Hc Hbody. step Hbody as d Hd. step Hbody as nb Hnb.
      apply foreach_cover in Hbody. destruct Hbody as [(_ & _ & Hf & _) _]. now rewrite Hf. }
  destruct H1 as [HD1 Hf1].
  assert (H2 : D c2 = D c1 /\
               forall l0 c c', foreach l0
                 (fun c v => f <- awrite MAX_VERTS (fixed c) v 1 ;;
                             Ok (with_total_fixed (total_fixed c + 1) (with_fixed f c))) c = Ok c' ->
                 forall k, fixed c' k = if existsb (Z.eqb k) l0 then 1 else fixed c k).
  { split.
    - revert Hout. apply (foreach_D_kept (fun c => c)).
      intros c v c' Hbody. step Hbody as f Hf. now injection Hbody as <-.
    - induction l0 as [|v l0 IH]; intros c c' Hl k; cbn [foreach] in Hl.
      + now injection Hl as <-.
      + step Hl as ca Ha. step Ha as f Hf. injection Ha as <-.
        apply awrite_Ok in Hf. destruct Hf as [_ ->].
        rewrite (IH _ _ Hl k). cbn [existsb]. cbn. unfold upd.
        destruct (k =? v), (existsb (Z.eqb k) l0); reflexivity. }
  destruct H2 as [HD2 Hfix]. cbn. split; [now rewrite HD2|].
  intros k. rewrite (Hfix _ _ _ Hout k), Hf1. reflexivity.
Qed.

Lemma dd_solve_init_D (nd : bool) (V : DD.variant) (st : settings) (s : DD.state)
    (inst : DominationInstance) (s' : DD.state) (inst' : DominationInstance) :
  DD.solve_init nd V st s inst = Ok (s', inst') ->
  VertexSet.elements (D (DD.base s')) = VertexSet.elements (force_in inst).
Proof.
  unfold DD.solve_init. intros H.
  step H as c0 Hbest. step H as ud Hud. step H as cd Hcd.
  step H as s1 Hin. step H as s2 Hout. injection H as <- <-.
  cbn [G DD.base DD.with_base force_in force_out] in *.
  unfold reset_best in Hbest. step Hbest as b Hb. step Hbest as b' Hb'. injection Hbest as <-.
  apply (foreach_collect (fun s => VertexSet.elements (D (DD.base s)))) in Hin.
  - apply (foreach_D_kept DD.base) in Hout.
    + cbn. rewrite Hout, Hin. reflexivity.
    + intros sa v sb Hbody. step Hbody as p Hrem. destruct p as [forced sr].
      injection Hbody as <-. apply dd_remove_candidate_cover_frame in Hrem. apply Hrem.
  - intros sa v sb Hbody. step Hbody as p Hrem. destruct p as [forced sr].
    step Hbody as d Hd. step Hbody as nb Hnb.
    apply dd_remove_candidate_cover_frame in Hrem. destruct Hrem as (HDr & _).
    apply (foreach_D_kept DD.base) in Hbody.
    + rewrite Hbody. cbn. apply elements_add in Hd. rewrite HDr in Hd. apply Hd.
    + intros s3 u s4 Hdom. unfold DD.dominate in Hdom. run_res Hdom; now injection Hdom as <-.
Qed.

Lemma mdd_solve_init_D (nd : bool) (V : MDD.variant) (st : settings) (m0 : Z) (s : MDD.state)
    (inst : DominationInstance) (s' : MDD.state) (inst' : DominationInstance) :
  MDD.solve_init nd V st m0 s inst = Ok (s', inst') ->
  VertexSet.elements (D (MDD.base s')) = VertexSet.elements (force_in inst).
Proof.
  unfold MDD.solve_init. intros H.
  step H as c0 Hbest. step H as us Hus. step H as cns Hcns. step H as ud Hud.
  step H as m Hm. step H as s1 Hin. step H as s2 Hout. injection H as <- <-.
  cbn [G MDD.base MDD.with_base force_in force_out] in *.
  unfold reset_best in Hbest. step Hbest as b Hb. step Hbest as b' Hb'. injection Hbest as <-.
  apply (foreach_collect (fun s => VertexSet.elements (D (MDD.base s)))) in Hin.
  - apply (foreach_D_kept MDD.base) in Hout.
    + cbn. rewrite Hout, Hin. reflexivity.
    + intros sa v sb Hbody. step Hbody as p Hrem. destruct p as [forced sr].
      step Hbody as m' Hm'. injection Hbody as <-.
      apply mdd_remove_candidate_cover_frame in Hrem. apply Hrem.
  - intros sa v sb Hbody. step Hbody as p Hrem. destruct p as [forced sr].
    step Hbody as d Hd. step Hbody as nb Hnb. step Hbody as sd Hdom. step Hbody as m' Hm'.
    injection Hbody as <-.
    apply mdd_remove_candidate_cover_frame in Hrem. destruct Hrem as (HDr & _).
    apply (foreach_D_kept MDD.base) in Hdom.
    + cbn. rewrite Hdom. cbn. apply elements_add in Hd. rewrite HDr in Hd. apply Hd.
    + intros s3 u s4 Hd4. unfold MDD.dominate in Hd4. run_res Hd4; now injection Hd4 as <-.
Qed.

End SolveSound.
(** ** The prepared graph *)

Section PreparedGraph.
Import Framework.

Lemma In_insert_descending (x k : Z) (l : list Z) :
  In k (insert_descending x l) <-> k = x \/ In k l.
Proof.
  induction l as [|y l IH]; cbn [insert_descending].
  - cbn. intuition congruence.
  - destruct (y >? x); cbn [In]; [rewrite IH|]; intuition congruence.
Qed.

Lemma In_stable_sort_descending (k : Z) (l : list Z) :
  In k (stable_sort_descending l) <-> In k l.
Proof.
  unfold stable_sort_descending. induction l as [|x l IH]; cbn [fold_right]; [reflexivity|].
  rewrite In_insert_descending, IH. cbn. intuition congruence.
Qed.

Lemma In_add_neighbour_simple (v : Graph.Vertex) (x k : Z) :
  In k (Graph._neighbours (snd (Graph.add_neighbour_simple v x))) <->
  In k (Graph._neighbours v) \/ k = x.
Proof.
  unfold Graph.add_neighbour_simple. destruct (existsb _ _) eqn:E; cbn.
  - split; [auto|]. intros [H| ->]; [exact H|].
    apply existsb_exists in E. destruct E as (y & Hy & Hxy). apply Z.eqb_eq in Hxy. now subst.
  - rewrite in_app_iff. cbn. intuition congruence.
Qed.

Lemma prepared_n (g : Graph.t) : Graph.n (sort_neighbours_descending (add_loops g)) = Graph.n g.
Proof. unfold Graph.n. cbn. now rewrite !length_map. Qed.

Lemma get_Ok (g : Graph.t) (j : Z) (x : Graph.Vertex) :
  Graph.get g j = Ok x <-> 0 <= j /\ nth_error (Graph.vertices g) (Z.to_nat j) = Some x.
Proof.
  unfold Graph.get. destruct (Z.ltb_spec j 0) as [Hj|Hj].
  - split; [discriminate|lia].
  - destruct (nth_error _ _); split; try discriminate; intros H.
    + injection H as <-. auto.
    + destruct H as [_ H]. now injection H as <-.
    + now destruct H.
Qed.

(** The neighbour lists the solvers work on: those of the instance,
    each with the vertex's own index. *)
Lemma prepared_neighbours (g : Graph.t) (j : Z) (nb : list Z) :
  Graph.neighbours (sort_neighbours_descending (add_loops g)) j = Ok nb ->
  exists x, Graph.get g j = Ok x /\
            forall k, In k nb <-> In k (Graph._neighbours x) \/ k = Graph.index x.
Proof.
  unfold Graph.neighbours. intros H. step H as y Hy. injection H as <-.
  apply get_Ok in Hy. destruct Hy as [Hj Hy]. cbn in Hy. rewrite !nth_error_map in Hy.
  destruct (nth_error (Graph.vertices g) (Z.to_nat j)) as [x|] eqn:E; [|discriminate].
  cbn in Hy. injection Hy as <-. exists x. split; [apply get_Ok; auto|].
  intros k. cbn. rewrite In_stable_sort_descending. apply In_add_neighbour_simple.
Qed.

Lemma nth_error_zrange (lo : Z) (len i : nat) (x : Z) :
  nth_error (zrange lo len) i = Some x -> x = lo + Z.of_nat i /\ (i < len)%nat.
Proof.
  unfold zrange. rewrite nth_error_map. intros H.
  destruct (nth_error (seq 0 len) i) as [k|] eqn:E; [|discriminate]. cbn in H. injection H as <-.
  pose proof (nth_error_Some (seq 0 len) i) as Hlt. rewrite E, length_seq in Hlt.
  assert (Hi : (i < len)%nat) by (apply Hlt; discriminate).
  rewrite nth_error_nth' with (d := 0%nat) in E by (now rewrite length_seq).
  rewrite seq_nth in E by exact Hi. injection E as <-. split; [reflexivity|exact Hi].
Qed.

Lemma numbered_get (g : Graph.t) (j : Z) (x : Graph.Vertex) :
  numbered g -> Graph.get g j = Ok x -> Graph.index x = j.
Proof.
  intros Hnum H. apply get_Ok in H. destruct H as [Hj H].
  apply (map_nth_error Graph.index) in H. rewrite Hnum in H.
  apply nth_error_zrange in H. lia.
Qed.

Lemma closed_prepared (g : Graph.t) :
  numbered g -> closed g -> closed (sort_neighbours_descending (add_loops g)).
Proof.
  intros Hnum Hclosed. unfold closed. rewrite prepared_n. cbn [Graph.vertices sort_neighbours_descending add_loops].
  rewrite map_map. apply Forall_map. apply Forall_forall. intros v Hv. cbn.
  apply Forall_forall. intros u Hu.
  apply In_stable_sort_descending, In_add_neighbour_simple in Hu. destruct Hu as [Hu| ->].
  - unfold closed in Hclosed. rewrite Forall_forall in Hclosed. specialize (Hclosed v Hv).
    rewrite Forall_forall in Hclosed. now apply Hclosed.
  - assert (Hin : In (Graph.index v) (map Graph.index (Graph.vertices g))) by now apply in_map.
    rewrite Hnum in Hin. apply in_zrange_iff in Hin. unfold Graph.n. lia.
Qed.

Lemma dominates_prepared (g : Graph.t) (members : list Z) :
  numbered g ->
  dominates (sort_neighbours_descending (add_loops g)) members ->
  dominating_set g members.
Proof.
  intros Hnum Hdom k Hk. rewrite <- prepared_n in Hk.
  destruct (Hdom k Hk) as (j & nb & Hj & Hnb & Hin).
  apply prepared_neighbours in Hnb. destruct Hnb as (x & Hx & Hiff).
  exists j. split; [exact Hj|]. apply Hiff in Hin. destruct Hin as [Hin|Hin].
  - right. exists (Graph._neighbours x). split; [|exact Hin].
    unfold Graph.neighbours. now rewrite Hx.
  - left. rewrite Hin. symmetry. now apply (numbered_get g).
Qed.

Lemma solution_acceptable (ga : bool) (st : settings) (g : Graph.t) (S : VertexSet.t) :
  numbered g ->
  solution ga st (sort_neighbours_descending (add_loops g)) S -> acceptable ga st g S.
Proof. intros Hnum (H1 & H2 & H3). split; [now apply dominates_prepared|auto]. Qed.

Lemma grown_extends (c : core) (S : VertexSet.t) : grown_from c S -> extends c S.
Proof. intros (rest & H & _). now exists rest. Qed.

(** What every run of a registered solver does: it initialises, then
    searches; the search restores [D] and the cover counters and hands
    over solutions that hold the initial members of [D]. *)
Lemma solve_run (nd : bool) (st : settings) (sv : Registry.solver)
    (inst : DominationInstance) (sv' : Registry.solver) (inst' : DominationInstance) :
  numbered (G inst) ->
  closed (G inst) ->
  Registry.solve nd st sv inst = Ok (sv', inst') ->
  exists sv0,
    Registry.solve_init nd st sv inst = Ok (sv0, inst') /\
    Registry.generate_all sv' = Registry.generate_all sv /\
    VertexSet.elements (D (Registry.base sv0)) = VertexSet.elements (force_in inst) /\
    cover_restored (Registry.base sv0) (Registry.base sv') /\
    Forall (fun S => solution (Registry.generate_all sv) st
                       (sort_neighbours_descending (add_loops (G inst))) S /\
                     extends (Registry.base sv0) S)
           (Registry.emitted sv').
Proof.
  intros Hnum Hclosed H. pose proof (closed_prepared _ Hnum Hclosed) as Hcp.
  destruct sv as [ga s|V s|V m0 s];
    cbn [Registry.solve Registry.solve_init Registry.generate_all] in H |- *.
  - step H as p Hsolve. destruct p as [s1 inst1]. injection H as <- <-.
    unfold FixedOrder.solve in Hsolve. step Hsolve as p Hinit. destruct p as [s0 inst0].
    step Hsolve as s2 Hsearch. injection Hsolve as <- <-.
    exists (Registry.FixedOrderSolver ga s0). rewrite Hinit. cbn [bind].
    split; [reflexivity|]. split; [reflexivity|].
    pose proof (fo_solve_init_out _ _ _ _ _ _ _ Hinit) as Hout.
    pose proof (fo_solve_init_D _ _ _ _ _ _ _ Hinit) as [HD _].
    apply fo_solve_init_inv in Hinit. destruct Hinit as [HG Hinv]. rewrite HG in *.
    apply (fo_FindDominatingSet_sound nd ga st _ Hcp) in Hsearch; [|apply Hinv].
    destruct Hsearch as (Hres & _ & news & Hnews & HP).
    split; [exact HD|]. split; [exact Hres|].
    unfold Registry.emitted. cbn. rewrite Hnews, Hout. cbn.
    eapply Forall_impl; [|exact HP]. cbn. intros S [H1 H2]. split; [exact H1|].
    now apply grown_extends.
  - step H as p Hsolve. destruct p as [s1 inst1]. injection H as <- <-.
    unfold DD.solve in Hsolve. step Hsolve as p Hinit. destruct p as [s0 inst0].
    step Hsolve as s2 Hsearch. injection Hsolve as <- <-.
    exists (Registry.DDSolver V s0). rewrite Hinit. cbn [bind].
    split; [reflexivity|]. split; [reflexivity|].
    pose proof (dd_solve_init_out _ _ _ _ _ _ _ Hinit) as Hout.
    pose proof (dd_solve_init_D _ _ _ _ _ _ _ Hinit) as HD.
    apply dd_solve_init_inv in Hinit. destruct Hinit as [HG Hinv]. rewrite HG in *.
    apply (dd_FindDominatingSet_sound nd V st _ Hcp) in Hsearch; [|apply Hinv].
    destruct Hsearch as (Hres & _ & news & Hnews & HP).
    split; [exact HD|]. split; [exact Hres|].
    unfold Registry.emitted. cbn. rewrite Hnews, Hout. cbn.
    eapply Forall_impl; [|exact HP]. cbn. intros S [H1 H2]. split; [exact H1|].
    now apply grown_extends.
  - step H as p Hsolve. destruct p as [s1 inst1]. injection H as <- <-.
    unfold MDD.solve in Hsolve. step Hsolve as p Hinit. destruct p as [s0 inst0].
    step Hsolve as p2 Hsearch. destruct p2 as [r s2]. injection Hsolve as <- <-.
    exists (Registry.MDDSolver V m0 s0). rewrite Hinit. cbn [bind].
    split; [reflexivity|]. split; [reflexivity|].
    pose proof (mdd_solve_init_out _ _ _ _ _ _ _ _ Hinit) as Hout.
    pose proof (mdd_solve_init_D _ _ _ _ _ _ _ _ Hinit) as HD.
    apply mdd_solve_init_inv in Hinit. destruct Hinit as [HG Hinv]. rewrite HG in *.
    apply (mdd_FindDominatingSet_sound nd V st _ Hcp) in Hsearch; [|apply Hinv].
    destruct Hsearch as (Hres & news & Hnews & HP).
    split; [exact HD|]. split; [exact Hres|].
    unfold Registry.emitted. cbn. rewrite Hnews, Hout. exact HP.
Qed.

(** X1: for an instance whose graph is numbered as [Graph::reset] does
    it and whose neighbour indices are vertices, every set a registered
    solver hands to the output proxy dominates the graph (each vertex is
    a member or in the neighbour list of a member); its size is at least
    the lower bound, and in generation mode at most the upper bound. *)
Theorem handed_over_sets_dominate (NDEBUG : bool) (st : settings) (sv : Registry.solver)
    (inst : DominationInstance) (sv' : Registry.solver) (inst' : DominationInstance) :
  numbered (G inst) ->
  closed (G inst) ->
  Registry.solve NDEBUG st sv inst = Ok (sv', inst') ->
  Forall (acceptable (Registry.generate_all sv) st (G inst)) (Registry.emitted sv').
Proof.
  intros Hnum Hclosed H.
  destruct (solve_run _ _ _ _ _ _ Hnum Hclosed H) as (sv0 & _ & _ & _ & _ & HP).
  eapply Forall_impl; [|exact HP]. cbn. intros S [Hsol _]. now apply solution_acceptable.
Qed.

(** The fixed-order solver on the path with three vertices hands over
    [{0, 2}] and then [{1}]. *)
Lemma handed_over_sets_dominate_witness :
  exists sv' inst',
    Registry.solve false default_settings (Registry.FixedOrderSolver false FixedOrder.new)
      (Examples.instance_of Examples.P3) = Ok (sv', inst') /\
    map VertexSet.elements (Registry.emitted sv') = [[0; 2]; [1]] /\
    Forall (acceptable false default_settings (Examples.graph_of Examples.P3))
      (Registry.emitted sv').
Proof.
  destruct (Registry.solve false default_settings (Registry.FixedOrderSolver false FixedOrder.new)
              (Examples.instance_of Examples.P3)) as [[sv' inst']|f] eqn:E;
    [|vm_compute in E; discriminate].
  exists sv', inst'. split; [reflexivity|]. split.
  - vm_compute in E. injection E as <- <-. vm_compute. reflexivity.
  - apply (handed_over_sets_dominate false default_settings
             (Registry.FixedOrderSolver false FixedOrder.new)
             (Examples.instance_of Examples.P3) sv' inst').
    + reflexivity.
    + repeat constructor; cbn; lia.
    + exact E.
Defined.

(** X2: every set a registered solver hands over lists the forced-in
    vertices first, in the order of [force_in]. *)
Theorem handed_over_sets_hold_force_in (NDEBUG : bool) (st : settings) (sv : Registry.solver)
    (inst : DominationInstance) (sv' : Registry.solver) (inst' : DominationInstance) :
  numbered (G inst) ->
  closed (G inst) ->
  Registry.solve NDEBUG st sv inst = Ok (sv', inst') ->
  Forall (fun S => exists rest,
              VertexSet.elements S = VertexSet.elements (force_in inst) ++ rest)
         (Registry.emitted sv').
Proof.
  intros Hnum Hclosed H.
  destruct (solve_run _ _ _ _ _ _ Hnum Hclosed H) as (sv0 & _ & _ & HD & _ & HP).
  eapply Forall_impl; [|exact HP]. cbn. intros S [_ (rest & Hrest)].
  exists rest. now rewrite <- HD.
Qed.

(** The DD solver on the path with six vertices and vertex 0 forced in
    hands over [{0, 5, 1, 4}] and then [{0, 5, 3}]. *)
Lemma handed_over_sets_hold_force_in_witness :
  exists inst sv' inst',
    Filters.force_in_process false [0] (Examples.instance_of Examples.P6) = Ok inst /\
    Registry.solve false default_settings (Registry.DDSolver DD.DD_minCD_asc DD.new) inst
      = Ok (sv', inst') /\
    map VertexSet.elements (Registry.emitted sv') = [[0; 5; 1; 4]; [0; 5; 3]] /\
    Forall (fun S => exists rest, VertexSet.elements S = [0] ++ rest) (Registry.emitted sv').
Proof.
  destruct (Filters.force_in_process false [0] (Examples.instance_of Examples.P6))
    as [inst|f] eqn:Ei; [|vm_compute in Ei; discriminate].
  vm_compute in Ei.
  lazymatch type of Ei with Ok ?x = _ => set (given := x) in Ei end.
  injection Ei as <-.
  destruct (Registry.solve false default_settings (Registry.DDSolver DD.DD_minCD_asc DD.new) given)
    as [[sv' inst']|f] eqn:E; [|vm_compute in E; discriminate].
  exists given, sv', inst'. split; [reflexivity|]. split; [exact E|]. split.
  - vm_compute in E. injection E as <- <-. vm_compute. reflexivity.
  - apply (handed_over_sets_hold_force_in false default_settings
             (Registry.DDSolver DD.DD_minCD_asc DD.new) given sv' inst').
    + reflexivity.
    + repeat constructor; cbn; lia.
    + exact E.
Defined.

(** X3: when a registered solver returns, its working set [D] holds
    exactly the forced-in vertices again, and [covered] and
    [total_covered] are as the initialisation of [solve] left them. *)
Theorem solve_restores_working_set (NDEBUG : bool) (st : settings) (sv : Registry.solver)
    (inst : DominationInstance) (sv' : Registry.solver) (inst' : DominationInstance) :
  numbered (G inst) ->
  closed (G inst) ->
  Registry.solve NDEBUG st sv inst = Ok (sv', inst') ->
  VertexSet.elements (D (Registry.base sv')) = VertexSet.elements (force_in inst) /\
  exists sv0,
    Registry.solve_init NDEBUG st sv inst = Ok (sv0, inst') /\
    cover_restored (Registry.base sv0) (Registry.base sv').
Proof.
  intros Hnum Hclosed H.
  destruct (solve_run _ _ _ _ _ _ Hnum Hclosed H) as (sv0 & Hinit & _ & HD & Hres & _).
  split; [|exists sv0; auto]. destruct Hres as (_ & He & _). now rewrite He.
Qed.

(** The MDD solver on the path with six vertices and the two end
    vertices forced in returns with [D = {0, 5}]. *)
Lemma solve_restores_working_set_witness :
  exists inst sv' inst',
    Filters.force_in_process false [0; 5] (Examples.instance_of Examples.P6) = Ok inst /\
    Registry.solve false default_settings (Registry.MDDSolver MDD.MDD_minCD_desc 0 MDD.new) inst
      = Ok (sv', inst') /\
    VertexSet.elements (D (Registry.base sv')) = [0; 5].
Proof.
  destruct (Filters.force_in_process false [0; 5] (Examples.instance_of Examples.P6))
    as [inst|f] eqn:Ei; [|vm_compute in Ei; discriminate].
  vm_compute in Ei.
  lazymatch type of Ei with Ok ?x = _ => set (given := x) in Ei end.
  injection Ei as <-.
  destruct (Registry.solve false default_settings
              (Registry.MDDSolver MDD.MDD_minCD_desc 0 MDD.new) given)
    as [[sv' inst']|f] eqn:E; [|vm_compute in E; discriminate].
  exists given, sv', inst'. split; [reflexivity|]. split; [exact E|].
  destruct (solve_restores_working_set false default_settings
              (Registry.MDDSolver MDD.MDD_minCD_desc 0 MDD.new) given sv' inst') as [HD _].
  - reflexivity.
  - repeat constructor; cbn; lia.
  - exact E.
  - exact HD.
Defined.

End PreparedGraph.
(** ** The force filters *)

Section ForceFilters.
Import Framework.

Local Abbreviation force_body nd n :=
  (fun (s : VertexSet.t) (v : Z) =>
     if (v <? 0) || (v >=? n) then Fail ConfigurableError
     else c <- VertexSet.contains s v ;;
          if negb c then VertexSet.add nd s v else Ok s).

(** One round of the loop of the two force filters, on the set it
    fills. *)
Lemma force_step (nd : bool) (n : Z) (s : VertexSet.t) (v : Z) :
  n <= MAX_VERTS -> set_wf s ->
  if (0 <=? v) && (v <? n)
  then exists s',
      force_body nd n s v = Ok s' /\ set_wf s' /\
      VertexSet.elements s' =
      VertexSet.elements s ++ (if in_dec Z.eq_dec v (VertexSet.elements s) then [] else [v])
  else (force_body nd n) s v = Fail ConfigurableError.
Proof.
  intros Hn Hwf.
  destruct (Z.leb_spec 0 v) as [H0|H0]; destruct (Z.ltb_spec v n) as [H1|H1]; cbn [andb];
    try (destruct (Z.ltb_spec v 0); destruct (Z.geb_spec v n); try lia; reflexivity).
  destruct (Z.ltb_spec v 0); [lia|]. destruct (Z.geb_spec v n); [lia|]. cbn [orb].
  assert (Hv : in_bounds MAX_VERTS v = true) by (apply in_bounds_iff; lia).
  rewrite contains_in by exact Hv. cbn [bind].
  pose proof (elements_index s v Hwf Hv) as Hidx.
  destruct (in_dec Z.eq_dec v (VertexSet.elements s)) as [Hin|Hnot].
  - apply Hidx in Hin. apply Z.ltb_lt in Hin. rewrite Hin. cbn [negb].
    exists s. split; [reflexivity|]. split; [exact Hwf|]. now rewrite app_nil_r.
  - destruct (Z.ltb_spec (VertexSet.set_indices s v) (VertexSet.size s)) as [Hin|_];
      [apply Hidx in Hin; contradiction|]. cbn [negb].
    destruct (add_appends_run nd s v Hwf Hv Hnot) as (Hadd & Hwf1 & Hel1).
    eexists. split; [exact Hadd|]. split; [exact Hwf1|exact Hel1].
Qed.

(** The loop of the two force filters. *)
Lemma force_loop_run (nd : bool) (n : Z) (vertices : list Z) :
  n <= MAX_VERTS ->
  forall s, set_wf s ->
    if forallb (fun v => (0 <=? v) && (v <? n)) vertices
    then exists s',
        foreach vertices (force_body nd n) s = Ok s' /\ set_wf s' /\
        exists rest,
          VertexSet.elements s' = VertexSet.elements s ++ rest /\
          forall v, In v rest <-> In v vertices /\ ~ In v (VertexSet.elements s)
    else foreach vertices (force_body nd n) s = Fail ConfigurableError.
Proof.
  intros Hn. induction vertices as [|v l IH]; intros s Hwf.
  - cbn. exists s. split; [reflexivity|]. split; [exact Hwf|]. exists [].
    split; [now rewrite app_nil_r|]. intros v. cbn. tauto.
  - cbn [forallb foreach]. pose proof (force_step nd n s v Hn Hwf) as Hstep.
    destruct ((0 <=? v) && (v <? n)); cbn [andb]; [|now rewrite Hstep].
    destruct Hstep as (s1 & Hrun1 & Hwf1 & Hel1). rewrite Hrun1. cbn [bind].
    specialize (IH s1 Hwf1). destruct (forallb _ l); [|exact IH].
    destruct IH as (s' & Hrun & Hwf' & rest & Hel & Hrest).
    exists s'. split; [exact Hrun|]. split; [exact Hwf'|].
    destruct (in_dec Z.eq_dec v (VertexSet.elements s)) as [Hin|Hnot].
    + rewrite app_nil_r in Hel1. rewrite Hel1 in *. exists rest.
      split; [exact Hel|]. intros u. rewrite Hrest. cbn [In]. split; [tauto|].
      intros [[->|Hu] Hnot]; [contradiction|tauto].
    + exists (v :: rest). split; [now rewrite Hel, Hel1, <- app_assoc|].
      intros u. cbn [In]. rewrite Hrest, Hel1, in_app_iff. cbn [In].
      destruct (Z.eq_dec v u) as [->|Hne]; [tauto|]. split.
      * intros [?|[Hu Hn']]; [contradiction|]. split; [now right|]. tauto.
      * intros [[?|Hu] Hn']; [contradiction|]. right. split; [exact Hu|].
        intros [?|[?|[]]]; [contradiction|congruence].
Qed.

Lemma force_in_loop (nd : bool) (n : Z) (vertices : list Z) :
  forall inst,
    foreach vertices
      (fun inst v =>
         if (v <? 0) || (v >=? n) then Fail ConfigurableError
         else
           c <- VertexSet.contains (force_in inst) v ;;
           if negb c then
             s <- VertexSet.add nd (force_in inst) v ;;
             Ok (mkInstance (G inst) s (force_out inst))
           else Ok inst)
      inst =
    (s <- foreach vertices
            (fun (s : VertexSet.t) (v : Z) =>
               if (v <? 0) || (v >=? n) then Fail ConfigurableError
               else c <- VertexSet.contains s v ;;
                    if negb c then VertexSet.add nd s v else Ok s)
            (force_in inst) ;;
     Ok (mkInstance (G inst) s (force_out inst))).
Proof.
  induction vertices as [|v l IH]; intros [g fi fo]; [reflexivity|].
  cbn [foreach G force_in force_out].
  destruct ((v <? 0) || (v >=? n)); [reflexivity|].
  destruct (VertexSet.contains fi v) as [[|]|f]; cbn [bind negb]; [apply IH| |reflexivity].
  destruct (VertexSet.add nd fi v) as [s|f]; cbn [bind]; [apply IH|reflexivity].
Qed.

Lemma force_out_loop (nd : bool) (n : Z) (vertices : list Z) :
  forall inst,
    foreach vertices
      (fun inst v =>
         if (v <? 0) || (v >=? n) then Fail ConfigurableError
         else
           c <- VertexSet.contains (force_out inst) v ;;
           if negb c then
             s <- VertexSet.add nd (force_out inst) v ;;
             Ok (mkInstance (G inst) (force_in inst) s)
           else Ok inst)
      inst =
    (s <- foreach vertices
            (fun (s : VertexSet.t) (v : Z) =>
               if (v <? 0) || (v >=? n) then Fail ConfigurableError
               else c <- VertexSet.contains s v ;;
                    if negb c then VertexSet.add nd s v else Ok s)
            (force_out inst) ;;
     Ok (mkInstance (G inst) (force_in inst) s)).
Proof.
  induction vertices as [|v l IH]; intros [g fi fo]; [reflexivity|].
  cbn [foreach G force_in force_out].
  destruct ((v <? 0) || (v >=? n)); [reflexivity|].
  destruct (VertexSet.contains fo v) as [[|]|f]; cbn [bind negb]; [apply IH| |reflexivity].
  destruct (VertexSet.add nd fo v) as [s|f]; cbn [bind]; [apply IH|reflexivity].
Qed.

(** X10: the filter [force_in] raises the configuration error exactly
    when one of the given indices is not a vertex; otherwise it
    completes in both builds, leaves the graph and [force_out] alone and
    appends the given vertices that [force_in] lacks, each once. *)
Theorem force_in_adds_each_once (NDEBUG : bool) (vertices : list Z) (inst : DominationInstance) :
  set_wf (force_in inst) -> Graph.n (G inst) <= MAX_VERTS ->
  if forallb (fun v => (0 <=? v) && (v <? Graph.n (G inst))) vertices
  then exists inst',
      Filters.force_in_process NDEBUG vertices inst = Ok inst' /\
      G inst' = G inst /\ force_out inst' = force_out inst /\
      set_wf (force_in inst') /\
      exists rest,
        VertexSet.elements (force_in inst') = VertexSet.elements (force_in inst) ++ rest /\
        NoDup rest /\
        forall v, In v rest <-> In v vertices /\ ~ In v (VertexSet.elements (force_in inst))
  else Filters.force_in_process NDEBUG vertices inst = Fail ConfigurableError.
Proof.
  intros Hwf Hn. unfold Filters.force_in_process. cbv zeta. rewrite force_in_loop.
  pose proof (force_loop_run NDEBUG (Graph.n (G inst)) vertices Hn _ Hwf) as H. cbv zeta in H.
  destruct (forallb _ vertices).
  - destruct H as (s' & Hrun & Hwf' & rest & Hel & Hrest). rewrite Hrun. cbn [bind].
    eexists. split; [reflexivity|]. cbn [G force_in force_out].
    repeat (split; [reflexivity || exact Hwf'|]).
    exists rest. split; [exact Hel|]. split; [|exact Hrest].
    pose proof (elements_NoDup _ Hwf') as Hnd. rewrite Hel in Hnd.
    now apply NoDup_app_remove_l in Hnd.
  - now rewrite H.
Qed.

Lemma force_in_adds_each_once_witness :
  exists inst',
    Filters.force_in_process false [2; 0; 2] (Examples.instance_of Examples.P3) = Ok inst' /\
    VertexSet.elements (force_in inst') = [2; 0].
Proof.
  pose proof (force_in_adds_each_once false [2; 0; 2] (Examples.instance_of Examples.P3)
                set_wf_new) as H.
  destruct H as (inst' & Hrun & _); [vm_compute; discriminate|].
  exists inst'. split; [exact Hrun|].
  vm_compute in Hrun. injection Hrun as <-. reflexivity.
Defined.

(** X11: the filter [force_out] raises the configuration error exactly
    when one of the given indices is not a vertex; otherwise it
    completes in both builds, leaves the graph and [force_in] alone and
    appends the given vertices that [force_out] lacks, each once. *)
Theorem force_out_adds_each_once (NDEBUG : bool) (vertices : list Z) (inst : DominationInstance) :
  set_wf (force_out inst) -> Graph.n (G inst) <= MAX_VERTS ->
  if forallb (fun v => (0 <=? v) && (v <? Graph.n (G inst))) vertices
  then exists inst',
      Filters.force_out_process NDEBUG vertices inst = Ok inst' /\
      G inst' = G inst /\ force_in inst' = force_in inst /\
      set_wf (force_out inst') /\
      exists rest,
        VertexSet.elements (force_out inst') = VertexSet.elements (force_out inst) ++ rest /\
        NoDup rest /\
        forall v, In v rest <-> In v vertices /\ ~ In v (VertexSet.elements (force_out inst))
  else Filters.force_out_process NDEBUG vertices inst = Fail ConfigurableError.
Proof.
  intros Hwf Hn. unfold Filters.force_out_process. cbv zeta. rewrite force_out_loop.
  pose proof (force_loop_run NDEBUG (Graph.n (G inst)) vertices Hn _ Hwf) as H. cbv zeta in H.
  destruct (forallb _ vertices).
  - destruct H as (s' & Hrun & Hwf' & rest & Hel & Hrest). rewrite Hrun. cbn [bind].
    eexists. split; [reflexivity|]. cbn [G force_in force_out].
    repeat (split; [reflexivity || exact Hwf'|]).
    exists rest. split; [exact Hel|]. split; [|exact Hrest].
    pose proof (elements_NoDup _ Hwf') as Hnd. rewrite Hel in Hnd.
    now apply NoDup_app_remove_l in Hnd.
  - now rewrite H.
Qed.

Lemma force_out_adds_each_once_witness :
  Filters.force_out_process false [1; 3] (Examples.instance_of Examples.P3)
  = Fail ConfigurableError.
Proof.
  pose proof (force_out_adds_each_once false [1; 3] (Examples.instance_of Examples.P3)
                set_wf_new) as H.
  apply H. vm_compute. discriminate.
Defined.

End ForceFilters.
(** ** What [read_graph] accepts *)

Section ReadGraph.
Import GraphIO.

(** The inner loop always returns; the neighbours it stores are within
    the format's range, and [deg] of them when it accepts. *)
Lemma read_neighbours_run (deg : nat) :
  forall (f : stream) (pre : list Graph.Vertex) (x : Graph.Vertex) (post : list Graph.Vertex),
  exists ok l f',
    read_neighbours deg (Z.of_nat (length pre)) f (Graph.mkGraph (pre ++ x :: post)) =
    Ok (ok,
        Graph.mkGraph
          (pre ++ Graph.mkVertex (Graph._neighbours x ++ l) (Graph.real_index x) (Graph.index x)
               :: post),
        f') /\
    Forall (fun u => 0 <= u < MAX_DEGREE) l /\
    (ok = true -> length l = deg).
Proof.
  induction deg as [|deg IH]; intros f pre x post; cbn [read_neighbours].
  - exists true, [], f. rewrite app_nil_r. destruct x. repeat split. constructor.
  - destruct (read_int f) as [[u f']|].
    + destruct (Z.ltb_spec u 0) as [H0|H0]; cbn [orb].
      * exists false, [], f'. rewrite app_nil_r. destruct x.
        split; [reflexivity|]. split; [constructor|discriminate].
      * destruct (Z.geb_spec u MAX_DEGREE) as [H1|H1].
        -- exists false, [], f'. rewrite app_nil_r. destruct x.
           split; [reflexivity|]. split; [constructor|discriminate].
        -- rewrite push_neighbour_middle. cbn [bind].
           destruct (IH f' pre
                       (Graph.mkVertex (Graph._neighbours x ++ [u]) (Graph.real_index x)
                          (Graph.index x)) post)
             as (ok & l & f'' & Hrun & Hl & Hlen).
           cbn [Graph._neighbours Graph.real_index Graph.index] in Hrun.
           rewrite <- app_assoc in Hrun. cbn [app] in Hrun.
           exists ok, (u :: l), f''. split; [exact Hrun|].
           split; [constructor; [lia|exact Hl]|].
           intros Hok. cbn [length]. now rewrite Hlen.
    + exists false, [], f. rewrite app_nil_r. destruct x.
      split; [reflexivity|]. split; [constructor|discriminate].
Qed.

(** The outer loop always returns; when it accepts, every vertex it
    went through keeps its indices and fits the format. *)
Lemma read_vertices_run (fresh : list Graph.Vertex) :
  Forall (fun x => Graph._neighbours x = []) fresh ->
  forall (f : stream) (pre : list Graph.Vertex),
  exists ok g' f',
    read_vertices (length fresh) (Z.of_nat (length pre)) f (Graph.mkGraph (pre ++ fresh)) =
    Ok (ok, g', f') /\
    (ok = true ->
     exists read,
       g' = Graph.mkGraph (pre ++ read) /\
       map Graph.index read = map Graph.index fresh /\
       map Graph.real_index read = map Graph.real_index fresh /\
       Forall vertex_fits read).
Proof.
  induction 1 as [|x fresh Hx Hfresh IH]; intros f pre; cbn [read_vertices length].
  - exists true, (Graph.mkGraph (pre ++ [])), f. split; [reflexivity|]. intros _.
    exists []. repeat split. constructor.
  - destruct (read_int f) as [[deg f']|];
      [|exists false, (Graph.mkGraph (pre ++ x :: fresh)), f; split; [reflexivity|discriminate]].
    destruct (Z.ltb_spec deg 0) as [H0|H0]; cbn [orb];
      [exists false, (Graph.mkGraph (pre ++ x :: fresh)), f'; split; [reflexivity|discriminate]|].
    destruct (Z.geb_spec deg MAX_DEGREE) as [H1|H1];
      [exists false, (Graph.mkGraph (pre ++ x :: fresh)), f'; split; [reflexivity|discriminate]|].
    destruct (read_neighbours_run (Z.to_nat deg) f' pre x fresh)
      as (ok & l & f'' & Hrun & Hl & Hlen).
    rewrite Hrun. cbn [bind]. rewrite Hx in *. cbn [app] in *.
    destruct ok; [|eexists _, _, _; split; [reflexivity|discriminate]].
    specialize (Hlen eq_refl).
    set (x' := Graph.mkVertex l (Graph.real_index x) (Graph.index x)) in *.
    specialize (IH f'' (pre ++ [x'])).
    rewrite length_app, Nat2Z.inj_add in IH. cbn [length] in IH. rewrite <- app_assoc in IH.
    cbn [app] in IH. change (Z.of_nat 1) with 1 in IH.
    destruct IH as (ok & g' & f3 & Hrun' & Hok).
    exists ok, g', f3. split; [exact Hrun'|]. intros ->.
    destruct (Hok eq_refl) as (read & -> & Hidx & Hreal & Hfits).
    exists (x' :: read). rewrite <- app_assoc. cbn [app map].
    split; [reflexivity|]. split; [now rewrite Hidx|]. split; [now rewrite Hreal|].
    constructor; [|exact Hfits]. split; [|exact Hl].
    unfold Graph.deg. cbn [x' Graph._neighbours]. rewrite Hlen. lia.
Qed.

(** X12: [read_graph] returns on every stream, in no case with an
    error of the graph or an access outside it; a graph it accepts has
    fewer than [MAX_VERTS] vertices, which carry their positions as
    index and real index, degrees below [MAX_DEGREE] and neighbour
    entries in [0, MAX_DEGREE). *)
Theorem read_graph_returns (f : stream) (g : Graph.t) :
  exists ok g' f',
    read_graph f g = Ok (ok, g', f') /\
    (ok = true ->
     Graph.n g' < MAX_VERTS /\
     numbered g' /\
     map Graph.real_index (Graph.vertices g') = zrange 0 (length (Graph.vertices g')) /\
     Forall vertex_fits (Graph.vertices g')).
Proof.
  unfold read_graph.
  destruct (read_int f) as [[n f']|]; [|exists false, g, f; split; [reflexivity|discriminate]].
  destruct (Z.ltb_spec n 0) as [H0|H0]; cbn [orb];
    [exists false, g, f'; split; [reflexivity|discriminate]|].
  destruct (Z.geb_spec n MAX_VERTS) as [H1|H1];
    [exists false, g, f'; split; [reflexivity|discriminate]|].
  unfold Graph.reset.
  destruct (Z.geb_spec n MAX_VERTS) as [|_]; [lia|].
  destruct (Z.ltb_spec n 0) as [|_]; [lia|]. cbn [bind].
  set (fresh := map (fun i => Graph.mkVertex [] i i) (zrange 0 (Z.to_nat n))).
  assert (Hlen : length fresh = Z.to_nat n) by (unfold fresh; now rewrite length_map, zrange_length).
  destruct (read_vertices_run fresh (Forall_fresh _) f' []) as (ok & g' & f'' & Hrun & Hok).
  cbn [length app] in Hrun. rewrite Hlen in Hrun. change (Z.of_nat 0) with 0 in Hrun.
  exists ok, g', f''. split; [exact Hrun|]. intros ->.
  destruct (Hok eq_refl) as (read & -> & Hidx & Hreal & Hfits). unfold numbered.
  cbn [app Graph.vertices].
  assert (Hl : length read = Z.to_nat n).
  { rewrite <- Hlen. rewrite <- (length_map Graph.index read), Hidx. apply length_map. }
  unfold Graph.n. cbn [Graph.vertices]. rewrite Hl.
  split; [lia|]. split; [|split; [|exact Hfits]].
  - rewrite Hidx. unfold fresh. rewrite map_map. cbn [Graph.index]. apply map_id.
  - rewrite Hreal. unfold fresh. rewrite map_map. cbn [Graph.real_index]. apply map_id.
Qed.

End ReadGraph.
(** ** The graph the solvers work on *)

Section Prepared.
Import Framework.

Lemma insert_descending_perm (x : Z) (l : list Z) :
  Permutation (insert_descending x l) (x :: l).
Proof.
  induction l as [|y l IH]; cbn [insert_descending]; [reflexivity|].
  destruct (y >? x); [|reflexivity].
  rewrite IH. apply perm_swap.
Qed.

Lemma insert_descending_sorted (x : Z) (l : list Z) :
  StronglySorted Z.ge l -> StronglySorted Z.ge (insert_descending x l).
Proof.
  induction 1 as [|y l Hs IH Hy]; cbn [insert_descending].
  - repeat constructor.
  - destruct (Z.gtb_spec y x) as [Hgt|Hle].
    + constructor; [exact IH|].
      rewrite (Forall_forall (Z.ge y)). intros z Hz.
      apply (Permutation_in _ (insert_descending_perm x l)) in Hz.
      destruct Hz as [<-|Hz]; [lia|]. rewrite Forall_forall in Hy. now apply Hy.
    + constructor; [now constructor|]. constructor; [lia|].
      eapply Forall_impl; [|exact Hy]. cbn. intros z Hz. lia.
Qed.

Lemma stable_sort_descending_perm (l : list Z) : Permutation (stable_sort_descending l) l.
Proof.
  induction l as [|x l IH]; cbn; [reflexivity|].
  fold (stable_sort_descending l). rewrite insert_descending_perm. now constructor.
Qed.

Lemma stable_sort_descending_sorted (l : list Z) : StronglySorted Z.ge (stable_sort_descending l).
Proof.
  induction l as [|x l IH]; cbn; [constructor|].
  fold (stable_sort_descending l). now apply insert_descending_sorted.
Qed.

(** X13: [add_loops] followed by [sort_neighbours_descending] keeps the
    vertices and their indices; the neighbour list of each vertex
    becomes a descending rearrangement of the old list, with the
    vertex's own index added when the list lacked it. *)
Theorem prepared_lists_sorted (g : Graph.t) (j : Z) (x : Graph.Vertex) :
  Graph.get g j = Ok x ->
  exists x',
    Graph.get (sort_neighbours_descending (add_loops g)) j = Ok x' /\
    Graph.index x' = Graph.index x /\ Graph.real_index x' = Graph.real_index x /\
    StronglySorted Z.ge (Graph._neighbours x') /\
    Permutation (Graph._neighbours x')
      (if existsb (Z.eqb (Graph.index x)) (Graph._neighbours x)
       then Graph._neighbours x
       else Graph._neighbours x ++ [Graph.index x]).
Proof.
  intros Hx. apply get_Ok in Hx. destruct Hx as [Hj Hx].
  eexists. split.
  - apply get_Ok. split; [exact Hj|]. unfold sort_neighbours_descending, add_loops.
    cbn [Graph.vertices]. rewrite map_map. apply map_nth_error. exact Hx.
  - cbn [Graph.index Graph.real_index Graph._neighbours].
    unfold Graph.add_neighbour_simple.
    destruct (existsb _ _); cbn [snd Graph.index Graph.real_index Graph._neighbours];
      (split; [reflexivity|]; split; [reflexivity|];
       split; [apply stable_sort_descending_sorted|apply stable_sort_descending_perm]).
Qed.

Lemma prepared_lists_sorted_witness :
  exists x',
    Graph.get (sort_neighbours_descending (add_loops (Examples.graph_of Examples.P3))) 1 = Ok x' /\
    Graph._neighbours x' = [2; 1; 0].
Proof.
  destruct (prepared_lists_sorted (Examples.graph_of Examples.P3) 1
              (Graph.mkVertex [0; 2] 1 1) eq_refl) as (x' & Hget & _).
  exists x'. split; [exact Hget|].
  vm_compute in Hget. injection Hget as <-. reflexivity.
Defined.

End Prepared.
(** ** Forced-out vertices *)

Section ForcedOut.
Import Framework.

(** A loop whose rounds mark their vertex marks the vertices of the
    list. *)
Lemma foreach_marks {S : Type} (f : S -> core) (l : list Z) (body : S -> Z -> res S) :
  (forall s v s', body s v = Ok s' -> fixed (f s') = upd (fixed (f s)) v 1) ->
  forall s s', foreach l body s = Ok s' ->
  forall k, fixed (f s') k = if existsb (Z.eqb k) l then 1 else fixed (f s) k.
Proof.
  intros Hbody. induction l as [|v l IH]; intros s s' H k; cbn [foreach] in H.
  - now injection H as <-.
  - step H as s1 H1. apply Hbody in H1. rewrite (IH _ _ H k), H1. cbn [existsb]. unfold upd.
    destruct (k =? v), (existsb (Z.eqb k) l); reflexivity.
Qed.

(** After the initialisation of the DD solvers the forced vertices are
    the marked ones. *)
Lemma dd_solve_init_fixed (nd : bool) (V : DD.variant) (st : settings) (s : DD.state)
    (inst : DominationInstance) (s' : DD.state) (inst' : DominationInstance) :
  DD.solve_init nd V st s inst = Ok (s', inst') ->
  forall k, fixed (DD.base s') k =
            if existsb (Z.eqb k) (VertexSet.elements (force_in inst) ++
                                  VertexSet.elements (force_out inst))
            then 1 else 0.
Proof.
  unfold DD.solve_init. intros H.
  step H as c0 Hbest. step H as ud Hud. step H as cd Hcd.
  step H as s1 Hin. step H as s2 Hout. injection H as <- <-.
  cbn [G DD.base DD.with_base force_in force_out] in *.
  unfold reset_best in Hbest. step Hbest as b Hb. step Hbest as b' Hb'. injection Hbest as <-.
  assert (H2 : forall k, fixed (DD.base s2) k =
                 if existsb (Z.eqb k) (VertexSet.elements (force_out inst)) then 1
                 else fixed (DD.base s1) k).
  { revert Hout. apply (foreach_marks DD.base). intros sa v sb Hbody.
    step Hbody as p Hrem. destruct p as [forced sr]. injection Hbody as <-.
    apply dd_remove_candidate_marks in Hrem. apply Hrem. }
  assert (H1 : forall k, fixed (DD.base s1) k =
                 if existsb (Z.eqb k) (VertexSet.elements (force_in inst)) then 1 else 0).
  { lazymatch type of Hin with
    | foreach _ _ ?init = _ =>
        assert (H0 : forall k, fixed (DD.base s1) k =
                       if existsb (Z.eqb k) (VertexSet.elements (force_in inst)) then 1
                       else fixed (DD.base init) k)
    end.
    { revert Hin. apply (foreach_marks DD.base). intros sa v sb Hbody.
      step Hbody as p Hrem. destruct p as [forced sr].
      step Hbody as d Hd. step Hbody as nb Hnb.
      apply dd_remove_candidate_marks in Hrem. destruct Hrem as (_ & Hfix & _).
      apply (foreach_preorder (fun a b => fixed (DD.base b) = fixed (DD.base a))) in Hbody.
      - rewrite Hbody. exact Hfix.
      - reflexivity.
      - intros; congruence.
      - intros s3 u s4 Hdom. unfold DD.dominate in Hdom.
        run_res Hdom; now injection Hdom as <-. }
    intros k. rewrite H0. reflexivity. }
  intros k. cbn. rewrite existsb_app, H2, H1.
  now destruct (existsb _ _), (existsb _ _).
Qed.

(** X14: the fixed-order solver puts no forced-out vertex into a set it
    hands over, beyond the forced-in vertices the set starts with; when
    it returns, the marks in [fixed] are those of the forced-out
    vertices again. *)
Theorem fixed_order_leaves_force_out (NDEBUG GENERATE_ALL : bool) (st : settings)
    (s : FixedOrder.state) (inst : DominationInstance)
    (s' : FixedOrder.state) (inst' : DominationInstance) :
  numbered (G inst) ->
  closed (G inst) ->
  FixedOrder.solve NDEBUG GENERATE_ALL st s inst = Ok (s', inst') ->
  Forall (fun S => exists rest,
              VertexSet.elements S = VertexSet.elements (force_in inst) ++ rest /\
              Forall (fun v => ~ In v (VertexSet.elements (force_out inst))) rest)
         (out (FixedOrder.base s')) /\
  forall k, fixed (FixedOrder.base s') k =
            if existsb (Z.eqb k) (VertexSet.elements (force_out inst)) then 1 else 0.
Proof.
  intros Hnum Hclosed Hsolve. pose proof (closed_prepared _ Hnum Hclosed) as Hcp.
  unfold FixedOrder.solve in Hsolve. step Hsolve as p Hinit. destruct p as [s0 inst0].
  step Hsolve as s2 Hsearch. injection Hsolve as <- <-.
  pose proof (fo_solve_init_out _ _ _ _ _ _ _ Hinit) as Hout.
  pose proof (fo_solve_init_D _ _ _ _ _ _ _ Hinit) as [HD Hfix].
  apply fo_solve_init_inv in Hinit. destruct Hinit as [HG Hinv]. rewrite HG in *.
  apply (fo_FindDominatingSet_sound NDEBUG GENERATE_ALL st _ Hcp) in Hsearch; [|apply Hinv].
  destruct Hsearch as (_ & [Hfr _] & news & Hnews & HP). split.
  - rewrite Hnews, Hout. cbn [app].
    eapply Forall_impl; [|exact HP]. cbn beta. intros S [_ (rest & Hrest & Hun)].
    exists rest. split; [now rewrite <- HD|].
    eapply Forall_impl; [|exact Hun]. cbn beta. intros v Hv Hin.
    rewrite Hfix in Hv.
    assert (Hex : existsb (Z.eqb v) (VertexSet.elements (force_out inst)) = true).
    { apply existsb_exists. exists v. split; [exact Hin|apply Z.eqb_refl]. }
    rewrite Hex in Hv. discriminate.
  - intros k. now rewrite Hfr, Hfix.
Qed.

Lemma fixed_order_leaves_force_out_witness :
  exists inst s' inst',
    Filters.force_out_process false [1] (Examples.instance_of Examples.P3) = Ok inst /\
    FixedOrder.solve false true default_settings FixedOrder.new inst = Ok (s', inst') /\
    map VertexSet.elements (out (FixedOrder.base s')) = [[0; 2]].
Proof.
  destruct (Filters.force_out_process false [1] (Examples.instance_of Examples.P3))
    as [inst|f] eqn:Ei; [|vm_compute in Ei; discriminate].
  vm_compute in Ei.
  lazymatch type of Ei with Ok ?x = _ => set (given := x) in Ei end.
  injection Ei as <-.
  destruct (FixedOrder.solve false true default_settings FixedOrder.new given)
    as [[s' inst']|f] eqn:E; [|vm_compute in E; discriminate].
  exists given, s', inst'. split; [reflexivity|]. split; [exact E|].
  pose proof (fixed_order_leaves_force_out false true default_settings FixedOrder.new
                given s' inst') as H.
  destruct H as [_ _].
  - reflexivity.
  - repeat constructor; cbn; lia.
  - exact E.
  - vm_compute in E. injection E as <- <-. vm_compute. reflexivity.
Defined.

(** X15: a set a DD solver hands over starts with the forced-in
    vertices; the vertices after them are neither forced in nor forced
    out.  When the solver returns, the marks in [fixed] are those of the
    forced vertices again. *)
Theorem dd_leaves_forced_vertices (NDEBUG : bool) (V : DD.variant) (st : settings)
    (s : DD.state) (inst : DominationInstance) (s' : DD.state) (inst' : DominationInstance) :
  numbered (G inst) ->
  closed (G inst) ->
  DD.solve NDEBUG V st s inst = Ok (s', inst') ->
  Forall (fun S => exists rest,
              VertexSet.elements S = VertexSet.elements (force_in inst) ++ rest /\
              Forall (fun v => ~ In v (VertexSet.elements (force_in inst)) /\
                               ~ In v (VertexSet.elements (force_out inst))) rest)
         (out (DD.base s')) /\
  forall k, fixed (DD.base s') k =
            if existsb (Z.eqb k) (VertexSet.elements (force_in inst) ++
                                  VertexSet.elements (force_out inst))
            then 1 else 0.
Proof.
  intros Hnum Hclosed Hsolve. pose proof (closed_prepared _ Hnum Hclosed) as Hcp.
  unfold DD.solve in Hsolve. step Hsolve as p Hinit. destruct p as [s0 inst0].
  step Hsolve as s2 Hsearch. injection Hsolve as <- <-.
  pose proof (dd_solve_init_out _ _ _ _ _ _ _ Hinit) as Hout.
  pose proof (dd_solve_init_D _ _ _ _ _ _ _ Hinit) as HD.
  pose proof (dd_solve_init_fixed _ _ _ _ _ _ _ Hinit) as Hfix.
  apply dd_solve_init_inv in Hinit. destruct Hinit as [HG Hinv]. rewrite HG in *.
  apply (dd_FindDominatingSet_sound NDEBUG V st _ Hcp) in Hsearch; [|apply Hinv].
  destruct Hsearch as (_ & [Hfr _] & news & Hnews & HP). split.
  - rewrite Hnews, Hout. cbn [app].
    eapply Forall_impl; [|exact HP]. cbn beta. intros S [_ (rest & Hrest & Hun)].
    exists rest. split; [now rewrite <- HD|].
    eapply Forall_impl; [|exact Hun]. cbn beta. intros v Hv.
    rewrite Hfix in Hv.
    destruct (existsb _ _) eqn:Hex; [discriminate|].
    split; intros Hin;
      (assert (Hex' : existsb (Z.eqb v) (VertexSet.elements (force_in inst) ++
                                      VertexSet.elements (force_out inst)) = true)
        by (apply existsb_exists; exists v; split;
            [apply in_or_app; auto|apply Z.eqb_refl]));
      congruence.
  - intros k. now rewrite Hfr, Hfix.
Qed.

Lemma dd_leaves_forced_vertices_witness :
  exists inst s' inst',
    Filters.force_out_process false [3] (Examples.instance_of Examples.P6) = Ok inst /\
    DD.solve false DD.DD_minCD_asc_all default_settings DD.new inst = Ok (s', inst') /\
    map VertexSet.elements (out (DD.base s')) =
      [[0; 5; 4; 2]; [0; 5; 4; 1]; [0; 5; 2]; [0; 4; 2]; [0; 4; 1]; [1; 5; 4]; [1; 5; 2]; [1; 4]].
Proof.
  destruct (Filters.force_out_process false [3] (Examples.instance_of Examples.P6))
    as [inst|f] eqn:Ei; [|vm_compute in Ei; discriminate].
  vm_compute in Ei.
  lazymatch type of Ei with Ok ?x = _ => set (given := x) in Ei end.
  injection Ei as <-.
  destruct (DD.solve false DD.DD_minCD_asc_all default_settings DD.new given)
    as [[s' inst']|f] eqn:E; [|vm_compute in E; discriminate].
  exists given, s', inst'. split; [reflexivity|]. split; [exact E|].
  pose proof (dd_leaves_forced_vertices false DD.DD_minCD_asc_all default_settings DD.new
                given s' inst') as H.
  destruct H as [_ _].
  - reflexivity.
  - repeat constructor; cbn; lia.
  - exact E.
  - vm_compute in E. injection E as <- <-. vm_compute. reflexivity.
Defined.

End ForcedOut.
(** ** The depth of the fixed-order search *)

Section SearchDepth.
Import Framework.

Lemma bind_budget {A B : Type} (c : res A) (k : A -> res B) :
  within_budget c -> (forall a, c = Ok a -> within_budget (k a)) -> within_budget (bind c k).
Proof.
  destruct c as [a|f]; cbn; intros Hc Hk; [now apply Hk|].
  intros E. apply Hc. injection E as ->. reflexivity.
Qed.

Lemma foreach_budget {A S : Type} (l : list A) (body : S -> A -> res S) :
  (forall s x, within_budget (body s x)) -> forall s, within_budget (foreach l body s).
Proof.
  intros Hb. induction l as [|x l IH]; intros s; cbn [foreach]; [discriminate|].
  apply bind_budget; auto.
Qed.

Ltac budget :=
  repeat first
    [ apply bind_budget; [|intros ? ?]
    | apply foreach_budget; intros ? ?
    | match goal with
      | |- within_budget (Ok _) => discriminate
      | |- within_budget (Fail _) => discriminate
      | |- within_budget (if ?b then _ else _) => destruct b
      | |- within_budget (match ?x with _ => _ end) => destruct x
      end
    | progress unfold aread, awrite, assert, report_node, unreport_node,
        FixedOrder.cover, FixedOrder.uncover, FixedOrder.neighbour_array,
        VertexSet.add, VertexSet.remove_pop, VertexSet.contains,
        Graph.neighbours, Graph.get ].

Lemma skip_covered_budget (fuel : nat) (c : core) :
  forall i, within_budget (FixedOrder.skip_covered fuel c i).
Proof. induction fuel as [|fuel IH]; intros i; cbn [FixedOrder.skip_covered]; budget. apply IH. Qed.

Lemma skip_covered_ge (fuel : nat) (c : core) :
  forall i i', FixedOrder.skip_covered fuel c i = Ok i' -> i <= i'.
Proof.
  induction fuel as [|fuel IH]; intros i i' H; cbn [FixedOrder.skip_covered] in H; [discriminate|].
  step H as x Hx. destruct (negb (x =? 0)).
  - apply IH in H. lia.
  - injection H as <-. lia.
Qed.

Lemma fo_add_vertex_to_set_budget (nd : bool) (g : Graph.t)
    (rec : FixedOrder.state -> Z -> res FixedOrder.state) (i : Z) :
  (forall s, within_budget (rec s (i + 1))) ->
  forall s j fl, within_budget (FixedOrder.add_vertex_to_set nd g rec s i j fl).
Proof.
  intros Hrec s j fl. unfold FixedOrder.add_vertex_to_set. budget. apply Hrec.
Qed.

(** A call at pivot [i] needs one level for each index from [i] to
    [n], and one more where the res/mod check is still on. *)
Lemma fo_FindDominatingSet_budget (nd ga : bool) (st : settings) (g : Graph.t) :
  forall fuel chk s i,
    (Z.to_nat (Graph.n g - i) + 1 + (if chk : bool then 1 else 0) <= fuel)%nat ->
    within_budget (FixedOrder.FindDominatingSet fuel nd ga chk st g s i).
Proof.
  induction fuel as [|fuel IH]; intros chk s i Hfuel; [lia|].
  cbn [FixedOrder.FindDominatingSet].
  apply bind_budget; [budget|]. intros [resmod_check c] Hrep.
  destruct (resmod_check =? 0); [discriminate|].
  destruct chk; cbn [andb].
  - destruct (resmod_check =? 1).
    + apply bind_budget; [budget|]. intros c1 _. apply IH. cbn. lia.
    + destruct (total_covered c =? Graph.n g); [discriminate|].
      apply bind_budget; [apply skip_covered_budget|]. intros i1 Hi1. apply skip_covered_ge in Hi1.
      destruct (Z.geb_spec i1 (Graph.n g)); [discriminate|].
      destruct (_ =? 0); [discriminate|].
      match goal with |- within_budget (if ?b then _ else _) => destruct b end; [discriminate|].
      apply bind_budget; [budget|]. intros arr _.
      apply bind_budget.
      * apply foreach_budget. intros [s1 fl] j. apply fo_add_vertex_to_set_budget.
        intros s2. apply IH. cbn. lia.
      * intros [s1 fl] _. budget.
  - destruct (total_covered c =? Graph.n g); [discriminate|].
    apply bind_budget; [apply skip_covered_budget|]. intros i1 Hi1. apply skip_covered_ge in Hi1.
    destruct (Z.geb_spec i1 (Graph.n g)); [discriminate|].
    destruct (_ =? 0); [discriminate|].
    match goal with |- within_budget (if ?b then _ else _) => destruct b end; [discriminate|].
    apply bind_budget; [budget|]. intros arr _.
    apply bind_budget.
    + apply foreach_budget. intros [s1 fl] j. apply fo_add_vertex_to_set_budget.
      intros s2. apply IH. cbn. lia.
    + intros [s1 fl] _. budget.
Qed.

(** *** A deeper budget changes nothing *)

Lemma bind_agree {A B : Type} (c : res A) (k1 k2 : A -> res B) :
  (forall a, c = Ok a -> within_budget (k1 a) -> k2 a = k1 a) ->
  within_budget (bind c k1) -> bind c k2 = bind c k1.
Proof. destruct c as [a|f]; cbn; intros Hk Hb; [now apply Hk|reflexivity]. Qed.

Lemma foreach_agree {A S : Type} (l : list A) (body1 body2 : S -> A -> res S) :
  (forall s x, within_budget (body1 s x) -> body2 s x = body1 s x) ->
  forall s, within_budget (foreach l body1 s) -> foreach l body2 s = foreach l body1 s.
Proof.
  intros Hb. induction l as [|x l IH]; intros s H; cbn [foreach] in *; [reflexivity|].
  destruct (body1 s x) as [s1|f] eqn:E.
  - rewrite Hb by (rewrite E; discriminate). rewrite E. cbn [bind] in *. now apply IH.
  - rewrite Hb by (rewrite E; exact H). rewrite E. reflexivity.
Qed.

Lemma fo_add_vertex_to_set_agree (nd : bool) (g : Graph.t)
    (rec1 rec2 : FixedOrder.state -> Z -> res FixedOrder.state) :
  (forall s i, within_budget (rec1 s i) -> rec2 s i = rec1 s i) ->
  forall s i j fl,
    within_budget (FixedOrder.add_vertex_to_set nd g rec1 s i j fl) ->
    FixedOrder.add_vertex_to_set nd g rec2 s i j fl =
    FixedOrder.add_vertex_to_set nd g rec1 s i j fl.
Proof.
  intros Hrec s i j fl. unfold FixedOrder.add_vertex_to_set.
  repeat (apply bind_agree; intros ? _); try reflexivity.
  intros H. rewrite Hrec; [reflexivity|].
  intros E. rewrite E in H. now apply H.
Qed.

Lemma fo_FindDominatingSet_deeper (nd ga : bool) (st : settings) (g : Graph.t) :
  forall fuel chk s i,
    within_budget (FixedOrder.FindDominatingSet fuel nd ga chk st g s i) ->
    FixedOrder.FindDominatingSet (S fuel) nd ga chk st g s i =
    FixedOrder.FindDominatingSet fuel nd ga chk st g s i.
Proof.
  induction fuel as [|fuel IH]; intros chk s i H; [now contradiction H|].
  remember (S fuel) as fuel1 eqn:Hf1.
  cbn [FixedOrder.FindDominatingSet]. rewrite Hf1 in *.
  cbn [FixedOrder.FindDominatingSet] in H |- *. revert H.
  apply bind_agree. intros [resmod_check c] _.
  destruct (resmod_check =? 0); [reflexivity|].
  destruct (chk && (resmod_check =? 1)).
  - apply bind_agree. intros c1 _. apply IH.
  - destruct (total_covered c =? Graph.n g); [reflexivity|].
    apply bind_agree. intros i1 _.
    destruct (i1 >=? Graph.n g); [reflexivity|].
    destruct (_ =? 0); [reflexivity|].
    match goal with |- _ -> (if ?b then _ else _) = _ => destruct b end; [reflexivity|].
    apply bind_agree. intros arr _ H.
    assert (Hloop : forall init,
      within_budget
        (foreach arr
           (fun '(s, fixed_list) j =>
              FixedOrder.add_vertex_to_set nd g
                (FixedOrder.FindDominatingSet fuel nd ga chk st g) s i1 j fixed_list) init) ->
      foreach arr
        (fun '(s, fixed_list) j =>
           FixedOrder.add_vertex_to_set nd g
             (FixedOrder.FindDominatingSet (S fuel) nd ga chk st g) s i1 j fixed_list) init =
      foreach arr
        (fun '(s, fixed_list) j =>
           FixedOrder.add_vertex_to_set nd g
             (FixedOrder.FindDominatingSet fuel nd ga chk st g) s i1 j fixed_list) init).
    { apply foreach_agree. intros [s1 fl] j. apply fo_add_vertex_to_set_agree.
      intros s2 i2. apply IH. }
    rewrite Hloop; [reflexivity|].
    intros E. apply H. now rewrite E.
Qed.

(** X16: the recursion of the fixed-order search is never deeper than
    the number of vertices plus two, because the pivot index grows from
    level to level and the search stops at [n]: [solve] does not run
    out of the recursion budget of the model, and a larger budget gives
    the same result. *)
Theorem fixed_order_search_is_shallow (NDEBUG GENERATE_ALL : bool) (st : settings)
    (s : FixedOrder.state) (inst : DominationInstance) :
  FixedOrder.solve NDEBUG GENERATE_ALL st s inst <> Fail OutOfFuel /\
  forall (g : Graph.t) (s0 : FixedOrder.state) (extra : nat),
    FixedOrder.FindDominatingSet (FixedOrder.search_fuel g + extra)
      NDEBUG GENERATE_ALL true st g s0 0 =
    FixedOrder.FindDominatingSet (FixedOrder.search_fuel g) NDEBUG GENERATE_ALL true st g s0 0.
Proof.
  assert (Hfuel : forall g s0,
             within_budget (FixedOrder.FindDominatingSet (FixedOrder.search_fuel g)
                              NDEBUG GENERATE_ALL true st g s0 0)).
  { intros g s0. apply fo_FindDominatingSet_budget. unfold FixedOrder.search_fuel.
    rewrite Z.sub_0_r. lia. }
  split.
  - unfold FixedOrder.solve. apply bind_budget.
    + unfold FixedOrder.solve_init, reset_best, VertexSet.reset_full. budget.
    + intros [s0 inst0] _. apply bind_budget; [apply Hfuel|]. intros s1 _. discriminate.
  - intros g s0 extra. induction extra as [|extra IH]; [now rewrite Nat.add_0_r|].
    rewrite Nat.add_succ_r, fo_FindDominatingSet_deeper; [exact IH|].
    rewrite IH. apply Hfuel.
Qed.

End SearchDepth.

(** ** The order in which a search call restores what its loop banned *)

Section RestoreOrder.
Import Framework.

Lemma dd_add_vertex_to_set_appends (nd : bool) (g : Graph.t) (rec : DD.state -> res DD.state)
    (s : DD.state) (j : Z) (fl : list Z) (f : bool) (s' : DD.state) (fl' : list Z) :
  DD.add_vertex_to_set nd g rec s j fl = Ok (f, s', fl') -> fl' = fl ++ [j].
Proof.
  unfold DD.add_vertex_to_set. intros H.
  step H as p Hp. destruct p as [f0 s0]. cbv beta iota zeta in H.
  step H as d Hd. step H as nb Hnb. step H as s1 H1. step H as s2 H2. step H as s3 H3.
  step H as d' Hd'. now injection H as _ _ <-.
Qed.

Lemma mdd_add_vertex_to_set_appends (nd : bool) (g : Graph.t) (rec : MDD.state -> res (Z * MDD.state))
    (s : MDD.state) (j : Z) (fl : list Z) (f : bool) (s' : MDD.state) (fl' : list Z) :
  MDD.add_vertex_to_set nd g rec s j fl = Ok (f, s', fl') -> fl' = fl ++ [j].
Proof.
  unfold MDD.add_vertex_to_set. intros H.
  step H as p Hp. destruct p as [f0 s0]. cbv beta iota zeta in H.
  step H as d Hd. step H as nb Hnb. step H as s1 H1. step H as m Hm. step H as p2 H2.
  destruct p2 as [r s2]. cbv beta iota zeta in H.
  step H as m3 H3. step H as s4 H4. step H as d' Hd'. step H as m5 H5.
  now injection H as _ _ <-.
Qed.

Lemma dd_branch_calls (nd : bool) (V : DD.variant) (st : settings) (g : Graph.t)
    (rec : DD.state -> res DD.state) (sl : list (option Z)) :
  forall (s : DD.state) (fl : list Z) (s1 : DD.state) (fl1 : list Z),
    DD.branch nd V st g rec sl s fl = Ok (s1, fl1) ->
    exists js, fl1 = fl ++ js /\ (exists rest, sl = map Some js ++ rest) /\
               loop_calls (DD.add_vertex_to_set nd g rec) s fl js s1 fl1.
Proof.
  induction sl as [|[j|] sl IH]; intros s fl s1 fl1 H; cbn [DD.branch] in H.
  - injection H as <- <-. exists []. rewrite app_nil_r. split; [reflexivity|].
    split; [now exists []|constructor].
  - step H as ok Hok. destruct (negb ok).
    { injection H as <- <-. exists []. rewrite app_nil_r. split; [reflexivity|].
      split; [now exists (Some j :: sl)|constructor]. }
    step H as p Hp. destruct p as [[f s2] fl2]. cbv beta iota zeta in H.
    pose proof (dd_add_vertex_to_set_appends _ _ _ _ _ _ _ _ _ Hp) as ->.
    assert (Hstop : loop_calls (DD.add_vertex_to_set nd g rec) s fl [j] s2 (fl ++ [j]))
      by (econstructor; [exact Hp|constructor]).
    destruct (DD.FORCE_STOP_ON_TRAPPED_VERTEX V && f).
    { injection H as <- <-. exists [j]. split; [reflexivity|].
      split; [now exists sl|exact Hstop]. }
    apply IH in H. destruct H as (js & -> & (rest & ->) & Hc).
    exists (j :: js). split; [now rewrite <- app_assoc|].
    split; [now exists rest|]. econstructor; [exact Hp|exact Hc].
  - discriminate.
Qed.

Lemma mdd_branch_calls (nd : bool) (V : MDD.variant) (st : settings) (g : Graph.t)
    (rec : MDD.state -> res (Z * MDD.state)) (sl : list (option Z)) :
  forall (s : MDD.state) (fl : list Z) (s1 : MDD.state) (fl1 : list Z),
    MDD.branch nd V st g rec sl s fl = Ok (s1, fl1) ->
    exists js, fl1 = fl ++ js /\ (exists rest, sl = map Some js ++ rest) /\
               loop_calls (MDD.add_vertex_to_set nd g rec) s fl js s1 fl1.
Proof.
  induction sl as [|[j|] sl IH]; intros s fl s1 fl1 H; cbn [MDD.branch] in H.
  - injection H as <- <-. exists []. rewrite app_nil_r. split; [reflexivity|].
    split; [now exists []|constructor].
  - step H as p Hp. destruct p as [[f s2] fl2]. cbv beta iota zeta in H.
    pose proof (mdd_add_vertex_to_set_appends _ _ _ _ _ _ _ _ _ Hp) as ->.
    assert (Hstop : loop_calls (MDD.add_vertex_to_set nd g rec) s fl [j] s2 (fl ++ [j]))
      by (econstructor; [exact Hp|constructor]).
    destruct (MDD.FORCE_STOP_ON_TRAPPED_VERTEX V && f).
    { injection H as <- <-. exists [j]. split; [reflexivity|].
      split; [now exists sl|exact Hstop]. }
    step H as b Hb. destruct (negb (b =? 1)).
    { injection H as <- <-. exists [j]. split; [reflexivity|].
      split; [now exists sl|exact Hstop]. }
    apply IH in H. destruct H as (js & -> & (rest & ->) & Hc).
    exists (j :: js). split; [now rewrite <- app_assoc|].
    split; [now exists rest|]. econstructor; [exact Hp|exact Hc].
  - discriminate.
Qed.

(** C4 (as amended): a call of [FindDominatingSet] that gets as far as
    the branching loop calls [add_vertex_to_set] on the candidates in
    the order of [neighbour_array], as far as the loop runs; every call
    bans its vertex and appends it to [fixed_list].  After the loop a
    DD variant calls [add_candidate] on the members of [fixed_list]
    from the first banned to the last, and an MDD variant calls
    [unexclude_dominator] and [add_candidate] on them from the last
    banned to the first. *)
Theorem restore_order_per_solver (fuel : nat) (NDEBUG : bool) (st : settings) (g : Graph.t) :
  (forall (V : DD.variant) (check_resmod_depth : bool) (s s' : DD.state),
     DD.FindDominatingSet (S fuel) NDEBUG V check_resmod_depth st g s = Ok s' ->
     exists resmod_check c,
       report_node NDEBUG check_resmod_depth st (DD.base s) (VertexSet.get_size (D (DD.base s)))
         = Ok (resmod_check, c) /\
       (resmod_check = 0 \/
        check_resmod_depth && (resmod_check =? 1) = true \/
        total_covered c = Graph.n g \/
        exists i,
          match DD.CHOOSE_VERTEX_RULE V with
          | DD.CHOOSE_VERTEX_MIN_CD =>
              DegreePQ.get_min_undominated_vertex NDEBUG (DD.CandidateDPQ (DD.with_base c s))
          | DD.CHOOSE_VERTEX_MAX_CD =>
              DegreePQ.get_max_undominated_vertex NDEBUG (DD.CandidateDPQ (DD.with_base c s))
          end = Ok i /\
          (i = INVALID_VERTEX \/
           (DD.RECHECK_BOUNDS_IN_LOOP V = false /\
            DD.bounds_satisfied V st g (DD.with_base c s) = Ok false) \/
           exists r s1 fixed_list,
             DD.rank_neighbours NDEBUG V g (DD.with_base c s) i = Ok r /\
             DD.branch NDEBUG V st g (DD.FindDominatingSet fuel NDEBUG V check_resmod_depth st g)
               (NeighbourList.slots r) (DD.with_base c s) [] = Ok (s1, fixed_list) /\
             (exists rest, NeighbourList.slots r = map Some fixed_list ++ rest) /\
             loop_calls
               (DD.add_vertex_to_set NDEBUG g
                  (DD.FindDominatingSet fuel NDEBUG V check_resmod_depth st g))
               (DD.with_base c s) [] fixed_list s1 fixed_list /\
             foreach fixed_list (DD.add_candidate NDEBUG g) s1 = Ok s'))) /\
  (forall (V : MDD.variant) (check_resmod_depth : bool) (s : MDD.state) (result : Z)
          (s' : MDD.state),
     MDD.FindDominatingSet (S fuel) NDEBUG V check_resmod_depth st g s = Ok (result, s') ->
     exists resmod_check c,
       report_node NDEBUG check_resmod_depth st (MDD.base s) (VertexSet.get_size (D (MDD.base s)))
         = Ok (resmod_check, c) /\
       (resmod_check = 0 \/
        check_resmod_depth && (resmod_check =? 1) = true \/
        total_covered c = Graph.n g \/
        exists bound_result,
          MDD.evaluate_bounds V st g (MDD.with_base c s) = Ok bound_result /\
          (bound_result <> 1 \/
           exists i r s1 fixed_list,
             MDD.choose_next_vertex NDEBUG V g (MDD.with_base c s) = Ok i /\
             MDD.rank_neighbours NDEBUG V g (MDD.with_base c s) i = Ok r /\
             MDD.branch NDEBUG V st g (MDD.FindDominatingSet fuel NDEBUG V check_resmod_depth st g)
               (NeighbourList.slots r) (MDD.with_base c s) [] = Ok (s1, fixed_list) /\
             (exists rest, NeighbourList.slots r = map Some fixed_list ++ rest) /\
             loop_calls
               (MDD.add_vertex_to_set NDEBUG g
                  (MDD.FindDominatingSet fuel NDEBUG V check_resmod_depth st g))
               (MDD.with_base c s) [] fixed_list s1 fixed_list /\
             foreach (rev fixed_list)
               (fun s v =>
                  m <- MDDStack.unexclude_dominator NDEBUG (MDD.mdd_stack s) v ;;
                  MDD.add_candidate NDEBUG g (MDD.with_mdd_stack m s) v)
               s1 = Ok s' /\
             result = 1))).
Proof.
  split.
  - intros V crd s s' H. cbn [DD.FindDominatingSet] in H.
    step H as rc Hrep. destruct rc as [rc c]. cbv beta iota zeta in H.
    exists rc, c. split; [exact Hrep|].
    destruct (Z.eqb_spec rc 0) as [Hz|_]; [now left|]. right.
    destruct (crd && (rc =? 1)); [now left|]. right.
    destruct (Z.eqb_spec (total_covered c) (Graph.n g)) as [Hn|_]; [now left|]. right.
    step H as i Hi. exists i. split; [exact Hi|].
    destruct (Z.eqb_spec i INVALID_VERTEX) as [Hinv|_]; [now left|]. right.
    step H as chk Hchk. step H as a Ha. step H as vi Hvi. step H as ok Hok.
    destruct ok; cbn [negb] in H.
    2:{ left. destruct (DD.RECHECK_BOUNDS_IN_LOOP V); cbn [negb] in Hok;
          [discriminate|now split]. }
    right. step H as r Hr. step H as p Hb. destruct p as [s1 fl]. cbv beta iota zeta in H.
    rewrite dd_restore_order in H. exists r, s1, fl.
    destruct (dd_branch_calls _ _ _ _ _ _ _ _ _ _ Hb) as (js & Hjs & Hpre & Hc).
    cbn [app] in Hjs. subst js. auto.
  - intros V crd s result s' H. cbn [MDD.FindDominatingSet] in H.
    step H as rc Hrep. destruct rc as [rc c]. cbv beta iota zeta in H.
    exists rc, c. split; [exact Hrep|].
    destruct (Z.eqb_spec rc 0) as [Hz|_]; [now left|]. right.
    destruct (crd && (rc =? 1)); [now left|]. right.
    destruct (Z.eqb_spec (total_covered c) (Graph.n g)) as [Hn|_]; [now left|]. right.
    step H as b Hb0. exists b. split; [exact Hb0|].
    destruct (Z.eqb_spec b 1) as [_|Hb1]; cbn [negb] in H; [|now left]. right.
    step H as i Hi. step H as a Ha. step H as r Hr. step H as p Hb.
    destruct p as [s1 fl]. cbv beta iota zeta in H.
    rewrite mdd_restore_order in H. step H as s2 Hres. injection H as <- <-.
    exists i, r, s1, fl.
    destruct (mdd_branch_calls _ _ _ _ _ _ _ _ _ _ Hb) as (js & Hjs & Hpre & Hc).
    cbn [app] in Hjs. subst js. repeat (split; [assumption|]). reflexivity.
Qed.

(** On the path with six vertices, in a build with assertions: the root
    call of [DD_minCD_asc] bans 0, then 1, and restores 0, then 1; the
    root call of [MDD_minCD_asc] bans 0, then 1, and restores 1, then 0. *)
Lemma restore_order_per_solver_witness :
  (exists s inst s' c r s1,
     DD.solve_init false DD.DD_minCD_asc default_settings DD.new
       (Examples.instance_of Examples.P6) = Ok (s, inst) /\
     DD.FindDominatingSet 9 false DD.DD_minCD_asc true default_settings (G inst) s = Ok s' /\
     DD.rank_neighbours false DD.DD_minCD_asc (G inst) (DD.with_base c s) 0 = Ok r /\
     DD.branch false DD.DD_minCD_asc default_settings (G inst)
       (DD.FindDominatingSet 8 false DD.DD_minCD_asc true default_settings (G inst))
       (NeighbourList.slots r) (DD.with_base c s) [] = Ok (s1, [0; 1]) /\
     foreach [0; 1] (DD.add_candidate false (G inst)) s1 = Ok s') /\
  (exists s inst s' c r s1,
     MDD.solve_init false MDD.MDD_minCD_asc default_settings 0 MDD.new
       (Examples.instance_of Examples.P6) = Ok (s, inst) /\
     MDD.FindDominatingSet 9 false MDD.MDD_minCD_asc true default_settings (G inst) s
       = Ok (1, s') /\
     MDD.rank_neighbours false MDD.MDD_minCD_asc (G inst) (MDD.with_base c s) 0 = Ok r /\
     MDD.branch false MDD.MDD_minCD_asc default_settings (G inst)
       (MDD.FindDominatingSet 8 false MDD.MDD_minCD_asc true default_settings (G inst))
       (NeighbourList.slots r) (MDD.with_base c s) [] = Ok (s1, [0; 1]) /\
     foreach [1; 0] (MDD.restore false (G inst)) s1 = Ok s').
Proof.
  split.
  - let v := eval vm_compute in
      (DD.solve_init false DD.DD_minCD_asc default_settings DD.new
         (Examples.instance_of Examples.P6)) in
    lazymatch v with Ok (?a, ?b) => pose (s := a); pose (inst := b) end.
    let v := eval vm_compute in
      (DD.FindDominatingSet 9 false DD.DD_minCD_asc true default_settings (G inst) s) in
    lazymatch v with Ok ?a => pose (s' := a) end.
    assert (E : DD.FindDominatingSet 9 false DD.DD_minCD_asc true default_settings (G inst) s
                = Ok s') by (vm_compute; reflexivity).
    destruct (proj1 (restore_order_per_solver 8 false default_settings (G inst))
                DD.DD_minCD_asc true s s' E) as (rc & c & Hrep & H).
    vm_compute in Hrep. injection Hrep as <- <-.
    destruct H as [H|[H|[H|(i & Hi & H)]]];
      [vm_compute in H; discriminate ..|].
    vm_compute in Hi. injection Hi as <-.
    destruct H as [H|[[_ H]|(r & s1 & fl & Hr & Hb & _ & _ & Hrest)]];
      [vm_compute in H; discriminate ..|].
    pose proof Hr as Hr'. vm_compute in Hr'. injection Hr' as <-.
    pose proof Hb as Hb'. vm_compute in Hb'. injection Hb' as <- <-.
    eexists s, inst, s', _, _, _.
    split; [vm_compute; reflexivity|]. split; [exact E|].
    split; [exact Hr|]. split; [exact Hb|exact Hrest].
  - let v := eval vm_compute in
      (MDD.solve_init false MDD.MDD_minCD_asc default_settings 0 MDD.new
         (Examples.instance_of Examples.P6)) in
    lazymatch v with Ok (?a, ?b) => pose (s := a); pose (inst := b) end.
    let v := eval vm_compute in
      (MDD.FindDominatingSet 9 false MDD.MDD_minCD_asc true default_settings (G inst) s) in
    lazymatch v with Ok (_, ?a) => pose (s' := a) end.
    assert (E : MDD.FindDominatingSet 9 false MDD.MDD_minCD_asc true default_settings (G inst) s
                = Ok (1, s')) by (vm_compute; reflexivity).
    destruct (proj2 (restore_order_per_solver 8 false default_settings (G inst))
                MDD.MDD_minCD_asc true s 1 s' E) as (rc & c & Hrep & H).
    vm_compute in Hrep. injection Hrep as <- <-.
    destruct H as [H|[H|[H|(b & Hb0 & H)]]];
      [vm_compute in H; discriminate ..|].
    vm_compute in Hb0. injection Hb0 as <-.
    destruct H as [H|(i & r & s1 & fl & Hi & Hr & Hb & _ & _ & Hrest & _)];
      [now contradiction H|].
    vm_compute in Hi. injection Hi as <-.
    pose proof Hr as Hr'. vm_compute in Hr'. injection Hr' as <-.
    pose proof Hb as Hb'. vm_compute in Hb'. injection Hb' as <- <-.
    eexists s, inst, s', _, _, _.
    split; [vm_compute; reflexivity|]. split; [exact E|].
    split; [exact Hr|]. split; [exact Hb|exact Hrest].
Defined.

(** C4, counterexample: in a build with assertions the solver
    [MDD_minCD_asc] on the path with six vertices picks vertex 0 at the
    root and bans 0, then 1.  The root call restores 1, then 0; restoring
    0 first trips the assertion of [unexclude_dominator]. *)
Lemma mdd_restores_in_reverse :
  exists s inst c i r s1 s',
    MDD.solve_init false MDD.MDD_minCD_asc default_settings 0 MDD.new
      (Examples.instance_of Examples.P6) = Ok (s, inst) /\
    report_node false true default_settings (MDD.base s) (VertexSet.get_size (D (MDD.base s)))
      = Ok (-1, c) /\
    MDD.choose_next_vertex false MDD.MDD_minCD_asc (G inst) (MDD.with_base c s) = Ok i /\
    MDD.rank_neighbours false MDD.MDD_minCD_asc (G inst) (MDD.with_base c s) i = Ok r /\
    MDD.branch false MDD.MDD_minCD_asc default_settings (G inst)
      (MDD.FindDominatingSet 8 false MDD.MDD_minCD_asc true default_settings (G inst))
      (NeighbourList.slots r) (MDD.with_base c s) [] = Ok (s1, [0; 1]) /\
    MDD.FindDominatingSet 9 false MDD.MDD_minCD_asc true default_settings (G inst) s
      = Ok (1, s') /\
    foreach [1; 0] (MDD.restore false (G inst)) s1 = Ok s' /\
    foreach [0; 1] (MDD.restore false (G inst)) s1 = Fail AssertionFailure.
Proof.
  let v := eval vm_compute in
    (MDD.solve_init false MDD.MDD_minCD_asc default_settings 0 MDD.new
       (Examples.instance_of Examples.P6)) in
  lazymatch v with Ok (?a, ?b) => pose (s := a); pose (inst := b) end.
  let v := eval vm_compute in
    (report_node false true default_settings (MDD.base s) (VertexSet.get_size (D (MDD.base s)))) in
  lazymatch v with Ok (_, ?a) => pose (c := a) end.
  let v := eval vm_compute in
    (MDD.choose_next_vertex false MDD.MDD_minCD_asc (G inst) (MDD.with_base c s)) in
  lazymatch v with Ok ?a => pose (i := a) end.
  let v := eval vm_compute in
    (MDD.rank_neighbours false MDD.MDD_minCD_asc (G inst) (MDD.with_base c s) i) in
  lazymatch v with Ok ?a => pose (r := a) end.
  let v := eval vm_compute in
    (MDD.branch false MDD.MDD_minCD_asc default_settings (G inst)
       (MDD.FindDominatingSet 8 false MDD.MDD_minCD_asc true default_settings (G inst))
       (NeighbourList.slots r) (MDD.with_base c s) []) in
  lazymatch v with Ok (?a, _) => pose (s1 := a) end.
  let v := eval vm_compute in
    (MDD.FindDominatingSet 9 false MDD.MDD_minCD_asc true default_settings (G inst) s) in
  lazymatch v with Ok (_, ?a) => pose (s' := a) end.
  exists s, inst, c, i, r, s1, s'.
  repeat split; vm_compute; reflexivity.
Qed.

End RestoreOrder.
